(* ===== verification/_CoqProject ===== *)
-Q . S2P
Prelude.v
Errors.v
Metrics.v
Strconv.v
Float.v
Ratelimit.v
Config.v
Dns.v
IO.v
Scan.v
Response.v
ResponseProps.v
Retry.v
Request.v
RequestProps.v
Writer.v
WriterProps.v
Parser.v
ParserTotal.v
ResponseType.v
ParserFacts.v
ParserSpec.v
ParserCut.v
ParserEOF.v
ParserProps.v
Compressor.v
Connection.v
ConnectionProps.v
Socks5.v
Proxy.v
ProxyProps.v
Pipeline.v
PipelineProps.v
PipelineLive.v
PipelineCall.v
Pool.v
PoolProps.v
Scheduler.v
Hosts.v
Client.v
ClientProps.v
Transport.v
SchedTransport.v
Connect.v
Lifecycle.v
Streaming.v
Multipart.v
Batch.v
