(* ===== verification/Prelude.v ===== *)
(** * bursthttp: a verification development

    bursthttp (src/) is an HTTP/1.1 client library in Go: a client that keeps pools
    of keep-alive connections per host, sends requests on them one at a time or
    pipelined, and retries, limits, measures and schedules the calls.  This library
    models its code and proves what the parts promise to each other and to a caller.

    ** The program

    A call of [Client.DoWithContext] (client.go) waits for the rate limiter
    (ratelimit.go), resolves the target of its [Request] (request.go), takes a
    [Response] object from a pool (response.go) and makes attempts until one settles
    (retry.go).  An attempt takes a connection from the [Pool] (pool.go), or hands
    the work to the [Scheduler] (scheduler.go), whose workers take one.  A new
    connection is dialled (dialer.go) directly, through an HTTP proxy (proxy.go) or
    a SOCKS5 proxy (socks5.go), over addresses from the DNS cache (dns.go), and
    secured (tls.go).  [Connection.Do] (connection.go) compresses the body
    (compressor.go), writes the request (writer.go) and reads the response
    (parser.go), alone on the connection or, pipelined, through a reader goroutine
    that serves the callers in order.  Batches (batch.go), streaming (streaming.go)
    and multipart bodies (multipart.go) are built on top; metrics.go counts, and
    inspector.go shows the pool.

    ** The files

    - [Prelude]: byte strings, machine integers with their wrap-around, the [go]
      monad (a state, and a result that is a value, an error, a run-time panic or
      non-termination), tactics, the hint database [burst], shared lemmas.
    - [Errors], [Config], [Metrics], [Ratelimit], [Retry], [Compressor]: the files of
      the same name.  [Strconv] and [Float] are the parts of the standard library
      they use; [float64] is IEEE 754 binary64 (SpecFloat of the Standard Library).
    - [Dns]: the cache as a state with one definition per operation, the refresh
      goroutines that hits and the janitor start among it, and the step relation of
      callers, refreshers and janitor.
    - [IO]: the class [Reader] of what the parser reads from, with its laws, the
      network connection and [bufio.Reader] as instances.
    - [Scan], [Response], [ResponseProps]: the scanners of parser.go, index by index,
      and the pooled response object.  [ResponseType]: its type invariant.
    - [Parser], [ParserTotal], [ParserFacts], [ParserSpec], [ParserCut], [ParserEOF],
      [ParserProps]: the readers of parser.go, their termination, and what they
      return on a well-formed response in any segmentation, or on one that breaks off.
    - [Request], [RequestProps], [Writer], [WriterProps]: the request object and its
      serialisation, with short writes and errors.
    - [Connection], [ConnectionProps]: the connection, module [Con] for its state and
      accounting, and the sequential round trip.  [Pipeline], [PipelineProps],
      [PipelineLive], [PipelineCall]: the pipelined mode as interleaved steps of
      callers and reader, and a call that has the connection to itself.
    - [Socks5], [Proxy], [ProxyProps], [Connect]: the dialers, TLS, and the way from a
      host pool to a usable connection.
    - [Pool], [PoolProps]: the host pools over a heap of connections; creating and
      removing connections are machines with one step per atomic operation.
    - [Scheduler], [Hosts]: one host's queue and workers, then the whole scheduler and
      the abstract service it refines.
    - [Client], [ClientProps], [Transport], [SchedTransport]: the client against the
      class [Transport] of what carries one attempt, and its two instances: the pool
      with its connections, and the scheduler whose workers use them.
    - [Lifecycle]: start, stop, eviction, pre-encoded requests, inspection.
    - [Streaming], [Multipart], [Batch]: the files of the same name.

    ** State and concurrency

    A Go struct is a record, a method a function on it; a slice that is written
    through is the bytes of its array, and [Response.Body] keeps track of whether it
    still shares [bodyBuf].  Integers that come from the network or that count keep
    their width.  What several goroutines share is a state with atomic steps, one per
    critical section or atomic operation: [Pipeline] (callers, reader, cancellation,
    the two halves of closing, a connection that breaks), [Pool] (creation, removal),
    [Scheduler] and [Hosts] (callers, workers, [Stop]), [Batch] (one goroutine per
    entry), [Dns] (callers, refreshers, janitor); [GracefulStop] is given what other
    goroutines leave between its looks and before its stop.  What a peer sends is a
    finite script of packets and errors, and then one last error: a peer that sends
    forever is represented by its finite beginnings.  Time, randomness, the network, the resolver, gzip,
    [crypto/tls], [net/url.Parse] and file opening are arguments; where a theorem
    relies on them it says so in a hypothesis ([ReaderLaws], [resolves], that a
    decompressed body is a slice of fewer than 2^62 bytes), and its witness
    instantiates them.

    ** What is proved

    - End to end: a call of the client over a pooled connection, sequential or
      pipelined, sends the request and returns the server's answer ([Transport],
      [ClientProps], [ConnectionProps], [PipelineCall]), and so does one that goes
      through the scheduler ([SchedTransport]).
    - Reading: both readers return exactly the framed response, in every segmentation
      of the stream, and stop where it stops; chunked bodies decode, and when such a
      body outgrows its buffer the theorems say which bytes are lost ([received] in
      [ParserFacts]); every reader terminates on every input; a response object stays
      well formed ([ParserProps], [ParserTotal], [ResponseType]).
    - Writing: the bytes on the wire are the text of the request, by each of the three
      ways of sending (with the exact cases in which a pre-encoded request differs),
      and the bytes written parse back; a header value cannot inject a line
      ([WriterProps], [ConnectionProps], [RequestProps], [Lifecycle]).
    - Pipelining: within one network connection no caller gets another's response, and
      none waits forever, whatever breaks; after a read timeout inside a body, and
      after a reconnection in the middle of a close, this fails, as two lemmas show
      ([PipelineProps], [PipelineLive]).
    - Pool and scheduler: capacity is never exceeded and the counters are exact between
      any two atomic operations, the selection is right, a graceful stop waits for what
      it should and leaves nothing open; the scheduler refines a service that starts calls in
      order, each once ([PoolProps], [Lifecycle], [Hosts], [Scheduler]).
    - Ownership: response objects, request objects of batches and the count of active
      requests balance on every path ([ClientProps], [Batch], [ConnectionProps]).
    - Dialing: the proxies' handshakes, the dialled addresses, the TLS settings for the
      pool's own host, the DNS cache ([Socks5], [ProxyProps], [Connect], [Dns]).
    - Policy: which attempt settles a call, what [Validate] establishes, what the
      collector reports ([ClientProps], [Config], [Metrics]).
    - Where the code does not do what it means to (a truncated body reported as a
      success, the front of a body lost when the buffer grows, a length that wraps
      negative, a response object used after its release), the theorem says what
      happens.  The doc comment of each theorem names the conditions it needs.

    ** Fuel and bounds

    The loops of the readers run on the [budget] of the reader plus the bytes already
    buffered, which every read that yields nothing new decreases; [ParserTotal] shows
    that the fuel is never used up.  The head loops run at most [len(buf)] turns.
    [writeAll] runs on the script of the connection's short writes.  The retry loop
    runs on the number of attempts, the pool's selection loop on its constant of 20
    tries, scans on the length of the connection slice.  The theorems on buffer
    growth assume sizes below 2^40 bytes, far above any configured limit.

    ** Not modelled

    The system calls of dialer_linux.go and dialer_other.go, logging, version.go and
    doc.go, and the programs under examples/.  [Retryer.Wait], which nothing calls.
    A retry loop around an atomic compare-and-swap is a single step, and so is
    [LoadOrStore]; a pipelined connection is followed from one dial to its end, and the
    reader's own [closeConn] and that of a failed write are single steps; the memory model of Go below the atomics is not modelled. *)

From stdpp Require Export prelude list gmap strings.
From Stdlib Require Export ZArith Lia.

(** ** Byte strings *)

(** A Go [byte] is a [Z] in the range 0..255; a [[]byte] and a Go [string] are
    both the sequence of their bytes. *)
Abbreviation bytes := (list Z).

#[global] Open Scope Z_scope.

Definition byte_of_ascii (a : Ascii.ascii) : Z := Z.of_N (Ascii.N_of_ascii a).

(** The bytes of a Go string literal. *)
Definition str (s : string) : bytes :=
  byte_of_ascii <$> String.list_ascii_of_string s.
#[global] Arguments str : simpl never.

Abbreviation CR := 13.
Abbreviation LF := 10.
Abbreviation SP := 32.
Abbreviation HT := 9.
Abbreviation COLON := 58.

Definition crlf : bytes := [CR; LF].

(** A literal that ends its line: ["...\r\n"]. *)
Definition strln (s : string) : bytes := str s ++ crlf.
#[global] Arguments strln : simpl never.

Definition is_byte (c : Z) : Prop := 0 ≤ c < 256.

Definition len (b : bytes) : Z := Z.of_nat (length b).

(** ['0' <= c && c <= '9'] *)
Definition isDigit (c : Z) : bool := (48 <=? c) && (c <=? 57).

(** [if ch >= 'A' && ch <= 'Z' { ch += 32 }] *)
Definition lower (c : Z) : Z := if (65 <=? c) && (c <=? 90) then c + 32 else c.

(** [c == ' ' || c == '\t'] *)
Definition isBlank (c : Z) : bool := (c =? SP) || (c =? HT).

(** ** Machine integers *)

(** The value a signed [w]-bit register holds after an operation whose exact
    result is [z]: two's complement wrap-around. *)
Definition wrap (w z : Z) : Z := (z + 2 ^ (w - 1)) `mod` 2 ^ w - 2 ^ (w - 1).

Abbreviation i64 := (wrap 64).
Abbreviation i32 := (wrap 32).

Definition u32 (z : Z) : Z := z `mod` 2 ^ 32.
Definition u16 (z : Z) : Z := z `mod` 2 ^ 16.
Definition u8 (z : Z) : Z := z `mod` 2 ^ 8.

Abbreviation maxInt64 := (2 ^ 63 - 1).

Definition int64_range (z : Z) : Prop := - 2 ^ 63 ≤ z < 2 ^ 63.

(** ** Slices *)

(** [b[lo:hi]] for [lo <= hi <= len(b)]. *)
Definition slice (b : bytes) (lo hi : nat) : bytes := take (hi - lo) (drop lo b).

(** [copy(b[off:], d)]: the bytes of [d] that fit overwrite those of [b]. *)
Definition splice (b : bytes) (off : nat) (d : bytes) : bytes :=
  take off b ++ take (length b - off) d ++ drop (off + length d) b.

(** ** Outcomes of a Go call *)

(** [Ret a] returns normally, [Fail e] returns a non-nil error, [Panic] is a
    run-time panic and [Hang] a loop that did not stop within its fuel. *)
Inductive outcome (E A : Type) : Type :=
  | Ret (a : A)
  | Fail (e : E)
  | Panic
  | Hang.
Arguments Ret {E A} _.
Arguments Fail {E A} _.
Arguments Panic {E A}.
Arguments Hang {E A}.

(** A computation that mutates a state of type [S]; the state survives errors
    and panics, as the objects a Go function writes through pointers do. *)
Definition go (S E A : Type) : Type := S → outcome E A * S.

#[global] Instance go_ret S E : MRet (go S E) := λ A a s, (Ret a, s).
#[global] Instance go_bind S E : MBind (go S E) := λ A B k m s,
  match m s with
  | (Ret a, s') => k a s'
  | (Fail e, s') => (Fail e, s')
  | (Panic, s') => (Panic, s')
  | (Hang, s') => (Hang, s')
  end.

Definition fail {S E A} (e : E) : go S E A := λ s, (Fail e, s).
Definition panic {S E A} : go S E A := λ s, (Panic, s).
Definition hang {S E A} : go S E A := λ s, (Hang, s).
Definition get {S E} : go S E S := λ s, (Ret s, s).
Definition gets {S E A} (f : S → A) : go S E A := λ s, (Ret (f s), s).
Definition modify {S E} (f : S → S) : go S E unit := λ s, (Ret tt, f s).

(** ** Automation *)

Create HintDb burst.
Create Rewrite HintDb burst.

(** Turn the boolean tests of the code into the propositions they decide. *)
Ltac unbool :=
  repeat match goal with
  | H : _ && _ = true |- _ => apply andb_true_iff in H as [??]
  | H : _ || _ = false |- _ => apply orb_false_iff in H as [??]
  | H : negb _ = true |- _ => apply negb_true_iff in H
  | H : negb _ = false |- _ => apply negb_false_iff in H
  | H : bool_decide _ = true |- _ => apply bool_decide_eq_true in H
  | H : bool_decide _ = false |- _ => apply bool_decide_eq_false in H
  | H : Z.ltb _ _ = true |- _ => apply Z.ltb_lt in H
  | H : Z.ltb _ _ = false |- _ => apply Z.ltb_ge in H
  | H : Z.leb _ _ = true |- _ => apply Z.leb_le in H
  | H : Z.leb _ _ = false |- _ => apply Z.leb_gt in H
  | H : Z.eqb _ _ = true |- _ => apply Z.eqb_eq in H
  | H : Z.eqb _ _ = false |- _ => apply Z.eqb_neq in H
  | H : Nat.ltb _ _ = true |- _ => apply Nat.ltb_lt in H
  | H : Nat.ltb _ _ = false |- _ => apply Nat.ltb_ge in H
  | H : Nat.leb _ _ = true |- _ => apply Nat.leb_le in H
  | H : Nat.leb _ _ = false |- _ => apply Nat.leb_gt in H
  | H : Nat.eqb _ _ = true |- _ => apply Nat.eqb_eq in H
  | H : Nat.eqb _ _ = false |- _ => apply Nat.eqb_neq in H
  end.

(** Linear arithmetic with division and remainder by constants. *)
Ltac dlia := Z.to_euclidean_division_equations; lia.

(** The first atomic test of a boolean condition. *)
Ltac atom_of b :=
  lazymatch b with
  | ?x && _ => atom_of x
  | ?x || _ => atom_of x
  | negb ?x => atom_of x
  | _ => b
  end.

(** Case analysis on the first atomic test of an [if] of the goal (of [H]). *)
Ltac case_if :=
  match goal with
  | |- context [if ?b then _ else _] =>
      lazymatch b with context [if _ then _ else _] => fail | _ => idtac end;
      lazymatch type of b with
      | bool => let a := atom_of b in destruct a eqn:?; cbn [andb orb negb]; unbool
      end
  end.
Ltac case_if_in H :=
  match type of H with
  | context [if ?b then _ else _] =>
      lazymatch b with context [if _ then _ else _] => fail | _ => idtac end;
      lazymatch type of b with
      | bool => let a := atom_of b in destruct a eqn:?; cbn [andb orb negb] in H; unbool
      end
  end.

(** ** Generic lemmas *)

Section machine.

Lemma i64_small z : int64_range z → i64 z = z.
Proof.
  unfold int64_range, wrap. intros H.
  rewrite Z.mod_small; [lia |]. change (2 ^ 64) with (2 * 2 ^ (64 - 1)).
  change (64 - 1) with 63. lia.
Qed.

Lemma i64_range z : int64_range (i64 z).
Proof.
  unfold int64_range, wrap.
  pose proof (Z.mod_pos_bound (z + 2 ^ (64 - 1)) (2 ^ 64) ltac:(lia)). lia.
Qed.

Lemma i64_eq z z' k : z = z' + k * 2 ^ 64 → i64 z = i64 z'.
Proof.
  intros ->. unfold wrap. f_equal.
  replace (z' + k * 2 ^ 64 + 2 ^ (64 - 1)) with (z' + 2 ^ (64 - 1) + k * 2 ^ 64) by lia.
  apply Z.mod_add. lia.
Qed.

Lemma i64_off z : ∃ q, i64 z = z + q * 2 ^ 64.
Proof.
  exists (- ((z + 2 ^ 63) / 2 ^ 64)). unfold wrap. change (64 - 1) with 63. rewrite Z.mod_eq by lia. lia.
Qed.

(** Multiplying and adding commute with the wrap-around. *)
Lemma i64_mul_add z m d : i64 (i64 z * m + d) = i64 (z * m + d).
Proof. destruct (i64_off z) as [q ->]. apply (i64_eq _ _ (q * m)). lia. Qed.

Lemma i64_add_l z d : i64 (i64 z + d) = i64 (z + d).
Proof. rewrite <- (Z.mul_1_r (i64 z)), i64_mul_add. f_equal. lia. Qed.

Lemma lower_idem c : lower (lower c) = lower c.
Proof. unfold lower. repeat case_if; lia. Qed.

End machine.

Section len.

Lemma len_nonneg b : 0 ≤ len b.
Proof. unfold len. lia. Qed.
Lemma len_app a b : len (a ++ b) = len a + len b.
Proof. unfold len. rewrite length_app. lia. Qed.
Lemma len_nil : len [] = 0.
Proof. reflexivity. Qed.
Lemma len_to_nat b : Z.to_nat (len b) = length b.
Proof. unfold len. lia. Qed.

End len.

#[export] Hint Rewrite len_app len_nil len_to_nat : burst.
#[export] Hint Resolve len_nonneg : burst.

Section splice.

Implicit Types b d : bytes.

Lemma length_splice b off d : length (splice b off d) = length b.
Proof.
  unfold splice. rewrite !length_app, !length_take, length_drop. lia.
Qed.

(** Writing [d] right after an already written prefix extends the prefix. *)
Lemma take_splice b off d :
  (off + length d ≤ length b)%nat →
  take (off + length d) (splice b off d) = take off b ++ d.
Proof.
  intros H. unfold splice.
  rewrite (take_ge d) by lia.
  rewrite app_assoc, take_app_length'; [done |].
  rewrite length_app, length_take. lia.
Qed.

Lemma take_splice_0 b d :
  (length d ≤ length b)%nat → take (length d) (splice b 0 d) = d.
Proof. intros. apply (take_splice b 0). lia. Qed.

Lemma splice_nil b off : splice b off [] = b.
Proof. unfold splice. rewrite take_nil. simpl. rewrite Nat.add_0_r. apply take_drop. Qed.

(** Two writes side by side are one. *)
Lemma splice_splice b off d1 d2 :
  (off + length d1 + length d2 ≤ length b)%nat →
  splice (splice b off d1) (off + length d1) d2 = splice b off (d1 ++ d2).
Proof.
  intros H. unfold splice at 1. rewrite length_splice.
  rewrite take_splice by lia. unfold splice.
  rewrite length_app, !(take_ge d1), !(take_ge d2), (take_ge (d1 ++ d2))
    by (rewrite ?length_app; lia).
  rewrite <- !app_assoc. do 3 f_equal.
  rewrite drop_app_ge by (rewrite length_take; lia).
  rewrite drop_app_ge by (rewrite length_take; lia).
  rewrite drop_drop. f_equal. rewrite length_take. lia.
Qed.

(** A write does not disturb what lies before it. *)
Lemma take_splice_before b off d n :
  (n ≤ off)%nat → (off ≤ length b)%nat → take n (splice b off d) = take n b.
Proof.
  intros H1 H2. unfold splice. rewrite take_app_le.
  - rewrite take_take. f_equal. lia.
  - rewrite length_take. lia.
Qed.

End splice.

#[export] Hint Rewrite length_splice : burst.

(** Two decompositions of the same bytes, the first cut being the shorter. *)
Lemma app_split_le (e y d x : bytes) :
  e ++ y = d ++ x → (length e ≤ length d)%nat → ∃ d2, d = e ++ d2 ∧ y = d2 ++ x.
Proof.
  intros E Hl. exists (drop (length e) d).
  assert (d = e ++ drop (length e) d) as Hd.
  { apply (f_equal (take (length e))) in E.
    rewrite take_app_length, take_app_le in E by lia. rewrite E at 1. by rewrite take_drop. }
  split; [done |]. rewrite Hd, <- app_assoc in E. by apply app_inv_head in E.
Qed.

Section go_monad.

Context {S E : Type}.

Lemma bind_Ret {A B} (m : go S E A) (k : A → go S E B) s a s' :
  m s = (Ret a, s') → (m ≫= k) s = k a s'.
Proof. intros H. unfold mbind, go_bind. by rewrite H. Qed.

Lemma bind_Fail {A B} (m : go S E A) (k : A → go S E B) s e s' :
  m s = (Fail e, s') → (m ≫= k) s = (Fail e, s').
Proof. intros H. unfold mbind, go_bind. by rewrite H. Qed.

Lemma bind_Panic {A B} (m : go S E A) (k : A → go S E B) s s' :
  m s = (Panic, s') → (m ≫= k) s = (Panic, s').
Proof. intros H. unfold mbind, go_bind. by rewrite H. Qed.

(** A computation that cannot hang, started in any state. *)
Definition halts {A} (m : go S E A) : Prop := ∀ s, (m s).1 ≠ Hang.

Lemma halts_bind {A B} (m : go S E A) (k : A → go S E B) :
  halts m → (∀ a, halts (k a)) → halts (m ≫= k).
Proof.
  intros Hm Hk s. specialize (Hm s). unfold mbind, go_bind.
  destruct (m s) as [[] s'] eqn:E'; simpl in *; try done. apply Hk.
Qed.

End go_monad.

(** ** Occurrences of a separator *)

(** [p] occurs in [l] at offset [n]. *)
Definition sep_at (p l : bytes) (n : nat) : Prop := take (length p) (drop n l) = p.

Section sep_at.

Implicit Types p l : bytes.

Lemma sep_at_S p a l n : sep_at p (a :: l) (S n) ↔ sep_at p l n.
Proof. done. Qed.

Lemma sep_at_length p l n : p ≠ [] → sep_at p l n → (n + length p ≤ length l)%nat.
Proof.
  unfold sep_at. intros Hp H. apply (f_equal length) in H.
  rewrite length_take, length_drop in H.
  assert (length p ≠ 0%nat) by (by destruct p). lia.
Qed.

Lemma sep_at_app p pre post : sep_at p (pre ++ p ++ post) (length pre).
Proof. unfold sep_at. by rewrite drop_app_length, take_app_length. Qed.

(** Appending bytes neither removes an occurrence nor creates one that fits
    in the old bytes. *)
Lemma sep_at_app_l p l x n :
  (n + length p ≤ length l)%nat → sep_at p (l ++ x) n ↔ sep_at p l n.
Proof.
  intros H. unfold sep_at. rewrite drop_app_le by lia.
  rewrite take_app_le; [done |]. rewrite length_drop. lia.
Qed.

Lemma sep_at_split p l n :
  p ≠ [] → sep_at p l n → l = take n l ++ p ++ drop (n + length p) l.
Proof.
  intros Hp H. pose proof (sep_at_length p l n Hp H).
  rewrite <- (take_drop n l) at 1. f_equal.
  rewrite <- (take_drop (length p) (drop n l)). rewrite drop_drop. f_equal. apply H.
Qed.

End sep_at.
