(* ===== verification/Errors.v ===== *)
(** * Errors: the error values of the client (src/errors.go)

    The sentinel errors, [DetailedError] and the classification functions the
    retry logic and the connection use.  An error is a finite chain: a leaf,
    or a [DetailedError] that wraps the rest ([errors.Is] and [errors.As] walk
    that chain). *)

From stdpp Require Import prelude strings.
From S2P Require Import Prelude.

(** The sentinel errors ([errors.New] values, compared by identity). *)
Inductive sentinel :=
  | ErrConnectFailed | ErrWriteFailed | ErrReadFailed | ErrHeaderTooLarge
  | ErrInvalidResponse | ErrResponseTooLarge | ErrRequestTooLarge
  | ErrHeaderBufferSmall | ErrTimeout | ErrConnectionClosed | ErrProxyFailed
  | ErrInvalidURL | ErrInvalidRequest.

Inductive ErrorType :=
  | ErrorTypeNetwork | ErrorTypeTimeout | ErrorTypeProtocol | ErrorTypeTLS
  | ErrorTypeProxy | ErrorTypeValidation | ErrorTypeInternal.

#[global] Instance sentinel_eq_dec : EqDecision sentinel.
Proof. solve_decision. Defined.
#[global] Instance ErrorType_eq_dec : EqDecision ErrorType.
Proof. solve_decision. Defined.

(** A non-nil [error] value.  [EDetailed] is [*DetailedError]: its [Err] may be
    nil.  The other constructors are the errors of the libraries the code
    meets: [io.EOF], [io.ErrUnexpectedEOF], [io.ErrNoProgress], the context
    errors, a [net.Error] with the answer of its [Timeout] method, the other
    unexported sentinels of the package, and an opaque error of a library. *)
Inductive error :=
  | ESentinel (s : sentinel)
  | EDetailed (Type_ : ErrorType) (Message : string) (Err : option error)
  | EEOF
  | EUnexpectedEOF
  | ENoProgress
  | ECanceled
  | EDeadlineExceeded
  | ENet (timeout : bool)
  | ERespTransferred
  | ESocksAuthFailed
  | ESocksConnRefused
  | ESocksUnsupported
  | EOther (what : string).

(** [WrapError] *)
Definition WrapError (errType : ErrorType) (message : string) (err : error) : error :=
  EDetailed errType message (Some err).

(** [LogErrorWithFlag]: the value returned; the log line is not modelled. *)
Definition LogErrorWithFlag (errType : ErrorType) (message : string) (err : error) : error :=
  EDetailed errType message (Some err).

(** [e.Unwrap()] *)
Definition Unwrap (e : error) : option error :=
  match e with EDetailed _ _ i => i | _ => None end.

(** The chain [e, e.Unwrap(), ...]. *)
Fixpoint chain (e : error) : list error :=
  e :: match e with EDetailed _ _ (Some i) => chain i | _ => [] end.

(** [errors.Is(e, s)] for a sentinel [s]. *)
Fixpoint errorsIs (e : error) (s : sentinel) : bool :=
  match e with
  | ESentinel s' => bool_decide (s = s')
  | EDetailed _ _ (Some i) => errorsIs i s
  | _ => false
  end.

(** [errors.Is(e, context.DeadlineExceeded)] *)
Fixpoint errorsIsDeadline (e : error) : bool :=
  match e with
  | EDeadlineExceeded => true
  | EDetailed _ _ (Some i) => errorsIsDeadline i
  | _ => false
  end.

(** [errors.As(e, &de)] for [de : *DetailedError]: the first one of the chain;
    only its [Type] is ever read. *)
Definition errorsAsDetailed (e : error) : option ErrorType :=
  match e with EDetailed t _ _ => Some t | _ => None end.

(** [errors.As(e, &ne) && ne.Timeout()] for [ne : net.Error]: the first error of
    the chain that has a [Timeout] method; [context.DeadlineExceeded] has one. *)
Fixpoint errorsAsNetTimeout (e : error) : bool :=
  match e with
  | ENet t => t
  | EDeadlineExceeded => true
  | EDetailed _ _ (Some i) => errorsAsNetTimeout i
  | _ => false
  end.

(** [IsTimeout(err)]; [None] is the nil error. *)
Definition IsTimeout (err : option error) : bool :=
  match err with
  | None => false
  | Some e =>
      if errorsIs e ErrTimeout || errorsIsDeadline e then true
      else if bool_decide (errorsAsDetailed e = Some ErrorTypeTimeout) then true
      else if errorsAsNetTimeout e then true
      else false
  end.

(** [IsRetryable(err)] *)
Definition IsRetryable (err : option error) : bool :=
  match err with
  | None => false
  | Some e =>
      if errorsIs e ErrConnectFailed || errorsIs e ErrWriteFailed
         || errorsIs e ErrReadFailed || errorsIs e ErrConnectionClosed
         || errorsIs e ErrTimeout
      then true
      else match errorsAsDetailed e with
           | Some t => bool_decide (t = ErrorTypeNetwork) || bool_decide (t = ErrorTypeTimeout)
           | None => false
           end
  end.

(** [isConnectionLevelError(err)] (src/retry.go) *)
Definition isConnectionLevelError (e : error) : bool :=
  match errorsAsDetailed e with
  | Some t => bool_decide (t = ErrorTypeNetwork)
  | None => errorsIs e ErrConnectFailed || errorsIs e ErrConnectionClosed
  end.
