(* ===== verification/Metrics.v ===== *)
(** * Metrics: the built-in collector (src/metrics.go)

    The atomic counters are 64-bit and wrap around; the latency samples are the
    slice guarded by [latencyMu].  Durations are nanoseconds. *)

From stdpp Require Import prelude list sorting.
From S2P Require Import Prelude Errors.

Inductive PoolEvent :=
  | PoolEventConnCreated | PoolEventConnClosed | PoolEventConnReused | PoolEventConnFailed.

Record BuiltinMetrics := mkMetrics {
  requestsTotal : Z;
  requestsOK : Z;
  requestsError : Z;
  requests1xx : Z;
  requests3xx : Z;
  requests4xx : Z;
  requests5xx : Z;
  retriesTotal : Z;
  m_bytesWritten : Z;
  m_bytesRead : Z;
  connsCreated : Z;
  connsClosed : Z;
  connsReused : Z;
  connsFailed : Z;
  latencies : list Z;
  maxSamples : Z
}.

Definition NewBuiltinMetrics : BuiltinMetrics :=
  mkMetrics 0 0 0 0 0 0 0 0 0 0 0 0 0 0 [] 10000.

(** [counter.Add(1)] *)
Definition inc (n : Z) : Z := i64 (n + 1).

(** The [switch] of [RecordResponse]. *)
Definition countStatus (statusCode : Z) (err : bool) (m : BuiltinMetrics) : BuiltinMetrics :=
  let '(mkMetrics t ok er s1 s3 s4 s5 re bw br cc cl cr cf ls mx) := m in
  if err && (statusCode =? 0) then mkMetrics t ok (inc er) s1 s3 s4 s5 re bw br cc cl cr cf ls mx
  else if (100 <=? statusCode) && (statusCode <? 200) then mkMetrics t ok er (inc s1) s3 s4 s5 re bw br cc cl cr cf ls mx
  else if (200 <=? statusCode) && (statusCode <? 300) then mkMetrics t (inc ok) er s1 s3 s4 s5 re bw br cc cl cr cf ls mx
  else if (300 <=? statusCode) && (statusCode <? 400) then mkMetrics t ok er s1 (inc s3) s4 s5 re bw br cc cl cr cf ls mx
  else if (400 <=? statusCode) && (statusCode <? 500) then mkMetrics t ok er s1 s3 (inc s4) s5 re bw br cc cl cr cf ls mx
  else if 500 <=? statusCode then mkMetrics t ok er s1 s3 s4 (inc s5) re bw br cc cl cr cf ls mx
  else m.

(** The samples after one more: when the slice is full its newer half moves to the
    front and the rest is cut off. *)
Definition addSample (maxSamples latency : Z) (ls : list Z) : list Z :=
  let half := (length ls / 2)%nat in
  let ls := if maxSamples <=? Z.of_nat (length ls) then take half (drop half ls) else ls in
  ls ++ [latency].

(** [RecordResponse(method, host, statusCode, err, start, bytesWritten, bytesRead)];
    [latency] is [time.Since(start)], or [None] for a zero [start]. *)
Definition RecordResponse (statusCode : Z) (err : bool) (latency : option Z) (written read : Z)
    (m : BuiltinMetrics) : BuiltinMetrics :=
  let '(mkMetrics t ok er s1 s3 s4 s5 re bw br cc cl cr cf ls mx) := m in
  let m := mkMetrics (inc t) ok er s1 s3 s4 s5 re (i64 (bw + written)) (i64 (br + read)) cc cl cr cf ls mx in
  let '(mkMetrics t ok er s1 s3 s4 s5 re bw br cc cl cr cf ls mx) := countStatus statusCode err m in
  let ls := match latency with Some d => addSample mx d ls | None => ls end in
  mkMetrics t ok er s1 s3 s4 s5 re bw br cc cl cr cf ls mx.

(** [RecordPoolEvent(event, host)] *)
Definition RecordPoolEvent (event : PoolEvent) (m : BuiltinMetrics) : BuiltinMetrics :=
  let '(mkMetrics t ok er s1 s3 s4 s5 re bw br cc cl cr cf ls mx) := m in
  match event with
  | PoolEventConnCreated => mkMetrics t ok er s1 s3 s4 s5 re bw br (inc cc) cl cr cf ls mx
  | PoolEventConnClosed => mkMetrics t ok er s1 s3 s4 s5 re bw br cc (inc cl) cr cf ls mx
  | PoolEventConnReused => mkMetrics t ok er s1 s3 s4 s5 re bw br cc cl (inc cr) cf ls mx
  | PoolEventConnFailed => mkMetrics t ok er s1 s3 s4 s5 re bw br cc cl cr (inc cf) ls mx
  end.

(** [RecordRetry()] *)
Definition RecordRetry (m : BuiltinMetrics) : BuiltinMetrics :=
  let '(mkMetrics t ok er s1 s3 s4 s5 re bw br cc cl cr cf ls mx) := m in
  mkMetrics t ok er s1 s3 s4 s5 (inc re) bw br cc cl cr cf ls mx.

(** The latency part of [MetricsSnapshot]. *)
Record latencySnapshot := mkLatency {
  LatencyP50 : Z; LatencyP95 : Z; LatencyP99 : Z; LatencyAvg : Z; LatencyMin : Z; LatencyMax : Z
}.

(** [sorted[i]], which panics out of range. *)
Definition at_ (sorted : list Z) (i : nat) : option Z := sorted !! i.

(** The latency part of [Snapshot()]; [None] is an index out of range. *)
Definition latencyStats (m : BuiltinMetrics) : option latencySnapshot :=
  let n := length (latencies m) in
  if (0 <? n)%nat then
    let sorted := merge_sort Z.le (latencies m) in
    let p99Idx := (n * 99 / 100)%nat in
    let p99Idx := if (n <=? p99Idx)%nat then (n - 1)%nat else p99Idx in
    let total := foldl (λ t d, i64 (t + d)) 0 sorted in
    lo ← at_ sorted 0;
    hi ← at_ sorted (n - 1);
    p50 ← at_ sorted (n * 50 / 100);
    p95 ← at_ sorted (n * 95 / 100);
    p99 ← at_ sorted p99Idx;
    Some (mkLatency p50 p95 p99 (Z.quot total (Z.of_nat n)) lo hi)
  else Some (mkLatency 0 0 0 0 0 0).

Record MetricsSnapshot := mkSnapshot {
  RequestsTotal : Z; RequestsOK : Z; RequestsError : Z; Requests4xx : Z; Requests5xx : Z; Requests1xx : Z;
  Requests3xx : Z; RetriesTotal : Z; BytesWritten : Z; BytesRead : Z; Latency : latencySnapshot;
  ConnsCreated : Z; ConnsClosed : Z; ConnsReused : Z; ConnsFailed : Z
}.

(** [Snapshot()], no other call coming between its loads. *)
Definition Snapshot (m : BuiltinMetrics) : option MetricsSnapshot :=
  l ← latencyStats m;
  Some (mkSnapshot (requestsTotal m) (requestsOK m) (requestsError m) (requests4xx m) (requests5xx m)
          (requests1xx m) (requests3xx m) (retriesTotal m) (m_bytesWritten m) (m_bytesRead m) l
          (connsCreated m) (connsClosed m) (connsReused m) (connsFailed m)).

(** ** What the collector promises *)

(** One call of the collector. *)
Inductive recorded :=
  | Response_ (statusCode : Z) (err : bool) (latency : option Z) (written read : Z)
  | Retry_
  | Event_ (e : PoolEvent).

Definition record (m : BuiltinMetrics) (x : recorded) : BuiltinMetrics :=
  match x with
  | Response_ st err l w r => RecordResponse st err l w r m
  | Retry_ => RecordRetry m
  | Event_ e => RecordPoolEvent e m
  end.

Definition isResponse (x : recorded) : bool := match x with Response_ _ _ _ _ _ => true | _ => false end.
Definition isRetry (x : recorded) : bool := match x with Retry_ => true | _ => false end.
Definition isEvent (e : PoolEvent) (x : recorded) : bool :=
  match x, e with
  | Event_ PoolEventConnCreated, PoolEventConnCreated | Event_ PoolEventConnClosed, PoolEventConnClosed
  | Event_ PoolEventConnReused, PoolEventConnReused | Event_ PoolEventConnFailed, PoolEventConnFailed => true
  | _, _ => false
  end.

(** A failed call: an error and no status. *)
Definition failed (x : recorded) : bool :=
  match x with Response_ st err _ _ _ => err && (st =? 0) | _ => false end.

(** A call that got a status from [lo] on and, when [hi] is given, below [hi]. *)
Definition hasStatus (lo : Z) (hi : option Z) (x : recorded) : bool :=
  match x with
  | Response_ st _ _ _ _ => (lo <=? st) && match hi with Some hi => st <? hi | None => true end
  | _ => false
  end.

Definition writtenBy (x : recorded) : Z := match x with Response_ _ _ _ w _ => w | _ => 0 end.
Definition readBy (x : recorded) : Z := match x with Response_ _ _ _ _ r => r | _ => 0 end.
Definition latencyOf (x : recorded) : option Z := match x with Response_ _ _ l _ _ => l | _ => None end.

Definition total (w : recorded → Z) (xs : list recorded) : Z := foldr (λ x n, w x + n) 0 xs.
Definition count (f : recorded → bool) (xs : list recorded) : Z := total (λ x, if f x then 1 else 0) xs.

(** A counter that every call leaves alone or adds its weight to, at 64 bits. *)
Definition countsBy (fld : BuiltinMetrics → Z) (w : recorded → Z) : Prop :=
  ∀ m x, (fld (record m x) = fld m ∧ w x = 0) ∨ fld (record m x) = i64 (fld m + w x).

Lemma countsBy_total fld w xs m t :
  countsBy fld w → fld m = i64 t → fld (foldl record m xs) = i64 (t + total w xs).
Proof.
  intros Hc. revert m t. induction xs as [| x xs IH]; intros m t Hm; simpl; [by rewrite Z.add_0_r |].
  rewrite (IH _ (t + w x)); [f_equal; lia |].
  destruct (Hc m x) as [[-> ->] | ->]; [by rewrite Z.add_0_r | rewrite Hm; apply i64_add_l].
Qed.

Ltac counter :=
  intros [] [st err l w r | | []]; unfold record, RecordResponse, countStatus, hasStatus, failed;
  simpl; repeat case_if; simpl in *; auto; exfalso; lia.

Lemma counts_total : countsBy requestsTotal (λ x, if isResponse x then 1 else 0).
Proof. counter. Qed.
Lemma counts_ok : countsBy requestsOK (λ x, if hasStatus 200 (Some 300) x then 1 else 0).
Proof. counter. Qed.
Lemma counts_error : countsBy requestsError (λ x, if failed x then 1 else 0).
Proof. counter. Qed.
Lemma counts_1xx : countsBy requests1xx (λ x, if hasStatus 100 (Some 200) x then 1 else 0).
Proof. counter. Qed.
Lemma counts_3xx : countsBy requests3xx (λ x, if hasStatus 300 (Some 400) x then 1 else 0).
Proof. counter. Qed.
Lemma counts_4xx : countsBy requests4xx (λ x, if hasStatus 400 (Some 500) x then 1 else 0).
Proof. counter. Qed.
Lemma counts_5xx : countsBy requests5xx (λ x, if hasStatus 500 None x then 1 else 0).
Proof. counter. Qed.
Lemma counts_retries : countsBy retriesTotal (λ x, if isRetry x then 1 else 0).
Proof. counter. Qed.
Lemma counts_written : countsBy m_bytesWritten writtenBy.
Proof. counter. Qed.
Lemma counts_read : countsBy m_bytesRead readBy.
Proof. counter. Qed.
Lemma counts_created : countsBy connsCreated (λ x, if isEvent PoolEventConnCreated x then 1 else 0).
Proof. counter. Qed.
Lemma counts_closed : countsBy connsClosed (λ x, if isEvent PoolEventConnClosed x then 1 else 0).
Proof. counter. Qed.
Lemma counts_reused : countsBy connsReused (λ x, if isEvent PoolEventConnReused x then 1 else 0).
Proof. counter. Qed.
Lemma counts_failed : countsBy connsFailed (λ x, if isEvent PoolEventConnFailed x then 1 else 0).
Proof. counter. Qed.

(** ** The samples *)

Lemma record_latencies m x :
  latencies (record m x)
    = match latencyOf x with Some d => addSample (maxSamples m) d (latencies m) | None => latencies m end ∧
  maxSamples (record m x) = maxSamples m.
Proof.
  destruct m, x as [st err [] w r | | []]; unfold record, RecordResponse, countStatus; simpl;
    repeat case_if; simpl; auto.
Qed.

(** The samples kept are the newest ones: all of them while they fit, and at least
    5001 from then on. *)
Definition newest (ls ds : list Z) : Prop :=
  ls `suffix_of` ds ∧ Z.of_nat (length ls) ≤ 10000 ∧ Z.of_nat (length ds) `min` 5001 ≤ Z.of_nat (length ls) ∧
  (Z.of_nat (length ds) ≤ 10000 → ls = ds).

Lemma addSample_newest d ls ds : newest ls ds → newest (addSample 10000 d ls) (ds ++ [d]).
Proof.
  intros ([k ->] & Hl & Hm & Ha). unfold addSample. rewrite length_app in *.
  destruct (10000 <=? Z.of_nat (length ls)) eqn:E.
  - assert (Hn : length ls = Z.to_nat 10000) by lia. rewrite Hn.
    change (Z.to_nat 10000 / 2)%nat with (Z.to_nat 5000).
    assert (Hd : length (drop (Z.to_nat 5000) ls) = Z.to_nat 5000) by (rewrite length_drop, Hn; lia).
    rewrite take_ge by lia. unfold newest. rewrite !length_app, Hd, Hn. simpl.
    split_and!; try lia. exists (k ++ take (Z.to_nat 5000) ls).
    by rewrite <- !(assoc_L (++)), (assoc_L (++) (take _ ls)), take_drop.
  - unfold newest. rewrite !length_app. simpl. split_and!; try lia.
    + exists k. by rewrite (assoc_L (++)).
    + intros H. rewrite <- (Ha ltac:(lia)). done.
Qed.

Lemma records_newest xs m ds :
  maxSamples m = 10000 → newest (latencies m) ds →
  newest (latencies (foldl record m xs)) (ds ++ omap latencyOf xs).
Proof.
  revert m ds. induction xs as [| x xs IH]; intros m ds Hm Hn; simpl; [by rewrite app_nil_r |].
  destruct (record_latencies m x) as [E1 E2].
  destruct (latencyOf x) as [d |] eqn:E.
  - rewrite cons_middle, (assoc_L (++)). apply IH; [congruence |].
    rewrite E1, Hm. by apply addSample_newest.
  - apply IH; [congruence |]. by rewrite E1.
Qed.

(** ** The percentiles *)

Lemma sorted_lookup_le (l : list Z) i j x y :
  Sorted Z.le l → (i ≤ j)%nat → l !! i = Some x → l !! j = Some y → x ≤ y.
Proof.
  intros Hs%Sorted_StronglySorted Hij Hi Hj; [| intros ???; lia].
  revert i j Hij Hi Hj. induction Hs as [| a l Hs IH Ha]; intros i j Hij Hi Hj; [done |].
  destruct i, j; simplify_eq/=; try lia.
  - rewrite Forall_lookup in Ha. eauto.
  - apply (IH i j); [lia | done | done].
Qed.

(** The snapshot of a collector with samples: five of its samples, in order. *)
Record orderly (ls : list Z) (s : latencySnapshot) : Prop := {
  od_samples : LatencyMin s ∈ ls ∧ LatencyP50 s ∈ ls ∧ LatencyP95 s ∈ ls ∧ LatencyP99 s ∈ ls ∧ LatencyMax s ∈ ls;
  od_order : LatencyMin s ≤ LatencyP50 s ≤ LatencyP95 s ∧ LatencyP95 s ≤ LatencyP99 s ≤ LatencyMax s;
  od_bounds : ∀ x, x ∈ ls → LatencyMin s ≤ x ≤ LatencyMax s;
  od_avg : LatencyAvg s = Z.quot (i64 (foldr Z.add 0 ls)) (Z.of_nat (length ls))
}.

#[local] Instance Zle_total : Total Z.le.
Proof. intros x y. lia. Qed.

Lemma foldl_sum l t : foldl (λ t d, i64 (t + d)) (i64 t) l = i64 (t + foldr Z.add 0 l).
Proof.
  revert t. induction l as [| d l IH]; intros t; simpl; [by rewrite Z.add_0_r |].
  rewrite i64_add_l, IH. f_equal. lia.
Qed.

Lemma sum_Permutation (l k : list Z) : l ≡ₚ k → foldr Z.add 0 l = foldr Z.add 0 k.
Proof. induction 1; simpl; lia. Qed.

Lemma latencyStats_orderly m :
  latencies m ≠ [] → ∃ s, latencyStats m = Some s ∧ orderly (latencies m) s.
Proof.
  intros Hne. unfold latencyStats, at_.
  set (l := merge_sort Z.le (latencies m)). set (n := length (latencies m)).
  assert (Hp : l ≡ₚ latencies m) by apply merge_sort_Permutation.
  assert (Hs : Sorted Z.le l) by (apply Sorted_merge_sort; apply _).
  assert (Hn : length l = n) by by rewrite Hp.
  assert (0 < n)%nat by (unfold n; destruct (latencies m); simpl; [done | lia]).
  rewrite (proj2 (Nat.ltb_lt _ _)) by done.
  set (i50 := (n * 50 / 100)%nat). set (i95 := (n * 95 / 100)%nat). set (i99 := (n * 99 / 100)%nat).
  assert (i50 ≤ i95 ∧ i95 ≤ i99 ∧ i99 < n)%nat as (Ha & Hb & Hc).
  { unfold i50, i95, i99. split_and!; [apply Nat.Div0.div_le_mono; lia .. |].
    apply Nat.Div0.div_lt_upper_bound. lia. }
  rewrite (proj2 (Nat.leb_gt _ _)) by done. cbv zeta.
  destruct (lookup_lt_is_Some_2 l 0) as [lo H0]; [lia |].
  destruct (lookup_lt_is_Some_2 l (n - 1)) as [hi H1]; [lia |].
  destruct (lookup_lt_is_Some_2 l i50) as [p50 H50]; [lia |].
  destruct (lookup_lt_is_Some_2 l i95) as [p95 H95]; [lia |].
  destruct (lookup_lt_is_Some_2 l i99) as [p99 H99]; [lia |].
  rewrite H0, H1, H50, H95, H99. simpl. eexists. split; [done |].
  split; simpl.
  - rewrite <- Hp. split_and!; by eapply list_elem_of_lookup_2.
  - split_and!; (eapply sorted_lookup_le; [done | | eassumption | eassumption]); lia.
  - intros x Hx. rewrite <- Hp in Hx. apply list_elem_of_lookup_1 in Hx as [k Hk].
    pose proof (lookup_lt_Some _ _ _ Hk).
    split; (eapply sorted_lookup_le; [done | | eassumption | eassumption]); lia.
  - fold n. f_equal. change 0 with (i64 0) at 1. rewrite (foldl_sum l 0). by rewrite (sum_Permutation l (latencies m) Hp).
Qed.

Lemma latencyStats_shows m :
  ∃ l, latencyStats m = Some l ∧
    if decide (latencies m = []) then l = mkLatency 0 0 0 0 0 0 else orderly (latencies m) l.
Proof.
  case_decide as E; [| by apply latencyStats_orderly].
  unfold latencyStats. rewrite E. simpl. eauto.
Qed.

(** What a snapshot says of the calls recorded before it. *)
Record reports (xs : list recorded) (s : MetricsSnapshot) : Prop := {
  rp_total : RequestsTotal s = i64 (count isResponse xs);
  rp_ok : RequestsOK s = i64 (count (hasStatus 200 (Some 300)) xs);
  rp_error : RequestsError s = i64 (count failed xs);
  rp_1xx : Requests1xx s = i64 (count (hasStatus 100 (Some 200)) xs);
  rp_3xx : Requests3xx s = i64 (count (hasStatus 300 (Some 400)) xs);
  rp_4xx : Requests4xx s = i64 (count (hasStatus 400 (Some 500)) xs);
  rp_5xx : Requests5xx s = i64 (count (hasStatus 500 None) xs);
  rp_retries : RetriesTotal s = i64 (count isRetry xs);
  rp_written : BytesWritten s = i64 (total writtenBy xs);
  rp_read : BytesRead s = i64 (total readBy xs);
  rp_created : ConnsCreated s = i64 (count (isEvent PoolEventConnCreated) xs);
  rp_closed : ConnsClosed s = i64 (count (isEvent PoolEventConnClosed) xs);
  rp_reused : ConnsReused s = i64 (count (isEvent PoolEventConnReused) xs);
  rp_failed : ConnsFailed s = i64 (count (isEvent PoolEventConnFailed) xs)
}.

Lemma counted fld (f : recorded → bool) xs :
  countsBy fld (λ x, if f x then 1 else 0) → fld NewBuiltinMetrics = 0 →
  fld (foldl record NewBuiltinMetrics xs) = i64 (count f xs).
Proof. intros H H0. by rewrite (countsBy_total _ _ xs _ 0 H). Qed.

Lemma snapshot_reports xs s :
  Snapshot (foldl record NewBuiltinMetrics xs) = Some s → reports xs s.
Proof.
  unfold Snapshot. destruct (latencyStats _) as [l |]; simpl; [| done]. intros [= <-].
  split; cbn [RequestsTotal RequestsOK RequestsError Requests1xx Requests3xx Requests4xx Requests5xx
              RetriesTotal BytesWritten BytesRead ConnsCreated ConnsClosed ConnsReused ConnsFailed];
    first [ apply counted; [| done]; eauto using counts_total, counts_ok, counts_error, counts_1xx, counts_3xx,
              counts_4xx, counts_5xx, counts_retries, counts_created, counts_closed, counts_reused, counts_failed
          | by apply (countsBy_total _ _ xs _ 0 counts_written)
          | by apply (countsBy_total _ _ xs _ 0 counts_read) ].
Qed.

Lemma i64_sum7 a b c d e f u : i64 (a + b + c + d + e + f + u) = i64 (i64 a + i64 b + i64 c + i64 d + i64 e + i64 f + u).
Proof.
  destruct (i64_off a) as [qa ->], (i64_off b) as [qb ->], (i64_off c) as [qc ->], (i64_off d) as [qd ->],
    (i64_off e) as [qe ->], (i64_off f) as [qf ->].
  symmetry. apply (i64_eq _ _ (qa + qb + qc + qd + qe + qf)). lia.
Qed.

(** The classes are disjoint and leave out only statuses below 100 that came without
    an error, or negative ones. *)
Lemma count_split xs :
  count isResponse xs
    = count (hasStatus 200 (Some 300)) xs + count failed xs + count (hasStatus 100 (Some 200)) xs
      + count (hasStatus 300 (Some 400)) xs + count (hasStatus 400 (Some 500)) xs + count (hasStatus 500 None) xs
      + count (λ x, isResponse x && negb (failed x) && negb (hasStatus 100 None x)) xs.
Proof.
  unfold count. induction xs as [| x xs IH]; simpl; [done |]. rewrite IH. clear IH.
  destruct x as [st err l w r | |]; simpl; [| lia | lia].
  destruct err; simpl; repeat case_if; simpl in *; lia.
Qed.

(** C38: the collector loses and misfiles nothing.  After any sequence of calls of
    [RecordResponse], [RecordRetry] and [RecordPoolEvent] on a new collector,
    [Snapshot] (taken while no other call runs) succeeds, and every counter it shows is
    exactly the number of calls of its own class, at 64 bits: all responses, the 1xx,
    2xx, 3xx and 4xx statuses, the statuses from 500 on, the errors without a status,
    the retries, each of the four pool events, and the sums of the bytes.  The total is
    the sum of the six classes and of the responses no class takes: those with a status
    below 100 that are not an error with status 0.  The samples are the newest of the
    recorded latencies, at most 10000, all of them up to that number and never fewer
    than 5001 afterwards; and when there are samples, min, p50, p95, p99 and max are
    samples, in that order, every sample lies between min and max, and the average is
    the 64-bit sum divided by the number of samples. *)
Theorem metrics_consistent xs :
  let m : BuiltinMetrics := foldl record NewBuiltinMetrics xs in
  let unfiled := λ x : recorded, isResponse x && negb (failed x) && negb (hasStatus 100 None x) in
  newest (latencies m) (omap latencyOf xs) ∧
  ∃ s, Snapshot m = Some s ∧ reports xs s ∧
    RequestsTotal s = i64 (RequestsOK s + RequestsError s + Requests1xx s + Requests3xx s + Requests4xx s
                           + Requests5xx s + count unfiled xs) ∧
    if decide (latencies m = []) then Latency s = mkLatency 0 0 0 0 0 0 else orderly (latencies m) (Latency s).
Proof.
  intros m unfiled. split.
  { apply (records_newest xs NewBuiltinMetrics []); [done |]. split_and!; simpl; try done; lia. }
  destruct (latencyStats_shows m) as (l & El & Hl).
  destruct (Snapshot m) as [s |] eqn:E; [| by unfold Snapshot in E; rewrite El in E].
  exists s. split; [done |]. pose proof (snapshot_reports xs s E) as Hr. split; [done |]. split.
  - destruct Hr as [-> -> -> -> -> -> -> _ _ _ _ _ _ _]. rewrite (count_split xs). apply i64_sum7.
  - unfold Snapshot in E. rewrite El in E. simpl in E. by injection E as <-.
Qed.
