(* ===== verification/Strconv.v ===== *)
(** * Strconv: the parts of Go's [strconv] the client uses

    [strconv.ParseInt(s, base, 64)] and [strconv.Atoi] (chunk sizes, ports,
    Retry-After) and [strconv.Itoa] (Content-Length of pre-encoded requests),
    with the print/parse round trip the wire-format theorems rest on, and
    [strings.TrimSpace]. *)

From stdpp Require Import prelude list.
From S2P Require Import Prelude.

(** The value of a digit character in bases up to 36. *)
Definition digitVal (c : Z) : option Z :=
  if isDigit c then Some (c - 48)
  else if (97 <=? lower c) && (lower c <=? 122) then Some (lower c - 87)
  else None.

Definition digitChar (d : Z) : Z := if d <? 10 then 48 + d else 87 + d.

Fixpoint parseDigits (base : Z) (s : bytes) (acc : Z) : option Z :=
  match s with
  | [] => Some acc
  | c :: t =>
      match digitVal c with
      | Some d => if d <? base then parseDigits base t (acc * base + d) else None
      | None => None
      end
  end.

(** [strconv.ParseUint(s, base, 64)], the exact value (the callers below refuse
    values out of range); the empty string is a syntax error. *)
Definition parseUint (base : Z) (s : bytes) : option Z :=
  match s with [] => None | _ => parseDigits base s 0 end.

(** [strconv.ParseInt(s, base, 64)] for an explicit base; [None] is any error. *)
Definition ParseInt (base : Z) (s : bytes) : option Z :=
  match s with
  | [] => None
  | c :: t =>
      let neg := c =? 45 in
      let digits := if (c =? 43) || (c =? 45) then t else s in
      match parseUint base digits with
      | None => None
      | Some un =>
          if negb neg && (2 ^ 63 <=? un) then None
          else if neg && (2 ^ 63 <? un) then None
          else Some (if neg then - un else un)
      end
  end.

(** [strconv.Atoi(s)] on a 64-bit platform. *)
Definition Atoi (s : bytes) : option Z := ParseInt 10 s.

(** Printing: the usual loop [for n > 0 { i--; buf[i] = digit(n % base); n /= base }]. *)
Fixpoint formatLoop (base : Z) (fuel : nat) (n : Z) (acc : bytes) : bytes :=
  match fuel with
  | O => acc
  | S fuel' =>
      if 0 <? n then formatLoop base fuel' (n / base) (digitChar (n `mod` base) :: acc)
      else acc
  end.

(** 64 digits are enough for any base and any 64-bit value. *)
Definition FormatUint (base n : Z) : bytes :=
  if n =? 0 then [48] else formatLoop base 64 n [].

(** [strconv.Itoa(n)] *)
Definition Itoa (n : Z) : bytes :=
  if n <? 0 then 45 :: FormatUint 10 (- n) else FormatUint 10 n.

(** ** strings.TrimSpace *)

(** The UTF-8 encodings of the characters [unicode.IsSpace] accepts. *)
Definition isSpaceRune (b : bytes) : bool :=
  match b with
  | [c] => ((9 <=? c) && (c <=? 13)) || (c =? 32)
  | [c; d] => (c =? 194) && ((d =? 133) || (d =? 160))
  | [c; d; e] =>
      ((c =? 225) && (d =? 154) && (e =? 128))
      || ((c =? 226) && (d =? 128)
          && (((128 <=? e) && (e <=? 138)) || (e =? 168) || (e =? 169) || (e =? 175)))
      || ((c =? 226) && (d =? 129) && (e =? 159))
      || ((c =? 227) && (d =? 128) && (e =? 128))
  | _ => false
  end.

(** The number of bytes of the white-space character [l] starts with, or 0. *)
Definition spaceWidth (l : bytes) : nat :=
  if isSpaceRune (take 1 l) then 1
  else if isSpaceRune (take 2 l) then 2
  else if isSpaceRune (take 3 l) then 3 else 0.
Definition spaceWidthEnd (l : bytes) : nat :=
  if isSpaceRune (drop (length l - 1) l) then 1
  else if isSpaceRune (drop (length l - 2) l) then 2
  else if isSpaceRune (drop (length l - 3) l) then 3 else 0.

Fixpoint trimLeft (fuel : nat) (l : bytes) : bytes :=
  match fuel with
  | O => l
  | S fuel' => match spaceWidth l with O => l | w => trimLeft fuel' (drop w l) end
  end.
Fixpoint trimRight (fuel : nat) (l : bytes) : bytes :=
  match fuel with
  | O => l
  | S fuel' => match spaceWidthEnd l with O => l | w => trimRight fuel' (take (length l - w) l) end
  end.

(** [strings.TrimSpace(l)] *)
Definition TrimSpace (l : bytes) : bytes :=
  let l := trimLeft (length l) l in trimRight (length l) l.

Example TrimSpace_ex : TrimSpace (32 :: 194 :: 160 :: str "a b" ++ [9; 227; 128; 128]) = str "a b".
Proof. vm_compute. reflexivity. Qed.

Example strconv_ex :
  (Itoa 8080, Itoa 0, Atoi (str "8080"), ParseInt 16 (str "1aF"), Atoi (str "+7"),
   Atoi (str "-0"), Atoi (str ""), Atoi (str "9223372036854775808"))
  = (str "8080", str "0", Some 8080, Some 431, Some 7, Some 0, None, None).
Proof. vm_compute. reflexivity. Qed.

(** ** Round trip *)

Lemma digitVal_digitChar d : 0 ≤ d < 36 → digitVal (digitChar d) = Some d.
Proof.
  intros H. unfold digitChar, digitVal, isDigit, lower.
  repeat case_if; f_equal; lia.
Qed.

Lemma parseDigits_app base a b acc :
  parseDigits base (a ++ b) acc = parseDigits base a acc ≫= parseDigits base b.
Proof.
  revert acc. induction a as [|c a IH]; intros acc; simpl; [done |].
  destruct (digitVal c); [| done]. case_if; [apply IH | done].
Qed.

Lemma formatLoop_acc base fuel n acc :
  formatLoop base fuel n acc = formatLoop base fuel n [] ++ acc.
Proof.
  revert n acc. induction fuel as [|fuel IH]; intros n acc; simpl; [done |].
  case_if; [| done]. by rewrite IH, (IH _ [_]), <- app_assoc.
Qed.

Lemma formatLoop_parse base fuel n acc :
  2 ≤ base ≤ 36 → 0 ≤ n < base ^ Z.of_nat fuel →
  parseDigits base (formatLoop base fuel n acc) 0 = parseDigits base acc n.
Proof.
  intros Hb. revert n acc. induction fuel as [|fuel IH]; intros n acc Hn; simpl.
  { by replace n with 0 by lia. }
  case_if; [| by replace n with 0 by lia].
  rewrite Nat2Z.inj_succ, Z.pow_succ_r in Hn by lia.
  pose proof (Z.mod_pos_bound n base ltac:(lia)).
  rewrite IH.
  - simpl. rewrite digitVal_digitChar by lia.
    rewrite (proj2 (Z.ltb_lt _ _)) by lia.
    f_equal. rewrite Z.mul_comm. symmetry. apply Z.div_mod. lia.
  - split; [apply Z.div_pos; lia |]. apply Z.div_lt_upper_bound; lia.
Qed.

Lemma pow2_64_bound base : 2 ≤ base → 2 ^ 63 ≤ base ^ 64.
Proof. intros. trans (2 ^ 64); [lia |]. apply Z.pow_le_mono_l. lia. Qed.

(** A printed character is a digit: never a sign, a blank, CR or LF. *)
Definition plain (c : Z) : Prop := (48 ≤ c ≤ 57 ∨ 97 ≤ c ≤ 122).

Lemma digitChar_plain d : 0 ≤ d < 36 → plain (digitChar d).
Proof. intros. unfold plain, digitChar. case_if; lia. Qed.

Lemma formatLoop_plain base fuel n acc :
  2 ≤ base ≤ 36 → 0 ≤ n → Forall plain acc → Forall plain (formatLoop base fuel n acc).
Proof.
  intros Hb. revert n acc. induction fuel as [|fuel IH]; intros n acc Hn Hacc; simpl; [done |].
  case_if; [| done]. apply IH; [apply Z.div_pos; lia |].
  constructor; [| done]. apply digitChar_plain.
  pose proof (Z.mod_pos_bound n base). lia.
Qed.

Lemma FormatUint_plain base n : 2 ≤ base ≤ 36 → 0 ≤ n → Forall plain (FormatUint base n).
Proof.
  intros. unfold FormatUint. case_if; [repeat constructor; unfold plain; lia |].
  by apply formatLoop_plain.
Qed.

Lemma FormatUint_nonempty base n : 0 ≤ n → FormatUint base n ≠ [].
Proof.
  intros Hn. unfold FormatUint. case_if; [done |].
  change 64%nat with (S 63). generalize 63%nat as k. intros k.
  cbn [formatLoop]. case_if; [| lia].
  rewrite formatLoop_acc. destruct (formatLoop _ _ _ _); done.
Qed.

Lemma parseUint_FormatUint base n :
  2 ≤ base ≤ 36 → 0 ≤ n < 2 ^ 63 → parseUint base (FormatUint base n) = Some n.
Proof.
  intros Hb Hn. pose proof (FormatUint_nonempty base n ltac:(lia)) as Hne.
  assert (parseDigits base (FormatUint base n) 0 = Some n) as H.
  { unfold FormatUint. case_if.
    - simpl. rewrite (proj2 (Z.ltb_lt _ _)) by lia. f_equal. lia.
    - rewrite formatLoop_parse; [done | done |].
      pose proof (pow2_64_bound base). change (Z.of_nat 64) with 64. lia. }
  unfold parseUint. destruct (FormatUint base n); done.
Qed.

(** Printing then parsing gives the number back. *)
Lemma ParseInt_FormatUint base n :
  2 ≤ base ≤ 36 → 0 ≤ n < 2 ^ 63 → ParseInt base (FormatUint base n) = Some n.
Proof.
  intros Hb Hn. pose proof (parseUint_FormatUint base n Hb Hn) as H.
  pose proof (FormatUint_plain base n Hb ltac:(lia)) as Hp.
  unfold ParseInt. destruct (FormatUint base n) as [|c t]; [done |].
  inversion_clear Hp as [|? ? Hc Ht]. unfold plain in Hc.
  rewrite (proj2 (Z.eqb_neq c 45)), (proj2 (Z.eqb_neq c 43)) by lia.
  cbn [orb andb negb].
  rewrite H, (proj2 (Z.leb_gt _ _)) by lia. done.
Qed.

Lemma Itoa_plain n : 0 ≤ n → Forall plain (Itoa n).
Proof.
  intros. unfold Itoa. rewrite (proj2 (Z.ltb_ge _ _)) by lia.
  apply FormatUint_plain; lia.
Qed.

Lemma Itoa_nonneg n : 0 ≤ n → Itoa n = FormatUint 10 n.
Proof. intros. unfold Itoa. by rewrite (proj2 (Z.ltb_ge _ _)) by lia. Qed.

Lemma Atoi_Itoa n : 0 ≤ n < 2 ^ 63 → Atoi (Itoa n) = Some n.
Proof.
  intros. unfold Atoi. rewrite Itoa_nonneg by lia. apply ParseInt_FormatUint; lia.
Qed.

Lemma isSpaceRune_plain b : Forall plain b → isSpaceRune b = false.
Proof.
  unfold plain. intros H. destruct b as [| c [| d [| e [| f t]]]]; try done; unfold isSpaceRune.
  all: apply Forall_cons in H as [Hc _].
  all: repeat (rewrite (proj2 (Z.eqb_neq c _)) by lia); simpl; try done.
  destruct (Z.leb_spec 9 c), (Z.leb_spec c 13); simpl; try done; lia.
Qed.

(** Digits and lower-case letters are not trimmed. *)
Lemma TrimSpace_plain l : Forall plain l → TrimSpace l = l.
Proof.
  intros H. unfold TrimSpace.
  assert (∀ n, trimLeft n l = l) as ->.
  { intros [|n]; [done |]. simpl. unfold spaceWidth.
    rewrite !isSpaceRune_plain by (by apply Forall_take). done. }
  destruct (length l) eqn:E; [done |]. simpl. unfold spaceWidthEnd.
  by rewrite !isSpaceRune_plain by (by apply Forall_drop).
Qed.
