(* ===== verification/Float.v ===== *)
(** * Float: Go's [float64]

    IEEE-754 binary64, through the executable specification of the Standard
    Library: the operations the retry delays, the rate limiter and the latency
    averages use, rounding to nearest even. *)

From Stdlib Require Import ZArith SpecFloat.
From S2P Require Import Prelude.

Abbreviation float64 := spec_float.

Definition fadd : float64 → float64 → float64 := SFadd 53 1024.
Definition fsub : float64 → float64 → float64 := SFsub 53 1024.
Definition fmul : float64 → float64 → float64 := SFmul 53 1024.
Definition fdiv : float64 → float64 → float64 := SFdiv 53 1024.

(** The comparisons of Go; they are false on NaN. *)
Definition flt (x y : float64) : bool := SFltb x y.
Definition fle (x y : float64) : bool := SFleb x y.
Definition fgt (x y : float64) : bool := SFltb y x.
Definition fge (x y : float64) : bool := SFleb y x.

(** [float64(z)] *)
Definition fromInt (z : Z) : float64 := binary_normalize 53 1024 z 0 false.

(** The integer part of a finite number, towards zero. *)
Definition truncZ (x : float64) : Z :=
  match x with
  | S754_finite s m e =>
      let a := if 0 <=? e then Z.pos m * 2 ^ e else Z.pos m / 2 ^ (- e) in
      if s then - a else a
  | _ => 0
  end.

(** [int64(x)]: out of range (and for NaN and the infinities) the amd64
    conversion yields the most negative integer. *)
Definition toInt64 (x : float64) : Z :=
  match x with
  | S754_nan | S754_infinity _ => - 2 ^ 63
  | _ => let z := truncZ x in
         if (- 2 ^ 63 <=? z) && (z <? 2 ^ 63) then z else - 2 ^ 63
  end.

Example float_ex :
  toInt64 (fmul (fromInt 100) (fdiv (fromInt 3) (fromInt 2))) = 150 ∧
  fle (fromInt 0) S754_nan = false ∧ toInt64 (fromInt (2 ^ 53 + 1)) = 2 ^ 53.
Proof. vm_compute. done. Qed.
