(* ===== verification/Ratelimit.v ===== *)
(** * Ratelimit: the token bucket (src/ratelimit.go)

    [Wait] holds [mu] during each look at the bucket, so a look is one atomic
    step; between two looks the caller sleeps or its context ends. *)

From Stdlib Require Import SpecFloat.
From stdpp Require Import prelude list.
From S2P Require Import Prelude Errors Float.

Record tokenBucket := mkBucket {
  tokens : float64;
  capacity : float64;
  rate : float64;
  lastTick : Z
}.

(** [newTokenBucket(rps, burst)]; [now] is [time.Now().UnixNano()]. *)
Definition newTokenBucket (rps : float64) (burst now : Z) : option tokenBucket :=
  if fle rps (fromInt 0) || (burst <=? 0) then None
  else Some (mkBucket (fromInt burst) (fromInt burst) (fdiv rps (fromInt 1000000000)) now).

(** The refill at the top of the loop. *)
Definition refill (now : Z) (tb : tokenBucket) : tokenBucket :=
  let elapsed := i64 (now - lastTick tb) in
  if 0 <? elapsed then
    let t := fadd (tokens tb) (fmul (fromInt elapsed) (rate tb)) in
    let t := if fgt t (capacity tb) then capacity tb else t in
    mkBucket t (capacity tb) (rate tb) now
  else tb.

(** One look under [mu]: a token is taken, or the nanoseconds to sleep. *)
Definition look (now : Z) (tb : tokenBucket) : option Z * tokenBucket :=
  let tb := refill now tb in
  if fge (tokens tb) (fromInt 1)
  then (None, mkBucket (fsub (tokens tb) (fromInt 1)) (capacity tb) (rate tb) (lastTick tb))
  else (Some (toInt64 (fdiv (fsub (fromInt 1) (tokens tb)) (rate tb))), tb).

(** [Wait(ctx)]: each turn reads the clock and, when there is no token, ends its
    sleep with the timer ([None]) or with the context's error.  [Hang] means that
    the caller still sleeps after the listed turns. *)
Fixpoint Wait (turns : list (Z * option error)) (tb : tokenBucket) : outcome error unit * tokenBucket :=
  match turns with
  | [] => (Hang, tb)
  | (now, cancelled) :: t =>
      match look now tb with
      | (None, tb) => (Ret tt, tb)
      | (Some _, tb) =>
          match cancelled with
          | Some e => (Fail e, tb)
          | None => Wait t tb
          end
      end
  end.

(** A bucket of two: two grants at once, a refusal with the time to the next
    token, and the grant after that sleep. *)
Example bucket_of_two :
  ∃ tb0 tb1 tb2, newTokenBucket (fromInt 10) 2 0 = Some tb0 ∧
    look 0 tb0 = (None, tb1) ∧ look 0 tb1 = (None, tb2) ∧
    (look 0 tb2).1 = Some 100000000 ∧ (look 100000000 tb2).1 = None.
Proof. do 3 eexists. split; [done |]. split; [done |]. split; [done |]. split; reflexivity. Qed.
