(* ===== verification/Config.v ===== *)
(** * Config: the client configuration (src/config.go)

    The [Config] struct, the three presets, [Validate], which replaces missing
    values by defaults, and [BuildTLSConfig].  Durations are nanoseconds. *)

From stdpp Require Import prelude list.
From Stdlib Require Import SpecFloat.
From S2P Require Import Prelude Float.

(** Units of [time.Duration]. *)
Definition Millisecond : Z := 1000000.
Definition Second : Z := 1000 * Millisecond.
Definition Minute : Z := 60 * Second.

Definition VersionTLS12 : Z := 771.
Definition VersionTLS13 : Z := 772.

(** The fields of [tls.Config] the client sets. *)
Record tlsConfig := mkTLS {
  MinVersion : Z;
  MaxVersion : Z;
  tlsInsecureSkipVerify : bool;
  NextProtos : list bytes;
  ServerName : bytes
}.

Module Cfg.

(** The struct; [HasMetrics] says whether a [MetricsCollector] is installed. *)
Record Config := mkConfig {
  Host : bytes;
  Port : Z;
  UseTLS : bool;
  PoolSize : Z;
  MaxRequestsPerConn : Z;
  IdleTimeout : Z;
  DialTimeout : Z;
  ReadTimeout : Z;
  WriteTimeout : Z;
  TLSHandshakeTimeout : Z;
  ReadBufferSize : Z;
  WriteBufferSize : Z;
  HeaderBufferSize : Z;
  HeaderReadChunkSize : Z;
  BodyReadChunkSize : Z;
  MaxRequestBodySize : Z;
  MaxResponseBodySize : Z;
  EnableCompression : bool;
  CompressionLevel : Z;
  TLSConfig : option tlsConfig;
  TLSMinVersion : Z;
  TLSMaxVersion : Z;
  InsecureSkipVerify : bool;
  TLSClientSessionCacheSize : Z;
  ProxyURL : bytes;
  ProxyUsername : bytes;
  ProxyPassword : bytes;
  ProxyConnectTimeout : Z;
  ProxyReadTimeout : Z;
  SOCKS5Addr : bytes;
  SOCKS5Username : bytes;
  SOCKS5Password : bytes;
  KeepAlive : bool;
  DisableKeepAlive : bool;
  MaxIdleConnsPerHost : Z;
  EnablePipelining : bool;
  MaxPipelinedRequests : Z;
  MaxRetries : Z;
  RetryBaseDelay : Z;
  RetryMaxDelay : Z;
  RetryMultiplier : float64;
  RetryJitter : bool;
  RetryableStatus : list Z;
  EnableDNSCache : bool;
  DNSCacheTTL : Z;
  DNSNegativeTTL : Z;
  EnableScheduler : bool;
  SchedulerWorkers : Z;
  SchedulerQueueDepth : Z;
  EnableHealthScoring : bool;
  IdleCheckInterval : Z;
  EnableResponseStreaming : bool;
  TCPNoDelay : bool;
  TCPKeepAlive : bool;
  TCPKeepAlivePeriod : Z;
  TCPFastOpen : bool;
  TCPReusePort : bool;
  EnablePipelineAutoTune : bool;
  EnableLogging : bool;
  HasMetrics : bool;
  RequestsPerSecond : float64;
  BurstSize : Z
}.

(** [DefaultConfig()] *)
Definition DefaultConfig : Config := {|
  Host := str "localhost";
  Port := 443;
  UseTLS := true;
  PoolSize := 512;
  MaxRequestsPerConn := 0;
  IdleTimeout := 90 * Second;
  DialTimeout := 10 * Second;
  ReadTimeout := 30 * Second;
  WriteTimeout := 10 * Second;
  TLSHandshakeTimeout := 10 * Second;
  ReadBufferSize := 64 * 1024;
  WriteBufferSize := 64 * 1024;
  HeaderBufferSize := 16 * 1024;
  HeaderReadChunkSize := 4 * 1024;
  BodyReadChunkSize := 64 * 1024;
  MaxRequestBodySize := 10 * 1024 * 1024;
  MaxResponseBodySize := 10 * 1024 * 1024;
  EnableCompression := false;
  CompressionLevel := 6;
  TLSConfig := None;
  TLSMinVersion := VersionTLS12;
  TLSMaxVersion := VersionTLS13;
  InsecureSkipVerify := false;
  TLSClientSessionCacheSize := 4096;
  ProxyURL := [];
  ProxyUsername := [];
  ProxyPassword := [];
  ProxyConnectTimeout := 10 * Second;
  ProxyReadTimeout := 10 * Second;
  SOCKS5Addr := [];
  SOCKS5Username := [];
  SOCKS5Password := [];
  KeepAlive := true;
  DisableKeepAlive := false;
  MaxIdleConnsPerHost := 512;
  EnablePipelining := true;
  MaxPipelinedRequests := 10;
  MaxRetries := 0;
  RetryBaseDelay := 100 * Millisecond;
  RetryMaxDelay := 5 * Second;
  RetryMultiplier := fromInt 2;
  RetryJitter := true;
  RetryableStatus := [429; 502; 503; 504];
  EnableDNSCache := false;
  DNSCacheTTL := 5 * Minute;
  DNSNegativeTTL := 5 * Second;
  EnableScheduler := false;
  SchedulerWorkers := 0;
  SchedulerQueueDepth := 0;
  EnableHealthScoring := true;
  IdleCheckInterval := 30 * Second;
  EnableResponseStreaming := false;
  TCPNoDelay := true;
  TCPKeepAlive := true;
  TCPKeepAlivePeriod := 30 * Second;
  TCPFastOpen := false;
  TCPReusePort := false;
  EnablePipelineAutoTune := false;
  EnableLogging := false;
  HasMetrics := false;
  RequestsPerSecond := (S754_zero false);
  BurstSize := 0
|}.

(** [HighThroughputConfig()] *)
Definition HighThroughputConfig : Config := let c := DefaultConfig in {|
  Host := Host c;
  Port := Port c;
  UseTLS := UseTLS c;
  PoolSize := 1024;
  MaxRequestsPerConn := MaxRequestsPerConn c;
  IdleTimeout := IdleTimeout c;
  DialTimeout := DialTimeout c;
  ReadTimeout := ReadTimeout c;
  WriteTimeout := WriteTimeout c;
  TLSHandshakeTimeout := TLSHandshakeTimeout c;
  ReadBufferSize := 128 * 1024;
  WriteBufferSize := 128 * 1024;
  HeaderBufferSize := HeaderBufferSize c;
  HeaderReadChunkSize := 8 * 1024;
  BodyReadChunkSize := 64 * 1024;
  MaxRequestBodySize := MaxRequestBodySize c;
  MaxResponseBodySize := MaxResponseBodySize c;
  EnableCompression := EnableCompression c;
  CompressionLevel := CompressionLevel c;
  TLSConfig := TLSConfig c;
  TLSMinVersion := TLSMinVersion c;
  TLSMaxVersion := TLSMaxVersion c;
  InsecureSkipVerify := InsecureSkipVerify c;
  TLSClientSessionCacheSize := 8192;
  ProxyURL := ProxyURL c;
  ProxyUsername := ProxyUsername c;
  ProxyPassword := ProxyPassword c;
  ProxyConnectTimeout := ProxyConnectTimeout c;
  ProxyReadTimeout := ProxyReadTimeout c;
  SOCKS5Addr := SOCKS5Addr c;
  SOCKS5Username := SOCKS5Username c;
  SOCKS5Password := SOCKS5Password c;
  KeepAlive := KeepAlive c;
  DisableKeepAlive := DisableKeepAlive c;
  MaxIdleConnsPerHost := 1024;
  EnablePipelining := EnablePipelining c;
  MaxPipelinedRequests := 16;
  MaxRetries := MaxRetries c;
  RetryBaseDelay := RetryBaseDelay c;
  RetryMaxDelay := RetryMaxDelay c;
  RetryMultiplier := RetryMultiplier c;
  RetryJitter := RetryJitter c;
  RetryableStatus := RetryableStatus c;
  EnableDNSCache := true;
  DNSCacheTTL := DNSCacheTTL c;
  DNSNegativeTTL := DNSNegativeTTL c;
  EnableScheduler := true;
  SchedulerWorkers := SchedulerWorkers c;
  SchedulerQueueDepth := SchedulerQueueDepth c;
  EnableHealthScoring := true;
  IdleCheckInterval := 15 * Second;
  EnableResponseStreaming := EnableResponseStreaming c;
  TCPNoDelay := TCPNoDelay c;
  TCPKeepAlive := TCPKeepAlive c;
  TCPKeepAlivePeriod := TCPKeepAlivePeriod c;
  TCPFastOpen := TCPFastOpen c;
  TCPReusePort := TCPReusePort c;
  EnablePipelineAutoTune := true;
  EnableLogging := EnableLogging c;
  HasMetrics := HasMetrics c;
  RequestsPerSecond := RequestsPerSecond c;
  BurstSize := BurstSize c
|}.

(** [ResilientConfig()] *)
Definition ResilientConfig : Config := let c := DefaultConfig in {|
  Host := Host c;
  Port := Port c;
  UseTLS := UseTLS c;
  PoolSize := PoolSize c;
  MaxRequestsPerConn := MaxRequestsPerConn c;
  IdleTimeout := IdleTimeout c;
  DialTimeout := DialTimeout c;
  ReadTimeout := ReadTimeout c;
  WriteTimeout := WriteTimeout c;
  TLSHandshakeTimeout := TLSHandshakeTimeout c;
  ReadBufferSize := ReadBufferSize c;
  WriteBufferSize := WriteBufferSize c;
  HeaderBufferSize := HeaderBufferSize c;
  HeaderReadChunkSize := HeaderReadChunkSize c;
  BodyReadChunkSize := BodyReadChunkSize c;
  MaxRequestBodySize := MaxRequestBodySize c;
  MaxResponseBodySize := MaxResponseBodySize c;
  EnableCompression := EnableCompression c;
  CompressionLevel := CompressionLevel c;
  TLSConfig := TLSConfig c;
  TLSMinVersion := TLSMinVersion c;
  TLSMaxVersion := TLSMaxVersion c;
  InsecureSkipVerify := InsecureSkipVerify c;
  TLSClientSessionCacheSize := TLSClientSessionCacheSize c;
  ProxyURL := ProxyURL c;
  ProxyUsername := ProxyUsername c;
  ProxyPassword := ProxyPassword c;
  ProxyConnectTimeout := ProxyConnectTimeout c;
  ProxyReadTimeout := ProxyReadTimeout c;
  SOCKS5Addr := SOCKS5Addr c;
  SOCKS5Username := SOCKS5Username c;
  SOCKS5Password := SOCKS5Password c;
  KeepAlive := KeepAlive c;
  DisableKeepAlive := DisableKeepAlive c;
  MaxIdleConnsPerHost := MaxIdleConnsPerHost c;
  EnablePipelining := EnablePipelining c;
  MaxPipelinedRequests := MaxPipelinedRequests c;
  MaxRetries := 3;
  RetryBaseDelay := 200 * Millisecond;
  RetryMaxDelay := 10 * Second;
  RetryMultiplier := fromInt 2;
  RetryJitter := true;
  RetryableStatus := [429; 502; 503; 504];
  EnableDNSCache := true;
  DNSCacheTTL := DNSCacheTTL c;
  DNSNegativeTTL := DNSNegativeTTL c;
  EnableScheduler := EnableScheduler c;
  SchedulerWorkers := SchedulerWorkers c;
  SchedulerQueueDepth := SchedulerQueueDepth c;
  EnableHealthScoring := EnableHealthScoring c;
  IdleCheckInterval := IdleCheckInterval c;
  EnableResponseStreaming := EnableResponseStreaming c;
  TCPNoDelay := TCPNoDelay c;
  TCPKeepAlive := TCPKeepAlive c;
  TCPKeepAlivePeriod := TCPKeepAlivePeriod c;
  TCPFastOpen := TCPFastOpen c;
  TCPReusePort := TCPReusePort c;
  EnablePipelineAutoTune := EnablePipelineAutoTune c;
  EnableLogging := EnableLogging c;
  HasMetrics := HasMetrics c;
  RequestsPerSecond := RequestsPerSecond c;
  BurstSize := BurstSize c
|}.

(** [(c *Config) Validate()]: it never returns an error; the struct is updated in
    place.  The proxy timeouts fall back to the validated [DialTimeout]. *)
Definition Validate (c : Config) : Config :=
  let dialTimeout := if DialTimeout c <=? 0 then 10 * Second else DialTimeout c in {|
  Host := if bool_decide (Host c = []) then str "localhost" else Host c;
  Port := if Port c =? 0 then (if UseTLS c then 443 else 80) else Port c;
  UseTLS := UseTLS c;
  PoolSize := if PoolSize c <=? 0 then 512 else PoolSize c;
  MaxRequestsPerConn := MaxRequestsPerConn c;
  IdleTimeout := if IdleTimeout c <=? 0 then 90 * Second else IdleTimeout c;
  DialTimeout := dialTimeout;
  ReadTimeout := if ReadTimeout c <=? 0 then 30 * Second else ReadTimeout c;
  WriteTimeout := if WriteTimeout c <=? 0 then 10 * Second else WriteTimeout c;
  TLSHandshakeTimeout := if TLSHandshakeTimeout c <=? 0 then 10 * Second else TLSHandshakeTimeout c;
  ReadBufferSize := if ReadBufferSize c <=? 0 then 64 * 1024 else ReadBufferSize c;
  WriteBufferSize := if WriteBufferSize c <=? 0 then 64 * 1024 else WriteBufferSize c;
  HeaderBufferSize := if HeaderBufferSize c <=? 0 then 16 * 1024 else HeaderBufferSize c;
  HeaderReadChunkSize := if HeaderReadChunkSize c <=? 0 then 4 * 1024 else HeaderReadChunkSize c;
  BodyReadChunkSize := if BodyReadChunkSize c <=? 0 then 64 * 1024 else BodyReadChunkSize c;
  MaxRequestBodySize := if MaxRequestBodySize c <=? 0 then 10 * 1024 * 1024 else MaxRequestBodySize c;
  MaxResponseBodySize := if MaxResponseBodySize c <=? 0 then 10 * 1024 * 1024 else MaxResponseBodySize c;
  EnableCompression := EnableCompression c;
  CompressionLevel := CompressionLevel c;
  TLSConfig := TLSConfig c;
  TLSMinVersion := if TLSMinVersion c =? 0 then VersionTLS12 else TLSMinVersion c;
  TLSMaxVersion := if TLSMaxVersion c =? 0 then VersionTLS13 else TLSMaxVersion c;
  InsecureSkipVerify := InsecureSkipVerify c;
  TLSClientSessionCacheSize := if TLSClientSessionCacheSize c <=? 0 then 4096 else TLSClientSessionCacheSize c;
  ProxyURL := ProxyURL c;
  ProxyUsername := ProxyUsername c;
  ProxyPassword := ProxyPassword c;
  ProxyConnectTimeout := if ProxyConnectTimeout c <=? 0 then
                             (if dialTimeout <=? 0 then 10 * Second else dialTimeout)
                           else ProxyConnectTimeout c;
  ProxyReadTimeout := if ProxyReadTimeout c <=? 0 then
                          (if dialTimeout <=? 0 then 10 * Second else dialTimeout)
                        else ProxyReadTimeout c;
  SOCKS5Addr := SOCKS5Addr c;
  SOCKS5Username := SOCKS5Username c;
  SOCKS5Password := SOCKS5Password c;
  KeepAlive := KeepAlive c;
  DisableKeepAlive := DisableKeepAlive c;
  MaxIdleConnsPerHost := MaxIdleConnsPerHost c;
  EnablePipelining := EnablePipelining c;
  MaxPipelinedRequests := if MaxPipelinedRequests c <=? 0 then 10 else MaxPipelinedRequests c;
  MaxRetries := if MaxRetries c <? 0 then 0 else MaxRetries c;
  RetryBaseDelay := if RetryBaseDelay c <=? 0 then 100 * Millisecond else RetryBaseDelay c;
  RetryMaxDelay := if RetryMaxDelay c <=? 0 then 5 * Second else RetryMaxDelay c;
  RetryMultiplier := if fle (RetryMultiplier c) (fromInt 0) then fromInt 2 else RetryMultiplier c;
  RetryJitter := RetryJitter c;
  RetryableStatus := RetryableStatus c;
  EnableDNSCache := EnableDNSCache c;
  DNSCacheTTL := if DNSCacheTTL c <=? 0 then 5 * Minute else DNSCacheTTL c;
  DNSNegativeTTL := if DNSNegativeTTL c <=? 0 then 5 * Second else DNSNegativeTTL c;
  EnableScheduler := EnableScheduler c;
  SchedulerWorkers := SchedulerWorkers c;
  SchedulerQueueDepth := SchedulerQueueDepth c;
  EnableHealthScoring := EnableHealthScoring c;
  IdleCheckInterval := if IdleCheckInterval c <=? 0 then 30 * Second else IdleCheckInterval c;
  EnableResponseStreaming := EnableResponseStreaming c;
  TCPNoDelay := TCPNoDelay c;
  TCPKeepAlive := TCPKeepAlive c;
  TCPKeepAlivePeriod := TCPKeepAlivePeriod c;
  TCPFastOpen := TCPFastOpen c;
  TCPReusePort := TCPReusePort c;
  EnablePipelineAutoTune := EnablePipelineAutoTune c;
  EnableLogging := EnableLogging c;
  HasMetrics := HasMetrics c;
  RequestsPerSecond := RequestsPerSecond c;
  BurstSize := BurstSize c
|}.

(** Assignment to [ReadBufferSize], as a caller does before [NewClient]. *)
Definition set_ReadBufferSize (v : Z) (c : Config) : Config :=
  mkConfig (Host c) (Port c) (UseTLS c) (PoolSize c) (MaxRequestsPerConn c)
    (IdleTimeout c) (DialTimeout c) (ReadTimeout c) (WriteTimeout c) (TLSHandshakeTimeout c)
    v (WriteBufferSize c) (HeaderBufferSize c) (HeaderReadChunkSize c) (BodyReadChunkSize c)
    (MaxRequestBodySize c) (MaxResponseBodySize c) (EnableCompression c) (CompressionLevel c) (TLSConfig c)
    (TLSMinVersion c) (TLSMaxVersion c) (InsecureSkipVerify c) (TLSClientSessionCacheSize c) (ProxyURL c)
    (ProxyUsername c) (ProxyPassword c) (ProxyConnectTimeout c) (ProxyReadTimeout c) (SOCKS5Addr c)
    (SOCKS5Username c) (SOCKS5Password c) (KeepAlive c) (DisableKeepAlive c) (MaxIdleConnsPerHost c)
    (EnablePipelining c) (MaxPipelinedRequests c) (MaxRetries c) (RetryBaseDelay c) (RetryMaxDelay c)
    (RetryMultiplier c) (RetryJitter c) (RetryableStatus c) (EnableDNSCache c) (DNSCacheTTL c)
    (DNSNegativeTTL c) (EnableScheduler c) (SchedulerWorkers c) (SchedulerQueueDepth c) (EnableHealthScoring c)
    (IdleCheckInterval c) (EnableResponseStreaming c) (TCPNoDelay c) (TCPKeepAlive c) (TCPKeepAlivePeriod c)
    (TCPFastOpen c) (TCPReusePort c) (EnablePipelineAutoTune c) (EnableLogging c) (HasMetrics c)
    (RequestsPerSecond c) (BurstSize c).

(** The same for [EnablePipelining]. *)
Definition set_EnablePipelining (v : bool) (c : Config) : Config :=
  mkConfig (Host c) (Port c) (UseTLS c) (PoolSize c) (MaxRequestsPerConn c)
    (IdleTimeout c) (DialTimeout c) (ReadTimeout c) (WriteTimeout c) (TLSHandshakeTimeout c)
    (ReadBufferSize c) (WriteBufferSize c) (HeaderBufferSize c) (HeaderReadChunkSize c) (BodyReadChunkSize c)
    (MaxRequestBodySize c) (MaxResponseBodySize c) (EnableCompression c) (CompressionLevel c) (TLSConfig c)
    (TLSMinVersion c) (TLSMaxVersion c) (InsecureSkipVerify c) (TLSClientSessionCacheSize c) (ProxyURL c)
    (ProxyUsername c) (ProxyPassword c) (ProxyConnectTimeout c) (ProxyReadTimeout c) (SOCKS5Addr c)
    (SOCKS5Username c) (SOCKS5Password c) (KeepAlive c) (DisableKeepAlive c) (MaxIdleConnsPerHost c)
    v (MaxPipelinedRequests c) (MaxRetries c) (RetryBaseDelay c) (RetryMaxDelay c)
    (RetryMultiplier c) (RetryJitter c) (RetryableStatus c) (EnableDNSCache c) (DNSCacheTTL c)
    (DNSNegativeTTL c) (EnableScheduler c) (SchedulerWorkers c) (SchedulerQueueDepth c) (EnableHealthScoring c)
    (IdleCheckInterval c) (EnableResponseStreaming c) (TCPNoDelay c) (TCPKeepAlive c) (TCPKeepAlivePeriod c)
    (TCPFastOpen c) (TCPReusePort c) (EnablePipelineAutoTune c) (EnableLogging c) (HasMetrics c)
    (RequestsPerSecond c) (BurstSize c).

(** The same for [ProxyUsername] and [ProxyPassword]. *)
Definition set_ProxyCredentials (user pass : bytes) (c : Config) : Config :=
  mkConfig (Host c) (Port c) (UseTLS c) (PoolSize c) (MaxRequestsPerConn c)
    (IdleTimeout c) (DialTimeout c) (ReadTimeout c) (WriteTimeout c) (TLSHandshakeTimeout c)
    (ReadBufferSize c) (WriteBufferSize c) (HeaderBufferSize c) (HeaderReadChunkSize c) (BodyReadChunkSize c)
    (MaxRequestBodySize c) (MaxResponseBodySize c) (EnableCompression c) (CompressionLevel c) (TLSConfig c)
    (TLSMinVersion c) (TLSMaxVersion c) (InsecureSkipVerify c) (TLSClientSessionCacheSize c) (ProxyURL c)
    user pass (ProxyConnectTimeout c) (ProxyReadTimeout c) (SOCKS5Addr c)
    (SOCKS5Username c) (SOCKS5Password c) (KeepAlive c) (DisableKeepAlive c) (MaxIdleConnsPerHost c)
    (EnablePipelining c) (MaxPipelinedRequests c) (MaxRetries c) (RetryBaseDelay c) (RetryMaxDelay c)
    (RetryMultiplier c) (RetryJitter c) (RetryableStatus c) (EnableDNSCache c) (DNSCacheTTL c)
    (DNSNegativeTTL c) (EnableScheduler c) (SchedulerWorkers c) (SchedulerQueueDepth c) (EnableHealthScoring c)
    (IdleCheckInterval c) (EnableResponseStreaming c) (TCPNoDelay c) (TCPKeepAlive c) (TCPKeepAlivePeriod c)
    (TCPFastOpen c) (TCPReusePort c) (EnablePipelineAutoTune c) (EnableLogging c) (HasMetrics c)
    (RequestsPerSecond c) (BurstSize c).

(** [(c *Config) BuildTLSConfig()] *)
Definition BuildTLSConfig (c : Config) : tlsConfig :=
  match TLSConfig c with
  | Some t => t
  | None => mkTLS (TLSMinVersion c) (TLSMaxVersion c) (InsecureSkipVerify c)
              [str "http/1.1"] (Host c)
  end.

End Cfg.
Abbreviation Config := Cfg.Config.

(** What the rest of the client relies on after [Validate]. *)
Record validConfig (c : Config) : Prop := {
  vc_host : Cfg.Host c ≠ [];
  vc_port : Cfg.Port c ≠ 0;
  vc_pool : 0 < Cfg.PoolSize c;
  vc_timeouts : 0 < Cfg.DialTimeout c ∧ 0 < Cfg.ReadTimeout c ∧ 0 < Cfg.WriteTimeout c ∧
    0 < Cfg.IdleTimeout c ∧ 0 < Cfg.TLSHandshakeTimeout c ∧ 0 < Cfg.ProxyConnectTimeout c ∧
    0 < Cfg.ProxyReadTimeout c ∧ 0 < Cfg.IdleCheckInterval c;
  vc_buffers : 0 < Cfg.ReadBufferSize c ∧ 0 < Cfg.WriteBufferSize c ∧ 0 < Cfg.HeaderBufferSize c ∧
    0 < Cfg.HeaderReadChunkSize c ∧ 0 < Cfg.BodyReadChunkSize c;
  vc_limits : 0 < Cfg.MaxRequestBodySize c ∧ 0 < Cfg.MaxResponseBodySize c ∧
    0 < Cfg.MaxPipelinedRequests c ∧ 0 < Cfg.TLSClientSessionCacheSize c;
  vc_retry : 0 ≤ Cfg.MaxRetries c ∧ 0 < Cfg.RetryBaseDelay c ∧ 0 < Cfg.RetryMaxDelay c ∧
    fle (Cfg.RetryMultiplier c) (fromInt 0) = false;
  vc_dns : 0 < Cfg.DNSCacheTTL c ∧ 0 < Cfg.DNSNegativeTTL c;
  vc_tls : Cfg.TLSMinVersion c ≠ 0 ∧ Cfg.TLSMaxVersion c ≠ 0
}.

Lemma orDefault_pos (x d : Z) : 0 < d → 0 < (if x <=? 0 then d else x).
Proof. intros. case_if; lia. Qed.

Lemma Validate_valid c : validConfig (Cfg.Validate c).
Proof.
  split; unfold Cfg.Validate; cbv zeta;
    cbn [Cfg.Host Cfg.Port Cfg.PoolSize Cfg.DialTimeout Cfg.ReadTimeout Cfg.WriteTimeout
         Cfg.IdleTimeout Cfg.TLSHandshakeTimeout Cfg.ProxyConnectTimeout Cfg.ProxyReadTimeout
         Cfg.IdleCheckInterval Cfg.ReadBufferSize Cfg.WriteBufferSize Cfg.HeaderBufferSize
         Cfg.HeaderReadChunkSize Cfg.BodyReadChunkSize Cfg.MaxRequestBodySize
         Cfg.MaxResponseBodySize Cfg.MaxPipelinedRequests Cfg.TLSClientSessionCacheSize
         Cfg.MaxRetries Cfg.RetryBaseDelay Cfg.RetryMaxDelay Cfg.RetryMultiplier
         Cfg.DNSCacheTTL Cfg.DNSNegativeTTL Cfg.TLSMinVersion Cfg.TLSMaxVersion].
  - by case_bool_decide.
  - repeat case_if; lia.
  - by apply orDefault_pos.
  - split_and!; try (by apply orDefault_pos);
      (repeat case_if; unfold Second, Millisecond in *; lia).
  - split_and!; by apply orDefault_pos.
  - split_and!; by apply orDefault_pos.
  - split_and!; try (by apply orDefault_pos); [case_if; lia |]. by destruct (fle (Cfg.RetryMultiplier c) _) eqn:E.
  - split_and!; by apply orDefault_pos.
  - unfold VersionTLS12, VersionTLS13. split; case_if; lia.
Qed.

Lemma Validate_fixpoint c : validConfig c → Cfg.Validate c = c.
Proof.
  intros []. destruct_and!. unfold Cfg.Validate. cbv zeta. destruct c. simpl in *.
  rewrite !(proj2 (Z.leb_gt _ _)) by lia.
  rewrite (proj2 (Z.ltb_ge _ _)), !(proj2 (Z.eqb_neq _ _)) by lia.
  rewrite bool_decide_eq_false_2 by done.
  match goal with H : fle _ _ = false |- _ => rewrite H end. done.
Qed.

(** C35: [Validate] always succeeds and leaves a configuration every later use can
    rely on: a host, a port, positive pool size, timeouts, buffer sizes and limits,
    a non-negative number of retries; it changes nothing in a configuration that
    already has them, so validating twice is validating once, and the three presets
    are already valid. *)
Theorem Validate_establishes c :
  validConfig (Cfg.Validate c) ∧
  Cfg.Validate (Cfg.Validate c) = Cfg.Validate c ∧
  (validConfig c ↔ Cfg.Validate c = c) ∧
  Cfg.Validate Cfg.DefaultConfig = Cfg.DefaultConfig ∧
  Cfg.Validate Cfg.HighThroughputConfig = Cfg.HighThroughputConfig ∧
  Cfg.Validate Cfg.ResilientConfig = Cfg.ResilientConfig.
Proof.
  split; [apply Validate_valid |]. split; [apply Validate_fixpoint, Validate_valid |].
  split; [| by split_and!].
  split; [apply Validate_fixpoint |]. intros <-. apply Validate_valid.
Qed.
