(* ===== verification/Dns.v ===== *)
(** * Dns: the DNS cache (src/dns.go)

    Positive entries with round-robin selection, negative entries, and the
    deduplication of lookups in flight.  [LookupHost] runs in two atomic parts,
    the look at the cache and the bookkeeping after the resolver answered; a hit
    late in an entry's life, and the janitor, start [backgroundRefresh] goroutines,
    which are kept in [spawned] until they run.  Times are nanoseconds. *)

From stdpp Require Import prelude list gmap gmultiset.
From S2P Require Import Prelude Errors Config.

Record dnsEntry := mkEntry { addrs : list bytes; expires : Z; idx : Z }.

(** [inflight] is the set of its keys; the result of a flight is delivered to its
    followers when [done] is closed.  [spawned] holds the hosts of the goroutines
    [go c.backgroundRefresh(host)] that have not begun to run. *)
Record DNSCache := mkCache {
  ttl : Z;
  negativeTTL : Z;
  entries : gmap bytes dnsEntry;
  negative : gmap bytes Z;
  inflight : gset bytes;
  dns_stopped : bool;
  spawned : gmultiset bytes
}.

(** What [net.LookupHost] answers. *)
Abbreviation lookup_result := (error + list bytes)%type.

Definition set_entries (f : gmap bytes dnsEntry → gmap bytes dnsEntry) (c : DNSCache) : DNSCache :=
  mkCache (ttl c) (negativeTTL c) (f (entries c)) (negative c) (inflight c) (dns_stopped c) (spawned c).
Definition set_negative (f : gmap bytes Z → gmap bytes Z) (c : DNSCache) : DNSCache :=
  mkCache (ttl c) (negativeTTL c) (entries c) (f (negative c)) (inflight c) (dns_stopped c) (spawned c).
Definition set_inflight (f : gset bytes → gset bytes) (c : DNSCache) : DNSCache :=
  mkCache (ttl c) (negativeTTL c) (entries c) (negative c) (f (inflight c)) (dns_stopped c) (spawned c).

Definition set_spawned (f : gmultiset bytes → gmultiset bytes) (c : DNSCache) : DNSCache :=
  mkCache (ttl c) (negativeTTL c) (entries c) (negative c) (inflight c) (dns_stopped c) (f (spawned c)).

(** [NewDNSCache(ttl, negativeTTL)] *)
Definition NewDNSCache (ttl negativeTTL : Z) : DNSCache :=
  mkCache (if ttl <=? 0 then 5 * Minute else ttl) (if negativeTTL <=? 0 then 5 * Second else negativeTTL)
    ∅ ∅ ∅ false ∅.

(** The error of the negative cache: a [*net.DNSError]. *)
Definition negativeErr : error := ENet false.

(** [addrs[idx%uint32(len(addrs))]]; no addresses is a division by zero. *)
Definition selected (e : dnsEntry) : outcome error (list bytes) :=
  match addrs e !! Z.to_nat (idx e `mod` u32 (Z.of_nat (length (addrs e)))) with
  | Some ip => Ret [ip]
  | None => Panic
  end.

(** What the first part of [LookupHost] finds: an answer; a flight to join; or a
    lookup to make. *)
Inductive found :=
  | Answer (o : outcome error (list bytes))
  | Join (stale : option (list bytes))
  | Lead (stale : option (list bytes)).

(** [age > c.ttl*4/5], for an entry that expires at [until] *)
Definition refreshDue (ttl until now : Z) : bool :=
  let age := i64 (ttl - (until - now)) in
  Z.quot (i64 (ttl * 4)) 5 <? age.

(** [go c.backgroundRefresh(host)] *)
Definition spawnRefresh (host : bytes) (c : DNSCache) : DNSCache := set_spawned (λ s, {[+ host +]} ⊎ s) c.

Section dns.

(** [net.ParseIP(host) != nil] *)
Variable isIP : bytes → bool.

Definition lookupCache (now : Z) (host : bytes) (c : DNSCache) : found * DNSCache :=
  if isIP host then (Answer (Ret [host]), c)
  else if match negative c !! host with Some t => now <? t | None => false end
  then (Answer (Fail negativeErr), c)
  else
    let miss stale :=
      if bool_decide (host ∈ inflight c) then (Join stale, c)
      else (Lead stale, set_inflight (λ s, {[ host ]} ∪ s) c) in
    match entries c !! host with
    | Some e =>
        if now <? expires e then
          let c := set_entries (insert host (mkEntry (addrs e) (expires e) (u32 (idx e + 1)))) c in
          (Answer (selected e), if refreshDue (ttl c) (expires e) now then spawnRefresh host c else c)
        else miss (Some (addrs e))
    | None => miss None
    end.

(** [addrs[:1]] and [addrs[0]] *)
Definition firstOf (l : list bytes) : outcome error (list bytes) :=
  match l with a :: _ => Ret [a] | [] => Panic end.

(** A follower, when the flight it joined has landed. *)
Definition afterJoin (stale : option (list bytes)) (res : lookup_result) : outcome error (list bytes) :=
  match res with
  | inl e => match stale with Some l => Ret l | None => Fail e end
  | inr l => firstOf l
  end.

(** The leader, when the resolver has answered; [later] is the clock then. *)
Definition afterLead (stale : option (list bytes)) (res : lookup_result) (later : Z) (host : bytes)
    (c : DNSCache) : outcome error (list bytes) * DNSCache :=
  let c := set_inflight (λ s, s ∖ {[ host ]}) c in
  match res with
  | inl e =>
      match stale with
      | Some l => (Ret l, c)
      | None => (Fail e, set_negative (insert host (later + negativeTTL c)) c)
      end
  | inr l =>
      let c := set_negative (delete host) c in
      (firstOf l, set_entries (insert host (mkEntry l (later + ttl c) 0)) c)
  end.

(** [LookupHost(host)] when nothing comes between its two parts: [res] is what the
    resolver answers, to this call or to the flight it joins. *)
Definition LookupHost (res : lookup_result) (now later : Z) (host : bytes) (c : DNSCache)
    : outcome error (list bytes) * DNSCache :=
  match lookupCache now host c with
  | (Answer o, c) => (o, c)
  | (Join stale, c) => (afterJoin stale res, c)
  | (Lead stale, c) => afterLead stale res later host c
  end.

(** [backgroundRefresh(host)]: its start, refused when a flight is under way, and
    what follows the resolver's answer. *)
Definition startRefresh (host : bytes) (c : DNSCache) : option DNSCache :=
  if bool_decide (host ∈ inflight c) then None else Some (set_inflight (λ s, {[ host ]} ∪ s) c).
Definition finishRefresh (res : lookup_result) (later : Z) (host : bytes) (c : DNSCache) : DNSCache :=
  let c := set_inflight (λ s, s ∖ {[ host ]}) c in
  match res with
  | inl _ | inr [] => c
  | inr l =>
      let c := set_negative (delete host) c in
      let i := match entries c !! host with Some old => idx old | None => 0 end in
      set_entries (insert host (mkEntry l (later + ttl c) i)) c
  end.
Definition backgroundRefresh (res : lookup_result) (later : Z) (host : bytes) (c : DNSCache) : DNSCache :=
  match startRefresh host c with Some c => finishRefresh res later host c | None => c end.

(** [Refresh(host)] *)
Definition Refresh (res : lookup_result) (later : Z) (host : bytes) (c : DNSCache)
    : outcome error (list bytes) * DNSCache :=
  match res with
  | inl e => (Fail e, c)
  | inr l => (Ret l, set_entries (insert host (mkEntry l (later + ttl c) 0)) c)
  end.

(** [Invalidate(host)], [Clear()] and [Stop()] *)
Definition Invalidate (host : bytes) (c : DNSCache) : DNSCache := set_entries (delete host) c.
Definition Clear (c : DNSCache) : DNSCache := set_entries (λ _, ∅) c.
Definition StopDNS (c : DNSCache) : DNSCache :=
  mkCache (ttl c) (negativeTTL c) (entries c) (negative c) (inflight c) true (spawned c).

(** A goroutine of [spawned] begins to run. *)
Definition runSpawned (host : bytes) (c : DNSCache) : DNSCache :=
  let c := set_spawned (λ s, s ∖ {[+ host +]}) c in
  default c (startRefresh host c).

(** One tick of [janitor], its two critical sections taken together: it drops what
    has expired and starts a refresh of what soon will. *)
Definition janitorTick (now : Z) (c : DNSCache) : DNSCache :=
  let prefetchThreshold := Z.quot (ttl c) 5 in
  let prefetch :=
    filter (λ p : bytes * dnsEntry, ¬ (expires p.2 < now) ∧ expires p.2 - now < prefetchThreshold) (entries c) in
  let c := set_entries (filter (λ p, ¬ (expires p.2 < now))) c in
  let c := set_negative (filter (λ p, ¬ (p.2 < now))) c in
  set_spawned (λ s, list_to_set_disj (map_to_list prefetch).*1 ⊎ s) c.

(** ** The invariant *)

(** Every entry has an address, so that no selection divides by zero. *)
Definition wfCache (c : DNSCache) : Prop :=
  0 < ttl c ∧ 0 < negativeTTL c ∧ map_Forall (λ _ e, addrs e ≠ [] ∧ Z.of_nat (length (addrs e)) < 2 ^ 32 ∧ 0 ≤ idx e < 2 ^ 32) (entries c).

(** What [net.LookupHost] documents: a success has at least one address. *)
Definition resolves (res : lookup_result) : Prop :=
  match res with inr l => l ≠ [] ∧ Z.of_nat (length l) < 2 ^ 32 | inl _ => True end.

Lemma NewDNSCache_wf t n : wfCache (NewDNSCache t n).
Proof.
  unfold wfCache, NewDNSCache, Minute, Second, Millisecond. simpl.
  split_and!; [case_if; lia .. | apply map_Forall_empty].
Qed.

Lemma selected_ok e :
  addrs e ≠ [] → Z.of_nat (length (addrs e)) < 2 ^ 32 →
  ∃ ip, addrs e !! Z.to_nat (idx e `mod` Z.of_nat (length (addrs e))) = Some ip ∧ selected e = Ret [ip].
Proof.
  intros Hne Hl. unfold selected, u32. rewrite (Z.mod_small (Z.of_nat _)) by lia.
  assert (0 < Z.of_nat (length (addrs e))) by (destruct (addrs e); simpl; [done | lia]).
  pose proof (Z.mod_pos_bound (idx e) (Z.of_nat (length (addrs e)))).
  destruct (lookup_lt_is_Some_2 (addrs e) (Z.to_nat (idx e `mod` Z.of_nat (length (addrs e))))) as [ip E]; [lia |].
  exists ip. by rewrite E.
Qed.

Lemma wf_insert c host l t i :
  wfCache c → l ≠ [] → Z.of_nat (length l) < 2 ^ 32 → 0 ≤ i < 2 ^ 32 →
  wfCache (set_entries (insert host (mkEntry l t i)) c).
Proof. intros (? & ? & Hm) ???. split_and!; try done. simpl. by apply map_Forall_insert_2. Qed.

Lemma lookupCache_wf now host c f c' : wfCache c → lookupCache now host c = (f, c') → wfCache c'.
Proof.
  intros Hc E. unfold lookupCache in E. destruct (isIP host); [by simplify_eq |].
  destruct (match negative c !! host with Some t => now <? t | None => false end); [by simplify_eq |].
  destruct (entries c !! host) as [e |] eqn:Ee.
  - pose proof Hc as (_ & _ & Hm). destruct (Hm _ _ Ee) as (? & ? & ?).
    destruct (now <? expires e).
    + injection E as _ <-. assert (wfCache (set_entries (insert host (mkEntry (addrs e) (expires e) (u32 (idx e + 1)))) c)) as Hw
        by (apply wf_insert; try done; unfold u32; apply Z.mod_pos_bound; lia).
      by destruct (refreshDue _ _ _).
    + case_bool_decide; by simplify_eq.
  - case_bool_decide; by simplify_eq.
Qed.

Lemma afterLead_wf stale res later host c :
  wfCache c → resolves res → (∀ l, stale = Some l → l ≠ []) →
  wfCache (afterLead stale res later host c).2 ∧ (afterLead stale res later host c).1 ≠ Panic.
Proof.
  intros Hc Hr Hs. unfold afterLead. destruct res as [e | l].
  - destruct stale; done.
  - destruct Hr as [Hne Hl]. destruct l as [|a l]; [done |]. split; [| done].
    by apply (wf_insert (set_negative (delete host) (set_inflight (λ s, s ∖ {[ host ]}) c))).
Qed.

(** The operations of the cache, as any caller, refresher or janitor may call them. *)
Inductive dnsStep : DNSCache → DNSCache → Prop :=
  | StepLookup now host c f c' : lookupCache now host c = (f, c') → dnsStep c c'
  | StepLead stale res later host c : resolves res → (∀ l, stale = Some l → l ≠ []) →
      dnsStep c (afterLead stale res later host c).2
  | StepRefreshStart host c : host ∈ spawned c → dnsStep c (runSpawned host c)
  | StepRefreshEnd res later host c : resolves res → dnsStep c (finishRefresh res later host c)
  | StepRefresh res later host c : resolves res → dnsStep c (Refresh res later host c).2
  | StepInvalidate host c : dnsStep c (Invalidate host c)
  | StepClear c : dnsStep c (Clear c)
  | StepJanitor now c : dnsStep c (janitorTick now c).

Lemma dnsStep_wf c c' : wfCache c → dnsStep c c' → wfCache c'.
Proof.
  intros Hc Hstep. pose proof Hc as (Ht & Hn & Hm).
  destruct Hstep as [now host c f c' E | stale res later host c Hr Hs | host c E | res later host c Hr
                    | res later host c Hr | host c | c | now c].
  - by eapply lookupCache_wf.
  - by apply afterLead_wf.
  - unfold runSpawned, startRefresh. by case_bool_decide.
  - unfold finishRefresh. destruct res as [e | [|a l]]; try done. destruct Hr as [Hne Hl].
    apply (wf_insert (set_negative (delete host) (set_inflight (λ s, s ∖ {[ host ]}) c))); try done.
    simpl. destruct (entries c !! host) eqn:E; [| lia]. apply (Hm _ _ E).
  - destruct res as [e | l]; [done |]. destruct Hr. by apply wf_insert.
  - split_and!; try done. simpl. by apply map_Forall_delete.
  - by split_and!.
  - split_and!; try done. simpl. intros h e [He _]%map_lookup_filter_Some. by apply (Hm h).
Qed.

(** Nothing usable in the cache, no flight under way: the caller asks the resolver. *)
Lemma lookupCache_lead now host c :
  isIP host = false → host ∉ inflight c →
  (∀ u, negative c !! host = Some u → u ≤ now) →
  (∀ e, entries c !! host = Some e → expires e ≤ now) →
  lookupCache now host c = (Lead (addrs <$> entries c !! host), set_inflight (λ s, {[ host ]} ∪ s) c).
Proof.
  intros Hip Hfl Hneg Hent. unfold lookupCache. rewrite Hip, bool_decide_eq_false_2 by done.
  assert (match negative c !! host with Some t => now <? t | None => false end = false) as ->.
  { destruct (negative c !! host) eqn:E; [| done]. apply Z.ltb_ge. by apply Hneg. }
  destruct (entries c !! host) as [e |] eqn:E; [| done].
  by rewrite (proj2 (Z.ltb_ge _ _)) by (by apply Hent).
Qed.

(** No lookup panics. *)
Lemma LookupHost_total res now later host c :
  wfCache c → resolves res →
  (∃ e, (LookupHost res now later host c).1 = Fail e) ∨ (∃ l, (LookupHost res now later host c).1 = Ret l ∧ l ≠ []).
Proof.
  intros Hc Hr. pose proof Hc as (_ & _ & Hm). unfold LookupHost, lookupCache.
  destruct (isIP host); [right; by eexists |].
  destruct (match negative c !! host with Some t => now <? t | None => false end); [left; by eexists |].
  assert (∀ stale c1, (∀ l, stale = Some l → l ≠ []) →
    (∃ e, (afterLead stale res later host c1).1 = Fail e) ∨
    (∃ l, (afterLead stale res later host c1).1 = Ret l ∧ l ≠ [])) as Hlead.
  { intros stale c1 Hs. unfold afterLead. destruct res as [e | [|a l]]; [| by destruct Hr | right; by eexists].
    destruct stale as [l |]; [right; exists l; auto | left; by eexists]. }
  assert (∀ stale, (∀ l, stale = Some l → l ≠ []) →
    (∃ e, afterJoin stale res = Fail e) ∨ (∃ l, afterJoin stale res = Ret l ∧ l ≠ [])) as Hjoin.
  { intros stale Hs. unfold afterJoin. destruct res as [e | [|a l]]; [| by destruct Hr | right; by eexists].
    destruct stale as [l |]; [right; exists l; auto | left; by eexists]. }
  destruct (entries c !! host) as [e |] eqn:Ee.
  - destruct (Hm _ _ Ee) as (Hne & Hl & _). destruct (now <? expires e).
    + destruct (selected_ok e Hne Hl) as (ip & _ & E). simpl. rewrite E. right. by eexists.
    + case_bool_decide; [apply Hjoin | apply Hlead]; by intros l [= <-].
  - case_bool_decide; [apply Hjoin | apply Hlead]; done.
Qed.

(** ** Hits *)

(** The address the [k]-th hit of an entry gives, in turn. *)
Definition nthAddr (l : list bytes) (k : nat) : outcome error (list bytes) :=
  match l !! (k mod length l)%nat with Some ip => Ret [ip] | None => Panic end.

Lemma firstOf_nth l : l ≠ [] → firstOf l = nthAddr l 0.
Proof. intros. unfold nthAddr. rewrite Nat.Div0.mod_0_l. by destruct l. Qed.

Lemma selected_nth l t k :
  l ≠ [] → Z.of_nat (length l) < 2 ^ 32 → selected (mkEntry l t (Z.of_nat k)) = nthAddr l k.
Proof.
  intros Hne Hl. unfold selected, nthAddr, u32. simpl. rewrite (Z.mod_small (Z.of_nat (length l))) by lia.
  rewrite <- Nat2Z.inj_mod, Nat2Z.id. done.
Qed.

(** What happens to a cache in use: lookups of any host, ticks of the janitor, and the
    refreshes these start, each beginning to run and then being answered by the
    resolver, in any order. *)
Inductive dnsEvent :=
  | Looks (h : bytes) (res : lookup_result) (now later : Z)
  | Ticks (now : Z)
  | Starts (h : bytes)
  | Lands (h : bytes) (res : lookup_result) (later : Z).

Definition perform (ev : dnsEvent) (c : DNSCache) : DNSCache :=
  match ev with
  | Looks h res now later => (LookupHost res now later h c).2
  | Ticks now => janitorTick now c
  | Starts h => if bool_decide (h ∈ spawned c) then runSpawned h c else c
  | Lands h res later => if bool_decide (h ∈ inflight c) then finishRefresh res later h c else c
  end.

(** The answers to the lookups of [host]. *)
Fixpoint answersTo (host : bytes) (evs : list dnsEvent) (c : DNSCache) : list (outcome error (list bytes)) :=
  match evs with
  | [] => []
  | ev :: evs =>
      match ev with
      | Looks h res now later => if decide (h = host) then [(LookupHost res now later h c).1] else []
      | _ => []
      end ++ answersTo host evs (perform ev c)
  end.

(** What the answers should be: the addresses in force are taken in turn.  [waiting]
    refreshes have been started, and one may be [flying]. *)
Record rotor := mkRotor { cur : list bytes; until : Z; turn : nat; waiting : nat; flying : bool }.

Definition rotate (T : Z) (host : bytes) (ev : dnsEvent) (r : rotor) : rotor :=
  let '(mkRotor l u k w f) := r in
  match ev with
  | Looks h _ now _ =>
      if decide (h = host) then mkRotor l u (S k) (if refreshDue T u now then S w else w) f else r
  | Ticks now => mkRotor l u k (if u - now <? Z.quot T 5 then S w else w) f
  | Starts h => if decide (h = host ∧ w ≠ 0%nat) then mkRotor l u k (pred w) true else r
  | Lands h res later =>
      if decide (h = host ∧ f = true) then
        match res with
        | inr (a :: t) => mkRotor (a :: t) (later + T) k w false
        | _ => mkRotor l u k w false
        end
      else r
  end.

Fixpoint turns (T : Z) (host : bytes) (evs : list dnsEvent) (r : rotor) : list (outcome error (list bytes)) :=
  match evs with
  | [] => []
  | ev :: evs =>
      match ev with Looks h _ _ _ => if decide (h = host) then [nthAddr (cur r) (turn r)] else [] | _ => [] end
      ++ turns T host evs (rotate T host ev r)
  end.

(** The entry is still alive whenever it is looked up or the janitor passes. *)
Fixpoint timely (T : Z) (host : bytes) (evs : list dnsEvent) (r : rotor) : Prop :=
  match evs with
  | [] => True
  | ev :: evs =>
      match ev with
      | Looks h _ now _ => h = host → now < until r
      | Ticks now => now ≤ until r
      | Starts _ => True
      | Lands _ res _ => resolves res
      end ∧ timely T host evs (rotate T host ev r)
  end.

(** The cache holds for [host] what the rotor says. *)
Record holds (T : Z) (host : bytes) (r : rotor) (c : DNSCache) : Prop := {
  h_ttl : ttl c = T;
  h_negative : negative c !! host = None;
  h_entry : entries c !! host = Some (mkEntry (cur r) (until r) (Z.of_nat (turn r)));
  h_addrs : resolves (inr (cur r));
  h_waiting : multiplicity host (spawned c) = waiting r;
  h_flying : host ∈ inflight c ↔ flying r = true
}.

(** Two caches that say the same of [host]. *)
Record agree (host : bytes) (c c' : DNSCache) : Prop := {
  ag_ttl : ttl c' = ttl c;
  ag_negative : negative c' !! host = negative c !! host;
  ag_entry : entries c' !! host = entries c !! host;
  ag_spawned : multiplicity host (spawned c') = multiplicity host (spawned c);
  ag_inflight : host ∈ inflight c' ↔ host ∈ inflight c
}.

Lemma agree_holds T host r c c' : agree host c c' → holds T host r c → holds T host r c'.
Proof. intros [E1 E2 E3 E4 E5] []. split; rewrite ?E1, ?E2, ?E3, ?E4, ?E5; done. Qed.

Ltac agree_tac :=
  split; simpl; rewrite ?lookup_insert_ne, ?lookup_delete_ne by done;
    rewrite ?multiplicity_disj_union, ?multiplicity_difference, ?multiplicity_singleton_ne by congruence;
    try done; try lia; try set_solver.

Lemma LookupHost_agree res now later h host c : h ≠ host → agree host c (LookupHost res now later h c).2.
Proof.
  intros Hne. unfold LookupHost, lookupCache. destruct (isIP h); [by split |].
  destruct (match negative c !! h with Some t => now <? t | None => false end); [by split |].
  assert (∀ stale, agree host c (match (if bool_decide (h ∈ inflight c) then (Join stale, c)
      else (Lead stale, set_inflight (λ s, {[ h ]} ∪ s) c)) with
    | (Answer o, c) => (o, c) | (Join stale, c) => (afterJoin stale res, c)
    | (Lead stale, c) => afterLead stale res later h c end).2) as Hmiss.
  { intros stale. case_bool_decide; [by split |]. unfold afterLead.
    destruct res; [destruct stale |]; agree_tac. }
  destruct (entries c !! h); [| apply Hmiss]. destruct (now <? _); [| apply Hmiss].
  destruct (refreshDue _ _ _); agree_tac.
Qed.

Lemma finishRefresh_agree res later h host c : h ≠ host → agree host c (finishRefresh res later h c).
Proof. intros Hne. unfold finishRefresh. destruct res as [| []]; agree_tac. Qed.

Lemma runSpawned_agree h host c : h ≠ host → agree host c (runSpawned h c).
Proof. intros Hne. unfold runSpawned, startRefresh. case_bool_decide; agree_tac. Qed.

(** A lookup of a live entry. *)
Lemma LookupHost_hit T host r c res now later :
  isIP host = false → holds T host r c → now < until r → Z.of_nat (S (turn r)) < 2 ^ 32 →
  (LookupHost res now later host c).1 = nthAddr (cur r) (turn r) ∧
  holds T host (rotate T host (Looks host res now later) r) (LookupHost res now later host c).2.
Proof.
  intros Hip [Ht Hn He Ha Hw Hf] Hnow Hk. destruct r as [l u k w f]. simpl in *.
  unfold LookupHost, lookupCache. rewrite Hip, Hn, He. simpl expires. rewrite (proj2 (Z.ltb_lt _ _)) by done.
  split; [by apply selected_nth; destruct Ha |]. rewrite decide_True by done.
  assert (u32 (Z.of_nat k + 1) = Z.of_nat (S k)) as Ek by (unfold u32; rewrite Z.mod_small; lia).
  simpl. rewrite Ht. destruct (refreshDue T u now); split; simpl; rewrite ?lookup_insert_eq, ?Ek; try done.
  rewrite multiplicity_disj_union, multiplicity_singleton_eq, Hw. done.
Qed.

Lemma multiplicity_NoDup (x : bytes) l :
  NoDup l → multiplicity x (list_to_set_disj l) = if decide (x ∈ l) then 1%nat else 0%nat.
Proof.
  induction 1 as [| y l Hy _ IH]; [case_decide as E; [by apply elem_of_nil in E | apply multiplicity_empty] |].
  rewrite list_to_set_disj_cons, multiplicity_disj_union, IH, multiplicity_singleton.
  repeat case_decide; subst; try done; set_solver.
Qed.

(** The janitor's pass over a live entry. *)
Lemma janitorTick_live T host r c now :
  holds T host r c → now ≤ until r → holds T host (rotate T host (Ticks now) r) (janitorTick now c).
Proof.
  intros [Ht Hn He Ha Hw Hf] Hnow. destruct r as [l u k w f]. simpl in *. unfold janitorTick. split; simpl; try done.
  - by rewrite map_lookup_filter_None; left.
  - rewrite map_lookup_filter_Some. split; [done | simpl; lia].
  - rewrite multiplicity_disj_union, multiplicity_NoDup, Hw, Ht by apply NoDup_fst_map_to_list.
    assert (host ∈ (map_to_list (filter (λ p : bytes * dnsEntry, ¬ (expires p.2 < now) ∧ expires p.2 - now < Z.quot T 5)
              (entries c))).*1 ↔ u - now < Z.quot T 5) as Hin.
    { rewrite list_elem_of_fmap. split.
      - intros ([h e] & -> & [Hl Hc]%elem_of_map_to_list%map_lookup_filter_Some). simpl in *. simplify_eq. simpl in Hc. lia.
      - intros Hu. exists (host, mkEntry l u (Z.of_nat k)). split; [done |].
        apply elem_of_map_to_list, map_lookup_filter_Some. split; [done | simpl; lia]. }
    destruct (Z.ltb_spec (u - now) (Z.quot T 5)) as [Hu | Hu].
    + by rewrite decide_True by (by apply Hin).
    + rewrite decide_False; [done |]. intros H%Hin. lia.
Qed.

Lemma runSpawned_holds T host r c :
  holds T host r c → host ∈ spawned c → holds T host (rotate T host (Starts host) r) (runSpawned host c).
Proof.
  intros [Ht Hn He Ha Hw Hf] Hs. destruct r as [l u k w f]. simpl in *.
  pose proof (proj1 (elem_of_multiplicity host (spawned c)) Hs) as Hm. rewrite decide_True by (split; [done | lia]).
  unfold runSpawned, startRefresh. case_bool_decide as Hi; simpl in Hi; split; simpl; try done;
    rewrite ?multiplicity_difference, ?multiplicity_singleton_eq; try lia; set_solver.
Qed.

Lemma finishRefresh_holds T host r c res later :
  holds T host r c → host ∈ inflight c → resolves res →
  holds T host (rotate T host (Lands host res later) r) (finishRefresh res later host c).
Proof.
  intros [Ht Hn He Ha Hw Hf] Hi Hr. destruct r as [l u k w f]. simpl in *.
  apply Hf in Hi as ->. rewrite decide_True by done. unfold finishRefresh.
  destruct res as [e | [| a t]]; split; simpl; rewrite ?lookup_delete_eq, ?lookup_insert_eq, ?He, ?Ht; try done; set_solver.
Qed.

Lemma perform_holds T host r c ev :
  isIP host = false → holds T host r c → Z.of_nat (S (turn r)) < 2 ^ 32 →
  timely T host [ev] r → holds T host (rotate T host ev r) (perform ev c).
Proof.
  intros Hip Hh Hk [Hev _]. destruct ev as [h res now later | now | h | h res later]; simpl in Hev.
  - destruct (decide (h = host)) as [-> |].
    + apply LookupHost_hit; auto.
    + destruct r. simpl. rewrite decide_False by done. eapply agree_holds; [by apply LookupHost_agree | done].
  - by apply janitorTick_live.
  - cbn [perform]. destruct (decide (h = host)) as [-> |].
    + case_bool_decide as Hs; [by apply runSpawned_holds |]. destruct r. simpl.
      rewrite decide_False; [done |]. intros [_ Hw]. destruct Hh as [_ _ _ _ Hm _]. simpl in Hm.
      apply Hs, elem_of_multiplicity. lia.
    + assert (rotate T host (Starts h) r = r) as -> by (destruct r; simpl; rewrite decide_False by naive_solver; done).
      case_bool_decide; [| done]. eapply agree_holds; [by apply runSpawned_agree | done].
  - cbn [perform]. destruct (decide (h = host)) as [-> |].
    + case_bool_decide as Hs; [by apply finishRefresh_holds |]. destruct r. simpl.
      rewrite decide_False; [done |]. intros [_ Hw]. destruct Hh as [_ _ _ _ _ Hf]. simpl in Hf. naive_solver.
    + assert (rotate T host (Lands h res later) r = r) as -> by (destruct r; simpl; rewrite decide_False by naive_solver; done).
      case_bool_decide; [| done]. eapply agree_holds; [by apply finishRefresh_agree | done].
Qed.

Lemma rotate_turn T host ev r : (turn (rotate T host ev r) ≤ S (turn r))%nat.
Proof.
  destruct r, ev; simpl; try case_decide; simpl; try lia.
  destruct res as [| []]; simpl; lia.
Qed.

(** The cache answers as the rotor does. *)
Lemma answersTo_turns T host evs r c :
  isIP host = false → holds T host r c → Z.of_nat (turn r + length evs) < 2 ^ 32 → timely T host evs r →
  answersTo host evs c = turns T host evs r.
Proof.
  intros Hip. revert r c. induction evs as [| ev evs IH]; intros r c Hh Hk Ht; [done |].
  destruct Ht as [Hev Hevs]. cbn [answersTo turns length] in *. f_equal.
  - destruct ev as [h res now later | | |]; try done. case_decide; [subst | done].
    f_equal. by apply (LookupHost_hit T host r c res now later Hip Hh (Hev eq_refl)); lia.
  - pose proof (rotate_turn T host ev r). apply IH; [| lia | done].
    apply perform_holds; try done. lia.
Qed.

(** Before four fifths of the entry's life have passed no refresh starts. *)
Definition early (T t : Z) (host : bytes) (ev : dnsEvent) : Prop :=
  match ev with
  | Looks h _ now _ => h = host → t ≤ now ∧ 5 * (now - t) ≤ 4 * T
  | Ticks now => t ≤ now ∧ 5 * (now - t) ≤ 4 * T
  | Starts _ => True
  | Lands _ res _ => resolves res
  end.

Definition looks (host : bytes) (ev : dnsEvent) : bool :=
  match ev with Looks h _ _ _ => bool_decide (h = host) | _ => false end.

Lemma rotate_early T t host ev l k :
  0 < T → 4 * T ≤ maxInt64 → early T t host ev →
  rotate T host ev (mkRotor l (t + T) k 0 false)
    = mkRotor l (t + T) (if looks host ev then S k else k) 0 false.
Proof.
  intros H0 H4 He.
  assert (∀ now, t ≤ now ∧ 5 * (now - t) ≤ 4 * T → refreshDue T (t + T) now = false) as Hd.
  { intros now [H1 H2]. unfold refreshDue. rewrite !i64_small by (unfold int64_range; lia).
    apply Z.ltb_ge. apply Z.quot_le_lower_bound; lia. }
  destruct ev as [h res now later | now | h | h res later]; simpl in *.
  - case_decide; subst; [rewrite bool_decide_eq_true_2, Hd by auto | rewrite bool_decide_eq_false_2]; done.
  - rewrite (proj2 (Z.ltb_ge _ _)); [done |]. transitivity (T / 5); [| dlia].
    rewrite Z.quot_div_nonneg; lia.
  - by rewrite decide_False by naive_solver.
  - by rewrite decide_False by naive_solver.
Qed.

Lemma early_turns T t host evs l k :
  0 < T → 4 * T ≤ maxInt64 → Forall (early T t host) evs →
  let r := mkRotor l (t + T) k 0 false in
  timely T host evs r ∧
  turns T host evs r = nthAddr l <$> seq k (length (List.filter (looks host) evs)).
Proof.
  intros H0 H4 He. revert k. induction He as [| ev evs He _ IH]; intros k r; [done |].
  destruct (IH (if looks host ev then S k else k)) as [IH1 IH2].
  cbn [timely turns List.filter]. unfold r. rewrite (rotate_early T t) by done. split.
  - split; [| done]. destruct ev; simpl in *; auto; try (intros ->; specialize (He eq_refl)); lia.
  - rewrite IH2. destruct ev as [h | | |]; simpl; try done.
    case_decide; [rewrite bool_decide_eq_true_2 | rewrite bool_decide_eq_false_2]; done.
Qed.

End dns.

(** C32: the positive cache.  Let the resolver answer a lookup at time [t] with [l], for a
    host with no live entry, flight or pending refresh: the answer is [l]'s first address.
    Then let lookups of any hosts, ticks of the janitor and background refreshes run in any
    order, each lookup of this host and each tick while the host's entry lives, without an
    explicit [Refresh], [Invalidate] or [Clear].  The n-th lookup of the host is answered
    from the cache with the n-th address, cyclically, of those then in force ([turns] says
    which): [l] until a refresh lands with other addresses, which live for another [ttl] and
    are entered at the same turn; a refresh that fails changes nothing; refreshes are started
    only by lookups past four fifths of the entry's life and by the janitor in its last
    fifth.  So while no lookup and no tick comes later than [t] plus four fifths of [ttl],
    the answers go through [l] in turn.  (Fewer than 2^32 events; for the last part
    4 * [ttl] fits 64 bits.) *)
Theorem dns_round_robin isIP c host l now t :
  wfCache c → isIP host = false → host ∉ inflight c → host ∉ spawned c →
  (∀ u, negative c !! host = Some u → u ≤ now) →
  (∀ e, entries c !! host = Some e → expires e ≤ now) →
  resolves (inr l) →
  let r := mkRotor l (t + ttl c) 0 0 false in
  ∃ c', LookupHost isIP (inr l) now t host c = (nthAddr l 0, c') ∧ wfCache c' ∧
    ∀ evs, Z.of_nat (length evs) < 2 ^ 32 →
      (timely (ttl c) host evs r → answersTo isIP host evs c' = turns (ttl c) host evs r) ∧
      (4 * ttl c ≤ maxInt64 → Forall (early (ttl c) t host) evs →
       answersTo isIP host evs c' = nthAddr l <$> seq 0 (length (List.filter (looks host) evs))).
Proof.
  intros Hc Hip Hfl Hsp Hneg Hent Hr r. pose proof Hr as [Hne Hl].
  unfold LookupHost. rewrite lookupCache_lead by done.
  set (c1 := set_inflight _ c). assert (wfCache c1) as Hc1 by done.
  unfold afterLead. eexists. split; [by rewrite firstOf_nth |]. set (c' := set_entries _ _). split.
  { by apply (wf_insert (set_negative (delete host) (set_inflight (λ s, s ∖ {[ host ]}) c1))). }
  assert (holds (ttl c) host r c') as Hh.
  { split; simpl; rewrite ?lookup_delete_eq, ?lookup_insert_eq; try done; [| set_solver].
    destruct (decide (multiplicity host (spawned c) = 0%nat)); [done |].
    destruct Hsp. apply elem_of_multiplicity. lia. }
  intros evs Hk. assert (timely (ttl c) host evs r → answersTo isIP host evs c' = turns (ttl c) host evs r) as Ht
    by (intros; by apply answersTo_turns).
  split; [done |]. intros H4 He. destruct Hc as (H0 & _).
  destruct (early_turns isIP (ttl c) t host evs l 0%nat H0 H4 He) as [H1 H2]. by rewrite Ht.
Qed.

(** Two lookups in turn; the next comes late and starts a refresh, whose new addresses
    are used from then on. *)
Lemma dns_round_robin_witness :
  let c := NewDNSCache Minute Second in
  let l := [str "10.0.0.1"; str "10.0.0.2"] in
  let l2 := [str "10.0.0.7"; str "10.0.0.8"; str "10.0.0.9"] in
  let look t := Looks (str "h") (inl EEOF) t t in
  let evs := [look 6; look 7; look (59 * Second); Starts (str "h"); Lands (str "h") (inr l2) (60 * Second); look (100 * Second)] in
  ∃ c', LookupHost (λ _, false) (inr l) 0 5 (str "h") c = (nthAddr l 0, c') ∧ wfCache c' ∧
    answersTo (λ _, false) (str "h") evs c'
      = [Ret [str "10.0.0.1"]; Ret [str "10.0.0.2"]; Ret [str "10.0.0.1"]; Ret [str "10.0.0.7"]] ∧
    answersTo (λ _, false) (str "h") (take 2 evs) c' = [Ret [str "10.0.0.1"]; Ret [str "10.0.0.2"]].
Proof.
  intros c l l2 look evs.
  destruct (dns_round_robin (λ _, false) c (str "h") l 0 5) as (c' & E & Hw & Hevs);
    [apply NewDNSCache_wf | done | done | by apply gmultiset_not_elem_of_empty | done .. |].
  exists c'. split; [exact E |]. split; [exact Hw |]. split.
  - destruct (Hevs evs) as [Ht _]; [simpl; lia |]. rewrite Ht; [reflexivity |].
    repeat split; intros; vm_compute; done.
  - destruct (Hevs (take 2 evs)) as [_ He]; [simpl; lia |]. apply He; [vm_compute; done |].
    repeat constructor; vm_compute; done.
Defined.

(** ** Failures *)

(** C33: the negative cache.  When the resolver fails a host that has no stale
    entry, every lookup before [negativeTTL] has passed fails at once, whatever
    the resolver would answer; from then on it is asked again.  The window is not
    shortened by [Refresh]: even a successful one, or [Invalidate] or [Clear],
    leaves the host unreachable until the window ends.  A host with an expired
    entry is served from it instead, and gets no negative entry. *)
Theorem dns_negative_window isIP c host e now t res fresh :
  wfCache c → isIP host = false → host ∉ inflight c →
  (∀ u, negative c !! host = Some u → u ≤ now) →
  (∀ x, entries c !! host = Some x → expires x ≤ now) →
  resolves (inr fresh) →
  let '(o, c') := LookupHost isIP (inl e) now t host c in
  match entries c !! host with
  | Some x => o = Ret (addrs x) ∧ negative c' !! host = negative c !! host
  | None =>
      o = Fail e ∧
      (∀ x, x < t + negativeTTL c → (LookupHost isIP res x x host c').1 = Fail negativeErr) ∧
      (∀ x c2, x < t + negativeTTL c → c2 ∈ [(Refresh (inr fresh) t host c').2; Invalidate host c'; Clear c'] →
         (LookupHost isIP res x x host c2).1 = Fail negativeErr) ∧
      (∀ x, t + negativeTTL c ≤ x → (LookupHost isIP (inr fresh) x x host c').1 = nthAddr fresh 0)
  end.
Proof.
  intros Hc Hip Hfl Hneg Hent [Hne Hl].
  unfold LookupHost at 1. rewrite lookupCache_lead by done.
  set (c1 := set_inflight _ c). unfold afterLead.
  destruct (entries c !! host) as [x |] eqn:Ex; simpl; [done |].
  assert (∀ x c2, x < t + negativeTTL c → negative c2 !! host = Some (t + negativeTTL c) →
            (LookupHost isIP res x x host c2).1 = Fail negativeErr) as Hwin.
  { intros x c2 Hx E. unfold LookupHost, lookupCache. rewrite Hip, E.
    by rewrite (proj2 (Z.ltb_lt _ _)) by done. }
  split_and!; [done | | |].
  - intros x Hx. apply Hwin; [done |]. simpl. apply lookup_insert_eq.
  - intros x c2 Hx Hin. apply Hwin; [done |].
    rewrite !elem_of_cons, elem_of_nil in Hin.
    destruct Hin as [-> | [-> | [-> | []]]]; simpl; apply lookup_insert_eq.
  - intros x Hx. unfold LookupHost. rewrite lookupCache_lead; simpl; try done.
    + by apply firstOf_nth.
    + set_solver.
    + intros u. rewrite lookup_insert_eq. intros [= <-]. done.
    + intros y. by rewrite Ex.
Qed.

Lemma dns_negative_window_witness :
  let c := NewDNSCache Minute Second in
  let '(o, c') := LookupHost (λ _, false) (inl EEOF) 0 5 (str "h") c in
  match entries c !! str "h" with
  | Some x => o = Ret (addrs x) ∧ negative c' !! str "h" = negative c !! str "h"
  | None =>
      o = Fail EEOF ∧
      (∀ x, x < 5 + negativeTTL c → (LookupHost (λ _, false) (inr [[1]]) x x (str "h") c').1 = Fail negativeErr) ∧
      (∀ x c2, x < 5 + negativeTTL c → c2 ∈ [(Refresh (inr [[1]]) 5 (str "h") c').2; Invalidate (str "h") c'; Clear c'] →
         (LookupHost (λ _, false) (inr [[1]]) x x (str "h") c2).1 = Fail negativeErr) ∧
      (∀ x, 5 + negativeTTL c ≤ x → (LookupHost (λ _, false) (inr [[1]]) x x (str "h") c').1 = nthAddr [[1]] 0)
  end.
Proof.
  apply (dns_negative_window (λ _, false) (NewDNSCache Minute Second) (str "h") EEOF 0 5 (inr [[1]]) [[1]]);
    first [done | apply NewDNSCache_wf].
Defined.
