(* ===== verification/IO.v ===== *)
(** * IO: the readers the parser is given

    [readChunkedBody] and [readResponseUntilEOF] take an [io.Reader]; the
    sequential path hands them the [net.Conn], the pipelined path a
    [bufio.Reader] around it.  [Reader] is that interface, [ReaderLaws] what
    the parser's theorems need of it, and [Conn] and [BufReader] are the two
    implementations.

    The peer is arbitrary: a [Conn] is the finite script of what successive
    [Read] calls find, each a packet of bytes with an optional error, then the
    error every later call returns (end of file, a timeout, ...).  A peer that never
    stops sending is represented by its finite beginnings: what is shown of every
    script (that the readers come to an end, for one) is shown of those. *)

From stdpp Require Import prelude list.
From S2P Require Import Prelude Errors.

(** [Read k r] is [r.Read(p)] with [len(p) = k]: the bytes stored in [p], the
    error, and the reader afterwards.  [budget] bounds the work left in it. *)
Class Reader (R : Type) := {
  Read : nat → R → bytes * option error * R;
  budget : R → nat
}.

(** What the parser relies on.  [stream r] is all that is still to come,
    [final r] the error that follows it; [prompt r] says that until then every
    read returns at least one byte and no error, as a TCP connection does. *)
Class ReaderLaws (R : Type) `{Reader R} := {
  stream : R → bytes;
  final : R → error;
  prompt : R → Prop;
  read_length k r d e r' : Read k r = (d, e, r') → (length d ≤ k)%nat;
  read_budget k r d e r' :
    (0 < k)%nat → Read k r = (d, e, r') →
    (budget r' + length d ≤ budget r)%nat ∧ (e = None → (budget r' < budget r)%nat);
  prompt_read k r :
    prompt r → (0 < k)%nat → stream r ≠ [] →
    ∃ d r', Read k r = (d, None, r') ∧ d ≠ [] ∧ (length d ≤ k)%nat ∧
            stream r = d ++ stream r' ∧ final r' = final r ∧ prompt r';
  prompt_end k r :
    prompt r → (0 < k)%nat → stream r = [] →
    ∃ r', Read k r = ([], Some (final r), r') ∧
          stream r' = [] ∧ final r' = final r ∧ prompt r'
}.

(** ** net.Conn, the reading side *)

Record Conn := mkConn { script : list (bytes * option error); atEnd : error }.

Definition connRead (k : nat) (c : Conn) : bytes * option error * Conn :=
  match script c with
  | [] => ([], Some (atEnd c), c)
  | (d, e) :: t =>
      if (length d <=? k)%nat then (d, e, mkConn t (atEnd c))
      else (take k d, None, mkConn ((drop k d, e) :: t) (atEnd c))
  end.

Definition connBudget (c : Conn) : nat :=
  foldr (λ p n, S (length p.1) + n)%nat 0%nat (script c).

#[global] Instance Conn_Reader : Reader Conn := { Read := connRead; budget := connBudget }.

Definition connPrompt (c : Conn) : Prop := Forall (λ p, p.1 ≠ [] ∧ p.2 = None) (script c).

#[global] Program Instance Conn_Laws : ReaderLaws Conn := {
  stream c := concat (script c).*1;
  final := atEnd;
  prompt := connPrompt
}.
Next Obligation.
  intros k [s e0] d e r'. simpl. unfold connRead. simpl.
  destruct s as [|[d0 e1] s]; simpl; [intros [= <- <- <-]; simpl; lia |].
  case_if; intros [= <- <- <-]; rewrite ?length_take; lia.
Qed.
Next Obligation.
  intros k [s e0] d e r' Hk. simpl. unfold connRead, connBudget. simpl.
  destruct s as [|[d0 e1] s]; simpl; [intros [= <- <- <-]; simpl; split; [lia | done] |].
  case_if; intros [= <- <- <-]; simpl; rewrite ?length_take, ?length_drop; split; intros; lia.
Qed.
Next Obligation.
  intros k [s e0] Hp Hk Hs. simpl in *. unfold connPrompt, connRead in *. simpl in *.
  destruct s as [|[d0 e1] s]; [done |].
  inversion_clear Hp as [|? ? [Hd He] Hp']. simpl in Hd, He. subst e1.
  destruct (Nat.leb_spec (length d0) k).
  - do 2 eexists. split; [done |]. simpl. repeat split; done.
  - do 2 eexists. split; [done |].
    assert (length (take k d0) = k) by (rewrite length_take; lia).
    assert (length (drop k d0) ≠ 0%nat) by (rewrite length_drop; lia).
    repeat split; simpl.
    + intros E. rewrite E in *. simpl in *. lia.
    + lia.
    + by rewrite app_assoc, take_drop.
    + constructor; [| done]. split; [| done]. simpl. by destruct (drop k d0).
Qed.
Next Obligation.
  intros k [s e0] Hp Hk Hs. simpl in *. unfold connPrompt, connRead in *. simpl in *.
  destruct Hp as [|[d0 e1] s [Hd _] _]; simpl in *; [by eexists |].
  by destruct d0.
Qed.

(** ** bufio.Reader *)

(** The unread bytes of the buffer, the error put aside by the last fill, the
    size asked for and the connection below. *)
Record BufReader := mkBuf {
  unread : bytes;
  berr : option error;
  askedSize : nat;
  below : Conn
}.

(** [bufio.NewReaderSize(c, size)] *)
Definition NewReaderSize (c : Conn) (size : nat) : BufReader := mkBuf [] None size c.

(** The size of the buffer: at least [minReadBufferSize]. *)
Definition bsize (b : BufReader) : nat := Nat.max (askedSize b) 16.

(** [(b *Reader) fill()] on an empty buffer; [n] counts the empty reads left
    before [io.ErrNoProgress]. *)
Fixpoint fillLoop (n : nat) (asked size : nat) (c : Conn) : BufReader :=
  match n with
  | O => mkBuf [] (Some ENoProgress) asked c
  | S n' =>
      match Read size c with
      | (d, Some e, c') => mkBuf d (Some e) asked c'
      | ([], None, c') => fillLoop n' asked size c'
      | (d, None, c') => mkBuf d None asked c'
      end
  end.

Definition maxConsecutiveEmptyReads : nat := 100.

(** [(b *Reader) ReadByte()] *)
Definition bufReadByte : go BufReader error Z := λ b,
  match unread b, berr b with
  | c :: t, _ => (Ret c, mkBuf t (berr b) (askedSize b) (below b))
  | [], Some e => (Fail e, mkBuf [] None (askedSize b) (below b))
  | [], None =>
      let b' := fillLoop maxConsecutiveEmptyReads (askedSize b) (bsize b) (below b) in
      match unread b', berr b' with
      | c :: t, _ => (Ret c, mkBuf t (berr b') (askedSize b) (below b'))
      | [], Some e => (Fail e, mkBuf [] None (askedSize b) (below b'))
      | [], None => (Hang, b')
      end
  end.

(** [(b *Reader) Read(p)] *)
Definition bufRead (k : nat) (b : BufReader) : bytes * option error * BufReader :=
  match unread b with
  | _ :: _ => (take k (unread b), None, mkBuf (drop k (unread b)) (berr b) (askedSize b) (below b))
  | [] =>
      match k, berr b with
      | O, e => ([], e, mkBuf [] None (askedSize b) (below b))
      | _, Some e => ([], Some e, mkBuf [] None (askedSize b) (below b))
      | _, None =>
          if (bsize b <=? k)%nat then
            let '(d, e, c) := Read k (below b) in (d, e, mkBuf [] None (askedSize b) c)
          else
            let '(d, e, c) := Read (bsize b) (below b) in
            match d with
            | [] => ([], e, mkBuf [] None (askedSize b) c)
            | _ => (take k d, None, mkBuf (drop k d) e (askedSize b) c)
            end
      end
  end.

Definition bufBudget (b : BufReader) : nat :=
  (length (unread b) + connBudget (below b))%nat.

#[global] Instance BufReader_Reader : Reader BufReader := { Read := bufRead; budget := bufBudget }.

(** A buffered reader over a prompt connection, no error put aside. *)
Definition bufPrompt (b : BufReader) : Prop :=
  prompt (below b) ∧ berr b = None.

Lemma bsize_pos b : (0 < bsize b)%nat.
Proof. unfold bsize. lia. Qed.

Lemma connRead_facts k c d e c' :
  (0 < k)%nat → Read k c = (d, e, c') →
  (length d ≤ k)%nat ∧ (connBudget c' + length d ≤ connBudget c)%nat ∧
  (e = None → (connBudget c' < connBudget c)%nat).
Proof.
  intros Hk H. split; [by eapply read_length |]. apply (read_budget k c d e c' Hk H).
Qed.

Lemma bufRead_length k b d e b' : bufRead k b = (d, e, b') → (length d ≤ k)%nat.
Proof.
  unfold bufRead. destruct (unread b) as [|c0 u].
  2: { intros [= <- <- <-]. rewrite length_take. lia. }
  destruct k as [|k]; [intros [= <- <- <-]; simpl; lia |].
  destruct (berr b); [intros [= <- <- <-]; simpl; lia |].
  case_if.
  - destruct (Read (S k) (below b)) as [[d' e'] c'] eqn:E. intros [= <- <- <-].
    by eapply read_length.
  - destruct (Read (bsize b) (below b)) as [[[|x d'] e'] c'] eqn:E; intros [= <- <- <-];
      simpl; rewrite ?length_take; lia.
Qed.

Lemma bufRead_budget k b d e b' :
  (0 < k)%nat → bufRead k b = (d, e, b') →
  (bufBudget b' + length d ≤ bufBudget b)%nat ∧
  (e = None → (bufBudget b' < bufBudget b)%nat).
Proof.
  intros Hk. unfold bufRead, bufBudget. destruct (unread b) as [|c0 u].
  2: { intros [= <- <- <-]. cbn [unread below].
       rewrite length_take, length_drop. simpl. split; intros; lia. }
  destruct k as [|k]; [lia |].
  destruct (berr b); [intros [= <- <- <-]; simpl; split; [lia | done] |].
  case_if.
  - destruct (Read (S k) (below b)) as [[d' e'] c'] eqn:E. intros [= <- <- <-].
    apply connRead_facts in E; [| lia]. simpl in *. destruct E as (? & ? & ?).
    split; [lia | auto].
  - destruct (Read (bsize b) (below b)) as [[[|x d'] e'] c'] eqn:E;
      intros [= <- <- <-]; apply connRead_facts in E as (Hl & Hb & He); try apply bsize_pos;
      cbn [unread below length] in *.
    + split; [lia | auto].
    + rewrite length_take, length_drop. simpl in *. split; intros; lia.
Qed.

#[global] Program Instance BufReader_Laws : ReaderLaws BufReader := {
  stream b := unread b ++ stream (below b);
  final b := final (below b);
  prompt := bufPrompt;
  read_length := bufRead_length;
  read_budget := bufRead_budget
}.
Next Obligation.
  intros k [u e a c] [Hp He] Hk Hs. cbn [Read BufReader_Reader unread berr below] in *.
  subst e. unfold bufRead. cbn [unread berr below askedSize].
  destruct u as [|x u].
  - destruct k as [|k]; [lia |].
    pose proof (bsize_pos (mkBuf [] None a c)) as Hbs.
    destruct (Nat.leb_spec (bsize (mkBuf [] None a c)) (S k)).
    + destruct (prompt_read (S k) c Hp ltac:(lia) Hs) as (d & c' & -> & Hd & Hl & Hst & Hf & Hp').
      do 2 eexists. split; [done |]. repeat split; done.
    + destruct (prompt_read _ c Hp Hbs Hs) as (d & c' & -> & Hd & Hl & Hst & Hf & Hp').
      destruct d as [|y d]; [done |].
      do 2 eexists. split; [done |]. cbn [unread below]. repeat split; try done.
      * rewrite length_take. lia.
      * cbn [app]. rewrite app_assoc, take_drop. done.
  - do 2 eexists. split; [done |]. cbn [unread below]. repeat split; try done.
    + by destruct k; [lia |].
    + rewrite length_take. lia.
    + by rewrite app_assoc, take_drop.
Qed.
Next Obligation.
  intros k [u e a c] [Hp He] Hk Hs. cbn [Read BufReader_Reader unread berr below] in *.
  subst e. apply app_nil in Hs as [-> Hs]. unfold bufRead. cbn [unread berr below askedSize].
  destruct k as [|k]; [lia |].
  pose proof (bsize_pos (mkBuf [] None a c)) as Hbs.
  case_if.
  - destruct (prompt_end (S k) c Hp ltac:(lia) Hs) as (c' & -> & Hst & Hf & Hp').
    eexists. split; [done |]. repeat split; done.
  - destruct (prompt_end _ c Hp Hbs Hs) as (c' & -> & Hst & Hf & Hp').
    eexists. split; [done |]. repeat split; done.
Qed.

Lemma buf_stream b : stream b = unread b ++ stream (below b).
Proof. done. Qed.

(** A byte of a prompt buffered reader is the next byte of its stream. *)
Lemma bufReadByte_prompt b x s :
  prompt b → stream b = x :: s →
  ∃ b', bufReadByte b = (Ret x, b') ∧ stream b' = s ∧ final b' = final b ∧ prompt b'.
Proof.
  destruct b as [u e a c]. intros [Hp He] Hs.
  rewrite buf_stream in Hs. cbn [unread berr below] in *. subst e.
  unfold bufReadByte. cbn [unread berr below askedSize].
  destruct u as [|y u].
  - rewrite app_nil_l in Hs.
    destruct (prompt_read _ c Hp (bsize_pos (mkBuf [] None a c))) as (d & c' & HR & Hd & Hl & Hst & Hf & Hp').
    { by rewrite Hs. }
    unfold maxConsecutiveEmptyReads. change 100%nat with (S 99). cbn [fillLoop].
    rewrite HR. destruct d as [|y d]; [done |]. cbn [unread berr below].
    rewrite Hst in Hs. injection Hs as -> Hs.
    eexists. split; [done |]. repeat split; done.
  - injection Hs as -> Hs. eexists. split; [done |]. repeat split; done.
Qed.

(** ** io.ReadFull *)

(** [io.ReadFull(r, buf)] with [want] bytes still missing: the bytes stored and
    the error.  Every error-free read uses up budget, so it is enough fuel. *)
Section read_full.

Context {R : Type} `{Reader R}.

Fixpoint readFullLoop (fuel want : nat) (got : bytes) (r : R) : outcome error unit * bytes * R :=
  match want with
  | O => (Ret tt, got, r)
  | _ =>
      match fuel with
      | O => (Hang, got, r)
      | S fuel' =>
          match Read want r with
          | (d, None, r') => readFullLoop fuel' (want - length d) (got ++ d) r'
          | (d, Some e, r') =>
              let got := got ++ d in
              if (want <=? length d)%nat then (Ret tt, got, r')
              else
                match e, got with
                | EEOF, _ :: _ => (Fail EUnexpectedEOF, got, r')
                | _, _ => (Fail e, got, r')
                end
          end
      end
  end.

Definition ReadFull (want : nat) (r : R) : outcome error unit * bytes * R :=
  readFullLoop (S (budget r)) want [] r.

Context `{!ReaderLaws R}.

Lemma readFullLoop_prompt fuel want got r body rest :
  prompt r → stream r = body ++ rest → length body = want → (budget r < fuel)%nat →
  ∃ r', readFullLoop fuel want got r = (Ret tt, got ++ body, r') ∧
        stream r' = rest ∧ final r' = final r ∧ prompt r'.
Proof.
  revert want got r body. induction fuel as [|fuel IH]; intros want got r body Hp Hs Hl Hf;
    [lia |].
  destruct want as [|want].
  { apply nil_length_inv in Hl as ->. exists r. rewrite app_nil_r. done. }
  assert (stream r ≠ []) as Hne by (rewrite Hs; by destruct body).
  destruct (prompt_read (S want) r Hp ltac:(lia) Hne) as (d & r1 & HR & Hd & Hld & Hst & Hf1 & Hp1).
  cbn [readFullLoop]. rewrite HR.
  apply read_budget in HR as [_ Hb]; [| lia]. specialize (Hb eq_refl).
  rewrite Hst in Hs.
  apply app_split_le in Hs as (body2 & -> & Hs); [| lia].
  rewrite length_app in Hl.
  destruct (IH (S want - length d)%nat (got ++ d) r1 body2)
    as (r2 & -> & Hs2 & Hf2 & Hp2); try done; [lia | lia |].
  exists r2. rewrite <- app_assoc. repeat split; done || congruence.
Qed.

Lemma ReadFull_prompt want r body rest :
  prompt r → stream r = body ++ rest → length body = want →
  ∃ r', ReadFull want r = (Ret tt, body, r') ∧
        stream r' = rest ∧ final r' = final r ∧ prompt r'.
Proof. intros. eapply (readFullLoop_prompt _ _ []); eauto. Qed.

Lemma readFullLoop_halts fuel want got r :
  (budget r < fuel)%nat → (readFullLoop fuel want got r).1.1 ≠ Hang.
Proof.
  revert want got r. induction fuel as [|fuel IH]; intros want got r Hf; [lia |].
  destruct want as [|want]; [done |]. cbn [readFullLoop].
  destruct (Read (S want) r) as [[d [e|]] r1] eqn:HR.
  - case_if; [done |]. destruct e, (got ++ d); done.
  - apply IH. apply read_budget in HR as [_ Hb]; [| lia]. specialize (Hb eq_refl). lia.
Qed.

End read_full.
