(* ===== verification/Scan.v ===== *)
(** * Scan: the header scanners of the response parser (src/parser.go)

    The pure functions that find and read the parts of a response head:
    [findHeaderEnd], [parseStatusCode], [parseContentLength],
    [parseTransferEncoding], [containsChunked], [headerBytesFromRaw] and the
    line loop of [parseHeaders].  A Go loop over [i] with [buf[i]] is a
    recursion on the suffix [buf[i:]]. *)

From stdpp Require Import prelude list.
From S2P Require Import Prelude Strconv.

(** [type Header struct] (src/request.go) *)
Record Header := mkHeader { Key : bytes; Value : bytes }.

#[global] Instance Header_eq_dec : EqDecision Header.
Proof. solve_decision. Defined.

(** ** Loops the scanners share *)

(** [for i < len(l) && p(l[i]) { i++ }]: what is left. *)
Fixpoint skipWhile (p : Z → bool) (l : bytes) : bytes :=
  match l with
  | [] => []
  | c :: t => if p c then skipWhile p t else l
  end.

(** [for end > start && p(l[end-1]) { end-- }]: what is left. *)
Definition skipWhileEnd (p : Z → bool) (l : bytes) : bytes :=
  reverse (skipWhile p (reverse l)).

(** The two blank-trimming loops around a key or a value. *)
Definition trimBlank (l : bytes) : bytes := skipWhileEnd isBlank (skipWhile isBlank l).

(** The inner loop [for j := 0; j < headerLen; j++] that compares the start of
    [l], letter case ignored, with a lower-case constant. *)
Fixpoint matchFold (pat l : bytes) : bool :=
  match pat, l with
  | [], _ => true
  | p :: pat', c :: l' => if lower c =? p then matchFold pat' l' else false
  | _ :: _, [] => false
  end.

(** The search for the next CRLF: the line before it and what follows it. *)
Fixpoint cutCRLF (l : bytes) : option (bytes * bytes) :=
  match l with
  | a :: (b :: t) as l' =>
      if (a =? CR) && (b =? LF) then Some ([], t)
      else match cutCRLF l' with
           | Some (line, rest) => Some (a :: line, rest)
           | None => None
           end
  | _ => None
  end.

(** The search for the first colon of a line. *)
Fixpoint cutColon (l : bytes) : option (bytes * bytes) :=
  match l with
  | [] => None
  | c :: t =>
      if c =? COLON then Some ([], t)
      else match cutColon t with
           | Some (k, v) => Some (c :: k, v)
           | None => None
           end
  end.

(** ** findHeaderEnd *)

(** The loop at index [i], on the suffix [buf[i:]]. *)
Fixpoint findHeaderEnd_from (i : Z) (l : bytes) : Z :=
  match l with
  | a :: ((b :: ((c :: d :: _) as l2)) as l1) =>
      if a =? CR then
        if (b =? LF) && (c =? CR) && (d =? LF) then i + 4
        else if b =? LF then findHeaderEnd_from (i + 2) l2
        else findHeaderEnd_from (i + 1) l1
      else findHeaderEnd_from (i + 1) l1
  | _ => -1
  end.

Definition findHeaderEnd (buf : bytes) : Z :=
  if len buf <? 4 then -1 else findHeaderEnd_from 0 buf.

(** ** parseStatusCode *)

Definition parseStatusCode (buf : bytes) : Z * bool :=
  if len buf <? 12 then (0, false)
  else if negb (bool_decide (take 5 buf = str "HTTP/")) then (0, false)
  else
    let rest := skipWhile isBlank (skipWhile (λ c, negb (isBlank c)) (drop 5 buf)) in
    match rest with
    | a :: b :: c :: _ =>
        if (a <? 49) || (57 <? a) || (b <? 48) || (57 <? b) || (c <? 48) || (57 <? c)
        then (0, false)
        else
          let code := (a - 48) * 100 + (b - 48) * 10 + (c - 48) in
          (code, (100 <=? code) && (code <? 600))
    | _ => (0, false)
    end.

(** ** parseContentLength *)

Definition contentLengthName : bytes := str "content-length:".

(** The digit loop; [length] wraps at 64 bits. *)
Fixpoint contentLengthDigits (l : bytes) (length digits : Z) : Z * bool :=
  match l with
  | [] => (length, 0 <? digits)
  | ch :: t =>
      if isDigit ch then contentLengthDigits t (i64 (length * 10 + (ch - 48))) (digits + 1)
      else if (ch =? CR) || (ch =? LF) then (length, 0 <? digits)
      else if (ch =? SP) || (ch =? HT) then contentLengthDigits t length digits
      else (0, false)
  end.

Fixpoint parseContentLength (l : bytes) : Z * bool :=
  match l with
  | [] => (0, false)
  | b :: t =>
      if len l <? len contentLengthName then (0, false)
      else if negb (b =? 99) && negb (b =? 67) then parseContentLength t
      else if negb (matchFold contentLengthName l) then parseContentLength t
      else contentLengthDigits (skipWhile isBlank (drop (length contentLengthName) l)) 0 0
  end.

(** ** parseTransferEncoding *)

Fixpoint containsChunked (b : bytes) : bool :=
  match b with
  | [] => false
  | _ :: t =>
      if len b <? 7 then false
      else if matchFold (str "chunked") b then true else containsChunked t
  end.

Definition transferEncodingName : bytes := str "transfer-encoding:".

(** [skip] counts the positions the assignment [i = end] jumps over. *)
Fixpoint parseTransferEncoding_from (skip : nat) (l : bytes) : bool :=
  match l with
  | [] => false
  | b :: t =>
      match skip with
      | S skip' => parseTransferEncoding_from skip' t
      | O =>
          if len l <? len transferEncodingName then false
          else if negb (b =? 116) && negb (b =? 84) then parseTransferEncoding_from 0 t
          else if negb (matchFold transferEncodingName l) then parseTransferEncoding_from 0 t
          else
            let val := skipWhile isBlank (drop (length transferEncodingName) l) in
            let rest := skipWhile (λ c, negb ((c =? CR) || (c =? LF))) val in
            if containsChunked (take (length val - length rest) val) then true
            else parseTransferEncoding_from (length l - length rest) t
      end
  end.

Definition parseTransferEncoding (buf : bytes) : bool := parseTransferEncoding_from 0 buf.

(** ** The header lines *)

(** One line of [parseHeaders]: a header is kept when the colon is not the
    first character and neither part is empty once trimmed. *)
Definition parseHeaderLine (line : bytes) : option Header :=
  match cutColon line with
  | Some (k, v) =>
      if bool_decide (k = []) then None
      else
        let key := trimBlank k in
        let value := trimBlank v in
        if bool_decide (key = []) || bool_decide (value = []) then None
        else Some (mkHeader key value)
  | None => None
  end.

(** The line loop of [parseHeaders]; every turn consumes a line, so the number
    of bytes is enough fuel. *)
Fixpoint parseHeaderLines (fuel : nat) (l : bytes) : list Header :=
  match fuel with
  | O => []
  | S fuel' =>
      match cutCRLF l with
      | None | Some ([], _) => []
      | Some (line, rest) =>
          match parseHeaderLine line with
          | Some h => h :: parseHeaderLines fuel' rest
          | None => parseHeaderLines fuel' rest
          end
      end
  end.

(** The headers [parseHeaders] stores, or [None] when it returns before it
    touches [resp.Headers]. *)
Definition scanHeaders (headerBuf : bytes) : option (list Header) :=
  match cutCRLF headerBuf with
  | None | Some (_, []) => None
  | Some (_, rest) => Some (parseHeaderLines (length rest) rest)
  end.

(** ** strEqualFoldASCII (src/response.go) *)

Fixpoint equalFold_loop (a b : bytes) : bool :=
  match a, b with
  | ca :: a', cb :: b' => if lower ca =? lower cb then equalFold_loop a' b' else false
  | _, _ => true
  end.

Definition strEqualFoldASCII (a b : bytes) : bool :=
  if negb (len a =? len b) then false else equalFold_loop a b.

(** ** headerBytesFromRaw *)

Fixpoint headerBytes_loop (fuel : nat) (l key : bytes) : option bytes :=
  match fuel with
  | O => None
  | S fuel' =>
      match cutCRLF l with
      | None | Some ([], _) => None
      | Some (line, rest) =>
          match cutColon line with
          | Some (k, v) =>
              if negb (bool_decide (k = [])) && strEqualFoldASCII (trimBlank k) key
              then Some (trimBlank v)
              else headerBytes_loop fuel' rest key
          | None => headerBytes_loop fuel' rest key
          end
      end
  end.

(** [None] is the nil slice. *)
Definition headerBytesFromRaw (raw key : bytes) : option bytes :=
  if bool_decide (raw = []) || bool_decide (key = []) then None
  else
    let l := match cutCRLF raw with Some (_, rest) => rest | None => raw end in
    headerBytes_loop (length l) l key.

(** ** First checks *)

Definition s200 : bytes := str "HTTP/1.1 200 OK" ++ crlf.

Example scan_ex :
  let h := s200 ++ str "Content-Length: 12" ++ crlf ++ str "X-A:  b " ++ crlf ++ crlf in
  (findHeaderEnd (h ++ str "body"), parseStatusCode h, parseContentLength h,
   parseTransferEncoding h, scanHeaders h, headerBytesFromRaw h (str "x-a"))
  = (len h, (200, true), (12, true), false,
     Some [mkHeader (str "Content-Length") (str "12"); mkHeader (str "X-A") (str "b")],
     Some (str "b")).
Proof. vm_compute. reflexivity. Qed.

(** ** Lemmas on the shared loops *)

Section loops.

Implicit Types l a b : bytes.

Lemma skipWhile_app p a b :
  Forall (λ c, p c = true) a → skipWhile p (a ++ b) = skipWhile p b.
Proof. induction 1 as [|c a Hc Ha IH]; simpl; [done |]. by rewrite Hc. Qed.

Lemma skipWhile_stop p c l : p c = false → skipWhile p (c :: l) = c :: l.
Proof. intros H. simpl. by rewrite H. Qed.

Lemma skipWhile_split p l :
  ∃ a, l = a ++ skipWhile p l ∧ Forall (λ c, p c = true) a.
Proof.
  induction l as [|c l (a & Hl & Ha)]; [by exists [] |]. simpl.
  destruct (p c) eqn:E.
  - exists (c :: a). simpl. split; [by f_equal | by constructor].
  - by exists [].
Qed.

Lemma skipWhile_head p l c t : skipWhile p l = c :: t → p c = false.
Proof.
  induction l as [|d l IH]; simpl; [done |].
  destruct (p d) eqn:E; [done |]. by intros [= -> ->].
Qed.

Lemma cutCRLF_line line rest :
  Forall (λ c, c ≠ CR) line → cutCRLF (line ++ crlf ++ rest) = Some (line, rest).
Proof.
  induction 1 as [|c line Hc _ IH]; [done |].
  assert (∃ d t, line ++ crlf ++ rest = d :: t) as (d & t & E).
  { destruct line; simpl; eauto. }
  simpl app. simpl app in IH, E. rewrite E in *. simpl.
  rewrite (proj2 (Z.eqb_neq c CR)) by done. simpl in *. by rewrite IH.
Qed.

Lemma cutCRLF_cons (a b : Z) (t : bytes) :
  cutCRLF (a :: b :: t) =
  if (a =? CR) && (b =? LF) then Some ([], t)
  else match cutCRLF (b :: t) with Some (line, rest) => Some (a :: line, rest) | None => None end.
Proof. done. Qed.

Lemma cutCRLF_inv l line rest :
  cutCRLF l = Some (line, rest) → l = line ++ crlf ++ rest.
Proof.
  revert line rest. induction l as [|a l IH]; intros line rest; [done |].
  destruct l as [|b t]; [done |]. rewrite cutCRLF_cons.
  destruct (cutCRLF (b :: t)) as [[l' r']|] eqn:E.
  - case_if; [case_if |]; intros [= <- <-]; subst; [done | |]; simpl; f_equal; by apply IH.
  - case_if; [case_if |]; [| done..]. intros [= <- <-]. by subst.
Qed.

Lemma cutColon_key k v :
  Forall (λ c, c ≠ COLON) k → cutColon (k ++ COLON :: v) = Some (k, v).
Proof.
  induction 1 as [|c k Hc _ IH]; [done |]. simpl.
  rewrite (proj2 (Z.eqb_neq c COLON)) by done. by rewrite IH.
Qed.

Lemma trimBlank_blank c l : isBlank c = true → trimBlank (c :: l) = trimBlank l.
Proof. intros H. unfold trimBlank. simpl. by rewrite H. Qed.

End loops.

(** ** findHeaderEnd finds the first blank line *)

Definition headerSep : bytes := crlf ++ crlf.

(** [r] is what the search from index [i] must return on the suffix [l]. *)
Definition first_end (i : Z) (l : bytes) (r : Z) : Prop :=
  (r = -1 ∧ ∀ n, ¬ sep_at headerSep l n) ∨
  (∃ n : nat, r = i + Z.of_nat n + 4 ∧ sep_at headerSep l n ∧
              ∀ m, (m < n)%nat → ¬ sep_at headerSep l m).

Lemma first_end_skip i (a : Z) l r :
  ¬ sep_at headerSep (a :: l) 0 → first_end (i + 1) l r → first_end i (a :: l) r.
Proof.
  intros H0 [[-> Hn] | (n & -> & Hn & Hmin)].
  - left. split; [done |]. intros [|n]; [done | apply Hn].
  - right. exists (S n). split; [lia |]. split; [done |].
    intros [|m] Hm; [done |]. apply Hmin. lia.
Qed.

Lemma first_end_short i l : (length l < 4)%nat → first_end i l (-1).
Proof.
  intros H. left. split; [done |]. intros n Hn.
  apply sep_at_length in Hn; [simpl in Hn; lia | done].
Qed.

Ltac not_sep := unfold sep_at, headerSep, crlf; simpl; congruence.

Lemma findHeaderEnd_from_cons i (a b c d : Z) t :
  findHeaderEnd_from i (a :: b :: c :: d :: t) =
  if a =? CR then
    if (b =? LF) && (c =? CR) && (d =? LF) then i + 4
    else if b =? LF then findHeaderEnd_from (i + 2) (c :: d :: t)
    else findHeaderEnd_from (i + 1) (b :: c :: d :: t)
  else findHeaderEnd_from (i + 1) (b :: c :: d :: t).
Proof. done. Qed.

Lemma findHeaderEnd_from_first k l i :
  (length l ≤ k)%nat → first_end i l (findHeaderEnd_from i l).
Proof.
  revert l i. induction k as [|k IH]; intros l i Hk.
  { apply Nat.le_0_r, nil_length_inv in Hk as ->. apply first_end_short. simpl; lia. }
  destruct l as [|a [|b [|c [|d t]]]]; try (apply first_end_short; simpl; lia).
  simpl in Hk. rewrite findHeaderEnd_from_cons.
  destruct (Z.eqb_spec a CR); [| apply first_end_skip; [not_sep | apply IH; simpl; lia]].
  destruct (Z.eqb_spec b LF); [| apply first_end_skip; [not_sep | apply IH; simpl; lia]].
  assert (¬ (c = CR ∧ d = LF) → first_end i (a :: b :: c :: d :: t)
            (findHeaderEnd_from (i + 2) (c :: d :: t))) as Hskip.
  { intros Hcd. subst. apply first_end_skip; [| apply first_end_skip; [not_sep |]].
    - unfold sep_at, headerSep, crlf. simpl. intros [= -> ->]. by apply Hcd.
    - replace (i + 1 + 1) with (i + 2) by lia. apply IH. simpl. lia. }
  destruct (Z.eqb_spec c CR), (Z.eqb_spec d LF); cbn [andb]; try (apply Hskip; tauto).
  subst. right. exists 0%nat. split; [lia |]. split; [done | lia].
Qed.

Lemma findHeaderEnd_first buf : first_end 0 buf (findHeaderEnd buf).
Proof.
  unfold findHeaderEnd. case_if.
  - apply first_end_short. unfold len in *. lia.
  - by apply (findHeaderEnd_from_first (length buf)).
Qed.

(** A head that ends at its first blank line. *)
Definition isHead (head : bytes) : Prop :=
  ∃ n, length head = (n + 4)%nat ∧ sep_at headerSep head n ∧
       ∀ m, (m < n)%nat → ¬ sep_at headerSep head m.

Lemma headerSep_length : length headerSep = 4%nat.
Proof. done. Qed.

Lemma first_end_inj i l r1 r2 : 0 ≤ i → first_end i l r1 → first_end i l r2 → r1 = r2.
Proof.
  intros Hi [[-> Hn] | (n & -> & Hn & Hmin)] [[-> Hn'] | (n' & -> & Hn' & Hmin')].
  - done.
  - by destruct (Hn n').
  - by destruct (Hn' n).
  - destruct (decide (n = n')) as [-> | Hne]; [done |].
    destruct (decide (n < n')%nat).
    + by destruct (Hmin' n).
    + destruct (Hmin n'); [lia | done].
Qed.

(** The head followed by any bytes ends where the head ends. *)
Lemma findHeaderEnd_head head x : isHead head → findHeaderEnd (head ++ x) = len head.
Proof.
  intros (n & Hlen & Hn & Hmin).
  apply (first_end_inj 0 (head ++ x)); [done | apply findHeaderEnd_first |].
  right. exists n. unfold len. split; [lia |]. split.
  - apply sep_at_app_l; [rewrite headerSep_length; lia | done].
  - intros m Hm Hs. apply (Hmin m); [done |].
    apply (sep_at_app_l _ _ x); [rewrite headerSep_length; lia | done].
Qed.

(** The search itself decides whether bytes are exactly a head. *)
Lemma isHead_intro head : findHeaderEnd head = len head → isHead head.
Proof.
  intros E. destruct (findHeaderEnd_first head) as [[E' _] | (n & E' & Hn & Hmin)];
    rewrite E in E'; unfold len in E'; [lia |].
  exists n. split; [lia | done].
Qed.

(** A proper prefix of the head has no header end. *)
Lemma findHeaderEnd_partial p q :
  isHead (p ++ q) → q ≠ [] → findHeaderEnd p = -1.
Proof.
  intros (n & Hlen & Hn & Hmin) Hq.
  apply (first_end_inj 0 p); [done | apply findHeaderEnd_first |].
  left. split; [done |]. intros m Hs.
  pose proof (sep_at_length headerSep p m ltac:(done) Hs) as Hm.
  rewrite headerSep_length in Hm. rewrite length_app in Hlen.
  assert (length q ≠ 0%nat) by (by destruct q).
  apply (Hmin m); [lia |]. by apply sep_at_app_l.
Qed.

(** ** Status lines *)

Definition digits3 (n : Z) : bytes :=
  [48 + n / 100; 48 + (n / 10) `mod` 10; 48 + n `mod` 10].

Lemma digits3_value a b c :
  49 ≤ a ≤ 57 → 48 ≤ b ≤ 57 → 48 ≤ c ≤ 57 →
  digits3 ((a - 48) * 100 + (b - 48) * 10 + (c - 48)) = [a; b; c].
Proof.
  intros Ha Hb Hc. unfold digits3.
  assert (((a - 48) * 100 + (b - 48) * 10 + (c - 48)) / 100 = a - 48) as -> by dlia.
  assert (((a - 48) * 100 + (b - 48) * 10 + (c - 48)) / 10 = (a - 48) * 10 + (b - 48)) as -> by dlia.
  repeat f_equal; dlia.
Qed.

(** The shape [parseStatusCode] accepts, with the code [code]. *)
Definition statusLine (code : Z) (buf : bytes) : Prop :=
  ∃ version blanks rest,
    buf = str "HTTP/" ++ version ++ blanks ++ digits3 code ++ rest ∧
    Forall (λ c, isBlank c = false) version ∧
    blanks ≠ [] ∧ Forall (λ c, isBlank c = true) blanks ∧
    100 ≤ code < 600 ∧ 12 ≤ len buf.

Lemma digits3_nonblank code :
  100 ≤ code < 600 → ∃ a b c, digits3 code = [a; b; c] ∧ isBlank a = false ∧
    49 ≤ a ≤ 57 ∧ 48 ≤ b ≤ 57 ∧ 48 ≤ c ≤ 57 ∧
    (a - 48) * 100 + (b - 48) * 10 + (c - 48) = code.
Proof.
  intros H. unfold digits3. do 3 eexists. split; [done |].
  assert (1 ≤ code / 100 ≤ 5) by dlia.
  repeat split; try dlia. unfold isBlank.
  rewrite (proj2 (Z.eqb_neq _ _)), (proj2 (Z.eqb_neq _ _)) by lia. done.
Qed.

Lemma parseStatusCode_complete code buf :
  statusLine code buf → parseStatusCode buf = (code, true).
Proof.
  intros (v & bl & rest & -> & Hv & Hne & Hbl & Hc & Hlen). unfold parseStatusCode.
  rewrite (proj2 (Z.ltb_ge _ _)) by done.
  rewrite take_app_length', drop_app_length' by done.
  rewrite bool_decide_eq_true_2 by done. cbn [negb].
  rewrite skipWhile_app by (eapply Forall_impl; [exact Hv |]; by intros ? ->).
  assert (∀ x, skipWhile (λ c, negb (isBlank c)) (bl ++ x) = bl ++ x) as ->.
  { intros x. destruct Hbl as [|b0 bl Hb0 _]; [done |]. simpl. by rewrite Hb0. }
  rewrite skipWhile_app by done.
  destruct (digits3_nonblank code Hc) as (a & b & c & -> & Hbla & Ha & Hb & Hcc & <-).
  simpl app. rewrite skipWhile_stop by done.
  repeat case_if; try lia. f_equal. apply andb_true_iff. lia.
Qed.

Lemma parseStatusCode_sound code buf :
  parseStatusCode buf = (code, true) → statusLine code buf.
Proof.
  unfold parseStatusCode. case_if; [done |].
  destruct (decide (take 5 buf = str "HTTP/")) as [Hp | Hp];
    [rewrite bool_decide_eq_true_2 by done | by rewrite bool_decide_eq_false_2 by done].
  cbn [negb].
  destruct (skipWhile_split (λ c, negb (isBlank c)) (drop 5 buf)) as (v & Hv & HvF).
  set (r1 := skipWhile (λ c, negb (isBlank c)) (drop 5 buf)) in *.
  destruct (skipWhile_split isBlank r1) as (bl & Hbl & HblF).
  set (r2 := skipWhile isBlank r1) in *.
  destruct r2 as [|a [|b [|c rest]]] eqn:Er2; try done.
  repeat (case_if; [done |]). intros [= <- Hr]. unbool.
  exists v, bl, rest. repeat split; try done.
  - rewrite digits3_value by lia.
    by rewrite <- (take_drop 5 buf) at 1; rewrite Hp, Hv, Hbl.
  - eapply Forall_impl; [exact HvF |]. simpl. intros x. destruct (isBlank x); done.
  - intros ->. simpl in Hbl.
    pose proof (skipWhile_head _ _ _ _ Hbl) as Ha. simpl in Ha.
    unfold isBlank in Ha. destruct (Z.eqb_spec a SP), (Z.eqb_spec a HT); simpl in Ha; lia || done.
Qed.

(** ** Case-insensitive matching *)

Lemma matchFold_spec pat l : matchFold pat l = true ↔ take (length pat) (lower <$> l) = pat.
Proof.
  revert l. induction pat as [|p pat IH]; intros [|c l]; try done.
  rewrite fmap_cons. cbn [matchFold length take].
  case_if; [| split; [done |]; intros [= ? ?]; congruence].
  rewrite IH. split; [intros ->; by f_equal | by intros [= _ ?]].
Qed.

Lemma matchFold_length pat l : matchFold pat l = true → (length pat ≤ length l)%nat.
Proof.
  rewrite matchFold_spec. intros H. apply (f_equal length) in H.
  rewrite length_take, length_fmap in H. lia.
Qed.

Lemma matchFold_app pat l x : matchFold pat l = true → matchFold pat (l ++ x) = true.
Proof.
  revert l. induction pat as [|p pat IH]; intros [|c l]; simpl; try done.
  case_if; [apply IH | done].
Qed.

Lemma equalFold_loop_spec a b :
  length a = length b → equalFold_loop a b = true ↔ lower <$> a = lower <$> b.
Proof.
  revert b. induction a as [|ca a IH]; intros [|cb b] Hlen; try done.
  rewrite !fmap_cons. cbn [equalFold_loop]. simpl in Hlen.
  case_if; [rewrite IH by lia | split; [done |]; by intros [= ? ?]].
  split; [by intros ->; f_equal | by intros [= _ ?]].
Qed.

Lemma strEqualFoldASCII_spec a b : strEqualFoldASCII a b = true ↔ lower <$> a = lower <$> b.
Proof.
  unfold strEqualFoldASCII. case_if.
  - apply equalFold_loop_spec. unfold len in *. lia.
  - split; [done |]. intros H. apply (f_equal length) in H.
    rewrite !length_fmap in H. unfold len in *. lia.
Qed.

(** ** Content-Length *)

Lemma isDigit_digitVal c : isDigit c = true → digitVal c = Some (c - 48).
Proof. intros H. unfold digitVal. by rewrite H. Qed.

(** The digit loop computes the decimal value modulo 2^64, two's complement. *)
Lemma contentLengthDigits_value ds post acc v k :
  Forall (λ c, isDigit c = true) ds → parseDigits 10 ds acc = Some v →
  contentLengthDigits (ds ++ CR :: post) (i64 acc) k = (i64 v, 0 <? k + len ds).
Proof.
  intros Hds. revert acc k. induction Hds as [|c ds Hc _ IH]; intros acc k; simpl.
  - intros [= ->]. by rewrite len_nil, Z.add_0_r.
  - rewrite Hc, isDigit_digitVal by done. unfold isDigit in Hc. unbool.
    rewrite (proj2 (Z.ltb_lt _ _)) by lia. intros Hp.
    rewrite i64_mul_add, (IH _ _ Hp). unfold len. simpl. do 2 f_equal. lia.
Qed.

Lemma parseContentLength_skip (b : Z) t :
  (len contentLengthName ≤ len (b :: t)) →
  matchFold contentLengthName (b :: t) = false →
  parseContentLength (b :: t) = parseContentLength t.
Proof.
  intros Hl Hm. cbn [parseContentLength]. rewrite (proj2 (Z.ltb_ge _ _)) by done.
  case_if; [| case_if]; rewrite ?Hm; done.
Qed.

Lemma parseContentLength_here x :
  matchFold contentLengthName x = true →
  parseContentLength x =
  contentLengthDigits (skipWhile isBlank (drop (length contentLengthName) x)) 0 0.
Proof.
  intros Hm. pose proof (matchFold_length _ _ Hm) as Hlen.
  destruct x as [|b t]; [done |]. cbn [parseContentLength].
  rewrite (proj2 (Z.ltb_ge _ _)) by (unfold len; lia).
  assert (lower b = 99) as Hb.
  { apply matchFold_spec in Hm. by injection Hm. }
  rewrite Hm. unfold lower in Hb.
  destruct (Z.eqb_spec b 99), (Z.eqb_spec b 67); cbn [andb negb]; try done.
  case_if_in Hb; [case_if_in Hb |]; lia.
Qed.

(** The first occurrence of the name decides, wherever it stands. *)
Lemma parseContentLength_first pre x :
  (∀ m, (m < length pre)%nat → matchFold contentLengthName (drop m (pre ++ x)) = false) →
  matchFold contentLengthName x = true →
  parseContentLength (pre ++ x) =
  contentLengthDigits (skipWhile isBlank (drop (length contentLengthName) x)) 0 0.
Proof.
  intros Hpre Hx. induction pre as [|b pre IH]; [by apply parseContentLength_here |].
  simpl app. rewrite parseContentLength_skip.
  - apply IH. intros m Hm. apply (Hpre (S m)). simpl. lia.
  - apply matchFold_length in Hx. unfold len. rewrite length_cons, length_app. lia.
  - apply (Hpre 0%nat). simpl. lia.
Qed.

Lemma parseContentLength_absent l :
  (∀ m, matchFold contentLengthName (drop m l) = false) → parseContentLength l = (0, false).
Proof.
  induction l as [|b t IH]; intros H; [done |].
  cbn [parseContentLength]. case_if; [done |].
  pose proof (H 0%nat) as H0. simpl drop in H0. rewrite H0. cbn [negb].
  assert (parseContentLength t = (0, false)) as -> by (apply IH; intros m; apply (H (S m))).
  by destruct (_ && _).
Qed.

(** ** Header lines *)

(** The line [SetHeader] writes for a header. *)
Definition renderHeader (h : Header) : bytes := Key h ++ str ": " ++ Value h ++ crlf.
Definition renderHeaders (hs : list Header) : bytes := concat (renderHeader <$> hs).

(** A header that survives printing: the key has no colon, neither part has
    CR or LF or is empty, and neither starts or ends with a blank. *)
Record plainHeader (h : Header) : Prop := {
  ph_key_chars : Forall (λ c, c ≠ COLON ∧ c ≠ CR ∧ c ≠ LF) (Key h);
  ph_value_chars : Forall (λ c, c ≠ CR ∧ c ≠ LF) (Value h);
  ph_key_trim : trimBlank (Key h) = Key h;
  ph_value_trim : trimBlank (Value h) = Value h;
  ph_key_ne : Key h ≠ [];
  ph_value_ne : Value h ≠ []
}.

#[export] Hint Resolve ph_key_chars ph_value_chars ph_key_ne ph_value_ne : burst.

Lemma parseHeaderLine_render h :
  plainHeader h → parseHeaderLine (Key h ++ str ": " ++ Value h) = Some h.
Proof.
  intros [Hk Hv Htk Htv Hnk Hnv]. unfold parseHeaderLine.
  change (str ": " ++ Value h) with (COLON :: SP :: Value h).
  rewrite cutColon_key by (eapply Forall_impl; [exact Hk |]; naive_solver).
  rewrite bool_decide_eq_false_2 by done.
  rewrite (trimBlank_blank SP) by done. rewrite Htk, Htv.
  rewrite !bool_decide_eq_false_2 by done. by destruct h.
Qed.

(** One turn of the line loop on a rendered header. *)
Lemma cutCRLF_render h x :
  plainHeader h → cutCRLF (renderHeader h ++ x) = Some (Key h ++ str ": " ++ Value h, x).
Proof.
  intros Hp. unfold renderHeader. rewrite <- !app_assoc.
  replace (Key h ++ str ": " ++ Value h ++ crlf ++ x)
    with ((Key h ++ str ": " ++ Value h) ++ crlf ++ x) by (by rewrite <- !app_assoc).
  apply cutCRLF_line. rewrite !Forall_app. split; [| split].
  - eapply Forall_impl; [apply (ph_key_chars _ Hp) |]. naive_solver.
  - by repeat constructor.
  - eapply Forall_impl; [apply (ph_value_chars _ Hp) |]. naive_solver.
Qed.

Lemma render_line_ne h (l : bytes) : plainHeader h → Key h ++ l ≠ [].
Proof. intros Hp. pose proof (ph_key_ne _ Hp). by destruct (Key h). Qed.

Lemma parseHeaderLines_render hs fuel x :
  Forall plainHeader hs → (length hs ≤ fuel)%nat →
  parseHeaderLines fuel (renderHeaders hs ++ crlf ++ x) = hs.
Proof.
  intros Hhs. revert fuel. induction Hhs as [|h hs Hh Hhs IH]; intros fuel Hf.
  - by destruct fuel.
  - destruct fuel as [|fuel]; [simpl in Hf; lia |].
    unfold renderHeaders. rewrite fmap_cons. cbn [concat].
    rewrite <- app_assoc. cbn [parseHeaderLines].
    rewrite cutCRLF_render by done.
    rewrite parseHeaderLine_render by done.
    pose proof (render_line_ne h (str ": " ++ Value h) Hh) as Hne.
    destruct (Key h ++ str ": " ++ Value h); [done |].
    f_equal. apply IH. simpl in Hf. lia.
Qed.

Lemma renderHeader_length h : (1 ≤ length (renderHeader h))%nat.
Proof. unfold renderHeader. rewrite !length_app. simpl. lia. Qed.

Lemma renderHeaders_length hs : (length hs ≤ length (renderHeaders hs))%nat.
Proof.
  induction hs as [|h hs IH]; [done |].
  unfold renderHeaders in *. rewrite fmap_cons. cbn [concat].
  rewrite length_app. pose proof (renderHeader_length h). simpl length. lia.
Qed.

Lemma scanHeaders_render status hs x :
  Forall (λ c, c ≠ CR) status → Forall plainHeader hs →
  scanHeaders (status ++ crlf ++ renderHeaders hs ++ crlf ++ x) = Some hs.
Proof.
  intros Hst Hhs. unfold scanHeaders. rewrite cutCRLF_line by done.
  set (rest := renderHeaders hs ++ crlf ++ x).
  assert (rest ≠ []) by (unfold rest; by destruct (renderHeaders hs)).
  assert (parseHeaderLines (length rest) rest = hs) as H1.
  { apply parseHeaderLines_render; [done |]. unfold rest. rewrite length_app.
    pose proof (renderHeaders_length hs). lia. }
  destruct rest; [done |]. by rewrite H1.
Qed.

(** ** Header lookup *)

(** The first header whose key equals [key], letter case ignored. *)
Fixpoint lookupHeader (hs : list Header) (key : bytes) : option Header :=
  match hs with
  | [] => None
  | h :: t => if strEqualFoldASCII (Key h) key then Some h else lookupHeader t key
  end.

(** What a raw lookup says about the parsed headers. *)
Definition raw_agrees (raw : option bytes) (parsed : option Header) : Prop :=
  match raw with
  | None => parsed = None
  | Some [] => True
  | Some v => Value <$> parsed = Some v
  end.

Lemma headerBytes_loop_agrees fuel l key :
  key ≠ [] →
  raw_agrees (headerBytes_loop fuel l key) (lookupHeader (parseHeaderLines fuel l) key).
Proof.
  intros Hkey. revert l. induction fuel as [|fuel IH]; intros l; [done |].
  cbn [headerBytes_loop parseHeaderLines].
  destruct (cutCRLF l) as [[[|c line] rest]|]; [done | | done].
  unfold parseHeaderLine. destruct (cutColon (c :: line)) as [[k v]|]; [| apply IH].
  destruct (bool_decide_reflect (k = [])); cbn [negb andb]; [apply IH |].
  destruct (strEqualFoldASCII (trimBlank k) key) eqn:E.
  - destruct (bool_decide_reflect (trimBlank k = [])) as [Hk | Hk].
    { rewrite Hk in E. by destruct key. }
    destruct (bool_decide_reflect (trimBlank v = [])) as [Hv | Hv].
    { rewrite Hv. done. }
    cbn [orb lookupHeader]. simpl Key. rewrite E.
    unfold raw_agrees. by destruct (trimBlank v).
  - destruct (_ || _); [apply IH |]. cbn [lookupHeader]. simpl Key. rewrite E. apply IH.
Qed.

Lemma headerBytesFromRaw_agrees raw key hs :
  key ≠ [] → scanHeaders raw = Some hs →
  raw_agrees (headerBytesFromRaw raw key) (lookupHeader hs key).
Proof.
  intros Hkey Hs. unfold scanHeaders in Hs. unfold headerBytesFromRaw.
  destruct raw as [|c raw]; [done |].
  rewrite !bool_decide_eq_false_2 by done. cbn [orb].
  destruct (cutCRLF (c :: raw)) as [[line [|d rest]]|]; [done | | done].
  injection Hs as <-. by apply headerBytes_loop_agrees.
Qed.
