(* ===== verification/Response.v ===== *)
(** * Response: the pooled response object (src/response.go, src/client.go)

    The [Response] record, the growth policy of its body buffer, the header
    accessors and the steps around the response pool. *)

From stdpp Require Import prelude list.
From S2P Require Import Prelude Errors Scan.

Definition initialResponseBufferSize : Z := 64 * 1024.

(** The exported [Body] slice.  [BView n] is [bodyBuf[:n]]: it shares the bytes
    of the current [bodyBuf], so later writes to the buffer show through it.
    [BOwn b] is a slice of another array, that nothing writes any more. *)
Inductive body_ref :=
  | BNil
  | BView (n : nat)
  | BOwn (b : bytes).

Record Response := mkResponse {
  StatusCode : Z;
  ContentLength : Z;
  Body : body_ref;
  Headers : list Header;
  bodyBuf : bytes;
  maxSize : Z;
  rawHeaderBuf : bytes
}.

(** The bytes a caller reads from [resp.Body]. *)
Definition bodyBytes (r : Response) : bytes :=
  match Body r with
  | BNil => []
  | BView n => take n (bodyBuf r)
  | BOwn b => b
  end.

Definition setStatus (c : Z) (r : Response) : Response :=
  mkResponse c (ContentLength r) (Body r) (Headers r) (bodyBuf r) (maxSize r) (rawHeaderBuf r).
Definition setContentLength (n : Z) (r : Response) : Response :=
  mkResponse (StatusCode r) n (Body r) (Headers r) (bodyBuf r) (maxSize r) (rawHeaderBuf r).
Definition setBody (b : body_ref) (r : Response) : Response :=
  mkResponse (StatusCode r) (ContentLength r) b (Headers r) (bodyBuf r) (maxSize r) (rawHeaderBuf r).
(** Writing through the buffer: the array changes in place. *)
Definition setBuf (b : bytes) (r : Response) : Response :=
  mkResponse (StatusCode r) (ContentLength r) (Body r) (Headers r) b (maxSize r) (rawHeaderBuf r).

(** [r.bodyBuf = make([]byte, n)]: a [Body] that viewed the old array keeps it. *)
Definition replaceBuf (n : Z) (r : Response) : Response :=
  mkResponse (StatusCode r) (ContentLength r)
    (match Body r with BView _ => BOwn (bodyBytes r) | b => b end)
    (Headers r) (replicate (Z.to_nat n) 0) (maxSize r) (rawHeaderBuf r).

(** The run-time limit on the length of a byte slice (linux/amd64). *)
Definition maxAlloc : Z := 2 ^ 48.

(** [make([]byte, n)] panics on a length out of range. *)
Definition makeOK (n : Z) : bool := (0 <=? n) && (n <=? maxAlloc).

(** [newSize] rounded up to a multiple of [q]. *)
Definition roundUp (newSize q : Z) : Z :=
  if negb (Z.rem newSize q =? 0) then i64 ((Z.quot newSize q + 1) * q) else newSize.

(** The doubling-and-rounding policy shared by the body buffers. *)
Definition grownSize (cur required : Z) : Z :=
  let newSize := i64 (cur * 2) in
  let newSize := if newSize <? required then required else newSize in
  if newSize <? 1024 * 1024 then roundUp newSize 4096 else roundUp newSize 65536.

(** [(r *Response) ensureBufferSize(required)] *)
Definition ensureBufferSize (required : Z) : go Response error bool := λ r,
  if required <=? len (bodyBuf r) then (Ret true, r)
  else if (0 <? maxSize r) && (maxSize r <? required) then (Ret false, r)
  else
    let newSize := grownSize (len (bodyBuf r)) required in
    if (0 <? maxSize r) && (maxSize r <? newSize) then
      let newSize := maxSize r in
      if newSize <? required then (Ret false, r)
      else if makeOK newSize then (Ret true, replaceBuf newSize r) else (Panic, r)
    else if makeOK newSize then (Ret true, replaceBuf newSize r) else (Panic, r).

(** [(r *Response) Reset()] *)
Definition Reset (r : Response) : Response :=
  mkResponse 0 0 BNil [] (bodyBuf r) 0 [].

(** The object [responsePool.New] builds. *)
Definition newPooledResponse (size : Z) : Response :=
  mkResponse 0 0 BNil [] (replicate (Z.to_nat size) 0) 0 [].

(** [AcquireResponse()], on the object the pool hands out. *)
Definition AcquireResponse (pooled : Response) : Response := Reset pooled.

Definition setMaxSize (n : Z) (r : Response) : Response :=
  mkResponse (StatusCode r) (ContentLength r) (Body r) (Headers r) (bodyBuf r) n (rawHeaderBuf r).

(** [AcquireResponseWithMaxSize(maxSize)] *)
Definition AcquireResponseWithMaxSize (pooled : Response) (maxSize : Z) : Response :=
  let resp := AcquireResponse pooled in
  if 0 <? maxSize then
    let resp := setMaxSize maxSize resp in
    let resp := if len (bodyBuf resp) <? initialResponseBufferSize
                then replaceBuf initialResponseBufferSize resp else resp in
    if maxSize <? len (bodyBuf resp) then
      if initialResponseBufferSize <=? maxSize then replaceBuf maxSize resp else resp
    else resp
  else resp.

(** [(c *Client) acquireResponse()], [maxResponse] being
    [c.config.MaxResponseBodySize] (src/client.go). *)
Definition acquireResponse (pooled : Response) (maxResponse : Z) : Response :=
  let resp := setMaxSize maxResponse (Reset pooled) in
  if (0 <? maxSize resp) && (maxSize resp <? len (bodyBuf resp))
  then replaceBuf (maxSize resp) resp
  else if len (bodyBuf resp) <? initialResponseBufferSize
  then replaceBuf initialResponseBufferSize resp
  else resp.

(** [ReleaseResponse(resp)] and [(c *Client) releaseResponse(resp)]: the object
    put back into the pool. *)
Definition ReleaseResponse (resp : Response) : Response :=
  let resp := if initialResponseBufferSize * 2 <? len (bodyBuf resp)
              then replaceBuf initialResponseBufferSize resp else resp in
  if 4096 <? len (rawHeaderBuf resp)
  then mkResponse (StatusCode resp) (ContentLength resp) (Body resp) (Headers resp)
         (bodyBuf resp) (maxSize resp) []
  else resp.

(** [(r *Response) Header(key)] *)
Fixpoint header_loop (hs : list Header) (key : bytes) : bytes :=
  match hs with
  | [] => []
  | h :: t => if strEqualFoldASCII (Key h) key then Value h else header_loop t key
  end.
Definition Header_ (r : Response) (key : bytes) : bytes := header_loop (Headers r) key.

(** [(r *Response) HasHeader(key)] *)
Definition HasHeader (r : Response) (key : bytes) : bool :=
  existsb (λ h, strEqualFoldASCII (Key h) key) (Headers r).

(** [(r *Response) HeaderValues(key)]: the loop appends to [vals]. *)
Fixpoint values_loop (hs : list Header) (key : bytes) (vals : list bytes) : list bytes :=
  match hs with
  | [] => vals
  | h :: t => values_loop t key (if strEqualFoldASCII (Key h) key then vals ++ [Value h] else vals)
  end.

Definition HeaderValues (r : Response) (key : bytes) : list bytes := values_loop (Headers r) key [].

(** [(r *Response) HeaderBytes(key)] *)
Definition HeaderBytes (r : Response) (key : bytes) : option bytes :=
  headerBytesFromRaw (rawHeaderBuf r) key.

(** [(r *Response) isConnectionClose()] *)
Definition isConnectionClose (r : Response) : bool :=
  existsb (λ h, strEqualFoldASCII (Key h) (str "Connection")
                && strEqualFoldASCII (Value h) (str "close")) (Headers r).

(** [parseHeaders(headerBuf, resp)] (src/parser.go) *)
Definition parseHeaders (headerBuf : bytes) (r : Response) : Response :=
  mkResponse (StatusCode r) (ContentLength r) (Body r)
    (match scanHeaders headerBuf with Some hs => hs | None => Headers r end)
    (bodyBuf r) (maxSize r) headerBuf.

(** ** Buffer growth *)

(** A response whose sizes are far from the 64-bit limits. *)
Definition sane (r : Response) : Prop :=
  len (bodyBuf r) ≤ 2 ^ 40 ∧ maxSize r ≤ 2 ^ 40.

Lemma len_replicate n : 0 ≤ n → len (replicate (Z.to_nat n) 0) = n.
Proof. intros. unfold len. rewrite length_replicate. lia. Qed.

Lemma roundUp_bounds n q : 0 < n ≤ 2 ^ 42 → 0 < q ≤ 65536 → n ≤ roundUp n q < n + q.
Proof.
  intros Hn Hq. unfold roundUp.
  assert (Z.quot n q = n / q) as -> by (apply Z.quot_div_nonneg; lia).
  assert (Z.rem n q = n `mod` q) as -> by (apply Z.rem_mod_nonneg; lia).
  pose proof (Z.div_mod n q ltac:(lia)). pose proof (Z.mod_pos_bound n q ltac:(lia)).
  case_if; [lia |]. rewrite i64_small; [lia |]. unfold int64_range. nia.
Qed.

Lemma grownSize_bounds cur required :
  0 ≤ cur ≤ 2 ^ 40 → cur < required ≤ 2 ^ 41 →
  required ≤ grownSize cur required < Z.max (2 * cur) required + 65536.
Proof.
  intros Hc Hr. unfold grownSize.
  rewrite i64_small by (unfold int64_range; lia).
  set (n := if cur * 2 <? required then required else cur * 2).
  assert (required ≤ n ≤ Z.max (2 * cur) required) as Hn by (subst n; case_if; lia).
  case_if.
  - pose proof (roundUp_bounds n 4096 ltac:(lia) ltac:(lia)). lia.
  - pose proof (roundUp_bounds n 65536 ltac:(lia) ltac:(lia)). lia.
Qed.

(** How [ensureBufferSize] answers, on every branch. *)
Lemma ensureBufferSize_cases r required :
  sane r → required ≤ 2 ^ 41 →
  (required ≤ len (bodyBuf r) ∧ ensureBufferSize required r = (Ret true, r)) ∨
  (len (bodyBuf r) < required ∧ 0 < maxSize r < required ∧
   ensureBufferSize required r = (Ret false, r)) ∨
  (∃ n, len (bodyBuf r) < required ≤ n ∧ (0 < maxSize r → n ≤ maxSize r) ∧
        n < Z.max (2 * len (bodyBuf r)) required + 65536 ∧
        ensureBufferSize required r = (Ret true, replaceBuf n r)).
Proof.
  intros [Hb Hm] Hr. unfold ensureBufferSize.
  pose proof (len_nonneg (bodyBuf r)).
  destruct (Z.leb_spec required (len (bodyBuf r))); [by left |]. right.
  destruct (Z.ltb_spec 0 (maxSize r)), (Z.ltb_spec (maxSize r) required); cbn [andb];
    try (by left; repeat split; lia || done); right;
    pose proof (grownSize_bounds (len (bodyBuf r)) required ltac:(lia) ltac:(lia)) as Hg;
    set (g := grownSize _ _) in *.
  1: destruct (Z.ltb_spec (maxSize r) g).
  1: { exists (maxSize r). unfold makeOK.
       rewrite (proj2 (andb_true_iff _ _)) by (unfold maxAlloc; lia).
       repeat split; lia || done. }
  all: exists g; unfold makeOK;
       rewrite (proj2 (andb_true_iff _ _)) by (unfold maxAlloc; lia);
       repeat split; lia || done.
Qed.

Lemma replaceBuf_len n r : 0 ≤ n → len (bodyBuf (replaceBuf n r)) = n.
Proof. intros. simpl. by apply len_replicate. Qed.
