(* ===== verification/ResponseProps.v ===== *)
(** * ResponseProps: the parsing functions and the response object

    What [findHeaderEnd], [parseStatusCode] and [parseContentLength] accept and
    compute, that the headers printed on the wire are the headers found by the
    accessors, that lookups ignore letter case, and how the pooled buffer grows
    and is reused. *)

From stdpp Require Import prelude list.
From S2P Require Import Prelude Errors Strconv Scan Response.

(** ** Scanning a head *)

(** [findHeaderEnd] returns the offset just behind the first CR LF CR LF of
    the buffer, and -1 exactly when there is none; skipping two bytes after a
    CR LF never misses an occurrence. *)
Theorem findHeaderEnd_correct buf :
  (findHeaderEnd buf = -1 ∧ ∀ n, ¬ sep_at headerSep buf n) ∨
  (∃ n : nat, findHeaderEnd buf = Z.of_nat n + 4 ∧ sep_at headerSep buf n ∧
              ∀ m, (m < n)%nat → ¬ sep_at headerSep buf m).
Proof.
  destruct (findHeaderEnd_first buf) as [H | (n & H & ?)]; [by left | right].
  exists n. split; [lia | done].
Qed.

(** [parseStatusCode] accepts exactly the buffers that start with a status
    line: ["HTTP/"], a version without blanks, blanks, and a three-digit code
    from 100 to 599, at least 12 bytes in all; and it returns that code. *)
Theorem parseStatusCode_iff code buf :
  parseStatusCode buf = (code, true) ↔ statusLine code buf.
Proof. split; [apply parseStatusCode_sound | apply parseStatusCode_complete]. Qed.

Lemma parseDigits_digits ds acc :
  Forall (λ c, isDigit c = true) ds → ∃ v, parseDigits 10 ds acc = Some v.
Proof.
  intros Hds. revert acc. induction Hds as [|c ds Hc _ IH]; intros acc; [by eexists |].
  simpl. rewrite isDigit_digitVal by done. unfold isDigit in Hc. unbool.
  rewrite (proj2 (Z.ltb_lt _ _)) by lia. apply IH.
Qed.

(** The first Content-Length line of a head: its name in any letter case,
    blanks, the digits [ds] and the end of the line. *)
Definition firstLength (pre name blanks ds post : bytes) : bytes :=
  pre ++ name ++ blanks ++ ds ++ CR :: post.

(** [parseContentLength] finds the first occurrence of the header name, in
    any letter case, and returns the decimal value of its digits reduced to a
    signed 64-bit integer.  The value is exact below 2^63, and from there on the
    result is wrong: it is never the number on the wire. *)
Theorem parseContentLength_value pre name blanks ds post :
  lower <$> name = contentLengthName → Forall (λ c, isBlank c = true) blanks →
  ds ≠ [] → Forall (λ c, isDigit c = true) ds →
  (∀ m, (m < length pre)%nat →
        matchFold contentLengthName (drop m (firstLength pre name blanks ds post)) = false) →
  ∃ v, 0 ≤ v ∧ parseDigits 10 ds 0 = Some v ∧
    parseContentLength (firstLength pre name blanks ds post) = (i64 v, true) ∧
    (i64 v = v ↔ v < 2 ^ 63).
Proof.
  intros Hname Hbl Hne Hds Hpre. destruct (parseDigits_digits ds 0 Hds) as [v Hv]. exists v.
  assert (0 ≤ v) as Hpos.
  { clear - Hds Hv. assert (0 ≤ 0) as H0 by lia. revert H0 Hv. generalize 0 at 2 3 as acc.
    induction Hds as [|c ds Hc _ IH]; intros acc Ha; simpl; [by intros [= <-] |].
    rewrite isDigit_digitVal by done. unfold isDigit in Hc. unbool.
    rewrite (proj2 (Z.ltb_lt _ _)) by lia. apply IH. lia. }
  split; [done |]. split; [done |].
  assert (length name = length contentLengthName) as Hln.
  { rewrite <- Hname. by rewrite length_fmap. }
  split.
  - unfold firstLength in *. rewrite parseContentLength_first; [| done |].
    + rewrite drop_app_length' by done.
      rewrite skipWhile_app by done.
      assert (skipWhile isBlank (ds ++ CR :: post) = ds ++ CR :: post) as ->.
      { destruct Hds as [|c ds Hc _]; [done |]. apply skipWhile_stop.
        unfold isDigit, isBlank in *. unbool. apply orb_false_iff. lia. }
      rewrite <- (i64_small 0) at 1 by (unfold int64_range; lia).
      rewrite (contentLengthDigits_value ds post 0 v 0 Hds Hv). f_equal.
      apply Z.ltb_lt. unfold len. destruct ds; [done | simpl; lia].
    + apply matchFold_spec. rewrite fmap_app, Hname, take_app_length'; done.
  - pose proof (i64_range v) as Hr. unfold int64_range in Hr. split; [intros <-; lia |].
    intros. apply i64_small. unfold int64_range. lia.
Qed.

Lemma parseContentLength_value_witness :
  ∃ v, 0 ≤ v ∧ parseDigits 10 (str "10") 0 = Some v ∧
    parseContentLength (firstLength (str "X: y" ++ crlf) (str "content-LENGTH:") (str " ") (str "10") [LF])
      = (i64 v, true) ∧ (i64 v = v ↔ v < 2 ^ 63).
Proof.
  apply (parseContentLength_value (str "X: y" ++ crlf) (str "content-LENGTH:") (str " ") (str "10") [LF]);
    try done.
  - by repeat constructor.
  - by repeat constructor.
  - intros m Hm. do 6 (destruct m as [|m]; [reflexivity |]). vm_compute in Hm. lia.
Defined.

(** ** Headers *)

(** Equality of header names, letter case ignored. *)
Definition eqFold (a b : bytes) : Prop := lower <$> a = lower <$> b.

#[global] Instance eqFold_equiv : Equivalence eqFold.
Proof. unfold eqFold. split; repeat intro; congruence. Qed.

#[global] Instance strEqualFoldASCII_proper : Proper (eqFold ==> eqFold ==> eq) strEqualFoldASCII.
Proof.
  intros a a' Ha b b' Hb. apply eq_bool_prop_intro.
  rewrite !Is_true_true, !strEqualFoldASCII_spec. unfold eqFold in *. by rewrite Ha, Hb.
Qed.

#[global] Instance header_loop_proper hs : Proper (eqFold ==> eq) (header_loop hs).
Proof. intros a b Hab. induction hs as [|h hs IH]; [done |]. simpl. by rewrite Hab, IH. Qed.

#[global] Instance headerBytes_loop_proper fuel l : Proper (eqFold ==> eq) (headerBytes_loop fuel l).
Proof.
  intros a b Hab. revert l. induction fuel as [|fuel IH]; intros l; [done |]. simpl.
  destruct (cutCRLF l) as [[[|? ?] ?]|]; [done | | done].
  destruct (cutColon _) as [[k v]|]; [| apply IH].
  rewrite IH, (strEqualFoldASCII_proper (trimBlank k) (trimBlank k) eq_refl a b Hab). done.
Qed.

(** The values of the headers of a name, in order: names are compared without regard to
    ASCII letter case. *)
Definition valuesNamed (key : bytes) (hs : list Header) : list bytes :=
  Value <$> filter (λ h, lower <$> Key h = lower <$> key) hs.

Lemma valuesNamed_cons key h hs :
  valuesNamed key (h :: hs)
    = (if strEqualFoldASCII (Key h) key then [Value h] else []) ++ valuesNamed key hs.
Proof.
  unfold valuesNamed. rewrite filter_cons. pose proof (strEqualFoldASCII_spec (Key h) key) as Hs.
  destruct (strEqualFoldASCII (Key h) key); case_decide; simpl; try done; naive_solver.
Qed.

Lemma lookupHeader_values hs key : Value <$> lookupHeader hs key = head (valuesNamed key hs).
Proof. induction hs as [|h hs IH]; [done |]. rewrite valuesNamed_cons. simpl. by case_if. Qed.

Lemma header_loop_lookup hs key : header_loop hs key = default [] (Value <$> lookupHeader hs key).
Proof. induction hs as [|h hs IH]; [done |]. simpl. by case_if. Qed.

Lemma values_loop_named hs key vals : values_loop hs key vals = vals ++ valuesNamed key hs.
Proof.
  revert vals. induction hs as [|h hs IH]; intros vals; [by rewrite app_nil_r |].
  rewrite valuesNamed_cons. simpl. rewrite IH. case_if; [by rewrite <- app_assoc | done].
Qed.

Lemma existsb_lookup hs key :
  existsb (λ h, strEqualFoldASCII (Key h) key) hs = bool_decide (is_Some (lookupHeader hs key)).
Proof.
  induction hs as [|h hs IH]; [done |]. simpl. case_if; [by rewrite bool_decide_eq_true_2 by eauto |].
  exact IH.
Qed.

Lemma headerBytes_loop_render hs fuel key :
  Forall plainHeader hs → (length hs ≤ fuel)%nat →
  headerBytes_loop fuel (renderHeaders hs ++ crlf) key = Value <$> lookupHeader hs key.
Proof.
  intros Hhs. revert fuel. induction Hhs as [|h hs Hh Hhs IH]; intros fuel Hf; [by destruct fuel |].
  destruct fuel as [|fuel]; [simpl in Hf; lia |].
  unfold renderHeaders. rewrite fmap_cons. cbn [concat].
  rewrite <- app_assoc. cbn [headerBytes_loop lookupHeader]. rewrite cutCRLF_render by done.
  pose proof (render_line_ne h (str ": " ++ Value h) Hh) as Hne.
  assert (cutColon (Key h ++ str ": " ++ Value h) = Some (Key h, SP :: Value h)) as Hc.
  { change (str ": " ++ Value h) with (COLON :: SP :: Value h). apply cutColon_key.
    eapply Forall_impl; [apply (ph_key_chars _ Hh) |]. naive_solver. }
  destruct (Key h ++ str ": " ++ Value h); [done |]. rewrite Hc.
  rewrite bool_decide_eq_false_2 by apply (ph_key_ne _ Hh). cbn [negb andb].
  rewrite (ph_key_trim _ Hh), (trimBlank_blank SP), (ph_value_trim _ Hh) by done.
  destruct (strEqualFoldASCII (Key h) key); [done |]. apply IH. simpl in Hf. lia.
Qed.

(** C31: headers written on the wire are found again.  For a head made of a status
    line without a carriage return and of header lines [Key: Value], each with a
    non-empty name and value that contain no CR or LF and neither begin nor end with a
    blank (and no colon in the name), [parseHeaders] stores exactly those headers in
    order.  Then, for every non-empty name: [HeaderValues] gives exactly the values of
    all the headers of that name, in order, names being compared without regard to
    ASCII letter case; [Header] gives the first of them and the empty string when there
    is none; [HasHeader] says whether there is one; and the lookup [HeaderBytes] in the
    raw bytes gives the first one, or nil. *)
Theorem headers_roundtrip status hs r key :
  Forall (λ c, c ≠ CR) status → Forall plainHeader hs → key ≠ [] →
  let r' := parseHeaders (status ++ crlf ++ renderHeaders hs ++ crlf) r in
  Headers r' = hs ∧
  HeaderValues r' key = valuesNamed key hs ∧
  Header_ r' key = default [] (head (valuesNamed key hs)) ∧
  HasHeader r' key = bool_decide (valuesNamed key hs ≠ []) ∧
  HeaderBytes r' key = head (valuesNamed key hs).
Proof.
  intros Hst Hhs Hkey r'.
  pose proof (scanHeaders_render status hs [] Hst Hhs) as Hs. rewrite app_nil_r in Hs.
  assert (Headers r' = hs) as Hh by (unfold r'; cbn [parseHeaders Headers]; by rewrite Hs).
  split; [done |]. unfold Header_, HasHeader, HeaderValues, HeaderBytes. rewrite Hh.
  rewrite <- lookupHeader_values. split; [apply values_loop_named |].
  split; [apply header_loop_lookup |]. split.
  { rewrite existsb_lookup. apply bool_decide_ext. rewrite <- (fmap_is_Some Value), lookupHeader_values.
    destruct (valuesNamed key hs); simpl; split; eauto; intros []; done. }
  unfold r', headerBytesFromRaw. cbn [parseHeaders rawHeaderBuf].
  rewrite !bool_decide_eq_false_2; [| done | by destruct status]. cbn [orb].
  rewrite cutCRLF_line by done. apply headerBytes_loop_render; [done |].
  rewrite length_app. pose proof (renderHeaders_length hs). lia.
Qed.

Definition exHeaders : list Header :=
  [mkHeader (str "Set-Cookie") (str "a=1; b"); mkHeader (str "set-cookie") (str "c: 2")].

Lemma exHeaders_plain : Forall plainHeader exHeaders.
Proof.
  apply Forall_cons_2; [| apply Forall_cons_2; [| done]];
    split; try done; vm_compute; repeat (constructor; [intuition congruence |]); constructor.
Qed.

Lemma headers_roundtrip_witness :
  let r' := parseHeaders (str "HTTP/1.1 200 OK" ++ crlf ++ renderHeaders exHeaders ++ crlf)
              (newPooledResponse 0) in
  Headers r' = exHeaders ∧ HeaderValues r' (str "SET-COOKIE") = [str "a=1; b"; str "c: 2"] ∧
  Header_ r' (str "SET-COOKIE") = str "a=1; b" ∧
  HasHeader r' (str "SET-COOKIE") = true ∧
  HeaderBytes r' (str "SET-COOKIE") = Some (str "a=1; b").
Proof.
  apply (headers_roundtrip (str "HTTP/1.1 200 OK") exHeaders (newPooledResponse 0) (str "SET-COOKIE")).
  - by repeat constructor.
  - exact exHeaders_plain.
  - done.
Defined.

(** The server announces that it closes the connection: a header Connection with the value
    close, both in any letter case. *)
Definition serverCloses (hs : list Header) : bool :=
  bool_decide (Exists (λ v, lower <$> v = lower <$> str "close") (valuesNamed (str "Connection") hs)).

Lemma isConnectionClose_spec r : isConnectionClose r = serverCloses (Headers r).
Proof.
  unfold isConnectionClose, serverCloses. induction (Headers r) as [|h hs IH]; [done |].
  cbn [existsb]. rewrite IH, valuesNamed_cons. clear IH.
  pose proof (strEqualFoldASCII_spec (Value h) (str "close")) as Hv.
  destruct (strEqualFoldASCII (Key h) (str "Connection")); cbn [andb orb app]; [| done].
  rewrite (bool_decide_ext _ _ (Exists_cons _ _ _)). rewrite bool_decide_or. f_equal.
  destruct (strEqualFoldASCII (Value h) (str "close")); symmetry; [by apply bool_decide_eq_true_2, Hv |].
  apply bool_decide_eq_false_2. intros E%Hv. done.
Qed.

(** Header lookup ignores ASCII letter case and nothing else: every accessor
    gives the same answer for two spellings of a name, and [strEqualFoldASCII],
    on which they rest, is true exactly of names equal up to letter case. *)
Lemma header_lookup_case_insensitive r k1 k2 :
  (strEqualFoldASCII k1 k2 = true ↔ lower <$> k1 = lower <$> k2) ∧
  (strEqualFoldASCII k1 k2 = true →
   Header_ r k1 = Header_ r k2 ∧ HasHeader r k1 = HasHeader r k2 ∧
   HeaderValues r k1 = HeaderValues r k2 ∧ HeaderBytes r k1 = HeaderBytes r k2).
Proof.
  split; [apply strEqualFoldASCII_spec |]. intros Hf. apply strEqualFoldASCII_spec in Hf.
  assert (eqFold k1 k2) as Hk by exact Hf.
  assert (∀ h, strEqualFoldASCII (Key h) k1 = strEqualFoldASCII (Key h) k2) as Hall
    by (intros h; by rewrite Hk).
  unfold Header_, HasHeader, HeaderValues, HeaderBytes, headerBytesFromRaw. split_and!.
  - by rewrite Hk.
  - induction (Headers r) as [|h hs IH]; [done |]. simpl. by rewrite Hall, IH.
  - rewrite !values_loop_named. simpl. unfold valuesNamed. by rewrite Hf.
  - assert (k1 = [] ↔ k2 = []) as Hnil.
    { apply (f_equal length) in Hf. rewrite !length_fmap in Hf.
      by destruct k1, k2. }
    rewrite (bool_decide_ext _ _ Hnil), Hk. done.
Qed.

(** ** The body buffer *)

(** The response pool leaks nothing from one request to the next.  Whatever
    state the pooled object is in, [(c *Client).acquireResponse] hands out a
    response with no status, no body, no headers and no raw head, whose size limit
    is the configured one and whose buffer is within it; and what
    [ReleaseResponse] puts back never pins a buffer of more than 128 KiB nor a raw
    head of more than 4 KiB. *)
Theorem response_pool_clean pooled maxResponse :
  0 ≤ maxResponse →
  let r := acquireResponse pooled maxResponse in
  let q := ReleaseResponse pooled in
  (StatusCode r = 0 ∧ ContentLength r = 0 ∧ bodyBytes r = [] ∧ Headers r = [] ∧ rawHeaderBuf r = []) ∧
  maxSize r = maxResponse ∧ (0 < maxResponse → len (bodyBuf r) ≤ Z.max maxResponse 65536) ∧
  (initialResponseBufferSize ≤ maxResponse ∨ maxResponse = 0 → initialResponseBufferSize ≤ len (bodyBuf r)) ∧
  len (bodyBuf q) ≤ 2 * initialResponseBufferSize ∧ len (rawHeaderBuf q) ≤ 4096.
Proof.
  intros Hm. cbv zeta. unfold acquireResponse, ReleaseResponse, initialResponseBufferSize.
  cbn [setMaxSize Reset maxSize bodyBuf]. split_and!.
  1-5: repeat case_if; reflexivity.
  - repeat case_if; reflexivity.
  - intros. repeat case_if; rewrite ?replaceBuf_len by lia; cbn [bodyBuf setMaxSize Reset]; lia.
  - intros [? | ?]; repeat case_if; rewrite ?replaceBuf_len by lia; cbn [bodyBuf setMaxSize Reset]; lia.
  - repeat case_if; cbn [bodyBuf]; rewrite ?replaceBuf_len by lia; lia.
  - repeat case_if; cbn [rawHeaderBuf]; rewrite ?len_nil; simpl in *; lia.
Qed.

Lemma response_pool_clean_witness :
  let r := acquireResponse (newPooledResponse 10) 100 in
  let q := ReleaseResponse (newPooledResponse 10) in
  (StatusCode r = 0 ∧ ContentLength r = 0 ∧ bodyBytes r = [] ∧ Headers r = [] ∧ rawHeaderBuf r = []) ∧
  maxSize r = 100 ∧ (0 < 100 → len (bodyBuf r) ≤ 65536) ∧
  (65536 ≤ 100 ∨ 100 = 0 → 65536 ≤ len (bodyBuf r)) ∧
  len (bodyBuf q) ≤ 131072 ∧ len (rawHeaderBuf q) ≤ 4096.
Proof. apply (response_pool_clean (newPooledResponse 10) 100). lia. Defined.
