(* ===== verification/Retry.v ===== *)
(** * Retry: when to try again, and after how long (src/retry.go)

    Attempts are counted from 0.  The random number of the jitter and the
    parser of HTTP dates are arguments. *)

From Stdlib Require Import SpecFloat.
From stdpp Require Import prelude list gmap.
From S2P Require Import Prelude Errors Strconv Float Config Scan Response.

Record Retryer := mkRetryer {
  maxRetries : Z;
  baseDelay : Z;
  maxDelay : Z;
  multiplier : float64;
  jitter : bool;
  statusCodes : gset Z
}.

(** [NewRetryer(config)]; [None] is nil. *)
Definition NewRetryer (c : Config) : option Retryer :=
  if Cfg.MaxRetries c <=? 0 then None
  else Some (mkRetryer (Cfg.MaxRetries c) (Cfg.RetryBaseDelay c) (Cfg.RetryMaxDelay c)
               (Cfg.RetryMultiplier c) (Cfg.RetryJitter c) (list_to_set (Cfg.RetryableStatus c))).

(** [ShouldRetry(attempt, resp, err)] *)
Definition ShouldRetry (r : Retryer) (attempt : Z) (resp : option Response) (err : option error) : bool :=
  if maxRetries r <=? attempt then false
  else if IsRetryable err then true
  else match resp with
       | Some p => bool_decide (StatusCode p ∈ statusCodes r)
       | None => false
       end.

(** [for i := 0; i < attempt; i++ { delay *= r.multiplier }] *)
Fixpoint scaled (n : nat) (m delay : float64) : float64 :=
  match n with O => delay | S n' => scaled n' m (fmul delay m) end.

(** [Backoff(attempt)]; [rnd] is [rand.Float64()]. *)
Definition Backoff (r : Retryer) (rnd : float64) (attempt : Z) : Z :=
  let delay := scaled (Z.to_nat attempt) (multiplier r) (fromInt (baseDelay r)) in
  let delay := if fgt delay (fromInt (maxDelay r)) then fromInt (maxDelay r) else delay in
  let half := fdiv delay (fromInt 2) in
  let delay := if jitter r then fadd half (fmul rnd half) else delay in
  toInt64 delay.

Section dates.

(** [time.Until] of the date [time.Parse(httpDate, s)] reads; [None] when it is
    not a date. *)
Variable untilDate : bytes → option Z.

(** [parseRetryAfter(s)] *)
Definition parseRetryAfter (s : bytes) : option Z :=
  let s := TrimSpace s in
  match Atoi s with
  | Some n =>
      if 0 <=? n then Some (i64 (n * Second))
      else (λ d, if d <? 0 then 0 else d) <$> untilDate s
  | None => (λ d, if d <? 0 then 0 else d) <$> untilDate s
  end.

(** [adaptiveDelay(attempt, statusCode, retryAfterHdr, err)] *)
Definition adaptiveDelay (r : Retryer) (rnd : float64) (attempt statusCode : Z) (retryAfterHdr : bytes)
    (err : option error) : Z :=
  let rest :=
    if match err with Some e => IsTimeout (Some e) || isConnectionLevelError e | None => false end
    then 0 else Backoff r rnd attempt in
  if (statusCode =? 429) && negb (bool_decide (retryAfterHdr = [])) then
    match parseRetryAfter retryAfterHdr with
    | Some d => if maxDelay r <? d then maxDelay r else d
    | None => rest
    end
  else rest.

(** [WaitAdaptive(...)]: [cancelled] is the error of the context if it ends before
    the timer. *)
Definition WaitAdaptive (r : Retryer) (rnd : float64) (cancelled : option error) (attempt statusCode : Z)
    (retryAfterHdr : bytes) (err : option error) : option error :=
  if adaptiveDelay r rnd attempt statusCode retryAfterHdr err <=? 0 then None else cancelled.

End dates.

(** ** Retry-After *)

Section retry_after.

Context (untilDate : bytes → option Z).

Lemma parseRetryAfter_seconds n :
  0 ≤ n < 2 ^ 63 → parseRetryAfter untilDate (Itoa n) = Some (i64 (n * Second)).
Proof.
  intros. unfold parseRetryAfter. rewrite TrimSpace_plain by (apply Itoa_plain; lia).
  rewrite Atoi_Itoa, (proj2 (Z.leb_le _ _)) by lia. done.
Qed.

Lemma adaptiveDelay_429 r rnd attempt n err :
  0 ≤ n < 2 ^ 63 →
  adaptiveDelay untilDate r rnd attempt 429 (Itoa n) err = Z.min (maxDelay r) (i64 (n * Second)).
Proof.
  intros. unfold adaptiveDelay. rewrite bool_decide_eq_false_2.
  - simpl. rewrite parseRetryAfter_seconds by done. case_if; lia.
  - rewrite Itoa_nonneg by lia. apply FormatUint_nonempty. lia.
Qed.

End retry_after.

(** A 429 answer with [Retry-After: n] makes the client wait exactly [n]
    seconds, cut to [RetryMaxDelay], whatever the attempt, the jitter and the
    error, as long as [n] seconds fit in a [time.Duration]; [Retry-After: 0] is an
    immediate retry.  One second more and the multiplication wraps around to a
    negative delay: the retry is immediate even if the context has ended. *)
Theorem retryAfter_honoured untilDate r rnd attempt n err cancelled :
  0 ≤ n ≤ 9223372036 → 0 ≤ maxDelay r →
  let delay k := adaptiveDelay untilDate r rnd attempt 429 (Itoa k) err in
  delay n = Z.min (maxDelay r) (n * Second) ∧
  WaitAdaptive untilDate r rnd cancelled attempt 429 (Itoa n) err
    = (if (0 <? n) && (0 <? maxDelay r) then cancelled else None) ∧
  delay 9223372037 < 0 ∧
  WaitAdaptive untilDate r rnd cancelled attempt 429 (Itoa 9223372037) err = None.
Proof.
  intros Hn Hm delay. unfold delay, WaitAdaptive. rewrite !adaptiveDelay_429 by lia.
  rewrite i64_small by (unfold int64_range, Second, Millisecond; lia).
  assert (i64 (9223372037 * Second) < 0) by (by vm_compute).
  split; [done |]. unfold Second, Millisecond in *.
  split; [repeat case_if; try done; lia |]. split; [lia |]. case_if; [done | lia].
Qed.

Lemma retryAfter_honoured_witness :
  let r := mkRetryer 3 (100 * Millisecond) (5 * Second) (fromInt 2) false ∅ in
  adaptiveDelay (λ _, None) r (fromInt 0) 0 429 (str "2") None = 2 * Second ∧
  adaptiveDelay (λ _, None) r (fromInt 0) 0 429 (str "60") None = 5 * Second ∧
  adaptiveDelay (λ _, None) r (fromInt 0) 0 429 (Itoa 2) None = Z.min (5 * Second) (2 * Second).
Proof.
  intros r. split; [vm_compute; reflexivity |]. split; [vm_compute; reflexivity |].
  apply (retryAfter_honoured (λ _, None) r (fromInt 0) 0 2 None None); simpl; [lia |].
  unfold Second, Millisecond. lia.
Defined.
