(* ===== verification/Request.v ===== *)
(** * Request: the pooled request object (src/request.go)

    The [Request] struct and its methods.  Header lines are kept pre-rendered
    in [headerBuf[:headerLen]]; [SetHeader] refuses CR and LF, which is the
    guard against header injection. *)

From stdpp Require Import prelude list.
From S2P Require Import Prelude Errors Strconv Scan Response.

Definition initialRequestBodyBufferSize : Z := 32 * 1024.
Definition initialHeaderBufferSize : Z := 16 * 1024.

Module Req.

(** The struct.  A context, a response and a release function are pointers the
    request only carries: they are represented by their identity. *)
Record Request := mkRequest {
  Method : bytes;
  URL : bytes;
  Path : bytes;
  Body : bytes;
  Compressed : bool;
  ReadTimeout : Z;
  WriteTimeout : Z;
  ExpectContinue : bool;
  ctx : option nat;
  parsedHost : bytes;
  parsedPort : Z;
  parsedTLS : bool;
  parsedPath : bytes;
  urlParsed : bool;
  headerBuf : bytes;
  headerLen : nat;
  maxBodySize : Z;
  PreEncodedHeaderPrefix : bytes;
  bodyBuf : bytes;
  resp : option nat;
  releaseFn : option nat
}.

(** Field assignments. *)
Definition set_Method (v : bytes) (r : Request) : Request :=
  mkRequest v (URL r) (Path r) (Body r) (Compressed r) (ReadTimeout r) (WriteTimeout r)
    (ExpectContinue r) (ctx r) (parsedHost r) (parsedPort r) (parsedTLS r) (parsedPath r) (urlParsed r)
    (headerBuf r) (headerLen r) (maxBodySize r) (PreEncodedHeaderPrefix r) (bodyBuf r) (resp r) (releaseFn r).
Definition set_URL (v : bytes) (r : Request) : Request :=
  mkRequest (Method r) v (Path r) (Body r) (Compressed r) (ReadTimeout r) (WriteTimeout r)
    (ExpectContinue r) (ctx r) (parsedHost r) (parsedPort r) (parsedTLS r) (parsedPath r) (urlParsed r)
    (headerBuf r) (headerLen r) (maxBodySize r) (PreEncodedHeaderPrefix r) (bodyBuf r) (resp r) (releaseFn r).
Definition set_Path (v : bytes) (r : Request) : Request :=
  mkRequest (Method r) (URL r) v (Body r) (Compressed r) (ReadTimeout r) (WriteTimeout r)
    (ExpectContinue r) (ctx r) (parsedHost r) (parsedPort r) (parsedTLS r) (parsedPath r) (urlParsed r)
    (headerBuf r) (headerLen r) (maxBodySize r) (PreEncodedHeaderPrefix r) (bodyBuf r) (resp r) (releaseFn r).
Definition set_Body (v : bytes) (r : Request) : Request :=
  mkRequest (Method r) (URL r) (Path r) v (Compressed r) (ReadTimeout r) (WriteTimeout r)
    (ExpectContinue r) (ctx r) (parsedHost r) (parsedPort r) (parsedTLS r) (parsedPath r) (urlParsed r)
    (headerBuf r) (headerLen r) (maxBodySize r) (PreEncodedHeaderPrefix r) (bodyBuf r) (resp r) (releaseFn r).
Definition set_Compressed (v : bool) (r : Request) : Request :=
  mkRequest (Method r) (URL r) (Path r) (Body r) v (ReadTimeout r) (WriteTimeout r)
    (ExpectContinue r) (ctx r) (parsedHost r) (parsedPort r) (parsedTLS r) (parsedPath r) (urlParsed r)
    (headerBuf r) (headerLen r) (maxBodySize r) (PreEncodedHeaderPrefix r) (bodyBuf r) (resp r) (releaseFn r).
Definition set_ReadTimeout (v : Z) (r : Request) : Request :=
  mkRequest (Method r) (URL r) (Path r) (Body r) (Compressed r) v (WriteTimeout r)
    (ExpectContinue r) (ctx r) (parsedHost r) (parsedPort r) (parsedTLS r) (parsedPath r) (urlParsed r)
    (headerBuf r) (headerLen r) (maxBodySize r) (PreEncodedHeaderPrefix r) (bodyBuf r) (resp r) (releaseFn r).
Definition set_WriteTimeout (v : Z) (r : Request) : Request :=
  mkRequest (Method r) (URL r) (Path r) (Body r) (Compressed r) (ReadTimeout r) v
    (ExpectContinue r) (ctx r) (parsedHost r) (parsedPort r) (parsedTLS r) (parsedPath r) (urlParsed r)
    (headerBuf r) (headerLen r) (maxBodySize r) (PreEncodedHeaderPrefix r) (bodyBuf r) (resp r) (releaseFn r).
Definition set_ExpectContinue (v : bool) (r : Request) : Request :=
  mkRequest (Method r) (URL r) (Path r) (Body r) (Compressed r) (ReadTimeout r) (WriteTimeout r)
    v (ctx r) (parsedHost r) (parsedPort r) (parsedTLS r) (parsedPath r) (urlParsed r)
    (headerBuf r) (headerLen r) (maxBodySize r) (PreEncodedHeaderPrefix r) (bodyBuf r) (resp r) (releaseFn r).
Definition set_ctx (v : option nat) (r : Request) : Request :=
  mkRequest (Method r) (URL r) (Path r) (Body r) (Compressed r) (ReadTimeout r) (WriteTimeout r)
    (ExpectContinue r) v (parsedHost r) (parsedPort r) (parsedTLS r) (parsedPath r) (urlParsed r)
    (headerBuf r) (headerLen r) (maxBodySize r) (PreEncodedHeaderPrefix r) (bodyBuf r) (resp r) (releaseFn r).
Definition set_parsedHost (v : bytes) (r : Request) : Request :=
  mkRequest (Method r) (URL r) (Path r) (Body r) (Compressed r) (ReadTimeout r) (WriteTimeout r)
    (ExpectContinue r) (ctx r) v (parsedPort r) (parsedTLS r) (parsedPath r) (urlParsed r)
    (headerBuf r) (headerLen r) (maxBodySize r) (PreEncodedHeaderPrefix r) (bodyBuf r) (resp r) (releaseFn r).
Definition set_parsedPort (v : Z) (r : Request) : Request :=
  mkRequest (Method r) (URL r) (Path r) (Body r) (Compressed r) (ReadTimeout r) (WriteTimeout r)
    (ExpectContinue r) (ctx r) (parsedHost r) v (parsedTLS r) (parsedPath r) (urlParsed r)
    (headerBuf r) (headerLen r) (maxBodySize r) (PreEncodedHeaderPrefix r) (bodyBuf r) (resp r) (releaseFn r).
Definition set_parsedTLS (v : bool) (r : Request) : Request :=
  mkRequest (Method r) (URL r) (Path r) (Body r) (Compressed r) (ReadTimeout r) (WriteTimeout r)
    (ExpectContinue r) (ctx r) (parsedHost r) (parsedPort r) v (parsedPath r) (urlParsed r)
    (headerBuf r) (headerLen r) (maxBodySize r) (PreEncodedHeaderPrefix r) (bodyBuf r) (resp r) (releaseFn r).
Definition set_parsedPath (v : bytes) (r : Request) : Request :=
  mkRequest (Method r) (URL r) (Path r) (Body r) (Compressed r) (ReadTimeout r) (WriteTimeout r)
    (ExpectContinue r) (ctx r) (parsedHost r) (parsedPort r) (parsedTLS r) v (urlParsed r)
    (headerBuf r) (headerLen r) (maxBodySize r) (PreEncodedHeaderPrefix r) (bodyBuf r) (resp r) (releaseFn r).
Definition set_urlParsed (v : bool) (r : Request) : Request :=
  mkRequest (Method r) (URL r) (Path r) (Body r) (Compressed r) (ReadTimeout r) (WriteTimeout r)
    (ExpectContinue r) (ctx r) (parsedHost r) (parsedPort r) (parsedTLS r) (parsedPath r) v
    (headerBuf r) (headerLen r) (maxBodySize r) (PreEncodedHeaderPrefix r) (bodyBuf r) (resp r) (releaseFn r).
Definition set_headerBuf (v : bytes) (r : Request) : Request :=
  mkRequest (Method r) (URL r) (Path r) (Body r) (Compressed r) (ReadTimeout r) (WriteTimeout r)
    (ExpectContinue r) (ctx r) (parsedHost r) (parsedPort r) (parsedTLS r) (parsedPath r) (urlParsed r)
    v (headerLen r) (maxBodySize r) (PreEncodedHeaderPrefix r) (bodyBuf r) (resp r) (releaseFn r).
Definition set_headerLen (v : nat) (r : Request) : Request :=
  mkRequest (Method r) (URL r) (Path r) (Body r) (Compressed r) (ReadTimeout r) (WriteTimeout r)
    (ExpectContinue r) (ctx r) (parsedHost r) (parsedPort r) (parsedTLS r) (parsedPath r) (urlParsed r)
    (headerBuf r) v (maxBodySize r) (PreEncodedHeaderPrefix r) (bodyBuf r) (resp r) (releaseFn r).
Definition set_maxBodySize (v : Z) (r : Request) : Request :=
  mkRequest (Method r) (URL r) (Path r) (Body r) (Compressed r) (ReadTimeout r) (WriteTimeout r)
    (ExpectContinue r) (ctx r) (parsedHost r) (parsedPort r) (parsedTLS r) (parsedPath r) (urlParsed r)
    (headerBuf r) (headerLen r) v (PreEncodedHeaderPrefix r) (bodyBuf r) (resp r) (releaseFn r).
Definition set_PreEncodedHeaderPrefix (v : bytes) (r : Request) : Request :=
  mkRequest (Method r) (URL r) (Path r) (Body r) (Compressed r) (ReadTimeout r) (WriteTimeout r)
    (ExpectContinue r) (ctx r) (parsedHost r) (parsedPort r) (parsedTLS r) (parsedPath r) (urlParsed r)
    (headerBuf r) (headerLen r) (maxBodySize r) v (bodyBuf r) (resp r) (releaseFn r).
Definition set_bodyBuf (v : bytes) (r : Request) : Request :=
  mkRequest (Method r) (URL r) (Path r) (Body r) (Compressed r) (ReadTimeout r) (WriteTimeout r)
    (ExpectContinue r) (ctx r) (parsedHost r) (parsedPort r) (parsedTLS r) (parsedPath r) (urlParsed r)
    (headerBuf r) (headerLen r) (maxBodySize r) (PreEncodedHeaderPrefix r) v (resp r) (releaseFn r).
Definition set_resp (v : option nat) (r : Request) : Request :=
  mkRequest (Method r) (URL r) (Path r) (Body r) (Compressed r) (ReadTimeout r) (WriteTimeout r)
    (ExpectContinue r) (ctx r) (parsedHost r) (parsedPort r) (parsedTLS r) (parsedPath r) (urlParsed r)
    (headerBuf r) (headerLen r) (maxBodySize r) (PreEncodedHeaderPrefix r) (bodyBuf r) v (releaseFn r).
Definition set_releaseFn (v : option nat) (r : Request) : Request :=
  mkRequest (Method r) (URL r) (Path r) (Body r) (Compressed r) (ReadTimeout r) (WriteTimeout r)
    (ExpectContinue r) (ctx r) (parsedHost r) (parsedPort r) (parsedTLS r) (parsedPath r) (urlParsed r)
    (headerBuf r) (headerLen r) (maxBodySize r) (PreEncodedHeaderPrefix r) (bodyBuf r) (resp r) v.

(** [(r *Request) Reset()]; the buffers and [maxBodySize] survive. *)
Definition Reset (r : Request) : Request :=
  mkRequest [] [] [] [] false 0 0 false None [] 0 false [] false
    (headerBuf r) 0 (maxBodySize r) [] (bodyBuf r) None None.

(** The object [requestPool.New] builds, and [AcquireRequest()] on the object the
    pool hands out. *)
Definition newPooledRequest : Request :=
  mkRequest [] [] [] [] false 0 0 false None [] 0 false [] false
    (replicate (Z.to_nat initialHeaderBufferSize) 0) 0 0 []
    (replicate (Z.to_nat initialRequestBodyBufferSize) 0) None None.
Definition AcquireRequest (pooled : Request) : Request := Reset pooled.

(** [ReleaseRequest(req)]: the object put back into the pool. *)
Definition ReleaseRequest (r : Request) : Request :=
  let r := if initialRequestBodyBufferSize * 2 <? len (bodyBuf r)
           then set_bodyBuf (replicate (Z.to_nat initialRequestBodyBufferSize) 0) r else r in
  if initialHeaderBufferSize * 2 <? len (headerBuf r)
  then set_headerBuf (replicate (Z.to_nat initialHeaderBufferSize) 0) r else r.

(** The builder methods. *)
Definition WithMethod (method : bytes) (r : Request) : Request := set_Method method r.
Definition WithURL (rawURL : bytes) (r : Request) : Request :=
  set_urlParsed false (set_URL rawURL r).
Definition WithPath (path : bytes) (r : Request) : Request := set_Path path r.
Definition WithBody (body : bytes) (r : Request) : Request := set_Body body r.
Definition WithContext (c : nat) (r : Request) : Request := set_ctx (Some c) r.
Definition WithReadTimeout (d : Z) (r : Request) : Request := set_ReadTimeout d r.
Definition WithWriteTimeout (d : Z) (r : Request) : Request := set_WriteTimeout d r.
Definition WithCompression (r : Request) : Request := set_Compressed true r.
Definition WithExpectContinue (r : Request) : Request := set_ExpectContinue true r.
Definition SetContext (c : nat) (r : Request) : Request := set_ctx (Some c) r.
Definition SetBody (body : bytes) (r : Request) : Request := set_Body body r.

(** [(r *Request) Context()], [background] being [context.Background()]. *)
Definition Context (background : nat) (r : Request) : nat := default background (ctx r).

(** [containsCRLF(s)] *)
Definition containsCRLF (s : bytes) : bool := existsb (λ c, (c =? CR) || (c =? LF)) s.

(** [(r *Request) ensureBodyBufferSize(required)] *)
Definition ensureBodyBufferSize (required : Z) : go Request error bool := λ r,
  if required <=? len (bodyBuf r) then (Ret true, r)
  else if (0 <? maxBodySize r) && (maxBodySize r <? required) then (Ret false, r)
  else
    let newSize := grownSize (len (bodyBuf r)) required in
    let alloc n := if makeOK n then (Ret true, set_bodyBuf (replicate (Z.to_nat n) 0) r)
                   else (Panic, r) in
    if (0 <? maxBodySize r) && (maxBodySize r <? newSize) then
      if maxBodySize r <? required then (Ret false, r) else alloc (maxBodySize r)
    else alloc newSize.

(** [const maxHeaderSize] *)
Definition maxHeaderSize : Z := 1024 * 1024.

(** [(r *Request) ensureHeaderBufferSize(required)]: the header bytes written so
    far are copied over. *)
Definition ensureHeaderBufferSize (required : Z) (r : Request) : bool * Request :=
  if required <=? len (headerBuf r) then (true, r)
  else
    let newSize := i64 (len (headerBuf r) * 2) in
    let newSize := if newSize <? required then required else newSize in
    let newSize := roundUp newSize 4096 in
    let grow n :=
      (true, set_headerBuf (splice (replicate (Z.to_nat n) 0) 0 (take (headerLen r) (headerBuf r))) r) in
    if maxHeaderSize <? newSize then
      if maxHeaderSize <? required then (false, r) else grow maxHeaderSize
    else grow newSize.

(** The body of [SetHeader] once there is room: six writes at a moving [pos]. *)
Definition putHeader (key value : bytes) (r : Request) : Request :=
  let pos := headerLen r in
  let buf := splice (headerBuf r) pos key in
  let pos := (pos + length key)%nat in
  let buf := splice buf pos [COLON] in
  let pos := (pos + 1)%nat in
  let buf := splice buf pos [SP] in
  let pos := (pos + 1)%nat in
  let buf := splice buf pos value in
  let pos := (pos + length value)%nat in
  let buf := splice buf pos [CR] in
  let pos := (pos + 1)%nat in
  let buf := splice buf pos [LF] in
  let pos := (pos + 1)%nat in
  set_headerLen pos (set_headerBuf buf r).

(** [(r *Request) SetHeader(key, value)] and [WithHeader]. *)
Definition SetHeader (key value : bytes) (r : Request) : bool * Request :=
  if containsCRLF key || containsCRLF value then (false, r)
  else
    let required := len key + 2 + len value + 2 in
    if len (headerBuf r) <? Z.of_nat (headerLen r) + required then
      match ensureHeaderBufferSize (Z.of_nat (headerLen r) + required) r with
      | (false, r) => (false, r)
      | (true, r) => (true, putHeader key value r)
      end
    else (true, putHeader key value r).
Definition WithHeader (key value : bytes) (r : Request) : Request := (SetHeader key value r).2.

(** [(r *Request) effectivePath()] *)
Definition effectivePath (r : Request) : bytes :=
  if negb (bool_decide (parsedPath r = [])) then parsedPath r
  else if negb (bool_decide (Path r = [])) then Path r
  else str "/".

End Req.
Abbreviation Request := Req.Request.

(** ** resolveURL *)

(** What the client reads of a [url.URL]: [Scheme], [Hostname()], [Port()] and
    [RequestURI()]. *)
Record urlParts := mkURL {
  u_Scheme : bytes;
  u_Hostname : bytes;
  u_Port : bytes;
  u_RequestURI : bytes
}.

(** [strings.Contains(s, sub)] *)
Fixpoint contains (s sub : bytes) : bool :=
  bool_decide (take (length sub) s = sub)
  || match s with [] => false | _ :: t => contains t sub end.

(** The tuple [resolveURL] returns. *)
Record resolved := mkResolved {
  rs_host : bytes; rs_port : Z; rs_tls : bool; rs_path : bytes; rs_ok : bool
}.
Definition unresolved : resolved := mkResolved [] 0 false [] false.

Section resolve.

(** [url.Parse]; [None] is an error. *)
Variable urlParse : bytes → option urlParts.

(** [(r *Request) resolveURL()] *)
Definition resolveURL (r : Request) : resolved * Request :=
  if Req.urlParsed r then
    (mkResolved (Req.parsedHost r) (Req.parsedPort r) (Req.parsedTLS r) (Req.parsedPath r)
       (negb (bool_decide (Req.parsedHost r = []))), r)
  else
    let r := Req.set_urlParsed true r in
    let raw := Req.URL r in
    if bool_decide (raw = []) then (unresolved, r)
    else
      let raw := if contains raw (str "://") then raw else str "http://" ++ raw in
      match urlParse raw with
      | None => (unresolved, r)
      | Some u =>
          let scheme := lower <$> u_Scheme u in
          let https := bool_decide (scheme = str "https") in
          if negb https && negb (bool_decide (scheme = str "http")) then (unresolved, r)
          else if bool_decide (u_Hostname u = []) then (unresolved, r)
          else
            let port := if https then 443 else 80 in
            let port := match Atoi (u_Port u) with
                        | Some p => if 0 <? p then p else port
                        | None => port
                        end in
            let path := if bool_decide (u_RequestURI u = []) then str "/" else u_RequestURI u in
            (mkResolved (u_Hostname u) port https path true,
             Req.set_parsedPath path (Req.set_parsedTLS https
               (Req.set_parsedPort port (Req.set_parsedHost (u_Hostname u) r))))
      end.

End resolve.
