(* ===== verification/RequestProps.v ===== *)
(** * RequestProps: the header block of a request, and its target

    The header block is a rendering of the headers that were accepted, however
    often the buffer grew; nothing a caller passes can add a line to it.  The
    target of a request is computed once per URL. *)

From stdpp Require Import prelude list.
From S2P Require Import Prelude Errors Strconv Scan Response Request.

(** ** The header block *)

(** The header lines written so far. *)
Definition headerBlock (r : Request) : bytes := take (Req.headerLen r) (Req.headerBuf r).

(** The invariant of the header buffer. *)
Definition headersOK (r : Request) : Prop :=
  (Req.headerLen r ≤ length (Req.headerBuf r))%nat ∧ len (Req.headerBuf r) ≤ 2 ^ 40.

(** [r] holds exactly the headers [hs]. *)
Definition represents (r : Request) (hs : list Header) : Prop :=
  headersOK r ∧ headerBlock r = renderHeaders hs.

Lemma containsCRLF_false s : Req.containsCRLF s = false ↔ Forall (λ c, c ≠ CR ∧ c ≠ LF) s.
Proof.
  unfold Req.containsCRLF. induction s as [|c s IH]; simpl; [done |].
  rewrite orb_false_iff, IH, Forall_cons, orb_false_iff, !Z.eqb_neq. done.
Qed.

(** The six writes amount to appending the rendered header. *)
Lemma putHeader_block key value r :
  (Req.headerLen r + (length key + 2 + length value + 2) ≤ length (Req.headerBuf r))%nat →
  let r' := Req.putHeader key value r in
  headerBlock r' = headerBlock r ++ renderHeader (mkHeader key value) ∧
  length (Req.headerBuf r') = length (Req.headerBuf r) ∧
  Req.headerLen r' = (Req.headerLen r + (length key + 2 + length value + 2))%nat.
Proof.
  intros Hl r'. unfold r', Req.putHeader, headerBlock. cbv zeta.
  set (n := Req.headerLen r) in *. set (b := Req.headerBuf r) in *.
  cbn [Req.set_headerLen Req.set_headerBuf Req.headerLen Req.headerBuf].
  rewrite (splice_splice b n key [COLON]) by (simpl; lia).
  replace (n + length key + 1)%nat with (n + length (key ++ [COLON]))%nat by (rewrite length_app; simpl; lia).
  rewrite (splice_splice b n _ [SP]) by (rewrite length_app; simpl; lia).
  set (k1 := (key ++ [COLON]) ++ [SP]).
  replace (n + length (key ++ [COLON]) + 1)%nat with (n + length k1)%nat
    by (unfold k1; rewrite !length_app; simpl; lia).
  assert (length k1 = length key + 2)%nat as Hk1 by (unfold k1; rewrite !length_app; simpl; lia).
  rewrite (splice_splice b n k1 value) by lia.
  replace (n + length k1 + length value)%nat with (n + length (k1 ++ value))%nat by (rewrite length_app; lia).
  rewrite (splice_splice b n _ [CR]) by (rewrite length_app; simpl; lia).
  set (k2 := (k1 ++ value) ++ [CR]).
  assert (length k2 = length key + 2 + length value + 1)%nat as Hk2
    by (unfold k2; rewrite !length_app; simpl; lia).
  replace (n + length (k1 ++ value) + 1)%nat with (n + length k2)%nat by (rewrite length_app; lia).
  rewrite (splice_splice b n k2 [LF]) by (simpl; lia).
  set (k3 := k2 ++ [LF]).
  assert (length k3 = length key + 2 + length value + 2)%nat as Hk3
    by (unfold k3; rewrite !length_app; simpl; lia).
  replace (n + length k2 + 1)%nat with (n + length k3)%nat by lia.
  split; [| rewrite length_splice, Hk3; done].
  rewrite take_splice by lia. f_equal.
  unfold k3, k2, k1, renderHeader. cbn [Key Value]. by rewrite <- !app_assoc.
Qed.

(** How long a header block may become in this request: the buffer grows to
    [maxHeaderSize], and a longer one that is there is used. *)
Definition headerRoom (r : Request) : Z := Z.max (len (Req.headerBuf r)) Req.maxHeaderSize.

(** Growing the header buffer keeps what was written. *)
Lemma ensureHeaderBufferSize_cases r required :
  headersOK r → 0 ≤ required ≤ 2 ^ 40 →
  (Req.ensureHeaderBufferSize required r = (false, r) ∧ Req.maxHeaderSize < required) ∨
  ∃ r', Req.ensureHeaderBufferSize required r = (true, r') ∧ headerBlock r' = headerBlock r ∧
    headersOK r' ∧ required ≤ len (Req.headerBuf r') ∧ Req.headerLen r' = Req.headerLen r ∧
    headerRoom r' = headerRoom r ∧ (required ≤ len (Req.headerBuf r) ∨ required ≤ Req.maxHeaderSize).
Proof.
  intros [Hl Hb] Hr. unfold Req.ensureHeaderBufferSize.
  destruct (Z.leb_spec required (len (Req.headerBuf r))) as [Hle | Hgt].
  { right. exists r. split_and!; try done. by left. }
  rewrite (i64_small (_ * 2)) by (unfold int64_range, len in *; lia).
  set (m := if _ <? required then _ else _).
  pose proof (len_nonneg (Req.headerBuf r)) as Hnn.
  assert (required ≤ m ≤ 2 ^ 41 ∧ len (Req.headerBuf r) < m) as [Hm Hm'] by (unfold m; case_if; lia).
  pose proof (roundUp_bounds m 4096 ltac:(lia) ltac:(lia)) as Hu.
  set (u := roundUp m 4096) in *.
  assert (∀ k, required ≤ k ≤ Req.maxHeaderSize →
    ∃ r', (true, Req.set_headerBuf
       (splice (replicate (Z.to_nat k) 0) 0 (take (Req.headerLen r) (Req.headerBuf r))) r) = (true, r')
      ∧ headerBlock r' = headerBlock r ∧ headersOK r' ∧ required ≤ len (Req.headerBuf r')
      ∧ Req.headerLen r' = Req.headerLen r ∧ headerRoom r' = headerRoom r
      ∧ (required ≤ len (Req.headerBuf r) ∨ required ≤ Req.maxHeaderSize)) as Hgrow.
  { intros k Hk. unfold Req.maxHeaderSize in *. eexists. split; [done |]. unfold headerBlock, headersOK, headerRoom, Req.maxHeaderSize, len in *.
    cbn [Req.set_headerBuf Req.headerBuf Req.headerLen].
    rewrite length_splice, length_replicate. split_and!; try lia.
    assert (length (take (Req.headerLen r) (Req.headerBuf r)) = Req.headerLen r) as E
      by (rewrite length_take; lia).
    rewrite <- E at 1. apply take_splice_0. rewrite length_replicate. lia. }
  destruct (Z.ltb_spec Req.maxHeaderSize u); [destruct (Z.ltb_spec Req.maxHeaderSize required) |].
  - left. done.
  - right. apply Hgrow. unfold Req.maxHeaderSize in *. lia.
  - right. apply Hgrow. unfold Req.maxHeaderSize in *. lia.
Qed.

(** A header [SetHeader] accepts in state [r]. *)
Definition acceptable (r : Request) (h : Header) : Prop :=
  Forall (λ c, c ≠ CR ∧ c ≠ LF) (Key h) ∧ Forall (λ c, c ≠ CR ∧ c ≠ LF) (Value h) ∧
  let total := Z.of_nat (Req.headerLen r) + len (renderHeader h) in
  total ≤ len (Req.headerBuf r) ∨ total ≤ Req.maxHeaderSize.

Lemma renderHeader_len h : len (renderHeader h) = len (Key h) + 2 + len (Value h) + 2.
Proof. unfold renderHeader, len. rewrite !length_app. simpl. lia. Qed.

(** [SetHeader] on every branch: it refuses, leaving the request untouched, exactly
    when the header is not acceptable, and otherwise appends its line. *)
Lemma SetHeader_cases r h :
  headersOK r → len (Key h) ≤ 2 ^ 38 → len (Value h) ≤ 2 ^ 38 → Z.of_nat (Req.headerLen r) ≤ 2 ^ 38 →
  (¬ acceptable r h ∧ Req.SetHeader (Key h) (Value h) r = (false, r)) ∨
  (acceptable r h ∧ ∃ r', Req.SetHeader (Key h) (Value h) r = (true, r') ∧ headersOK r' ∧
     headerBlock r' = headerBlock r ++ renderHeader h ∧ headerRoom r' = headerRoom r).
Proof.
  intros Hok Hk Hv Hn. pose proof Hok as [Hl Hb].
  unfold Req.SetHeader, acceptable. rewrite renderHeader_len.
  rewrite <- !containsCRLF_false.
  destruct (Req.containsCRLF (Key h)), (Req.containsCRLF (Value h)); cbn [orb]; try (left; split; [by intros (? & ? & _) | done]).
  assert (∀ r1, headersOK r1 → Req.headerLen r1 = Req.headerLen r → headerBlock r1 = headerBlock r →
    headerRoom r1 = headerRoom r →
    Z.of_nat (Req.headerLen r) + (len (Key h) + 2 + len (Value h) + 2) ≤ len (Req.headerBuf r1) →
    ∃ r', (true, Req.putHeader (Key h) (Value h) r1) = (true, r') ∧ headersOK r' ∧
          headerBlock r' = headerBlock r ++ renderHeader h ∧ headerRoom r' = headerRoom r) as Hput.
  { intros r1 [H1 H2] HL HB HR Hroom. rewrite <- HR. unfold headerRoom, len in *.
    destruct (putHeader_block (Key h) (Value h) r1) as (E1 & E2 & E3); [lia |].
    eexists. split; [done |]. unfold headersOK, len. rewrite E1, E2, E3, HB.
    split; [lia |]. split; [by destruct h |]. done. }
  destruct (Z.ltb_spec (len (Req.headerBuf r))
              (Z.of_nat (Req.headerLen r) + (len (Key h) + 2 + len (Value h) + 2))) as [Hs | Hs].
  - pose proof (len_nonneg (Key h)). pose proof (len_nonneg (Value h)).
    destruct (ensureHeaderBufferSize_cases r
      (Z.of_nat (Req.headerLen r) + (len (Key h) + 2 + len (Value h) + 2)) Hok ltac:(lia))
      as [[-> Hmax] | (r1 & -> & HB & Hok1 & Hroom & HL & HR & Hfit)].
    + left. split; [| done]. lia.
    + right. split; [by split_and! |]. by apply Hput.
  - right. split; [split_and!; auto |]. by apply Hput.
Qed.

(** ** Sequences of calls *)

(** Set headers one after the other; the accepted ones, in order. *)
Fixpoint setAll (hs : list Header) (r : Request) : list Header * Request :=
  match hs with
  | [] => ([], r)
  | h :: t =>
      let '(ok, r1) := Req.SetHeader (Key h) (Value h) r in
      let '(acc, r2) := setAll t r1 in
      (if ok : bool then h :: acc else acc, r2)
  end.

(** Headers of a plausible size, and not too many of them. *)
Definition moderate (hs : list Header) : Prop :=
  Forall (λ h, len (Key h) ≤ 2 ^ 20 ∧ len (Value h) ≤ 2 ^ 20) hs ∧ Z.of_nat (length hs) ≤ 65536.

Lemma headerBlock_len r : headersOK r → len (headerBlock r) = Z.of_nat (Req.headerLen r).
Proof. intros [Hl _]. unfold headerBlock, len. rewrite length_take. lia. Qed.

Lemma renderHeaders_app a b : renderHeaders (a ++ b) = renderHeaders a ++ renderHeaders b.
Proof. unfold renderHeaders. by rewrite fmap_app, concat_app. Qed.

Lemma setAll_represents hs r hs0 :
  represents r hs0 → Forall (λ h, len (Key h) ≤ 2 ^ 20 ∧ len (Value h) ≤ 2 ^ 20) hs →
  Z.of_nat (Req.headerLen r) + Z.of_nat (length hs) * 2 ^ 22 ≤ 2 ^ 38 →
  let '(acc, r') := setAll hs r in
  represents r' (hs0 ++ acc) ∧ acc `sublist_of` hs ∧
  Forall (λ h, Forall (λ c, c ≠ CR ∧ c ≠ LF) (Key h) ∧ Forall (λ c, c ≠ CR ∧ c ≠ LF) (Value h)) acc.
Proof.
  intros Hr Hhs. revert r hs0 Hr. induction Hhs as [|h hs [Hk Hv] _ IH]; intros r hs0 Hr Hn; cbn [setAll].
  { rewrite app_nil_r. by split_and!. }
  destruct Hr as [Hok HB]. simpl length in Hn.
  destruct (SetHeader_cases r h Hok) as [[_ ->] | [Hacc (r1 & -> & Hok1 & HB1 & _)]]; try lia.
  - specialize (IH r hs0 (conj Hok HB) ltac:(lia)).
    destruct (setAll hs r) as [acc r2]. destruct IH as (? & ? & ?). split_and!; try done. by constructor.
  - pose proof (headerBlock_len _ Hok) as HL. pose proof (headerBlock_len _ Hok1) as HL1.
    assert (represents r1 (hs0 ++ [h])) as Hr1.
    { split; [done |]. rewrite HB1, HB, renderHeaders_app. unfold renderHeaders at 3. simpl. by rewrite app_nil_r. }
    rewrite HB1, len_app, renderHeader_len, HL in HL1.
    specialize (IH r1 _ Hr1 ltac:(lia)).
    destruct (setAll hs r1) as [acc r2]. rewrite <- app_assoc in IH. simpl in IH. destruct IH as (? & ? & ?).
    split_and!; [done | by constructor | constructor; [| done]]. by destruct Hacc as (? & ? & _).
Qed.

(** The headers a request with room for [room] bytes accepts of [hs], [used] bytes being
    taken: those without CR and LF that still fit. *)
Fixpoint acceptedHeaders (room used : Z) (hs : list Header) : list Header :=
  match hs with
  | [] => []
  | h :: t =>
      if bool_decide (Forall (λ c, c ≠ CR ∧ c ≠ LF) (Key h ++ Value h)) && (used + len (renderHeader h) <=? room)
      then h :: acceptedHeaders room (used + len (renderHeader h)) t
      else acceptedHeaders room used t
  end.

Lemma setAll_accepted hs r :
  headersOK r → Forall (λ h, len (Key h) ≤ 2 ^ 20 ∧ len (Value h) ≤ 2 ^ 20) hs →
  Z.of_nat (Req.headerLen r) + Z.of_nat (length hs) * 2 ^ 22 ≤ 2 ^ 38 →
  (setAll hs r).1 = acceptedHeaders (headerRoom r) (Z.of_nat (Req.headerLen r)) hs.
Proof.
  intros Hok Hhs. revert r Hok. induction Hhs as [|h hs [Hk Hv] _ IH]; intros r Hok Hn; cbn [setAll acceptedHeaders]; [done |].
  simpl length in Hn.
  assert (acceptable r h ↔ bool_decide (Forall (λ c, c ≠ CR ∧ c ≠ LF) (Key h ++ Value h))
            && (Z.of_nat (Req.headerLen r) + len (renderHeader h) <=? headerRoom r) = true) as Hiff.
  { rewrite andb_true_iff, bool_decide_eq_true, Forall_app, Z.leb_le. unfold acceptable, headerRoom. cbv zeta.
    rewrite Z.max_le_iff. tauto. }
  destruct (SetHeader_cases r h Hok) as [[Hno ->] | [Hacc (r1 & -> & Hok1 & HB1 & HR)]]; try lia.
  - rewrite Hiff, not_true_iff_false in Hno. rewrite Hno. rewrite <- IH by (done || lia). by destruct (setAll hs r).
  - apply Hiff in Hacc. rewrite Hacc. pose proof (headerBlock_len _ Hok) as HL. pose proof (headerBlock_len _ Hok1) as HL1.
    rewrite HB1, len_app, HL in HL1. rewrite HL1, <- HR.
    rewrite renderHeader_len in HL1. rewrite <- IH by (done || lia). by destruct (setAll hs r1).
Qed.

Lemma represents_fresh pooled : headersOK pooled → represents (Req.AcquireRequest pooled) [].
Proof. intros [_ Hb]. split; [| done]. split; [simpl; lia | done]. Qed.

(** C19: No header injection.  Start from any pooled request and call [SetHeader]
    any number of times with arbitrary keys and values.  The header block is then
    exactly the "Key: Value CR LF" lines of the accepted headers, in call order,
    through every growth of the buffer, and no accepted key or value contains CR
    or LF: the block has one line per accepted header. *)
Theorem SetHeader_no_injection pooled hs :
  headersOK pooled → moderate hs →
  let '(acc, r) := setAll hs (Req.AcquireRequest pooled) in
  headerBlock r = renderHeaders acc ∧ acc `sublist_of` hs ∧
  Forall (λ h, Forall (λ c, c ≠ CR ∧ c ≠ LF) (Key h) ∧ Forall (λ c, c ≠ CR ∧ c ≠ LF) (Value h)) acc ∧
  length (List.filter (λ c, c =? LF) (headerBlock r)) = length acc.
Proof.
  intros Hok [Hhs Hn].
  pose proof (setAll_represents hs (Req.AcquireRequest pooled) [] (represents_fresh _ Hok) Hhs) as H.
  destruct (setAll hs (Req.AcquireRequest pooled)) as [acc r]. simpl Req.headerLen in H.
  destruct H as ([_ HB] & Hsub & Hacc); [lia |].
  rewrite app_nil_l in HB. split_and!; try done. rewrite HB. clear - Hacc.
  assert (∀ s, Forall (λ c, c ≠ CR ∧ c ≠ LF) s → List.filter (λ c, c =? LF) s = []) as Hnone.
  { induction 1 as [|c s [_ Hc] _ IH]; [done |]. simpl. by rewrite (proj2 (Z.eqb_neq _ _)). }
  induction Hacc as [|h acc [Hk Hv] _ IH]; [done |].
  unfold renderHeaders in *. rewrite fmap_cons. cbn [concat].
  unfold renderHeader at 1. rewrite !List.filter_app, !length_app, (Hnone _ Hk), (Hnone _ Hv), IH. done.
Qed.

Definition exSets : list Header :=
  [mkHeader (str "A") (str "1"); mkHeader (str "B") (str "x" ++ crlf ++ str "Evil: 1");
   mkHeader (str "C") (str "3")].

Lemma SetHeader_no_injection_witness :
  let '(acc, r) := setAll exSets (Req.AcquireRequest Req.newPooledRequest) in
  headerBlock r = renderHeaders acc ∧ acc `sublist_of` exSets ∧
  Forall (λ h, Forall (λ c, c ≠ CR ∧ c ≠ LF) (Key h) ∧ Forall (λ c, c ≠ CR ∧ c ≠ LF) (Value h)) acc ∧
  length (List.filter (λ c, c =? LF) (headerBlock r)) = length acc.
Proof.
  apply (SetHeader_no_injection Req.newPooledRequest exSets).
  - split; [apply Nat.le_0_l | by vm_compute].
  - split; [| by vm_compute]. repeat constructor; by vm_compute.
Defined.

(** ** The target of a request *)

(** The URL the parser is given. *)
Definition withScheme (raw : bytes) : bytes :=
  if contains raw (str "://") then raw else str "http://" ++ raw.

(** What an accepted URL resolves to: http or https, a host, the port written or
    the default one of the scheme, a non-empty path. *)
Definition resolvesTo (urlParse : bytes → option urlParts) (raw : bytes) (x : resolved) : Prop :=
  ∃ u, raw ≠ [] ∧ urlParse (withScheme raw) = Some u ∧
    rs_host x = u_Hostname u ∧ u_Hostname u ≠ [] ∧ rs_ok x = true ∧ rs_path x ≠ [] ∧
    (u_RequestURI u ≠ [] → rs_path x = u_RequestURI u) ∧
    lower <$> u_Scheme u = (if rs_tls x then str "https" else str "http") ∧
    rs_port x = match Atoi (u_Port u) with
                | Some p => if 0 <? p then p else if rs_tls x then 443 else 80
                | None => if rs_tls x then 443 else 80
                end.

Lemma resolveURL_fresh urlParse r :
  Req.urlParsed r = false →
  (rs_ok (resolveURL urlParse r).1 = false ∧
   (resolveURL urlParse r).2 = Req.set_urlParsed true r ∧ (resolveURL urlParse r).1 = unresolved) ∨
  (resolvesTo urlParse (Req.URL r) (resolveURL urlParse r).1 ∧
   let '(x, r') := resolveURL urlParse r in
   Req.urlParsed r' = true ∧ Req.parsedHost r' = rs_host x ∧ Req.parsedPort r' = rs_port x ∧
   Req.parsedTLS r' = rs_tls x ∧ Req.parsedPath r' = rs_path x).
Proof.
  intros Hp. unfold resolveURL. rewrite Hp. cbv zeta.
  change (Req.URL (Req.set_urlParsed true r)) with (Req.URL r). fold (withScheme (Req.URL r)).
  case_bool_decide as Hr; [by left |].
  destruct (urlParse (withScheme (Req.URL r))) as [u|] eqn:Eu; [| by left].
  destruct (bool_decide_reflect (lower <$> u_Scheme u = str "https")) as [Hs | Hs];
    destruct (bool_decide_reflect (lower <$> u_Scheme u = str "http")) as [Hs' | Hs'];
    cbn [negb andb]; [by rewrite Hs in Hs' | | | by left];
    (case_bool_decide as Hh; [by left |]); right; (split; [| done]);
    exists u; cbn [rs_host rs_ok rs_path rs_tls rs_port]; split_and!; try done;
    by case_bool_decide.
Qed.

(** [resolveURL] computes the target once.  A first call either fails and
    leaves the request as it was but for the flag, or yields an http or https
    target with the host, port, TLS flag and path of the URL; a second call then
    returns the same tuple and changes nothing, and [effectivePath] is the path of
    the URL. *)
Theorem resolveURL_once urlParse r :
  Req.urlParsed r = false → Req.parsedHost r = [] →
  let '(x, r') := resolveURL urlParse r in
  (rs_ok x = true → resolvesTo urlParse (Req.URL r) x ∧ Req.effectivePath r' = rs_path x ∧
                    resolveURL urlParse r' = (x, r')) ∧
  (rs_ok x = false → r' = Req.set_urlParsed true r ∧ rs_ok (resolveURL urlParse r').1 = false).
Proof.
  intros Hp Hh. pose proof (resolveURL_fresh urlParse r Hp) as Hf.
  destruct (resolveURL urlParse r) as [x r']. cbn [fst snd] in Hf.
  destruct Hf as [(Hx & -> & _) | [Hres (H1 & H2 & H3 & H4 & H5)]].
  - split; [congruence |]. intros _. split; [done |]. unfold resolveURL. simpl. by rewrite Hh.
  - pose proof Hres as (u & Hraw & _ & Hu & Hne & Hok & Hpath & _).
    split; [intros _ | congruence]. split; [done |]. split.
    + unfold Req.effectivePath. rewrite H5. by rewrite bool_decide_eq_false_2.
    + unfold resolveURL. rewrite H1, H2, H3, H4, H5. rewrite bool_decide_eq_false_2 by congruence.
      cbn [negb]. rewrite <- Hok. by destruct x.
Qed.

Definition exParse (raw : bytes) : option urlParts :=
  if bool_decide (raw = str "http://example.com:8080/x?y")
  then Some (mkURL (str "http") (str "example.com") (str "8080") (str "/x?y")) else None.

Lemma resolveURL_once_witness :
  let r := Req.WithURL (str "example.com:8080/x?y") (Req.AcquireRequest Req.newPooledRequest) in
  let '(x, r') := resolveURL exParse r in
  (rs_ok x = true → resolvesTo exParse (Req.URL r) x ∧ Req.effectivePath r' = rs_path x ∧
                    resolveURL exParse r' = (x, r')) ∧
  (rs_ok x = false → r' = Req.set_urlParsed true r ∧ rs_ok (resolveURL exParse r').1 = false).
Proof.
  apply (resolveURL_once exParse
    (Req.WithURL (str "example.com:8080/x?y") (Req.AcquireRequest Req.newPooledRequest))); reflexivity.
Defined.

(** A request that is given a new URL keeps the parsed target of the old one.
    When the new URL does not parse, the first call reports failure, but every
    later call reports success with the host, port, TLS flag and path of the
    previous URL; and the path of the old URL shadows [Path] even after the failed
    call. *)
Lemma resolveURL_stale_target urlParse r raw :
  Req.parsedHost r ≠ [] → Req.parsedPath r ≠ [] → urlParse (withScheme raw) = None →
  let '(x, r') := resolveURL urlParse (Req.WithURL raw r) in
  rs_ok x = false ∧ Req.effectivePath r' = Req.parsedPath r ∧
  resolveURL urlParse r' =
    (mkResolved (Req.parsedHost r) (Req.parsedPort r) (Req.parsedTLS r) (Req.parsedPath r) true, r').
Proof.
  intros Hh Hpath Hu. unfold resolveURL at 1. cbv zeta.
  change (Req.urlParsed (Req.WithURL raw r)) with false. cbv iota.
  change (Req.URL (Req.set_urlParsed true (Req.WithURL raw r))) with raw.
  fold (withScheme raw). rewrite Hu.
  assert (∀ r', r' = Req.set_urlParsed true (Req.WithURL raw r) →
    Req.effectivePath r' = Req.parsedPath r ∧ resolveURL urlParse r' =
    (mkResolved (Req.parsedHost r) (Req.parsedPort r) (Req.parsedTLS r) (Req.parsedPath r) true, r')) as H.
  { intros r' ->. unfold Req.effectivePath, resolveURL. simpl. rewrite (bool_decide_eq_false_2 (Req.parsedPath r = [])), (bool_decide_eq_false_2 (Req.parsedHost r = [])) by done. done. }
  case_bool_decide; (split; [done |]); by apply H.
Qed.
