(* ===== verification/Writer.v ===== *)
(** * Writer: serialising a request (src/writer.go)

    The functions fill a fixed buffer at a moving position; the state is the
    buffer and the position, and running out of room is
    [ErrHeaderBufferSmall]. *)

From stdpp Require Import prelude list.
From S2P Require Import Prelude Errors Strconv Scan Response Config Request.

(** [buf] and [*pos]. *)
Abbreviation wbuf := (bytes * nat)%type.

(** ** The primitive writers *)

(** [writeString] and [writeBytes] *)
Definition writeBytes (d : bytes) : wbuf → bool * wbuf := λ '(buf, pos),
  if (length buf <? pos + length d)%nat then (false, (buf, pos))
  else (true, (splice buf pos d, (pos + length d)%nat)).
Definition writeString (s : bytes) : wbuf → bool * wbuf := writeBytes s.

(** [writeByte] *)
Definition writeByte (b : Z) : wbuf → bool * wbuf := λ '(buf, pos),
  if (length buf <? pos + 1)%nat then (false, (buf, pos))
  else (true, (splice buf pos [b], (pos + 1)%nat)).

(** [for n > 0 { i--; tmp[i] = byte('0' + n%10); n /= 10 }]: [acc] is [tmp[i:]];
    20 places are enough for a 64-bit number. *)
Fixpoint decimalLoop (fuel : nat) (n : Z) (acc : bytes) : bytes :=
  match fuel with
  | O => acc
  | S fuel' => if 0 <? n then decimalLoop fuel' (n / 10) (48 + n `mod` 10 :: acc) else acc
  end.

(** [writeInt] *)
Definition writeInt (n : Z) : wbuf → bool * wbuf := λ '(buf, pos),
  if n <? 0 then (false, (buf, pos))
  else if n =? 0 then writeByte 48 (buf, pos)
  else if n <? 10 then writeByte (48 + n) (buf, pos)
  else if n <? 100 then
    if (length buf <? pos + 2)%nat then (false, (buf, pos))
    else
      let buf := splice buf pos [48 + n / 10] in
      let buf := splice buf (pos + 1) [48 + n `mod` 10] in
      (true, (buf, (pos + 2)%nat))
  else if n <? 1000 then
    if (length buf <? pos + 3)%nat then (false, (buf, pos))
    else
      let buf := splice buf pos [48 + n / 100] in
      let buf := splice buf (pos + 1) [48 + (n / 10) `mod` 10] in
      let buf := splice buf (pos + 2) [48 + n `mod` 10] in
      (true, (buf, (pos + 3)%nat))
  else if n <? 10000 then
    if (length buf <? pos + 4)%nat then (false, (buf, pos))
    else
      let buf := splice buf pos [48 + n / 1000] in
      let buf := splice buf (pos + 1) [48 + (n / 100) `mod` 10] in
      let buf := splice buf (pos + 2) [48 + (n / 10) `mod` 10] in
      let buf := splice buf (pos + 3) [48 + n `mod` 10] in
      (true, (buf, (pos + 4)%nat))
  else writeBytes (decimalLoop 20 n []) (buf, pos).

(** [if !m(buf, &pos, ...) { return 0, ErrHeaderBufferSmall }] *)
Definition must (m : wbuf → bool * wbuf) : go wbuf error unit := λ s,
  match m s with
  | (true, s') => (Ret tt, s')
  | (false, s') => (Fail (ESentinel ErrHeaderBufferSmall), s')
  end.
Definition skip : go wbuf error unit := mret tt.

(** ** The request writers *)

Section write.

Variables (req : Request) (cfg : Config) (host : bytes) (port : Z) (useTLS : bool).

Definition methodOf : bytes :=
  if bool_decide (Req.Method req = []) then str "GET" else Req.Method req.

(** [writeRequestPart1]: request line, Host, Connection, Content-Encoding. *)
Definition writeRequestPart1 (compressed forwardProxy : bool) : go wbuf error nat :=
  let path := Req.effectivePath req in
  _ ← must (writeString methodOf);
  _ ← must (writeByte SP);
  _ ← (if forwardProxy then
         _ ← must (writeString (str "http://"));
         _ ← must (writeString host);
         if (0 <? port) && negb (port =? 80) then
           _ ← must (writeByte COLON); must (writeInt port)
         else skip
       else skip);
  _ ← must (writeString path);
  _ ← must (writeString (strln " HTTP/1.1"));
  _ ← must (writeString (str "Host: "));
  _ ← must (writeString host);
  let defaultPort := if useTLS then 443 else 80 in
  _ ← (if (0 <? port) && negb (port =? defaultPort) then
         _ ← must (writeByte COLON); must (writeInt port)
       else skip);
  _ ← must (writeString crlf);
  _ ← (if Cfg.KeepAlive cfg && negb (Cfg.DisableKeepAlive cfg)
       then must (writeString (strln "Connection: keep-alive"))
       else must (writeString (strln "Connection: close")));
  _ ← (if compressed then must (writeString (strln "Content-Encoding: gzip")) else skip);
  gets snd.

(** [writeRequestPart3]: proxy credentials, Expect, Content-Length, blank line. *)
Definition writeRequestPart3 (bodyLen : Z) (proxyAuthHeader : bytes) : go wbuf error nat :=
  _ ← (if (0 <? length proxyAuthHeader)%nat then must (writeBytes proxyAuthHeader) else skip);
  _ ← (if Req.ExpectContinue req && (0 <? bodyLen)
       then must (writeString (strln "Expect: 100-continue")) else skip);
  _ ← must (writeString (str "Content-Length: "));
  _ ← must (writeInt bodyLen);
  _ ← must (writeString headerSep);
  gets snd.

(** [writeRequestHeaderPrefix] *)
Definition writeRequestHeaderPrefix (compressed forwardProxy : bool) (proxyAuthHeader : bytes)
    : go wbuf error nat :=
  let path := Req.effectivePath req in
  _ ← must (writeString methodOf);
  _ ← must (writeByte SP);
  _ ← (if forwardProxy then
         _ ← must (writeString (str "http://"));
         _ ← must (writeString host);
         if (0 <? port) && negb (port =? 80) then
           _ ← must (writeByte COLON); must (writeInt port)
         else skip
       else skip);
  _ ← must (writeString path);
  _ ← must (writeString (strln " HTTP/1.1"));
  _ ← must (writeString (str "Host: "));
  _ ← must (writeString host);
  let defaultPort := if useTLS then 443 else 80 in
  _ ← (if (0 <? port) && negb (port =? defaultPort) then
         _ ← must (writeByte COLON); must (writeInt port)
       else skip);
  _ ← must (writeString crlf);
  _ ← (if Cfg.KeepAlive cfg && negb (Cfg.DisableKeepAlive cfg)
       then must (writeString (strln "Connection: keep-alive"))
       else must (writeString (strln "Connection: close")));
  _ ← (if compressed then must (writeString (strln "Content-Encoding: gzip")) else skip);
  _ ← (if (0 <? Req.headerLen req)%nat
       then must (writeBytes (take (Req.headerLen req) (Req.headerBuf req))) else skip);
  _ ← (if forwardProxy && (0 <? length proxyAuthHeader)%nat
       then must (writeBytes proxyAuthHeader) else skip);
  _ ← (if Req.ExpectContinue req
       then must (writeString (strln "Expect: 100-continue")) else skip);
  gets snd.

(** [writeRequest] *)
Definition writeRequest (body : bytes) (compressed forwardProxy : bool) (proxyAuthHeader : bytes)
    : go wbuf error nat :=
  let path := Req.effectivePath req in
  _ ← must (writeString methodOf);
  _ ← must (writeByte SP);
  _ ← (if forwardProxy then
         _ ← must (writeString (str "http://"));
         _ ← must (writeString host);
         if (0 <? port) && negb (port =? 80) then
           _ ← must (writeByte COLON); must (writeInt port)
         else skip
       else skip);
  _ ← must (writeString path);
  _ ← must (writeString (strln " HTTP/1.1"));
  _ ← must (writeString (str "Host: "));
  _ ← must (writeString host);
  let defaultPort := if useTLS then 443 else 80 in
  _ ← (if (0 <? port) && negb (port =? defaultPort) then
         _ ← must (writeByte COLON); must (writeInt port)
       else skip);
  _ ← must (writeString crlf);
  _ ← (if Cfg.KeepAlive cfg && negb (Cfg.DisableKeepAlive cfg)
       then must (writeString (strln "Connection: keep-alive"))
       else must (writeString (strln "Connection: close")));
  _ ← (if compressed then must (writeString (strln "Content-Encoding: gzip")) else skip);
  _ ← (if (0 <? Req.headerLen req)%nat
       then must (writeBytes (take (Req.headerLen req) (Req.headerBuf req))) else skip);
  _ ← (if forwardProxy && (0 <? length proxyAuthHeader)%nat
       then must (writeBytes proxyAuthHeader) else skip);
  _ ← (if Req.ExpectContinue req && (0 <? length body)%nat
       then must (writeString (strln "Expect: 100-continue")) else skip);
  _ ← must (writeString (str "Content-Length: "));
  _ ← must (writeInt (len body));
  _ ← must (writeString headerSep);
  gets snd.

End write.

(** ** Writing to the connection *)

(** The peer's side of [conn.Write]: what arrived, and the answers of the calls to
    come, each the number of bytes accepted and an error; later calls accept
    everything. *)
Record WConn := mkWConn { sent : bytes; answers : list (nat * option error) }.

Definition Write (buf : bytes) (w : WConn) : nat * option error * WConn :=
  match answers w with
  | [] => (length buf, None, mkWConn (sent w ++ buf) [])
  | (n, e) :: t => (Nat.min n (length buf), e, mkWConn (sent w ++ take n buf) t)
  end.

(** [writeAll(conn, buf)]: every call uses up an answer, or takes all. *)
Fixpoint writeAllLoop (fuel : nat) (buf : bytes) : go WConn error unit := λ w,
  match buf with
  | [] => (Ret tt, w)
  | _ =>
      match fuel with
      | O => (Hang, w)
      | S fuel' =>
          match Write buf w with
          | (_, Some e, w') => (Fail e, w')
          | (n, None, w') => writeAllLoop fuel' (drop n buf) w'
          end
      end
  end.
Definition writeAll (buf : bytes) : go WConn error unit := λ w,
  writeAllLoop (S (S (length (answers w)))) buf w.

(** [buffers.WriteTo(conn)] of [net.Buffers] *)
Fixpoint buffersWriteTo (bs : list bytes) : go WConn error unit := λ w,
  match bs with
  | [] => (Ret tt, w)
  | b :: t =>
      match Write b w with
      | (_, Some e, w') => (Fail e, w')
      | (_, None, w') => buffersWriteTo t w'
      end
  end.

(** [writeAllBatched(conn, header, body)] *)
Definition writeAllBatched (header body : bytes) : go WConn error unit :=
  if bool_decide (body = []) then writeAll header else buffersWriteTo [header; body].
