(* ===== verification/WriterProps.v ===== *)
(** * WriterProps: what a request looks like on the wire

    [wireHead] is the message head the writers are meant to produce, as one
    expression.  Every writer either produces exactly its part of it or reports
    that the buffer is too small; the three-part writing of the connection, the
    one-buffer writing and the pre-encoded prefix send the same bytes; and from what
    the writers left in their buffers the request line and the headers are read back
    in order. *)

From stdpp Require Import prelude list.
From S2P Require Import Prelude Errors Strconv Scan Response Config Request RequestProps Writer.

(** ** Writers and the text they write *)

(** [m] writes the text [t] at the position, or fails because it does not fit. *)
Definition writes {A} (m : go wbuf error A) (t : bytes) : Prop :=
  ∀ buf pos, (pos ≤ length buf)%nat →
    ((pos + length t ≤ length buf)%nat →
       ∃ a, m (buf, pos) = (Ret a, (splice buf pos t, (pos + length t)%nat))) ∧
    ((length buf < pos + length t)%nat →
       (m (buf, pos)).1 = Fail (ESentinel ErrHeaderBufferSmall)).

Lemma writes_skip : writes skip [].
Proof.
  intros buf pos Hp. split; [| simpl; lia]. intros _. exists tt.
  rewrite splice_nil, Nat.add_0_r. done.
Qed.

Lemma writes_bytes d : writes (must (writeBytes d)) d.
Proof.
  intros buf pos Hp. unfold must, writeBytes. split; intros H.
  - rewrite (proj2 (Nat.ltb_ge _ _)) by done. by eexists.
  - by rewrite (proj2 (Nat.ltb_lt _ _)).
Qed.

Lemma writes_string d : writes (must (writeString d)) d.
Proof. apply writes_bytes. Qed.

Lemma writes_byte b : writes (must (writeByte b)) [b].
Proof. apply (writes_bytes [b]). Qed.

Lemma writes_bind {A B} (m : go wbuf error A) (k : A → go wbuf error B) t1 t2 :
  writes m t1 → (∀ a, writes (k a) t2) → writes (m ≫= k) (t1 ++ t2).
Proof.
  intros H1 H2 buf pos Hp. rewrite length_app. specialize (H1 buf pos Hp) as [Hok Hno].
  destruct (decide (pos + length t1 ≤ length buf)%nat) as [Hfit | Hfit].
  - destruct (Hok Hfit) as [a E]. rewrite (bind_Ret _ _ _ _ _ E).
    destruct (H2 a (splice buf pos t1) (pos + length t1)%nat) as [Hok2 Hno2];
      [rewrite length_splice; lia |]. rewrite length_splice in *.
    split; intros H.
    + destruct Hok2 as [b E2]; [lia |]. exists b. rewrite E2, splice_splice by lia. by rewrite Nat.add_assoc.
    + apply Hno2. lia.
  - split; intros H; [lia |]. specialize (Hno ltac:(lia)).
    destruct (m (buf, pos)) as [o s'] eqn:E. simpl in Hno. subst o. by rewrite (bind_Fail _ _ _ _ _ E).
Qed.

(** [m] returns the position it stopped at. *)
Definition returnsPos (m : go wbuf error nat) : Prop := ∀ s n s', m s = (Ret n, s') → n = s'.2.

Lemma returnsPos_bind {A} (m : go wbuf error A) k : (∀ a, returnsPos (k a)) → returnsPos (m ≫= k).
Proof.
  intros Hk s n s'. unfold mbind, go_bind. destruct (m s) as [[a | | |] s1]; try done. apply Hk.
Qed.

Lemma returnsPos_gets : returnsPos (gets snd).
Proof. by intros s n s' [= <- <-]. Qed.

#[export] Hint Resolve returnsPos_gets returnsPos_bind : burst.

(** A writer run on a whole buffer. *)
Lemma writes_whole (m : go wbuf error nat) t buf :
  writes m t → returnsPos m →
  ((length t ≤ length buf)%nat → m (buf, 0%nat) = (Ret (length t), (splice buf 0 t, length t))) ∧
  ((length buf < length t)%nat → (m (buf, 0%nat)).1 = Fail (ESentinel ErrHeaderBufferSmall)).
Proof.
  intros Hw Hr. destruct (Hw buf 0%nat ltac:(lia)) as [Hok Hno]. split; [| exact Hno].
  intros Hl. destruct (Hok Hl) as [n E]. pose proof (Hr _ _ _ E) as ->. exact E.
Qed.

Lemma writes_gets : writes (gets snd) [].
Proof.
  intros buf pos Hp. split; [| simpl; lia]. intros _. exists pos. rewrite splice_nil, Nat.add_0_r. done.
Qed.

Lemma writes_if {A} (b : bool) (m k : go wbuf error A) t u :
  writes m t → writes k u → writes (if b then m else k) (if b then t else u).
Proof. by destruct b. Qed.

(** ** writeInt *)

Lemma decimalLoop_format fuel n acc : 0 ≤ n → decimalLoop fuel n acc = formatLoop 10 fuel n acc.
Proof.
  revert n acc. induction fuel as [|fuel IH]; intros n acc Hn; [done |]. simpl.
  case_if; [| done]. rewrite IH by (apply Z.div_pos; lia). f_equal.
  assert (digitChar (n `mod` 10) = 48 + n `mod` 10) as ->; [| done].
  unfold digitChar. pose proof (Z.mod_pos_bound n 10 ltac:(lia)). case_if; lia.
Qed.

(** Enough fuel prints all the digits. *)
Lemma formatLoop_fuel f1 f2 n acc :
  0 ≤ n < 10 ^ Z.of_nat f1 → (f1 ≤ f2)%nat → formatLoop 10 f2 n acc = formatLoop 10 f1 n acc.
Proof.
  revert f2 n acc. induction f1 as [|f1 IH]; intros f2 n acc Hn Hf.
  - assert (n = 0) as -> by (simpl in Hn; lia). by destruct f2.
  - destruct f2 as [|f2]; [lia |]. simpl. case_if; [| done]. apply IH; [| lia].
    rewrite Nat2Z.inj_succ, Z.pow_succ_r in Hn by lia. split; [apply Z.div_pos; lia |].
    apply Z.div_lt_upper_bound; lia.
Qed.

Lemma Itoa_digits f n : 0 < n < 10 ^ Z.of_nat f → (f ≤ 64)%nat → Itoa n = formatLoop 10 f n [].
Proof.
  intros Hn Hf. rewrite Itoa_nonneg by lia. unfold FormatUint.
  rewrite (proj2 (Z.eqb_neq _ _)) by lia. apply formatLoop_fuel; lia.
Qed.

(** Digits printed from the right, one by one. *)
Lemma formatLoop_step f n acc :
  0 < n → formatLoop 10 (S f) n acc = formatLoop 10 f (n / 10) (48 + n `mod` 10 :: acc).
Proof.
  intros Hn. simpl. rewrite (proj2 (Z.ltb_lt _ _)) by done. do 2 f_equal.
  unfold digitChar. pose proof (Z.mod_pos_bound n 10 ltac:(lia)). case_if; lia.
Qed.

Lemma formatLoop_digit f n acc : 0 < n < 10 → formatLoop 10 (S f) n acc = 48 + n :: acc.
Proof.
  intros Hn. rewrite formatLoop_step, Z.div_small, Z.mod_small by lia. by destruct f.
Qed.

Lemma splice_cons b pos x d :
  (pos + S (length d) ≤ length b)%nat → splice (splice b pos [x]) (pos + 1) d = splice b pos (x :: d).
Proof. intros H. apply (splice_splice b pos [x] d). simpl. lia. Qed.

(** The fast paths of [writeInt] print what the loop prints. *)
Lemma Itoa_small n :
  0 ≤ n < 10000 →
  Itoa n = if n <? 10 then [48 + n]
           else if n <? 100 then [48 + n / 10; 48 + n `mod` 10]
           else if n <? 1000 then [48 + n / 100; 48 + (n / 10) `mod` 10; 48 + n `mod` 10]
           else [48 + n / 1000; 48 + (n / 100) `mod` 10; 48 + (n / 10) `mod` 10; 48 + n `mod` 10].
Proof.
  intros Hn. destruct (decide (n = 0)) as [-> | Hz]; [done |].
  assert (n / 100 = n / 10 / 10) as E1 by dlia.
  assert (n / 1000 = n / 10 / 10 / 10) as E2 by dlia.
  rewrite (Itoa_digits 4) by (simpl; lia).
  repeat case_if.
  - by rewrite formatLoop_digit by lia.
  - rewrite formatLoop_step, formatLoop_digit by dlia. done.
  - do 2 rewrite formatLoop_step by dlia. rewrite formatLoop_digit, E1 by dlia. done.
  - do 3 rewrite formatLoop_step by dlia. rewrite formatLoop_digit, E1, E2 by dlia. done.
Qed.

Lemma writeInt_eq n buf pos :
  0 ≤ n < 2 ^ 63 → writeInt n (buf, pos) = writeBytes (Itoa n) (buf, pos).
Proof.
  intros Hn. unfold writeInt. rewrite (proj2 (Z.ltb_ge n 0)) by lia.
  destruct (Z.ltb_spec n 10000) as [Hs | Hs].
  - rewrite Itoa_small by lia. unfold writeByte, writeBytes.
    destruct (Z.eqb_spec n 0) as [-> |]; [done |].
    repeat case_if; simpl length in *; try lia; try done; rewrite ?splice_cons; try (simpl; lia); try done.
    + by rewrite (splice_splice buf pos [_; _] [_]) by (simpl; lia).
    + rewrite (splice_splice buf pos [_; _] [_]) by (simpl; lia). cbn [app].
      by rewrite (splice_splice buf pos [_; _; _] [_]) by (simpl; lia).
  - repeat (rewrite (proj2 (Z.ltb_ge n _)) by lia). rewrite (proj2 (Z.eqb_neq n 0)) by lia.
    rewrite decimalLoop_format, <- (Itoa_digits 20) by (simpl; lia). done.
Qed.

Lemma writes_int n : 0 ≤ n < 2 ^ 63 → writes (must (writeInt n)) (Itoa n).
Proof.
  intros Hn buf pos Hp. unfold must. rewrite writeInt_eq by done. by apply writes_bytes.
Qed.

(** ** The message head *)

Section text.

Variables (req : Request) (cfg : Config) (host : bytes) (port : Z) (useTLS : bool).

Definition portText (default : Z) : bytes :=
  if (0 <? port) && negb (port =? default) then [COLON] ++ Itoa port else [].

(** The request line, with the absolute form for a forward proxy. *)
Definition requestLine (forwardProxy : bool) : bytes :=
  methodOf req ++ [SP] ++ (if forwardProxy then str "http://" ++ host ++ portText 80 else [])
  ++ Req.effectivePath req ++ (strln " HTTP/1.1").

Definition hostLine : bytes :=
  str "Host: " ++ host ++ portText (if useTLS then 443 else 80) ++ crlf.

Definition connectionLine : bytes :=
  if Cfg.KeepAlive cfg && negb (Cfg.DisableKeepAlive cfg)
  then strln "Connection: keep-alive" else strln "Connection: close".

Definition encodingLine (compressed : bool) : bytes :=
  if compressed then strln "Content-Encoding: gzip" else [].

Definition expectLine (on : bool) : bytes :=
  if Req.ExpectContinue req && on then strln "Expect: 100-continue" else [].

Definition lengthLine (n : Z) : bytes := str "Content-Length: " ++ Itoa n ++ headerSep.

Definition wirePart1 (compressed forwardProxy : bool) : bytes :=
  requestLine forwardProxy ++ hostLine ++ connectionLine ++ encodingLine compressed.

Definition wirePart3 (bodyLen : Z) (auth : bytes) : bytes :=
  auth ++ expectLine (0 <? bodyLen) ++ lengthLine bodyLen.

(** The whole head: its parts and the caller's header block between them. *)
Definition wireHead (bodyLen : Z) (compressed forwardProxy : bool) (auth : bytes) : bytes :=
  wirePart1 compressed forwardProxy ++ headerBlock req
  ++ wirePart3 bodyLen (if forwardProxy then auth else []).

Hypothesis Hport : port < 2 ^ 63.

Lemma writes_port d :
  writes (if (0 <? port) && negb (port =? d) then _ ← must (writeByte COLON); must (writeInt port) else skip)
         (portText d).
Proof.
  unfold portText. destruct (Z.ltb_spec 0 port); cbn [andb]; [| apply writes_skip].
  case_if; [apply writes_skip |]. apply (writes_bind _ _ [COLON]); [apply writes_byte |].
  intros _. apply writes_int. lia.
Qed.

Lemma writes_block : writes (if (0 <? Req.headerLen req)%nat
    then must (writeBytes (take (Req.headerLen req) (Req.headerBuf req))) else skip) (headerBlock req).
Proof.
  unfold headerBlock. case_if; [apply writes_bytes |].
  assert (Req.headerLen req = 0%nat) as -> by lia. apply writes_skip.
Qed.

Lemma writes_opt (b : bool) (t : bytes) :
  writes (if b then must (writeString t) else skip) (if b then t else []).
Proof. destruct b; [apply writes_string | apply writes_skip]. Qed.

Lemma writes_auth (b : bool) (auth : bytes) :
  writes (if b && (0 <? length auth)%nat then must (writeBytes auth) else skip)
         (if b then auth else []).
Proof.
  destruct b; [| apply writes_skip]. cbn [andb]. case_if; [apply writes_bytes |].
  assert (auth = []) as -> by (apply nil_length_inv; lia). apply writes_skip.
Qed.

End text.

#[export] Hint Resolve writes_skip writes_bytes writes_string writes_byte writes_gets writes_port
  writes_block writes_opt writes_auth writes_int : burst.

(** Match a writer with its text, one statement at a time. *)
Ltac writes_step :=
  lazymatch goal with
  | |- writes (_ ≫= _) (_ ++ _) => apply writes_bind; [| intros _]
  | |- writes (if ?b then _ else _) (if ?b then _ else _) => apply writes_if
  | |- writes _ _ => solve [eauto with burst]
  end.
Ltac writes_tac := repeat writes_step.

Section heads.

Variables (req : Request) (cfg : Config) (host : bytes) (port : Z) (useTLS : bool).
Hypothesis Hport : port < 2 ^ 63.

Lemma part1_writes compressed fwd :
  writes (writeRequestPart1 req cfg host port useTLS compressed fwd)
         (wirePart1 req cfg host port useTLS compressed fwd).
Proof.
  unfold writeRequestPart1, wirePart1, requestLine, hostLine, connectionLine, encodingLine.
  rewrite <- (app_nil_r (if compressed then _ else _)). rewrite <- ?app_assoc.
  writes_tac.
Qed.

Lemma part3_writes bodyLen auth :
  0 ≤ bodyLen < 2 ^ 63 →
  writes (writeRequestPart3 req bodyLen auth) (wirePart3 req bodyLen auth).
Proof.
  intros Hn. unfold writeRequestPart3, wirePart3, expectLine, lengthLine.
  rewrite <- (app_nil_r headerSep). rewrite <- ?app_assoc.
  apply writes_bind; [apply (writes_auth true) | intros _]. writes_tac.
Qed.

Lemma prefix_writes compressed fwd auth :
  writes (writeRequestHeaderPrefix req cfg host port useTLS compressed fwd auth)
         (wirePart1 req cfg host port useTLS compressed fwd ++ headerBlock req
          ++ (if fwd then auth else []) ++ expectLine req true).
Proof.
  unfold writeRequestHeaderPrefix, wirePart1, requestLine, hostLine, connectionLine, encodingLine,
    expectLine. rewrite andb_true_r.
  rewrite <- (app_nil_r (if Req.ExpectContinue req then _ else _)). rewrite <- ?app_assoc.
  writes_tac.
Qed.

Lemma request_writes body compressed fwd auth :
  len body < 2 ^ 63 →
  writes (writeRequest req cfg host port useTLS body compressed fwd auth)
         (wireHead req cfg host port useTLS (len body) compressed fwd auth).
Proof.
  intros Hn. unfold writeRequest, wireHead, wirePart1, wirePart3, requestLine, hostLine,
    connectionLine, encodingLine, expectLine, lengthLine.
  assert ((0 <? len body) = (0 <? length body)%nat) as ->.
  { unfold len. destruct (Nat.ltb_spec 0 (length body)); [apply Z.ltb_lt | apply Z.ltb_ge]; lia. }
  rewrite <- (app_nil_r headerSep). rewrite <- ?app_assoc.
  pose proof (len_nonneg body). writes_tac.
Qed.

End heads.

(** C30: [writeRequest] serialises the message head.  If the buffer can hold it, the
    call returns its length and the buffer starts with exactly the request line
    (absolute form for a forward proxy), Host with the port when it is not the
    default one, Connection, Content-Encoding, the caller's header block, the proxy
    credentials, Expect, Content-Length and the blank line, in this order; if not,
    it returns [ErrHeaderBufferSmall]. *)
Theorem writeRequest_text req cfg host port useTLS body compressed fwd auth buf :
  port < 2 ^ 63 → len body < 2 ^ 63 →
  let text := wireHead req cfg host port useTLS (len body) compressed fwd auth in
  let res := writeRequest req cfg host port useTLS body compressed fwd auth (buf, 0%nat) in
  ((length text ≤ length buf)%nat →
     res.1 = Ret (length text) ∧ take (length text) res.2.1 = text) ∧
  ((length buf < length text)%nat → res.1 = Fail (ESentinel ErrHeaderBufferSmall)).
Proof.
  intros Hp Hb text res.
  destruct (writes_whole _ _ buf (request_writes req cfg host port useTLS Hp body compressed fwd auth Hb))
    as [Hok Hno]; [unfold writeRequest; auto 30 with burst |]. split; [| exact Hno].
  intros Hl. unfold res. rewrite (Hok Hl). split; [done |]. by apply take_splice_0.
Qed.

Definition exRequest : Request :=
  Req.WithHeader (str "Accept") (str "*/*")
    (Req.WithPath (str "/a?b") (Req.AcquireRequest (Req.set_headerBuf (replicate 40 0) Req.newPooledRequest))).

Lemma writeRequest_text_witness :
  let text := wireHead exRequest Cfg.DefaultConfig (str "h") 8080 true 2 false true (strln "P: x") in
  let res := writeRequest exRequest Cfg.DefaultConfig (str "h") 8080 true (str "ab") false true
               (strln "P: x") (replicate 200 0, 0%nat) in
  ((length text ≤ length (replicate 200 0))%nat →
     res.1 = Ret (length text) ∧ take (length text) res.2.1 = text) ∧
  ((length (replicate 200 0) < length text)%nat → res.1 = Fail (ESentinel ErrHeaderBufferSmall)).
Proof.
  apply (writeRequest_text exRequest Cfg.DefaultConfig (str "h") 8080 true (str "ab") false true
           (strln "P: x") (replicate 200 0)); by vm_compute.
Defined.

Example wireHead_ex :
  wireHead exRequest Cfg.DefaultConfig (str "h") 8080 true 2 false true (strln "P: x") =
  strln "GET http://h:8080/a?b HTTP/1.1" ++ strln "Host: h:8080" ++ strln "Connection: keep-alive"
  ++ strln "Accept: */*" ++ strln "P: x" ++ strln "Content-Length: 2" ++ crlf.
Proof. vm_compute. reflexivity. Qed.

(** ** Reading the head back *)

Section back.

Variables (req : Request) (cfg : Config) (host : bytes) (port : Z) (useTLS : bool).
Variables (hs auths : list Header).

(** The headers the message is meant to carry. *)
Definition wireHeaders (bodyLen : Z) (compressed forwardProxy : bool) : list Header :=
  [mkHeader (str "Host") (host ++ portText port (if useTLS then 443 else 80))]
  ++ [mkHeader (str "Connection")
        (if Cfg.KeepAlive cfg && negb (Cfg.DisableKeepAlive cfg) then str "keep-alive" else str "close")]
  ++ (if compressed then [mkHeader (str "Content-Encoding") (str "gzip")] else [])
  ++ hs ++ (if forwardProxy then auths else [])
  ++ (if Req.ExpectContinue req && (0 <? bodyLen) then [mkHeader (str "Expect") (str "100-continue")] else [])
  ++ [mkHeader (str "Content-Length") (Itoa bodyLen)].

Lemma renderHeaders_one h : renderHeaders [h] = renderHeader h.
Proof. unfold renderHeaders. simpl. apply app_nil_r. Qed.

Lemma wireHead_renders bodyLen compressed fwd auth :
  represents req hs → auth = renderHeaders auths →
  wireHead req cfg host port useTLS bodyLen compressed fwd auth =
  requestLine req host port fwd ++ renderHeaders (wireHeaders bodyLen compressed fwd) ++ crlf.
Proof.
  intros [_ HB] ->. unfold wireHead, wirePart1, wireHeaders. rewrite HB.
  rewrite !renderHeaders_app, !renderHeaders_one. rewrite <- !app_assoc. f_equal.
  assert (hostLine host port useTLS = renderHeader
    (mkHeader (str "Host") (host ++ portText port (if useTLS then 443 else 80)))) as <-.
  { unfold hostLine, renderHeader. cbn [Key Value]. by rewrite <- !app_assoc. }
  f_equal. f_equal; [by unfold connectionLine; case_if; [case_if |] |].
  f_equal; [by destruct compressed |]. f_equal. unfold wirePart3, expectLine, lengthLine.
  rewrite <- ?app_assoc. f_equal; [by destruct fwd |].
  f_equal; [by destruct (_ && _) |]. unfold renderHeader. cbn [Key Value].
  rewrite <- !app_assoc. done.
Qed.

End back.

Lemma plain_const k v :
  forallb (λ c, negb (c =? COLON) && negb (c =? CR) && negb (c =? LF)) k = true →
  forallb (λ c, negb (c =? CR) && negb (c =? LF)) v = true →
  trimBlank k = k → trimBlank v = v → k ≠ [] → v ≠ [] → plainHeader (mkHeader k v).
Proof.
  intros Hk Hv ????. split; try done; cbn [Key Value].
  - rewrite forallb_forall in Hk. apply Forall_forall. intros c Hc. apply list_elem_of_In, Hk in Hc. unbool. done.
  - rewrite forallb_forall in Hv. apply Forall_forall. intros c Hc. apply list_elem_of_In, Hv in Hc. unbool. done.
Qed.

Ltac plain_const := apply plain_const; done.

(** Trimming leaves text without blanks alone. *)
Lemma trimBlank_noblank v : Forall (λ c, isBlank c = false) v → trimBlank v = v.
Proof.
  intros Hv. assert (∀ l, Forall (λ c, isBlank c = false) l → skipWhile isBlank l = l) as Hs.
  { intros l [|c l' Hc _]; [done |]. by apply skipWhile_stop. }
  unfold trimBlank, skipWhileEnd. rewrite (Hs v) by done.
  rewrite Hs by (by apply Forall_reverse). apply reverse_involutive.
Qed.

Lemma Itoa_plain_header k n :
  0 ≤ n → forallb (λ c, negb (c =? COLON) && negb (c =? CR) && negb (c =? LF)) k = true →
  trimBlank k = k → k ≠ [] → plainHeader (mkHeader k (Itoa n)).
Proof.
  intros Hn Hk Ht Hne. pose proof (Itoa_plain n Hn) as Hp.
  apply plain_const; try done.
  - apply forallb_forall. intros c Hc. apply list_elem_of_In in Hc.
    rewrite Forall_forall in Hp. specialize (Hp c Hc). unfold plain in Hp.
    by rewrite !(proj2 (Z.eqb_neq _ _)) by lia.
  - apply trimBlank_noblank. eapply Forall_impl; [exact Hp |]. intros c Hc. unfold plain in Hc.
    unfold isBlank. by rewrite !(proj2 (Z.eqb_neq _ _)) by lia.
  - rewrite Itoa_nonneg by lia. by apply FormatUint_nonempty.
Qed.

Lemma Itoa_noCR n : 0 ≤ n → Forall (λ c, c ≠ CR) (Itoa n).
Proof.
  intros Hn. eapply Forall_impl; [apply (Itoa_plain n Hn) |]. intros c Hc. unfold plain in Hc. lia.
Qed.

(** The request line: the target is absolute for a forward proxy. *)
Definition startLine (req : Request) (host : bytes) (port : Z) (fwd : bool) : bytes :=
  methodOf req ++ [SP] ++ (if fwd then str "http://" ++ host ++ portText port 80 else [])
  ++ Req.effectivePath req ++ str " HTTP/1.1".

Lemma requestLine_line req host port fwd :
  Forall (λ c, c ≠ CR) (methodOf req) → Forall (λ c, c ≠ CR) (Req.effectivePath req) →
  Forall (λ c, c ≠ CR) host →
  requestLine req host port fwd = startLine req host port fwd ++ crlf ∧
  Forall (λ c, c ≠ CR) (startLine req host port fwd).
Proof.
  intros Hm Hp Hh. unfold requestLine, startLine.
  split; [unfold strln; by rewrite <- !app_assoc |].
  assert (Forall (λ c, c ≠ CR) (portText port 80)) as Ht.
  { unfold portText. repeat case_if; try done. constructor; [done | apply Itoa_noCR; lia]. }
  rewrite !Forall_app. split_and!; try done; try (by repeat constructor).
  destruct fwd; [| done]. rewrite !Forall_app. split_and!; try done. by repeat constructor.
Qed.

(** A receiver finds the request line and then these headers. *)
Definition readsBack (out line : bytes) (hs : list Header) : Prop :=
  (∃ rest, cutCRLF out = Some (line, rest)) ∧ scanHeaders out = Some hs.

(** What a request must satisfy for its head to be well-formed. *)
Record cleanRequest (req : Request) (host : bytes) (port : Z) (useTLS : bool) (hs auths : list Header) : Prop := {
  cr_block : represents req hs;
  cr_headers : Forall plainHeader hs;
  cr_auths : Forall plainHeader auths;
  cr_host : plainHeader (mkHeader (str "Host") (host ++ portText port (if useTLS then 443 else 80)));
  cr_method : Forall (λ c, c ≠ CR) (methodOf req);
  cr_path : Forall (λ c, c ≠ CR) (Req.effectivePath req);
  cr_port : port < 2 ^ 63
}.

Lemma wireHead_readsBack req cfg host port useTLS hs auths bodyLen compressed fwd :
  cleanRequest req host port useTLS hs auths → 0 ≤ bodyLen →
  readsBack (wireHead req cfg host port useTLS bodyLen compressed fwd (renderHeaders auths))
    (startLine req host port fwd) (wireHeaders req cfg host port useTLS hs auths bodyLen compressed fwd).
Proof.
  intros [Hr Hhs Hau Hhost Hm Hp _] Hn.
  rewrite (wireHead_renders req cfg host port useTLS hs auths) by done.
  destruct (requestLine_line req host port fwd) as [-> Hl]; try done.
  { pose proof (ph_value_chars _ Hhost) as Hv. cbn [Value] in Hv. apply Forall_app in Hv as [Hv _].
    eapply Forall_impl; [exact Hv |]. by intros c []. }
  rewrite <- app_assoc. split; [eexists; by apply cutCRLF_line |].
  rewrite <- (app_nil_r crlf) at 2. apply scanHeaders_render; [done |].
  unfold wireHeaders. rewrite !Forall_app. split_and!; try done.
  - by apply Forall_singleton.
  - apply Forall_singleton. case_if; [case_if |]; plain_const.
  - destruct compressed; [| done]. apply Forall_singleton. plain_const.
  - by destruct fwd.
  - case_if; [| done]. case_if; [| done]. apply Forall_singleton. plain_const.
  - apply Forall_singleton, Itoa_plain_header; done || lia.
Qed.

(** What a writer that succeeded left in its buffer. *)
Lemma writes_left (m : go wbuf error nat) t buf n s :
  writes m t → returnsPos m → m (buf, 0%nat) = (Ret n, s) → take n s.1 = t.
Proof.
  intros Hw Hr E. destruct (writes_whole m t buf Hw Hr) as [Hok Hno].
  destruct (decide (length t ≤ length buf)%nat) as [Hl | Hl].
  - rewrite (Hok Hl) in E. injection E as <- <-. by apply take_splice_0.
  - specialize (Hno ltac:(lia)). by rewrite E in Hno.
Qed.

(** C12: no request splitting, and nothing is lost on the way out.  Let method and path
    contain no CR, let the host be a proper header value, and let the caller's headers
    and the proxy credentials be proper headers (non-empty, no CR or LF, no blanks at
    the ends).  Then the bytes [writeRequest] left in its buffer when it succeeded, and
    equally the bytes of [writeRequestPart1], the header block and
    [writeRequestPart3] that the connection sends one after the other, are read as the
    one request line (method, target, absolute for a forward proxy, and version)
    followed by exactly these headers: Host, Connection, Content-Encoding when
    compressed, the headers the caller set in order, the proxy credentials for a
    forward proxy, Expect when it is asked for and there is a body, and a
    Content-Length that parses to the length of the body. *)
Theorem written_head_parses_back req cfg host port useTLS hs auths body compressed fwd :
  cleanRequest req host port useTLS hs auths → len body < 2 ^ 63 →
  let auth := renderHeaders auths in
  let line := startLine req host port fwd in
  let hdrs := wireHeaders req cfg host port useTLS hs auths (len body) compressed fwd in
  (∀ buf n s, writeRequest req cfg host port useTLS body compressed fwd auth (buf, 0%nat) = (Ret n, s) →
     readsBack (take n s.1) line hdrs) ∧
  (∀ buf1 n1 s1 buf3 n3 s3,
     writeRequestPart1 req cfg host port useTLS compressed fwd (buf1, 0%nat) = (Ret n1, s1) →
     writeRequestPart3 req (len body) (if fwd then auth else []) (buf3, 0%nat) = (Ret n3, s3) →
     readsBack (take n1 s1.1 ++ headerBlock req ++ take n3 s3.1) line hdrs) ∧
  ∃ v, last hdrs = Some (mkHeader (str "Content-Length") v) ∧ Atoi v = Some (len body).
Proof.
  intros Hc Hb auth line hdrs. pose proof (cr_port _ _ _ _ _ _ Hc) as Hport. pose proof (len_nonneg body) as Hn.
  pose proof (wireHead_readsBack req cfg host port useTLS hs auths (len body) compressed fwd Hc Hn) as Hback.
  split_and!.
  - intros buf n s E. erewrite writes_left; [exact Hback | | | exact E].
    + by apply request_writes.
    + unfold writeRequest. auto 30 with burst.
  - intros buf1 n1 s1 buf3 n3 s3 E1 E3.
    erewrite (writes_left _ _ buf1 n1); [| by apply part1_writes | unfold writeRequestPart1; auto 30 with burst | exact E1].
    erewrite (writes_left _ _ buf3 n3); [exact Hback | by apply part3_writes
      | unfold writeRequestPart3; auto 30 with burst | exact E3].
  - exists (Itoa (len body)). split; [| by apply Atoi_Itoa].
    unfold hdrs, wireHeaders. by rewrite !last_app.
Qed.

Lemma written_head_parses_back_witness :
  let auths := [mkHeader (str "Proxy-Authorization") (str "Basic eA==")] in
  let res := writeRequest exRequest Cfg.DefaultConfig (str "h") 8080 true (str "ab") false true
               (renderHeaders auths) (replicate 200 0, 0%nat) in
  res.1 = Ret 137%nat ∧
  readsBack (take 137 res.2.1) (str "GET http://h:8080/a?b HTTP/1.1")
    [mkHeader (str "Host") (str "h:8080"); mkHeader (str "Connection") (str "keep-alive");
     mkHeader (str "Accept") (str "*/*"); mkHeader (str "Proxy-Authorization") (str "Basic eA==");
     mkHeader (str "Content-Length") (str "2")].
Proof.
  intros auths res. split; [vm_compute; reflexivity |].
  apply (written_head_parses_back exRequest Cfg.DefaultConfig (str "h") 8080 true
           [mkHeader (str "Accept") (str "*/*")] auths (str "ab") false true)
    with (buf := replicate 200 0).
  - split.
    + split; [| reflexivity]. split; [vm_compute; lia | by vm_compute].
    + apply Forall_singleton. plain_const.
    + apply Forall_singleton. plain_const.
    + plain_const.
    + by repeat constructor.
    + by repeat constructor.
    + lia.
  - vm_compute. reflexivity.
  - vm_compute. reflexivity.
Defined.
