(* ===== verification/Parser.v ===== *)
(** * Parser: reading a response from a connection (src/parser.go)

    [readResponse] (sequential connections, any [io.Reader]),
    [readResponseBuffered] (pipelined connections, a [bufio.Reader]), the two
    body readers they share, [readChunkedBody] and [readResponseUntilEOF], and
    [decompressBody].  The computations run in the [go] monad over the reader
    and the response they fill, so that what they wrote before an error is
    still there after it.  Lengths that come from the wire keep their 64-bit
    width. *)

From stdpp Require Import prelude list.
From S2P Require Import Prelude Errors Strconv IO Scan Response.

(** Run a computation on one half of the state. *)
Definition onL {S T A} (m : go S error A) : go (S * T) error A := λ s,
  let '(o, s1) := m s.1 in (o, (s1, s.2)).
Definition onR {S T A} (m : go T error A) : go (S * T) error A := λ s,
  let '(o, t1) := m s.2 in (o, (s.1, t1)).

(** [_, _ = m()]: the error is dropped, the effects stay. *)
Definition ignoreError {S A} (m : go S error A) : go S error (option A) := λ s,
  match m s with
  | (Ret a, s') => (Ret (Some a), s')
  | (Fail _, s') => (Ret None, s')
  | (Panic, s') => (Panic, s')
  | (Hang, s') => (Hang, s')
  end.

Definition protocolError (msg : string) : error :=
  WrapError ErrorTypeProtocol msg (ESentinel ErrInvalidResponse).

(** ** readChunkedBody *)

(** The source of bytes of the closures: what is left of [leftover], and [r]. *)
Abbreviation src R := (bytes * R)%type.

Section chunked.

Context {R : Type} `{Reader R}.

(** [for { n, err := r.Read(tmp[:]); ... }] *)
Fixpoint readByteLoop (fuel : nat) : go R error Z := λ r,
  match fuel with
  | O => (Hang, r)
  | S fuel' =>
      match Read 1 r with
      | (b :: _, _, r') => (Ret b, r')
      | ([], Some e, r') => (Fail e, r')
      | ([], None, r') => readByteLoop fuel' r'
      end
  end.

(** The closure [readByte]. *)
Definition readByte : go (src R) error Z := λ s,
  match s.1 with
  | b :: lo => (Ret b, (lo, s.2))
  | [] => let '(o, r) := readByteLoop (S (budget s.2)) s.2 in (o, ([], r))
  end.

(** [lineBuf[:end]] with one trailing CR removed. *)
Definition dropCR (line : bytes) : bytes :=
  if bool_decide (last line = Some CR) then take (length line - 1) line else line.

(** The closure [readLine]; [lineBuf] holds 64 bytes, the rest of a longer
    line is read and dropped. *)
Fixpoint readLineLoop (fuel : nat) (line : bytes) : go (src R) error bytes :=
  match fuel with
  | O => hang
  | S fuel' =>
      b ← readByte;
      if b =? LF then mret (dropCR line)
      else readLineLoop fuel' (if (length line <? 64)%nat then line ++ [b] else line)
  end.

Definition srcSize (s : src R) : nat := (length s.1 + budget s.2)%nat.

Definition readLine : go (src R) error bytes := λ s, readLineLoop (S (srcSize s)) [] s.

(** The closure [readExact] on [resp.bodyBuf[off : off+n]]. *)
Fixpoint readExactLoop (fuel off n : nat) : go (src R * Response) error unit := λ s,
  match n with
  | O => (Ret tt, s)
  | _ =>
      match fuel with
      | O => (Hang, s)
      | S fuel' =>
          let '((lo, r), p) := s in
          match lo with
          | _ :: _ =>
              let d := take n lo in
              readExactLoop fuel' (off + length d) (n - length d)
                ((drop n lo, r), setBuf (splice (bodyBuf p) off d) p)
          | [] =>
              match Read n r with
              | (d, e, r') =>
                  let s' := (([], r'), setBuf (splice (bodyBuf p) off d) p) in
                  match d, e with
                  | _ :: _, _ => readExactLoop fuel' (off + length d) (n - length d) s'
                  | [], Some e => (Fail e, s')
                  | [], None => readExactLoop fuel' off n s'
                  end
              end
          end
      end
  end.

Definition readExact (off n : nat) : go (src R * Response) error unit := λ s,
  readExactLoop (S (S (srcSize s.1))) off n s.

(** [for i, c := range line { if c == ';' { line = line[:i]; break } }] *)
Fixpoint cutSemicolon (line : bytes) : bytes :=
  match line with
  | [] => []
  | c :: t => if c =? 59 then [] else c :: cutSemicolon t
  end.

(** The trailer lines after the last chunk. *)
Fixpoint drainTrailers (fuel : nat) : go (src R) error unit :=
  match fuel with
  | O => hang
  | S fuel' =>
      line ← ignoreError readLine;
      match line with
      | None | Some [] => mret tt
      | Some (_ :: _) => drainTrailers fuel'
      end
  end.

Variable maxBody : Z.

(** The main loop; [bodyLen] is a Go [int]. *)
Fixpoint chunkLoop (fuel : nat) (bodyLen : Z) : go (src R * Response) error Z :=
  match fuel with
  | O => hang
  | S fuel' =>
      line ← onL readLine;
      match ParseInt 16 (cutSemicolon line) with
      | None => fail (protocolError "invalid chunk size")
      | Some chunkSize =>
          if chunkSize <? 0 then fail (protocolError "invalid chunk size")
          else if chunkSize =? 0 then
            s ← get;
            _ ← onL (drainTrailers (S (srcSize s.1)));
            mret bodyLen
          else
            let hi := i64 (bodyLen + chunkSize) in
            if (0 <? maxBody) && (maxBody <? hi) then fail (ESentinel ErrResponseTooLarge)
            else
              ok ← onR (ensureBufferSize hi);
              if negb ok then fail (ESentinel ErrResponseTooLarge)
              else
                s ← get;
                if (hi <? bodyLen) || (len (bodyBuf s.2) <? hi) then panic
                else
                  _ ← readExact (Z.to_nat bodyLen) (Z.to_nat chunkSize);
                  _ ← onL (ignoreError readLine);
                  chunkLoop fuel' hi
      end
  end.

(** [readChunkedBody(r, buf, resp, headerEnd, total, maxBody, _)], [leftover]
    being [buf[headerEnd:total]]. *)
Definition readChunkedBody (leftover : bytes) : go (R * Response) error unit := λ s,
  let s0 : src R * Response := ((leftover, s.1), s.2) in
  match chunkLoop (S (srcSize s0.1)) 0 s0 with
  | (Ret bodyLen, ((_, r), p)) =>
      (Ret tt, (r, setBody (BView (Z.to_nat bodyLen)) (setContentLength bodyLen p)))
  | (Fail e, ((_, r), p)) => (Fail e, (r, p))
  | (Panic, ((_, r), p)) => (Panic, (r, p))
  | (Hang, ((_, r), p)) => (Hang, (r, p))
  end.

End chunked.

(** ** readResponseUntilEOF *)

Section until_eof.

Context {R : Type} `{Reader R}.

(** [n, err := r.Read(resp.bodyBuf[off : off+k])]: the bytes land in the buffer
    whatever the error is. *)
Definition readInto (off k : nat) : go (R * Response) error (nat * option error) := λ s,
  let '(d, e, r) := Read k s.1 in
  (Ret (length d, e), (r, setBuf (splice (bodyBuf s.2) off d) s.2)).

Variables maxBody bodyReadSize : Z.

Fixpoint untilEOFLoop (fuel : nat) (offset : nat) : go (R * Response) error nat :=
  match fuel with
  | O => hang
  | S fuel' =>
      let off := Z.of_nat offset in
      if (0 <? maxBody) && (maxBody <=? off) then fail (ESentinel ErrResponseTooLarge)
      else
        let requiredSize := i64 (off + bodyReadSize) in
        let requiredSize :=
          if (0 <? maxBody) && (maxBody <? requiredSize) then maxBody else requiredSize in
        ok ← onR (ensureBufferSize requiredSize);
        s ← get;
        if negb ok && (len (bodyBuf s.2) <=? off) then fail (ESentinel ErrResponseTooLarge)
        else
          let toRead := len (bodyBuf s.2) - off in
          let toRead := if bodyReadSize <? toRead then bodyReadSize else toRead in
          let toRead := if (0 <? maxBody) && (maxBody - off <? toRead)
                        then maxBody - off else toRead in
          if toRead <=? 0 then mret offset
          else
            '(n, e) ← readInto offset (Z.to_nat toRead);
            match e with
            | Some EEOF => mret offset
            | Some e => fail e
            | None => if (n =? 0)%nat then mret offset else untilEOFLoop fuel' (offset + n)
            end
  end.

End until_eof.

Definition defaultBodyReadSize (n : Z) : Z := if n <=? 0 then 65536 else n.

(** [readResponseUntilEOF]: [head] is [buf[:headerEnd]], [leftover] is
    [buf[headerEnd:total]]. *)
Definition readResponseUntilEOF {R} `{Reader R} (head leftover : bytes)
    (maxBody bodyReadSize : Z) : go (R * Response) error unit :=
  _ ← modify (λ s, (s.1, parseHeaders head (setStatus (parseStatusCode head).1 s.2)));
  bodyInBuf ← (if (0 <? length leftover)%nat then
                 ok ← onR (ensureBufferSize (len leftover));
                 s ← get;
                 let n := if ok : bool then length leftover else length (bodyBuf s.2) in
                 _ ← modify (λ s, (s.1, setBuf (splice (bodyBuf s.2) 0 (take n leftover)) s.2));
                 mret n
               else mret 0%nat);
  s ← get;
  offset ← untilEOFLoop maxBody (defaultBodyReadSize bodyReadSize) (S (budget s.1)) bodyInBuf;
  modify (λ s, (s.1, setBody (BView offset) (setContentLength (Z.of_nat offset) s.2))).

(** ** readResponse *)

Section read_response.

Context {R : Type} `{Reader R}.

(** The header loop: [acc] is [buf[:total]], [cap] is [len(buf)]; the result is
    [buf[:total]] once a header end is in it.  Every turn stores a byte, so
    [cap] turns are enough. *)
Fixpoint readHeadLoop (fuel : nat) (cap readSize : Z) (acc : bytes) : go R error bytes := λ r,
  match fuel with
  | O => (Hang, r)
  | S fuel' =>
      if cap <=? len acc then (Fail (ESentinel ErrHeaderTooLarge), r)
      else
        let remaining := cap - len acc in
        let remaining := if readSize <? remaining then readSize else remaining in
        if remaining <? 0 then (Panic, r)
        else
          match Read (Z.to_nat remaining) r with
          | (_, Some e, r') => (Fail e, r')
          | ([], None, r') => (Fail EEOF, r')
          | (d, None, r') =>
              let acc := acc ++ d in
              if findHeaderEnd acc <? 0 then readHeadLoop fuel' cap readSize acc r'
              else (Ret acc, r')
          end
  end.

(** The body loop of the Content-Length branch. *)
Fixpoint readBodyLoop (fuel : nat) (bodyReadSize : Z) (offset remaining : nat)
    : go (R * Response) error nat :=
  match remaining with
  | O => mret offset
  | _ =>
      match fuel with
      | O => hang
      | S fuel' =>
          let toRead := if bodyReadSize <? Z.of_nat remaining
                        then Z.to_nat bodyReadSize else remaining in
          '(n, e) ← readInto offset toRead;
          match e with
          | Some e => fail e
          | None => if (n =? 0)%nat then fail EEOF
                    else readBodyLoop fuel' bodyReadSize (offset + n) (remaining - n)
          end
      end
  end.

(** What follows the status line in both readers: no body at all. *)
Definition noBody (method : bytes) (status : Z) : bool :=
  bool_decide (method = str "HEAD") || (status =? 204) || (status =? 304) || (status =? 101).

(** [readResponse(r, buf, resp, maxBody, method, headerReadSize, bodyReadSize)],
    [cap] being [len(buf)]. *)
Definition readResponse (cap maxBody : Z) (method : bytes) (headerReadSize bodyReadSize : Z)
    : go (R * Response) error unit :=
  let readSize := if cap <? headerReadSize then cap else headerReadSize in
  buf ← onL (readHeadLoop (S (Z.to_nat cap)) cap readSize []);
  let headerEnd := Z.to_nat (findHeaderEnd buf) in
  let head := take headerEnd buf in
  let leftover := drop headerEnd buf in
  let '(status, ok) := parseStatusCode head in
  if negb ok then fail (protocolError "failed to parse status code")
  else if noBody method status then
    modify (λ s, (s.1, setBody (BView 0)
                   (parseHeaders head (setContentLength 0 (setStatus status s.2)))))
  else if parseTransferEncoding head then
    _ ← modify (λ s, (s.1, parseHeaders head (setStatus status s.2)));
    readChunkedBody maxBody leftover
  else
    let '(length_, hasLen) := parseContentLength head in
    if negb hasLen then readResponseUntilEOF head leftover maxBody bodyReadSize
    else if maxBody <? length_ then fail (ESentinel ErrResponseTooLarge)
    else
      _ ← modify (λ s, (s.1, parseHeaders head (setContentLength length_ (setStatus status s.2))));
      if length_ =? 0 then modify (λ s, (s.1, setBody (BView 0) s.2))
      else
        ok ← onR (ensureBufferSize length_);
        if negb ok then fail (ESentinel ErrResponseTooLarge)
        else if length_ <? 0 then panic
        else
          let n := Z.to_nat length_ in
          let inBuf := take n leftover in
          _ ← modify (λ s, (s.1, setBuf (splice (bodyBuf s.2) 0 inBuf) (setBody (BView n) s.2)));
          s ← get;
          offset ← readBodyLoop (S (budget s.1)) (defaultBodyReadSize bodyReadSize)
                     (length inBuf) (n - length inBuf);
          if negb (Z.of_nat offset =? length_) then fail (protocolError "incomplete body read")
          else mret tt.

End read_response.

(** ** decompressBody *)

(** What the gzip library answers on a body: an error when the reader is made, an
    error while reading, or the decompressed bytes. *)
Inductive gzipResult :=
  | GzInitError (e : error)
  | GzReadError (e : error)
  | GzOK (b : bytes).

Definition isGzip (r : Response) : bool :=
  existsb (λ h, strEqualFoldASCII (Key h) (str "Content-Encoding")
                && strEqualFoldASCII (TrimSpace (Value h)) (str "gzip")) (Headers r).

Section gzip.

(** The decompressor of the standard library, a parameter. *)
Variable gunzip : bytes → gzipResult.

Definition decompressBody : go Response error unit := λ r,
  if bool_decide (bodyBytes r = []) then (Ret tt, r)
  else if negb (isGzip r) then (Ret tt, r)
  else
    match gunzip (bodyBytes r) with
    | GzInitError e => (Fail (WrapError ErrorTypeProtocol "gzip reader init failed" e), r)
    | GzReadError e => (Fail (WrapError ErrorTypeProtocol "gzip decompression failed" e), r)
    | GzOK d =>
        (ok ← ensureBufferSize (len d);
         r1 ← get;
         let d := if ok : bool then d else take (length (bodyBuf r1)) d in
         modify (λ r, setContentLength (len d)
                        (setBody (BView (length d)) (setBuf (splice (bodyBuf r) 0 d) r)))) r
    end.

(** ** readResponseBuffered *)

(** The byte loop: [room] bytes of [scratch] are left. *)
Fixpoint readHeadBytes (room : nat) (acc : bytes) : go BufReader error bytes :=
  match room with
  | O => fail (ESentinel ErrHeaderTooLarge)
  | S room' =>
      b ← bufReadByte;
      let acc := acc ++ [b] in
      if (4 <=? length acc)%nat && bool_decide (drop (length acc - 4) acc = headerSep)
      then mret acc else readHeadBytes room' acc
  end.

(** [io.ReadFull(br, resp.Body)] on [resp.Body = resp.bodyBuf[:n]]. *)
Definition readFullBody (n : nat) : go (BufReader * Response) error unit := λ s,
  let '(o, d, br) := ReadFull n s.1 in
  (o, (br, setBuf (splice (bodyBuf s.2) 0 d) s.2)).

(** [readResponseBuffered(br, scratch, resp, maxBody, method)], [cap] being
    [len(scratch)]. *)
Definition readResponseBuffered (cap : nat) (maxBody : Z) (method : bytes)
    : go (BufReader * Response) error unit :=
  head ← onL (readHeadBytes cap []);
  let '(status, ok) := parseStatusCode head in
  if negb ok then fail (protocolError "failed to parse status code")
  else if noBody method status then
    modify (λ s, (s.1, setBody (BView 0)
                   (parseHeaders head (setContentLength 0 (setStatus status s.2)))))
  else if parseTransferEncoding head then
    _ ← modify (λ s, (s.1, parseHeaders head (setStatus status s.2)));
    _ ← readChunkedBody maxBody [];
    onR decompressBody
  else
    let '(length_, hasLen) := parseContentLength head in
    if negb hasLen then
      _ ← readResponseUntilEOF head [] maxBody 65536;
      onR decompressBody
    else if (0 <? maxBody) && (maxBody <? length_) then fail (ESentinel ErrResponseTooLarge)
    else
      _ ← modify (λ s, (s.1, parseHeaders head (setContentLength length_ (setStatus status s.2))));
      if length_ =? 0 then modify (λ s, (s.1, setBody (BView 0) s.2))
      else
        ok ← onR (ensureBufferSize length_);
        if negb ok then fail (ESentinel ErrResponseTooLarge)
        else if length_ <? 0 then panic
        else
          _ ← modify (λ s, (s.1, setBody (BView (Z.to_nat length_)) s.2));
          _ ← readFullBody (Z.to_nat length_);
          onR decompressBody.

End gzip.
