(* ===== verification/ParserTotal.v ===== *)
(** * ParserTotal: reading a response always ends

    Whatever the peer sends, in whatever pieces and with whatever errors, the
    readers of Parser.v return: no loop runs out of its fuel.  The measure is
    the budget of the reader plus the bytes left over from the head. *)

From stdpp Require Import prelude list.
From S2P Require Import Prelude Errors Strconv IO Scan Response Parser.

(** [settles μ n x]: the result [x] is not a hang and the measure [μ] of the
    state it leaves is at most [n], strictly below when it returned a value. *)
Definition settles {S A} (μ : S → nat) (n : nat) (x : outcome error A * S) : Prop :=
  x.1 ≠ Hang ∧ (μ x.2 ≤ n)%nat ∧ (∀ a, x.1 = Ret a → (μ x.2 < n)%nat).

(** The same without the strict decrease. *)
Definition settles_le {S A} (μ : S → nat) (n : nat) (x : outcome error A * S) : Prop :=
  x.1 ≠ Hang ∧ (μ x.2 ≤ n)%nat.

Lemma settles_weaken {S A} (μ : S → nat) n (x : outcome error A * S) :
  settles μ n x → settles_le μ n x.
Proof. intros (? & ? & _). by split. Qed.

Lemma settles_mono {S A} (μ : S → nat) n n' (x : outcome error A * S) :
  settles μ n x → (n ≤ n')%nat → settles μ n' x.
Proof. intros (H1 & H2 & H3) Hn. split; [done |]. split; [lia |]. intros a Ha. specialize (H3 a Ha). lia. Qed.

Lemma settles_le_mono {S A} (μ : S → nat) n n' (x : outcome error A * S) :
  settles_le μ n x → (n ≤ n')%nat → settles_le μ n' x.
Proof. intros [? ?] ?. split; [done | lia]. Qed.

Lemma settles_le_bind {S A B} (μ : S → nat) n (m : go S error A) (k : A → go S error B) s :
  settles_le μ n (m s) →
  (∀ a s', m s = (Ret a, s') → (μ s' ≤ n)%nat → settles_le μ n (k a s')) →
  settles_le μ n ((m ≫= k) s).
Proof.
  intros [Hh Hl] Hk. unfold mbind, go_bind.
  destruct (m s) as [[] s'] eqn:E; simpl in *; try done. by apply Hk.
Qed.

Lemma settles_ignore {S A} (μ : S → nat) n (m : go S error A) s :
  settles_le μ n (m s) → settles_le μ n (ignoreError m s).
Proof. unfold ignoreError. intros [H1 H2]. destruct (m s) as [[] s']; simpl in *; done. Qed.

(** Lifting to the product state. *)
Lemma settles_onL {S T A} (μ : S → nat) n (m : go S error A) (s : S * T) :
  settles μ n (m s.1) → settles (λ s, μ s.1) n (onL m s).
Proof. unfold onL. destruct (m s.1) as [o s']. done. Qed.

Lemma settles_le_onL {S T A} (μ : S → nat) n (m : go S error A) (s : S * T) :
  settles_le μ n (m s.1) → settles_le (λ s, μ s.1) n (onL m s).
Proof. unfold onL. destruct (m s.1) as [o s']. done. Qed.

Lemma ensureBufferSize_settles {S} (μ : S → nat) required (s : S * Response) :
  settles_le (λ s, μ s.1) (μ s.1) (onR (ensureBufferSize required) s).
Proof.
  unfold onR, ensureBufferSize.
  repeat match goal with |- context [if ?b then _ else _] => destruct b end; by split.
Qed.

Section total.

Context {R : Type} `{ReaderLaws R}.

Lemma readByteLoop_settles fuel r :
  (budget r < fuel)%nat → settles budget (budget r) (readByteLoop fuel r).
Proof.
  revert r. induction fuel as [|fuel IH]; intros r Hf; [lia |]. cbn [readByteLoop].
  destruct (Read 1 r) as [[[|b d] [e|]] r'] eqn:E; apply read_budget in E as [Hb Hs]; try lia;
    cbn [length] in *.
  - split; [done |]. split; [simpl; lia | done].
  - specialize (Hs eq_refl). eapply settles_mono; [apply IH; lia | lia].
  - split; [done |]. split; [simpl; lia |]. intros. simpl. lia.
  - split; [done |]. split; [simpl; lia |]. intros. simpl. lia.
Qed.

Lemma readByte_settles (s : src R) : settles srcSize (srcSize s) (readByte s).
Proof.
  destruct s as [[|b lo] r]; unfold readByte, srcSize; cbn [fst snd length].
  - pose proof (readByteLoop_settles (S (budget r)) r ltac:(lia)) as (H1 & H2 & H3).
    destruct (readByteLoop _ r) as [o r']. by split.
  - split; [done |]. simpl. split; intros; lia.
Qed.

Lemma readLineLoop_settles fuel line (s : src R) :
  (srcSize s < fuel)%nat → settles srcSize (srcSize s) (readLineLoop fuel line s).
Proof.
  revert line s. induction fuel as [|fuel IH]; intros line s Hf; [lia |].
  cbn [readLineLoop]. pose proof (readByte_settles s) as (H1 & H2 & H3).
  unfold mbind, go_bind. destruct (readByte s) as [[b| | |] s'] eqn:E; simpl in *; try done.
  - specialize (H3 b eq_refl). case_if.
    + split; [done |]. simpl. split; intros; lia.
    + eapply settles_mono; [apply IH; lia | lia].
Qed.

Lemma readLine_settles (s : src R) : settles srcSize (srcSize s) (readLine s).
Proof. apply readLineLoop_settles. lia. Qed.

Lemma drainTrailers_settles fuel (s : src R) :
  (srcSize s < fuel)%nat → settles_le srcSize (srcSize s) (drainTrailers fuel s).
Proof.
  revert s. induction fuel as [|fuel IH]; intros s Hf; [lia |]. cbn [drainTrailers].
  pose proof (readLine_settles s) as (H1 & H2 & H3).
  unfold mbind, go_bind, ignoreError.
  destruct (readLine s) as [[[|c line]| | |] s'] eqn:E; simpl in *; try done.
  specialize (H3 _ eq_refl). eapply settles_le_mono; [apply IH; lia | lia].
Qed.

Lemma readExactLoop_settles fuel off n (s : src R * Response) :
  (srcSize s.1 < fuel)%nat →
  settles_le (λ s, srcSize s.1) (srcSize s.1) (readExactLoop fuel off n s).
Proof.
  revert off n s. induction fuel as [|fuel IH]; intros off n s Hf; [lia |].
  destruct n as [|n]; [by split |]. destruct s as [[lo r] p]. cbn [readExactLoop].
  unfold srcSize in *. cbn [fst snd] in *.
  destruct lo as [|c lo].
  - destruct (Read (S n) r) as [[d e] r'] eqn:E.
    pose proof (read_budget (S n) r d e r' ltac:(lia) E) as [Hb Hs]. cbn [length] in *.
    destruct d as [|b d]; [destruct e as [e|] |].
    + split; [done |]. simpl. simpl in Hb. lia.
    + specialize (Hs eq_refl). eapply settles_le_mono; [apply IH |]; simpl; lia.
    + simpl in Hb. eapply settles_le_mono; [apply IH |]; cbn [fst snd length]; lia.
  - eapply settles_le_mono; [apply IH |]; cbn [fst snd];
      rewrite length_drop; simpl in *; lia.
Qed.

Lemma chunkLoop_settles maxBody fuel bodyLen (s : src R * Response) :
  (srcSize s.1 < fuel)%nat →
  settles_le (λ s, srcSize s.1) (srcSize s.1) (chunkLoop maxBody fuel bodyLen s).
Proof.
  revert bodyLen s. induction fuel as [|fuel IH]; intros bodyLen s Hf; [lia |].
  cbn [chunkLoop].
  pose proof (settles_onL srcSize _ readLine s (readLine_settles s.1)) as Hl.
  apply settles_le_bind; [by apply settles_weaken |].
  intros line s1 E1 Hs1. rewrite E1 in Hl. destruct Hl as (_ & _ & Hl).
  specialize (Hl line eq_refl). cbn [snd] in Hl.
  apply (settles_le_mono _ (srcSize s1.1)); [| done]. clear E1 Hs1.
  destruct (ParseInt 16 (cutSemicolon line)) as [sz|]; [| by split].
  destruct (sz <? 0); [by split |]. destruct (sz =? 0).
  { apply settles_le_bind; [by split |]. intros s1' s2 [= <- <-] _.
    apply settles_le_bind; [apply settles_le_onL, drainTrailers_settles; lia | by split]. }
  destruct ((0 <? maxBody) && _); [by split |].
  apply settles_le_bind; [apply (ensureBufferSize_settles srcSize) |].
  intros ok s2 _ Hs2. destruct (negb ok); [by split |].
  apply settles_le_bind; [by split |]. intros s2' s3 [= <- <-] _.
  destruct ((_ <? bodyLen) || _); [by split |].
  apply settles_le_bind.
  { eapply settles_le_mono; [apply readExactLoop_settles; lia | done]. }
  intros [] s4 _ Hs4. apply settles_le_bind.
  { eapply settles_le_mono; [| exact Hs4].
    apply settles_le_onL, settles_ignore, settles_weaken, readLine_settles. }
  intros o s5 _ Hs5. eapply settles_le_mono; [apply IH; lia | done].
Qed.

Lemma readChunkedBody_halts maxBody leftover :
  halts (readChunkedBody (R := R) maxBody leftover).
Proof.
  intros [r p]. unfold readChunkedBody. cbn [fst snd].
  pose proof (chunkLoop_settles maxBody (S (srcSize (leftover, r))) 0 ((leftover, r), p)
                ltac:(simpl; lia)) as [Hh _].
  destruct (chunkLoop _ _ _ _) as [[] [[lo' r'] p']]; done.
Qed.

Lemma readInto_settles off k (s : R * Response) n e s' :
  (0 < k)%nat → readInto off k s = (Ret (n, e), s') →
  (budget s'.1 ≤ budget s.1)%nat ∧ (e = None → (budget s'.1 < budget s.1)%nat).
Proof.
  unfold readInto. intros Hk. destruct (Read k s.1) as [[d e'] r'] eqn:E.
  intros [= <- <- <-]. apply read_budget in E as [Hb Hs]; [| done]. simpl. split; [lia | auto].
Qed.

Lemma untilEOFLoop_halts maxBody brs fuel offset (s : R * Response) :
  (budget s.1 < fuel)%nat → (untilEOFLoop maxBody brs fuel offset s).1 ≠ Hang.
Proof.
  revert offset s. induction fuel as [|fuel IH]; intros offset s Hf; [lia |].
  cbn [untilEOFLoop]. destruct (_ && _); [done |].
  unfold mbind at 1, go_bind at 1.
  match goal with |- context [onR (ensureBufferSize ?q) s] =>
    pose proof (ensureBufferSize_settles budget q s) as [Hh Hb];
    destruct (onR (ensureBufferSize q) s) as [[ok| | |] s1]
  end; simpl in Hh, Hb; try done.
  unfold mbind at 1, go_bind at 1, get. destruct (_ && _); [done |].
  match goal with |- context [?t <=? 0] => destruct (Z.leb_spec t 0) end; [done |].
  unfold mbind at 1, go_bind at 1.
  match goal with |- context [readInto offset ?k s1] =>
    destruct (readInto offset k s1) as [o s2] eqn:E end.
  assert (∃ n e, o = Ret (n, e)) as (n & e & ->).
  { unfold readInto in E. destruct (Read _ s1.1) as [[d e] r']. injection E as <- _. eauto. }
  apply readInto_settles in E as [Hb1 Hs1]; [| lia].
  destruct e as [[]|]; try done. destruct (n =? 0)%nat; [done |].
  apply IH. specialize (Hs1 eq_refl). lia.
Qed.

Lemma readResponseUntilEOF_halts head leftover maxBody brs :
  halts (readResponseUntilEOF (R := R) head leftover maxBody brs).
Proof.
  unfold readResponseUntilEOF. apply halts_bind; [done |]. intros _.
  apply halts_bind.
  { case_if; [| done]. apply halts_bind; [| done].
    intros s. apply (ensureBufferSize_settles budget). }
  intros n s. unfold mbind, go_bind, get.
  pose proof (untilEOFLoop_halts maxBody (defaultBodyReadSize brs) (S (budget s.1)) n s
                ltac:(lia)) as Hh.
  destruct (untilEOFLoop _ _ _ _ _) as [[] ?]; done.
Qed.

Lemma readHeadLoop_halts fuel cap readSize acc (r : R) :
  (Z.to_nat (cap - len acc) < fuel)%nat → (readHeadLoop fuel cap readSize acc r).1 ≠ Hang.
Proof.
  revert acc r. induction fuel as [|fuel IH]; intros acc r Hf; [lia |]. cbn [readHeadLoop].
  destruct (Z.leb_spec cap (len acc)); [done |].
  destruct (_ <? 0); [done |].
  destruct (Read _ r) as [[[|b d] [e|]] r']; try done.
  destruct (_ <? 0); [| done]. apply IH. rewrite len_app. unfold len in *. simpl. lia.
Qed.

Lemma readBodyLoop_halts fuel brs offset remaining (s : R * Response) :
  0 < brs → (budget s.1 < fuel)%nat →
  (readBodyLoop fuel brs offset remaining s).1 ≠ Hang.
Proof.
  intros Hbrs. revert offset remaining s.
  induction fuel as [|fuel IH]; intros offset remaining s Hf; [lia |].
  destruct remaining as [|remaining]; [done |]. cbn [readBodyLoop].
  unfold mbind, go_bind.
  match goal with |- context [readInto offset ?k s] =>
    assert (0 < k)%nat as Hk by (case_if; lia); destruct (readInto offset k s) as [o s2] eqn:E
  end.
  assert (∃ n e, o = Ret (n, e)) as (n & e & ->).
  { unfold readInto in E. destruct (Read _ s.1) as [[d e] r']. injection E as <- _. eauto. }
  apply readInto_settles in E as [Hb1 Hs1]; [| done].
  destruct e as [e|]; [done |]. destruct (n =? 0)%nat; [done |].
  apply IH. specialize (Hs1 eq_refl). lia.
Qed.

Lemma defaultBodyReadSize_pos n : 0 < defaultBodyReadSize n.
Proof. unfold defaultBodyReadSize. case_if; lia. Qed.

Lemma readResponse_halts cap maxBody method hrs brs :
  halts (readResponse (R := R) cap maxBody method hrs brs).
Proof.
  unfold readResponse. apply halts_bind.
  { intros [r p]. unfold onL. cbn [fst snd].
    match goal with |- context [readHeadLoop ?f ?c ?z [] r] =>
      pose proof (readHeadLoop_halts f c z [] r) as Hh;
      destruct (readHeadLoop f c z [] r) as [o r'] end.
    apply Hh. rewrite len_nil. lia. }
  intros buf. destruct (parseStatusCode _) as [status ok].
  destruct (negb ok); [done |]. destruct (noBody _ _); [done |].
  destruct (parseTransferEncoding _).
  { apply halts_bind; [done |]. intros _. apply readChunkedBody_halts. }
  destruct (parseContentLength _) as [n hasLen].
  destruct (negb hasLen); [apply readResponseUntilEOF_halts |].
  destruct (_ <? _); [done |]. apply halts_bind; [done |]. intros _.
  destruct (_ =? _); [done |]. apply halts_bind.
  { intros s. apply (ensureBufferSize_settles budget). }
  intros ok'. destruct (negb ok'); [done |]. destruct (_ <? _); [done |].
  apply halts_bind; [done |]. intros _ s. unfold mbind, go_bind, get.
  match goal with |- context [readBodyLoop ?f ?b ?o ?m s] =>
    pose proof (readBodyLoop_halts f b o m s (defaultBodyReadSize_pos brs) ltac:(lia)) as Hh;
    destruct (readBodyLoop f b o m s) as [[] ?] end; try done.
  by destruct (negb _).
Qed.

End total.

Lemma fillLoop_nonempty n asked size c :
  unread (fillLoop n asked size c) ≠ [] ∨ berr (fillLoop n asked size c) ≠ None.
Proof.
  revert c. induction n as [|n IH]; intros c; [by right |]. cbn [fillLoop].
  destruct (Read size c) as [[[|b d] [e|]] c']; try (by right); [apply IH | by left].
Qed.

Lemma bufReadByte_halts : halts bufReadByte.
Proof.
  intros b. unfold bufReadByte. destruct (unread b); [| done]. destruct (berr b); [done |].
  set (b' := fillLoop _ _ _ _).
  pose proof (fillLoop_nonempty maxConsecutiveEmptyReads (askedSize b) (bsize b) (below b)) as Hf.
  fold b' in Hf. destruct (unread b'), (berr b'); try done. by destruct Hf.
Qed.

Lemma readHeadBytes_halts room acc : halts (readHeadBytes room acc).
Proof.
  revert acc. induction room as [|room IH]; intros acc; [done |].
  apply halts_bind; [apply bufReadByte_halts |]. intros b.
  cbv zeta. destruct (_ && _); [done | apply IH].
Qed.

Lemma onL_halts {S T A} (m : go S error A) : halts m → halts (onL (T := T) m).
Proof. intros Hm s. specialize (Hm s.1). unfold onL. by destruct (m s.1). Qed.

Lemma onR_halts {S T A} (m : go T error A) : halts m → halts (onR (S := S) m).
Proof. intros Hm s. specialize (Hm s.2). unfold onR. by destruct (m s.2). Qed.

Lemma ensureBufferSize_halts q : halts (ensureBufferSize q).
Proof.
  intros r. unfold ensureBufferSize.
  repeat match goal with |- context [if ?b then _ else _] => destruct b end; done.
Qed.

Lemma decompressBody_halts gunzip : halts (decompressBody gunzip).
Proof.
  intros r. unfold decompressBody. destruct (bool_decide _); [done |].
  destruct (negb _); [done |]. destruct (gunzip _); [done.. |].
  apply halts_bind; [apply ensureBufferSize_halts | done].
Qed.

Lemma readFullBody_halts n : halts (readFullBody n).
Proof.
  intros [br p]. unfold readFullBody, ReadFull. cbn [fst snd].
  pose proof (readFullLoop_halts (S (budget br)) n [] br ltac:(lia)) as Hh.
  destruct (readFullLoop _ _ _ _) as [[o d] br']. done.
Qed.

Lemma readResponseBuffered_halts gunzip cap maxBody method :
  halts (readResponseBuffered gunzip cap maxBody method).
Proof.
  unfold readResponseBuffered. apply halts_bind; [apply onL_halts, readHeadBytes_halts |].
  intros head. destruct (parseStatusCode _) as [status ok].
  destruct (negb ok); [done |]. destruct (noBody _ _); [done |].
  destruct (parseTransferEncoding _).
  { apply halts_bind; [done |]. intros _. apply halts_bind; [apply readChunkedBody_halts |].
    intros _. apply onR_halts, decompressBody_halts. }
  destruct (parseContentLength _) as [n hasLen]. destruct (negb hasLen).
  { apply halts_bind; [apply readResponseUntilEOF_halts |].
    intros _. apply onR_halts, decompressBody_halts. }
  destruct (_ && _); [done |]. apply halts_bind; [done |]. intros _.
  destruct (_ =? _); [done |]. apply halts_bind; [apply onR_halts, ensureBufferSize_halts |].
  intros ok'. destruct (negb ok'); [done |]. destruct (_ <? _); [done |].
  apply halts_bind; [done |]. intros _. apply halts_bind; [apply readFullBody_halts |].
  intros _. apply onR_halts, decompressBody_halts.
Qed.

(** C17: Both response readers always return.  For every script of reads the peer
    can produce (any segmentation, empty reads, errors at any point), every
    buffer size and limit, neither [readResponse] on a connection nor
    [readResponseBuffered] on a buffered one runs forever. *)
Theorem response_readers_terminate :
  ∀ gunzip cap bcap maxBody method hrs brs (c : Conn) (b : BufReader) (p : Response),
    (readResponse cap maxBody method hrs brs (c, p)).1 ≠ Hang ∧
    (readResponseBuffered gunzip bcap maxBody method (b, p)).1 ≠ Hang.
Proof.
  intros. split; [apply readResponse_halts | apply readResponseBuffered_halts].
Qed.
