(* ===== verification/ResponseType.v ===== *)
(** * ResponseType: a response stays well formed, whatever the server sends

    The type invariant of a response object: [Body] is a slice that lies inside
    [bodyBuf], and the buffer stays below a bound.  Every reader of Parser.v keeps it
    on every path, errors and panics included, for every peer.  The proofs are about a
    bound and the requests for room it can stand ([growthOK]); this is used twice, with
    the bound of the allocator, which nothing exceeds, and with a bound that depends on
    the configured sizes, which only a decompressed body may exceed. *)

From stdpp Require Import prelude list.
From S2P Require Import Prelude Errors Strconv IO Scan Response Parser.

(** ** The invariant *)

(** [bound] limits the length of the body buffer. *)
Record wellFormed (bound : Z) (p : Response) : Prop := {
  wf_body : match Body p with
            | BNil => True
            | BView n => (n ≤ length (bodyBuf p))%nat
            | BOwn b => len b ≤ bound
            end;
  wf_buf : len (bodyBuf p) ≤ bound;
  wf_max : maxSize p ≤ bound
}.

(** The bytes a caller can see fit the bound. *)
Lemma wellFormed_body bound p : 0 ≤ bound → wellFormed bound p → len (bodyBytes p) ≤ bound.
Proof.
  intros H0 [Hb Hl _]. unfold bodyBytes. destruct (Body p); [done | | done].
  unfold len in *. rewrite length_take. lia.
Qed.

(** How large the buffer gets when [required] bytes are asked for. *)
Definition grownBound (required : Z) : Z := 2 * required + 65536.

(** Requests for [allowed] bytes of room keep the buffer below [bound]: it stays as it
    is (with the room, if [true] is returned), or is replaced by a larger one. *)
Definition growthOK (bound : Z) (allowed : Z → Prop) : Prop :=
  ∀ required p, allowed required → len (bodyBuf p) ≤ bound → maxSize p ≤ bound →
    (∃ o, ensureBufferSize required p = (o, p) ∧ (o = Ret true → required ≤ len (bodyBuf p))) ∨
    (∃ n, len (bodyBuf p) ≤ n ≤ bound ∧ required ≤ n ∧ ensureBufferSize required p = (Ret true, replaceBuf n p)).

(** A bound on twice the room that is asked for. *)
Lemma growth_bounded bound : bound ≤ 2 ^ 40 → growthOK bound (λ required, grownBound required ≤ bound).
Proof.
  intros Hb required p Hr Hl Hm. unfold grownBound in Hr. pose proof (len_nonneg (bodyBuf p)).
  destruct (ensureBufferSize_cases p required) as [[? ->] | [(? & ? & ->) | (n & ? & ? & ? & ->)]];
    [unfold sane; lia | lia | left | left | right].
  - exists (Ret true). by split.
  - exists (Ret false). by split.
  - exists n. split_and!; try lia; done.
Qed.

(** The bound of the allocator, which holds for every request that fits an [int]. *)
Lemma roundUp_wide n q : 0 < n ≤ 2 ^ 62 → 0 < q ≤ 65536 → n ≤ roundUp n q.
Proof.
  intros Hn Hq. unfold roundUp. rewrite Z.rem_mod_nonneg, Z.quot_div_nonneg by lia.
  pose proof (Z.div_mod n q ltac:(lia)) as E. pose proof (Z.mod_pos_bound n q ltac:(lia)) as Hm.
  set (d := n / q) in *. set (r := n mod q) in *.
  destruct (negb (r =? 0)); [| lia]. rewrite i64_small; [lia |]. unfold int64_range. nia.
Qed.

Lemma growth_alloc : growthOK maxAlloc (λ required, required ≤ 2 ^ 62).
Proof.
  intros required p Hr Hl Hm. pose proof (len_nonneg (bodyBuf p)) as H0. unfold maxAlloc in *. unfold ensureBufferSize.
  destruct (Z.leb_spec required (len (bodyBuf p))) as [Hle | Hgt]; [left; by exists (Ret true) |].
  destruct ((0 <? maxSize p) && (maxSize p <? required)); [left; by exists (Ret false) |]. cbv zeta.
  set (g := grownSize _ _).
  assert (required ≤ g) as Hg.
  { unfold g, grownSize. rewrite i64_small by (unfold int64_range; lia).
    set (m := if len (bodyBuf p) * 2 <? required then _ else _).
    assert (required ≤ m ≤ 2 ^ 62) by (unfold m; case_if; lia).
    case_if; [pose proof (roundUp_wide m 4096) | pose proof (roundUp_wide m 65536)]; lia. }
  assert (∀ n, required ≤ n →
    (∃ o, (if makeOK n then (Ret (E := error) true, replaceBuf n p) else (Panic, p)) = (o, p) ∧ (o = Ret true → required ≤ len (bodyBuf p)))
    ∨ (∃ k, len (bodyBuf p) ≤ k ≤ 2 ^ 48 ∧ required ≤ k ∧
         (if makeOK n then (Ret (E := error) true, replaceBuf n p) else (Panic, p)) = (Ret true, replaceBuf k p))) as Hmake.
  { intros n Hn. unfold makeOK, maxAlloc. destruct (_ && _) eqn:E; [right | left; by exists Panic].
    apply andb_true_iff in E as [E1 E2]. unbool. exists n. split_and!; try lia; done. }
  destruct ((0 <? maxSize p) && (maxSize p <? g)); [| by apply Hmake].
  destruct (Z.ltb_spec (maxSize p) required); [left; by exists (Ret false) | by apply Hmake].
Qed.

Section keeps.

Variable bound : Z.
Variable allowed : Z → Prop.
Hypothesis growth : growthOK bound allowed.
Hypothesis allowed_le : ∀ a b, allowed a → b ≤ a → allowed b.

(** Well formed, with at least [lo] bytes of buffer. *)
Definition good (lo : nat) (p : Response) : Prop := wellFormed bound p ∧ (lo ≤ length (bodyBuf p))%nat.

(** The result [x] of a computation leaves a good response, and satisfies [Q] when it
    returned a value. *)
Definition leaves {S A} (lo : nat) (Q : A → Response → Prop) (x : outcome error A * (S * Response)) : Prop :=
  good lo x.2.2 ∧ ∀ a, x.1 = Ret a → Q a x.2.2.

Lemma leaves_bind {S A B} lo (P : A → Response → Prop) (Q : B → Response → Prop)
    (m : go (S * Response) error A) (k : A → go (S * Response) error B) s :
  leaves lo P (m s) → (∀ a s', good lo s'.2 → P a s'.2 → leaves lo Q (k a s')) → leaves lo Q ((m ≫= k) s).
Proof.
  intros [Hg Hp] Hk. unfold mbind, go_bind. destruct (m s) as [[a | e | |] s']; simpl in *; try done.
  apply Hk; [done | by apply Hp].
Qed.

Lemma leaves_lower {S A} lo lo' (Q : A → Response → Prop) (x : outcome error A * (S * Response)) :
  (lo' ≤ lo)%nat → leaves lo Q x → leaves lo' Q x.
Proof. intros Hl [[Hw Hg] Hp]. split; [split; [done | lia] | done]. Qed.

(** A computation that does not touch the response. *)
Lemma leaves_onL {S A} lo (m : go S error A) (s : S * Response) :
  good lo s.2 → leaves lo (λ _ _, True) (onL m s).
Proof. unfold onL. destruct (m s.1). by split. Qed.

Lemma leaves_get {S} lo (s : S * Response) : good lo s.2 → leaves lo (λ a p, a.2 = p ∧ p = s.2) (get s).
Proof. intros H. split; [done |]. by intros a [= <-]. Qed.

Lemma leaves_fail {S A} lo (Q : A → Response → Prop) e (s : S * Response) : good lo s.2 → leaves lo Q (fail e s).
Proof. by split. Qed.
Lemma leaves_panic {S A} lo (Q : A → Response → Prop) (s : S * Response) : good lo s.2 → leaves lo Q (panic s).
Proof. by split. Qed.
Lemma leaves_hang {S A} lo (Q : A → Response → Prop) (s : S * Response) : good lo s.2 → leaves lo Q (hang s).
Proof. by split. Qed.

Lemma leaves_ret {S A} lo (Q : A → Response → Prop) (a : A) (s : S * Response) :
  good lo s.2 → Q a s.2 → leaves lo Q ((mret a : go (S * Response) error A) s).
Proof. intros ? Hq. split; [done |]. by intros b [= <-]. Qed.

Lemma leaves_modify {S} lo (Q : unit → Response → Prop) (f : S * Response → S * Response) s :
  good lo (f s).2 → Q tt (f s).2 → leaves lo Q (modify f s).
Proof. intros ? Hq. split; [done |]. by intros [] _. Qed.

(** ** The buffer *)

Lemma good_setBuf lo p off d : good lo p → good lo (setBuf (splice (bodyBuf p) off d) p).
Proof.
  intros [[Hb Hl Hm] Hlo]. unfold len in *. split; [split |]; simpl; rewrite ?length_splice; try done.
  unfold len. by rewrite length_splice.
Qed.

Lemma good_meta lo p c l h raw :
  good lo p → good lo (mkResponse c l (Body p) h (bodyBuf p) (maxSize p) raw).
Proof. intros [[Hb Hl Hm] Hlo]. by split. Qed.

Lemma good_parseHeaders lo p head : good lo p → good lo (parseHeaders head p).
Proof. apply good_meta. Qed.
Lemma good_setStatus lo p c : good lo p → good lo (setStatus c p).
Proof. apply good_meta. Qed.
Lemma good_setContentLength lo p n : good lo p → good lo (setContentLength n p).
Proof. apply good_meta. Qed.

Lemma good_setBody lo p n : good lo p → (n ≤ length (bodyBuf p))%nat → good lo (setBody (BView n) p).
Proof. intros [[Hb Hl Hm] Hlo] Hn. by split. Qed.

Lemma replaceBuf_good lo n p : good lo p → len (bodyBuf p) ≤ n ≤ bound → good lo (replaceBuf n p).
Proof.
  intros [[Hb Hl Hm] Hlo] Hn. pose proof (len_nonneg (bodyBuf p)).
  split; [split |]; cbn [replaceBuf Body bodyBuf maxSize]; [| | done |].
  - destruct (Body p) eqn:E; [done | | done]. unfold bodyBytes. rewrite E. unfold len in *.
    rewrite length_take. lia.
  - rewrite len_replicate by lia. lia.
  - rewrite length_replicate. unfold len in *. lia.
Qed.

(** Growing keeps the invariant, and on success the bytes are there. *)
Lemma ensureBufferSize_leaves {S} lo required (s : S * Response) :
  allowed required → good lo s.2 →
  leaves lo (λ ok p, ok = true → required ≤ len (bodyBuf p)) (onR (ensureBufferSize required) s).
Proof.
  intros Hr Hg. pose proof Hg as [[Hb Hl Hm] Hlo]. unfold onR.
  destruct (growth required s.2 Hr Hl Hm) as [(o & -> & Ho) | (n & Hn & Hreq & ->)].
  - split; [done |]. simpl. intros ok -> ->. by apply Ho.
  - pose proof (len_nonneg (bodyBuf s.2)).
    split; [by apply replaceBuf_good |]. intros ok _ _. simpl fst; simpl snd. rewrite replaceBuf_len; lia.
Qed.

(** ** The readers *)

#[local] Hint Resolve good_setBuf good_parseHeaders good_setStatus good_setContentLength good_setBody
  leaves_fail leaves_panic leaves_hang leaves_get leaves_onL leaves_ret : burst.

Section reader.

Context {R : Type} `{ReaderLaws R}.

Lemma readExactLoop_leaves lo fuel off n (s : src R * Response) :
  good lo s.2 → leaves lo (λ _ _, True) (readExactLoop fuel off n s).
Proof.
  revert off n s. induction fuel as [|fuel IH]; intros off n s Hg; destruct n as [|n]; [by split .. |].
  destruct s as [[lo' r] p]. cbn [readExactLoop]. destruct lo' as [|c lo'].
  - destruct (Read (S n) r) as [[[|b d] [e|]] r']; [split; [by apply good_setBuf | done] | | |];
      apply IH; by apply good_setBuf.
  - apply IH. by apply good_setBuf.
Qed.

Section body.

Variable maxBody : Z.
Hypothesis maxBody_pos : 0 < maxBody.
Hypothesis maxBody_fits : allowed maxBody.

Lemma chunkLoop_leaves fuel bodyLen (s : src R * Response) :
  good (Z.to_nat bodyLen) s.2 → 0 ≤ bodyLen ≤ maxBody →
  leaves (Z.to_nat bodyLen) (λ n p, (Z.to_nat n ≤ length (bodyBuf p))%nat ∧ 0 ≤ n ≤ maxBody)
    (chunkLoop maxBody fuel bodyLen s).
Proof.
  revert bodyLen s. induction fuel as [|fuel IH]; intros bodyLen s Hg Hl; [by apply leaves_hang |].
  cbn [chunkLoop]. eapply leaves_bind; [by apply leaves_onL |]. intros line s1 H1 _.
  destruct (ParseInt 16 (cutSemicolon line)) as [sz|]; [| by apply leaves_fail].
  destruct (sz <? 0) eqn:Hneg; [by apply leaves_fail |]. destruct (sz =? 0).
  { eapply leaves_bind; [by apply leaves_get |]. intros s1' s2 H2 _.
    eapply leaves_bind; [by apply leaves_onL |]. intros [] s3 H3 _.
    apply leaves_ret; [done |]. split; [by destruct H3 | done]. }
  destruct ((0 <? maxBody) && _) eqn:Hmax; [by apply leaves_fail |].
  set (hi := i64 (bodyLen + sz)) in *.
  assert (hi ≤ maxBody) as Hhi.
  { apply andb_false_iff in Hmax as [Hmax | Hmax]; unbool; lia. }
  eapply leaves_bind; [apply ensureBufferSize_leaves; [apply (allowed_le maxBody); [done | lia] | done] |].
  intros ok s2 H2 Hok. destruct ok; cbn [negb]; [| by apply leaves_fail].
  eapply leaves_bind; [by apply leaves_get |]. intros s2' s3 H3 [Es E2]. rewrite Es.
  destruct ((hi <? bodyLen) || _) eqn:Hp; [by apply leaves_panic |].
  apply orb_false_iff in Hp as [Hp1 Hp2]. unbool.
  apply (leaves_lower (Z.to_nat hi)); [lia |]. assert (good (Z.to_nat hi) s3.2) as Hg3.
  { destruct H3. split; [done |]. unfold len in *. lia. }
  eapply leaves_bind; [by apply readExactLoop_leaves |]. intros [] s4 H4 _.
  eapply leaves_bind; [by apply leaves_onL |]. intros ? s5 H5 _. apply IH; [done | lia].
Qed.

(** A body that a reader may return. *)
Definition fitting (p : Response) : Prop := len (bodyBytes p) ≤ maxBody.

Lemma fitting_view n p : Z.of_nat n ≤ maxBody → Body p = BView n → fitting p.
Proof. intros Hn E. unfold fitting, bodyBytes. rewrite E. unfold len. rewrite length_take. lia. Qed.

Lemma readChunkedBody_leaves leftover (s : R * Response) :
  good 0 s.2 → leaves 0 (λ _, fitting) (readChunkedBody maxBody leftover s).
Proof.
  intros Hg. unfold readChunkedBody. cbv zeta.
  pose proof (chunkLoop_leaves (S (srcSize ((leftover, s.1), s.2).1)) 0 ((leftover, s.1), s.2) Hg ltac:(lia)) as [G Q].
  destruct (chunkLoop _ _ _ _) as [[n | e | |] [[lo' r] p]]; try (by split).
  destruct (Q n eq_refl) as [Hn Hm]. split.
  - apply good_setBody; [by apply good_setContentLength | done].
  - intros [] _. apply (fitting_view (Z.to_nat n)); [lia | done].
Qed.

Lemma readInto_leaves off k lo (s : R * Response) :
  good lo s.2 → (k + off ≤ length (bodyBuf s.2))%nat →
  leaves lo (λ a p, (off + a.1 ≤ length (bodyBuf p))%nat ∧ (a.1 ≤ k)%nat) (readInto off k s).
Proof.
  intros Hg Hk. unfold readInto. destruct (Read k s.1) as [[d e] r] eqn:E. apply read_length in E.
  split; [by apply good_setBuf |]. intros [n e'] [= <- <-]. simpl. rewrite length_splice. lia.
Qed.

Variable brs : Z.

Lemma untilEOFLoop_leaves fuel offset (s : R * Response) :
  good offset s.2 →
  leaves offset (λ n p, (n ≤ length (bodyBuf p))%nat ∧ Z.of_nat n ≤ maxBody) (untilEOFLoop maxBody brs fuel offset s).
Proof.
  revert offset s. induction fuel as [|fuel IH]; intros offset s Hg; [by apply leaves_hang |].
  cbn [untilEOFLoop]. cbv zeta. destruct ((0 <? maxBody) && (maxBody <=? Z.of_nat offset)) eqn:Hm; [by apply leaves_fail |].
  assert (Z.of_nat offset < maxBody) as Ho by (apply andb_false_iff in Hm as [Hm | Hm]; unbool; lia).
  set (required := if _ && _ then _ else _).
  assert (required ≤ maxBody) as Hr.
  { unfold required. rewrite (proj2 (Z.ltb_lt _ _) maxBody_pos). cbn [andb]. case_if; lia. }
  eapply leaves_bind; [apply ensureBufferSize_leaves; [apply (allowed_le maxBody); [done | lia] | done] |].
  intros ok s1 H1 Hok. eapply leaves_bind; [by apply leaves_get |]. intros s1' s2 H2 [Es E2]. rewrite Es.
  destruct (negb ok && _); [by apply leaves_fail |].
  set (toRead := if (0 <? maxBody) && _ then _ else _).
  destruct (toRead <=? 0) eqn:Et; [apply leaves_ret; [done |]; split; [by destruct H2 | lia] |].
  assert (toRead ≤ len (bodyBuf s2.2) - Z.of_nat offset ∧ toRead ≤ maxBody - Z.of_nat offset) as [Ht1 Ht2].
  { unfold toRead. clear -maxBody_pos. rewrite (proj2 (Z.ltb_lt _ _) maxBody_pos). cbn [andb].
    repeat case_if; lia. }
  eapply leaves_bind; [apply readInto_leaves; [done | unfold len in *; unbool; lia] |].
  intros [n e] s3 H3 [Hn Hk]. simpl in Hn, Hk. unbool. destruct e as [e|].
  - assert (leaves offset (λ n p, (n ≤ length (bodyBuf p))%nat ∧ Z.of_nat n ≤ maxBody)
      ((mret offset : go (R * Response) error nat) s3)) by (apply leaves_ret; [done |]; split; [by destruct H3 | lia]).
    destruct e; done || by apply leaves_fail.
  - case_if; [apply leaves_ret; [done |]; split; [by destruct H3 | lia] |].
    apply (leaves_lower (offset + n)); [lia |]. apply IH. by destruct H3.
Qed.

End body.

(** *** A whole response *)

Lemma leaves_onL_ret {S A} lo (m : go S error A) (s : S * Response) :
  good lo s.2 → leaves lo (λ a _, ∃ r r', m r = (Ret a, r')) (onL m s).
Proof.
  intros Hg. unfold onL. destruct (m s.1) as [o r'] eqn:E. split; [done |]. simpl. intros a ->. by eexists _, _.
Qed.

Lemma readHeadLoop_length fuel cap readSize acc r buf r' :
  readHeadLoop fuel cap readSize acc r = (Ret buf, r') → len buf ≤ cap.
Proof.
  revert acc r. induction fuel as [|fuel IH]; intros acc r; [done |]. cbn [readHeadLoop].
  destruct (Z.leb_spec cap (len acc)); [done |]. cbv zeta.
  set (n := if readSize <? _ then _ else _). assert (n ≤ cap - len acc) as Hn by (unfold n; case_if; lia).
  destruct (Z.ltb_spec n 0); [done |].
  destruct (Read (Z.to_nat n) r) as [[[|b d] [e|]] r1] eqn:E; try done. apply read_length in E.
  case_if; [apply IH |]. intros [= <- <-]. unfold len in *. rewrite length_app. lia.
Qed.

Section whole.

Variable maxBody : Z.
Hypothesis maxBody_pos : 0 < maxBody.
Hypothesis maxBody_fits : allowed maxBody.

Lemma readResponseUntilEOF_leaves head leftover brs (s : R * Response) :
  allowed (len leftover) → good 0 s.2 →
  leaves 0 (λ _, fitting maxBody) (readResponseUntilEOF head leftover maxBody brs s).
Proof.
  intros Hlo Hg. unfold readResponseUntilEOF.
  eapply (leaves_bind _ (λ _ _, True)); [apply leaves_modify; simpl; auto with burst |]. intros [] s1 H1 _.
  eapply (leaves_bind _ (λ n p, (n ≤ length (bodyBuf p))%nat)).
  { destruct (0 <? length leftover)%nat; [| by apply leaves_ret; [done | lia]].
    eapply leaves_bind; [by apply ensureBufferSize_leaves |]. intros ok s2 H2 Hok.
    eapply leaves_bind; [by apply leaves_get |]. intros s2' s3 H3 [Es E2]. rewrite Es.
    eapply (leaves_bind _ (λ _ p, length (bodyBuf p) = length (bodyBuf s3.2))).
    { apply leaves_modify; simpl; [by apply good_setBuf | apply length_splice]. }
    intros [] s4 H4 E4. apply leaves_ret; [done |]. rewrite E4, E2. destruct ok; [| done].
    specialize (Hok eq_refl). unfold len in Hok. lia. }
  intros n s2 H2 Hn. eapply leaves_bind; [by apply leaves_get |]. intros s2' s3 H3 [Es E2].
  eapply leaves_bind.
  { apply (leaves_lower n); [lia |]. apply untilEOFLoop_leaves; [done | done |].
    rewrite E2. destruct H2. by split. }
  intros off s4 H4 [Ho Hm]. apply leaves_modify; simpl.
  - apply good_setBody; [by apply good_setContentLength | done].
  - by apply (fitting_view maxBody off).
Qed.

Lemma readBodyLoop_leaves fuel brs off rem b (s : R * Response) :
  good 0 s.2 → Body s.2 = b → leaves 0 (λ _ p, Body p = b) (readBodyLoop fuel brs off rem s).
Proof.
  revert off rem s. induction fuel as [|fuel IH]; intros off rem s Hg Hb; destruct rem as [|rem];
    try (by apply leaves_ret); [by apply leaves_hang |].
  cbn [readBodyLoop]. cbv zeta. eapply (leaves_bind _ (λ _ p, Body p = b)).
  { unfold readInto. destruct (Read _ s.1) as [[d e] r]. split; [by apply good_setBuf |]. by intros a _. }
  intros [n e] s1 H1 E1. destruct e; [by apply leaves_fail |].
  case_if; [by apply leaves_fail | by apply IH].
Qed.

Variables (cap : Z) (method : bytes) (hrs brs : Z).
Hypothesis cap_fits : allowed cap.

Lemma readResponse_leaves (s : R * Response) :
  good 0 s.2 → leaves 0 (λ _, fitting maxBody) (readResponse cap maxBody method hrs brs s).
Proof.
  intros Hg. unfold readResponse. cbv zeta.
  eapply leaves_bind; [by apply leaves_onL_ret |]. intros buf s1 H1 (r & r' & E%readHeadLoop_length).
  set (head := take _ buf). set (leftover := drop _ buf).
  assert (len leftover ≤ cap) as Hlo by (unfold leftover, len in *; rewrite length_drop; lia).
  destruct (parseStatusCode head) as [status ok]. destruct ok; cbn [negb]; [| by apply leaves_fail].
  destruct (noBody method status).
  { apply leaves_modify; simpl; [apply good_setBody; [auto with burst | lia] | apply (fitting_view maxBody 0); [simpl; lia | done]]. }
  destruct (parseTransferEncoding head).
  { eapply (leaves_bind _ (λ _ _, True)); [apply leaves_modify; simpl; auto with burst |].
    intros [] s2 H2 _. by apply readChunkedBody_leaves. }
  destruct (parseContentLength head) as [n hasLen]. destruct hasLen; cbn [negb].
  2: { apply readResponseUntilEOF_leaves; [by apply (allowed_le cap) | done]. }
  destruct (Z.ltb_spec maxBody n) as [Hbig | Hsmall]; [by apply leaves_fail |].
  eapply (leaves_bind _ (λ _ _, True)); [apply leaves_modify; simpl; auto with burst |]. intros [] s2 H2 _.
  destruct (n =? 0); [apply leaves_modify; simpl; [apply good_setBody; [done | lia] | apply (fitting_view maxBody 0); [simpl; lia | done]] |].
  eapply leaves_bind; [apply ensureBufferSize_leaves; [apply (allowed_le maxBody); [done | lia] | done] |].
  intros ok s3 H3 Hok. destruct ok; cbn [negb]; [| by apply leaves_fail].
  destruct (Z.ltb_spec n 0) as [Hn0 | Hn0]; [by apply leaves_panic |]. specialize (Hok eq_refl).
  eapply (leaves_bind _ (λ _ p, Body p = BView (Z.to_nat n))).
  { apply leaves_modify; simpl; [| done]. apply (good_setBuf _ (setBody (BView (Z.to_nat n)) s3.2)).
    apply good_setBody; [done |]. unfold len in *. lia. }
  intros [] s4 H4 E4. eapply leaves_bind; [by apply leaves_get |]. intros s4' s5 H5 [Es E5].
  eapply leaves_bind; [by apply readBodyLoop_leaves; [done | rewrite E5] |].
  intros off s6 H6 E6. case_if; [| by apply leaves_fail].
  apply leaves_ret; [done |]. apply (fitting_view maxBody (Z.to_nat n)); [lia | done].
Qed.

End whole.

End reader.

(** *** Decompression and the pipelined reader *)

Section gzip.

Variable gunzip : bytes → gzipResult.
(** The decompressed bodies fit. *)
Hypothesis gunzip_fits : ∀ b d, gunzip b = GzOK d → allowed (len d).

Lemma decompressBody_good lo p : good lo p → good lo (decompressBody gunzip p).2.
Proof.
  intros Hg. unfold decompressBody. case_if; [done |]. destruct (negb (isGzip p)); [done |].
  destruct (gunzip (bodyBytes p)) as [e | e | d] eqn:Eg; [done | done |]. apply gunzip_fits in Eg.
  destruct (ensureBufferSize_leaves lo (len d) (tt, p) Eg Hg) as [G Q]. unfold onR in G, Q. simpl in G, Q.
  unfold mbind, go_bind. destruct (ensureBufferSize (len d) p) as [[ok | e | |] p1]; try done.
  simpl in *. apply good_setContentLength, good_setBody; [by apply good_setBuf |].
  simpl. rewrite length_splice. destruct ok; [specialize (Q true eq_refl eq_refl); unfold len in Q; lia |].
  rewrite length_take. lia.
Qed.

Lemma decompressBody_leaves {S} lo (s : S * Response) :
  good lo s.2 → leaves lo (λ _ _, True) (onR (decompressBody gunzip) s).
Proof.
  intros Hg. pose proof (decompressBody_good lo s.2 Hg) as Hd. unfold onR.
  destruct (decompressBody gunzip s.2) as [o p]. by split.
Qed.

Variables (cap : nat) (maxBody : Z) (method : bytes).
Hypothesis maxBody_pos : 0 < maxBody.
Hypothesis maxBody_fits : allowed maxBody.

Lemma readResponseBuffered_leaves (s : BufReader * Response) :
  good 0 s.2 → leaves 0 (λ _ _, True) (readResponseBuffered gunzip cap maxBody method s).
Proof.
  intros Hg. unfold readResponseBuffered.
  eapply leaves_bind; [by apply leaves_onL |]. intros head s1 H1 _.
  destruct (parseStatusCode head) as [status ok]. destruct ok; cbn [negb]; [| by apply leaves_fail].
  destruct (noBody method status).
  { apply leaves_modify; simpl; [apply good_setBody; [auto with burst | lia] | done]. }
  destruct (parseTransferEncoding head).
  { eapply (leaves_bind _ (λ _ _, True)); [apply leaves_modify; simpl; auto with burst |]. intros [] s2 H2 _.
    eapply leaves_bind; [by apply readChunkedBody_leaves |]. intros [] s3 H3 _. by apply decompressBody_leaves. }
  destruct (parseContentLength head) as [n hasLen]. destruct hasLen; cbn [negb].
  2: { eapply leaves_bind; [apply readResponseUntilEOF_leaves; [done | done | apply (allowed_le maxBody); [done | unfold len; simpl; lia] | done] |].
       intros [] s3 H3 _. by apply decompressBody_leaves. }
  destruct ((0 <? maxBody) && _) eqn:Hmax; [by apply leaves_fail |].
  assert (n ≤ maxBody) as Hn by (apply andb_false_iff in Hmax as [Hmax | Hmax]; unbool; lia).
  eapply (leaves_bind _ (λ _ _, True)); [apply leaves_modify; simpl; auto with burst |]. intros [] s2 H2 _.
  destruct (n =? 0); [apply leaves_modify; simpl; [apply good_setBody; [done | lia] | done] |].
  eapply leaves_bind; [apply ensureBufferSize_leaves; [apply (allowed_le maxBody); [done | lia] | done] |].
  intros ok s3 H3 Hok. destruct ok; cbn [negb]; [| by apply leaves_fail].
  destruct (n <? 0); [by apply leaves_panic |]. specialize (Hok eq_refl).
  eapply (leaves_bind _ (λ _ _, True)).
  { apply leaves_modify; simpl; [| done]. apply good_setBody; [done |]. unfold len in *. lia. }
  intros [] s4 H4 _. eapply (leaves_bind _ (λ _ _, True)).
  { unfold readFullBody. destruct (ReadFull _ s4.1) as [[o d] br]. split; [by apply good_setBuf | done]. }
  intros [] s5 H5 _. by apply decompressBody_leaves.
Qed.

End gzip.

End keeps.

(** ** Everything that happens to a response object *)

Section life.

Variable bound : Z.
Variable allowed : Z → Prop.
Variable gunzip : bytes → gzipResult.

(** One operation on a response object: the pool, the reset before a request, and
    the readers, with every peer and every outcome. *)
Inductive touches : Response → Response → Prop :=
  | touch_reset p : touches p (Reset p)
  | touch_acquire p maxResponse : 0 ≤ maxResponse ≤ bound → touches p (acquireResponse p maxResponse)
  | touch_acquire_max p maxResponse : maxResponse ≤ bound → touches p (AcquireResponseWithMaxSize p maxResponse)
  | touch_release p : touches p (ReleaseResponse p)
  | touch_read {R} `{ReaderLaws R} p (r : R) cap maxBody method hrs brs :
      0 < maxBody → allowed maxBody → allowed cap →
      touches p (readResponse cap maxBody method hrs brs (r, p)).2.2
  | touch_read_buffered p br cap maxBody method :
      0 < maxBody → allowed maxBody →
      touches p (readResponseBuffered gunzip cap maxBody method (br, p)).2.2
  | touch_decompress p : touches p (decompressBody gunzip p).2.

Hypothesis bound_min : 131072 ≤ bound.
Hypothesis growth : growthOK bound allowed.
Hypothesis allowed_le : ∀ a b, allowed a → b ≤ a → allowed b.
Hypothesis gunzip_fits : ∀ b d, gunzip b = GzOK d → allowed (len d).

Lemma wellFormed_good p : wellFormed bound p ↔ good bound 0 p.
Proof. split; [intros H; split; [done | lia] | by intros []]. Qed.

(** A fresh buffer of any size within the bound. *)
Lemma wellFormed_replace n p : 0 ≤ n ≤ bound → wellFormed bound p → wellFormed bound (replaceBuf n p).
Proof.
  intros Hn Hp. pose proof (wellFormed_body bound p ltac:(lia) Hp) as Hb. destruct Hp as [H1 H2 H3].
  split; cbn [replaceBuf Body bodyBuf maxSize]; [by destruct (Body p) | rewrite len_replicate by lia; lia | done].
Qed.

Lemma wellFormed_reset p n : n ≤ bound → wellFormed bound p → wellFormed bound (setMaxSize n (Reset p)).
Proof. intros Hn [_ H2 _]. by split. Qed.

Lemma wellFormed_pool p n :
  n ≤ bound → wellFormed bound p → wellFormed bound (AcquireResponseWithMaxSize p n) ∧
  (0 ≤ n → wellFormed bound (acquireResponse p n)) ∧ wellFormed bound (ReleaseResponse p).
Proof.
  intros Hn Hp. pose proof (wellFormed_reset p 0 ltac:(lia) Hp) as H0. pose proof (wellFormed_reset p n ltac:(lia) Hp) as H1.
  unfold AcquireResponseWithMaxSize, acquireResponse, ReleaseResponse, AcquireResponse, initialResponseBufferSize in *.
  split_and!.
  - cbv zeta. destruct (Z.ltb_spec 0 n); [| exact H0]. set (q := if len _ <? 64 * 1024 then _ else _).
    assert (wellFormed bound q) by (unfold q; case_if; [apply wellFormed_replace; [lia | done] | done]).
    repeat case_if; try done. apply wellFormed_replace; [lia | done].
  - intros Hn0. cbv zeta. destruct ((0 <? maxSize _) && _); [apply wellFormed_replace; [simpl; lia | done] |].
    case_if; [apply wellFormed_replace; [lia | done] | done].
  - set (q := if 64 * 1024 * 2 <? _ then _ else _). cbv zeta.
    assert (wellFormed bound q) as Hq by (unfold q; case_if; [apply wellFormed_replace; [lia | done] | done]).
    case_if; [| done]. by destruct Hq.
Qed.

Lemma touches_wellFormed p p' : touches p p' → wellFormed bound p → wellFormed bound p'.
Proof.
  intros Ht Hp. destruct Ht.
  - by apply (wellFormed_reset p 0 ltac:(lia)).
  - apply (wellFormed_pool p maxResponse); [lia | done | lia].
  - by apply wellFormed_pool.
  - by apply (wellFormed_pool p 0 ltac:(lia)).
  - apply wellFormed_good. by apply (readResponse_leaves bound allowed growth allowed_le); [.. | apply wellFormed_good].
  - apply wellFormed_good. by apply (readResponseBuffered_leaves bound allowed growth allowed_le); [.. | apply wellFormed_good].
  - apply wellFormed_good. by apply (decompressBody_good bound allowed growth); [.. | apply wellFormed_good].
Qed.

Lemma life_wellFormed size p :
  0 ≤ size ≤ bound → rtc touches (newPooledResponse size) p → wellFormed bound p.
Proof.
  intros Hs Hr. assert (wellFormed bound (newPooledResponse size)) as H0.
  { split; simpl; [done | rewrite len_replicate; lia | lia]. }
  remember (newPooledResponse size) as p0 eqn:E0. clear E0.
  induction Hr as [|p1 p2 p3 Ht _ IH]; [done |]. by apply IH, (touches_wellFormed p1).
Qed.

End life.

#[export] Hint Resolve good_setBuf good_parseHeaders good_setStatus good_setContentLength good_setBody
  leaves_fail leaves_panic leaves_hang leaves_get leaves_onL leaves_ret : burst.

(** The limits of one machine, and of one configuration. *)
Definition anySize (required : Z) : Prop := required ≤ 2 ^ 62.
Definition within (bound required : Z) : Prop := grownBound required ≤ bound.

(** C6: a response object is well formed at all times.  Start from a fresh pooled object
    and let any sequence of acquisitions, resets, releases, reads by both readers from
    any peers and decompressions happen to it, with every outcome (errors and panics
    included).  First, for all configured sizes up to 2^62 (the pool's up to 2^48) and
    every decompressor whose output is a Go slice of fewer than 2^62 bytes: [Body] is nil,
    or a slice inside the buffer, or bytes of their own, and none of them exceeds what the
    allocator can give.  Second, a body that [readResponse] then returns without an error
    is at most [MaxResponseBodySize] bytes long.  Third, the buffer and the body stay
    below a bound that depends on the configured sizes only (twice the largest of them
    plus 64 KiB), provided the bodies the decompressor yields stay below it: the code
    itself does not limit these. *)
Theorem responses_stay_well_formed gunzip size p :
  (∀ b d, gunzip b = GzOK d → len d ≤ 2 ^ 62) → 0 ≤ size →
  (size ≤ maxAlloc → rtc (touches maxAlloc anySize gunzip) (newPooledResponse size) p →
     wellFormed maxAlloc p ∧
     ∀ {R} `{ReaderLaws R} (r : R) cap maxBody method hrs brs r' p',
       0 < maxBody ≤ 2 ^ 62 → cap ≤ 2 ^ 62 →
       readResponse cap maxBody method hrs brs (r, p) = (Ret tt, (r', p')) → len (bodyBytes p') ≤ maxBody) ∧
  (∀ bound, 131072 ≤ bound ≤ 2 ^ 40 → size ≤ bound →
     (∀ b d, gunzip b = GzOK d → grownBound (len d) ≤ bound) →
     rtc (touches bound (within bound) gunzip) (newPooledResponse size) p →
     wellFormed bound p ∧ len (bodyBytes p) ≤ bound).
Proof.
  intros Hgz H0. split.
  - intros Hs Hr. assert (wellFormed maxAlloc p) as Hp.
    { apply (life_wellFormed maxAlloc anySize gunzip) with (size := size); try done.
      - exact growth_alloc.
      - unfold anySize. lia. }
    split; [done |]. intros R HR HL r cap maxBody method hrs brs r' p' Hm Hc E.
    destruct (readResponse_leaves maxAlloc anySize growth_alloc ltac:(unfold anySize; lia) maxBody ltac:(lia)
                ltac:(unfold anySize; lia) cap method hrs brs Hc (r, p)) as [_ Q]; [by apply wellFormed_good |].
    rewrite E in Q. by apply (Q tt).
  - intros bound Hb Hs Hgb Hr. assert (wellFormed bound p) as Hp.
    { apply (life_wellFormed bound (within bound) gunzip) with (size := size); try done; try lia.
      - apply growth_bounded. lia.
      - unfold within, grownBound. lia. }
    split; [done |]. apply wellFormed_body; [lia | done].
Qed.

(** An object that has served one compressed response, by a decompressor that doubles its
    input, and is reset for the next. *)
Lemma responses_stay_well_formed_witness :
  let gunzip := λ b, if (length b <=? 1000)%nat then GzOK (b ++ b) else GzReadError EEOF in
  let c := mkConn [(strln "HTTP/1.1 200 OK" ++ strln "Content-Encoding: gzip" ++ strln "Content-Length: 3" ++ crlf
                      ++ str "one", None)] EEOF in
  let p := (readResponse 4096 65536 (str "GET") 4096 4096 (c, newPooledResponse 16)).2.2 in
  let q := (decompressBody gunzip p).2 in
  bodyBytes p = str "one" ∧ bodyBytes q = str "oneone" ∧ wellFormed maxAlloc q ∧
  wellFormed 262144 q ∧ len (bodyBytes q) ≤ 262144.
Proof.
  intros gunzip c p q. split; [vm_compute; reflexivity |]. split; [vm_compute; reflexivity |].
  assert (Hout : ∀ b d, gunzip b = GzOK d → len d ≤ 2000).
  { intros b d. unfold gunzip. destruct (Nat.leb_spec (length b) 1000); [| discriminate].
    intros [= <-]. unfold len. rewrite length_app. lia. }
  destruct (responses_stay_well_formed gunzip 16 q) as [H1 H2].
  - intros b d E. apply Hout in E. lia.
  - lia.
  - split.
    + apply H1; [unfold maxAlloc; lia |].
      apply (rtc_l _ _ p); [| apply rtc_once, touch_decompress].
      unfold p. apply (touch_read maxAlloc _ _ _ c 4096 65536); unfold anySize; lia.
    + apply (H2 262144); [lia | lia | intros b d E; apply Hout in E; unfold grownBound; lia |].
      apply (rtc_l _ _ p); [| apply rtc_once, touch_decompress].
      unfold p. apply (touch_read 262144 _ _ _ c 4096 65536); unfold within, grownBound; lia.
Defined.
