(* ===== verification/ParserFacts.v ===== *)
(** * ParserFacts: what the response readers compute

    On a prompt reader, whose stream holds a well-formed response followed by
    anything, the readers return exactly that response, however the stream was
    cut into reads.  [feeds f s x] says that the source [s] will deliver the
    bytes [x] and then the error [f].  A chunked body that outgrows the body buffer
    loses its front; [received] says what is left of it. *)

From stdpp Require Import prelude list.
From S2P Require Import Prelude Errors Strconv IO Scan Response Parser ParserTotal.

(** ** The wire format of a chunked body *)

(** A chunk as sent: the text of its size, the extension (from the semicolon
    on, possibly empty) and its data. *)
Record chunk := mkChunk { ck_size : bytes; ck_ext : bytes; ck_data : bytes }.

(** The size line: any spelling of [n] that ParseInt accepts, at most 63
    characters, then an extension of any length. *)
Definition sizeLine (size ext : bytes) (n : Z) : Prop :=
  ParseInt 16 size = Some n ∧ (length size ≤ 63)%nat ∧
  Forall (λ c, c ≠ LF ∧ c ≠ 59) size ∧
  (ext = [] ∨ ∃ e, ext = 59 :: e ∧ Forall (λ c, c ≠ LF) e).

Definition wfChunk (c : chunk) : Prop :=
  ck_data c ≠ [] ∧ sizeLine (ck_size c) (ck_ext c) (len (ck_data c)).

Definition wfTrailer (t : bytes) : Prop := t ≠ [] ∧ Forall (λ c, c ≠ LF) t.

Definition encodeChunk (c : chunk) : bytes :=
  ck_size c ++ ck_ext c ++ crlf ++ ck_data c ++ crlf.

Definition encodeTrailers (ts : list bytes) : bytes := concat ((λ t, t ++ crlf) <$> ts) ++ crlf.

(** The chunks, the last-chunk line and the trailer part. *)
Definition encodeChunked (cs : list chunk) (lastSize lastExt : bytes) (ts : list bytes) : bytes :=
  concat (encodeChunk <$> cs) ++ lastSize ++ lastExt ++ crlf ++ encodeTrailers ts.

Definition chunkData (cs : list chunk) : bytes := concat (ck_data <$> cs).

(** *** What growing the buffer does to a body

    [ensureBufferSize] does not copy: when a chunk does not fit, the buffer is replaced by
    a larger one of zeroes, and the bytes stored before it are lost. *)

(** The size of the buffer after a demand for [required] bytes. *)
Definition bufferAfter (size limit required : Z) : Z :=
  if required <=? size then size
  else
    let n := grownSize size required in
    if (0 <? limit) && (limit <? n) then limit else n.

(** How many bytes at the front are lost when the chunks [ds] are stored from [n] on:
    those before the last growth. *)
Fixpoint lostBytes (size limit : Z) (n : nat) (ds : list bytes) (lost : nat) : nat :=
  match ds with
  | [] => lost
  | d :: t =>
      let hi := Z.of_nat (n + length d) in
      lostBytes (bufferAfter size limit hi) limit (n + length d) t (if hi <=? size then lost else n)
  end.

Definition zeroed (k : nat) (d : bytes) : bytes := replicate k 0 ++ drop k d.

(** What a caller finds of a chunked body: all of it when it fits into the buffer that
    is there ([received_fits]). *)
Definition received (p : Response) (cs : list chunk) : bytes :=
  zeroed (lostBytes (len (bodyBuf p)) (maxSize p) 0 (ck_data <$> cs) 0) (chunkData cs).

Lemma zeroed_app k d e : (k ≤ length d)%nat → zeroed k d ++ e = zeroed k (d ++ e).
Proof. intros H. unfold zeroed. by rewrite drop_app_le, app_assoc by done. Qed.

Lemma zeroed_all d : zeroed (length d) d = replicate (length d) 0.
Proof. unfold zeroed. by rewrite drop_all, app_nil_r. Qed.

Lemma lostBytes_bound size limit n ds lost :
  (lost ≤ n)%nat → (lostBytes size limit n ds lost ≤ n + length (concat ds))%nat.
Proof.
  revert size n lost. induction ds as [|d ds IH]; intros size n lost H; simpl; [lia |].
  rewrite length_app. set (lost' := if _ <=? _ then _ else _).
  assert (lost' ≤ n)%nat by (unfold lost'; case_if; lia).
  specialize (IH (bufferAfter size limit (Z.of_nat (n + length d))) (n + length d)%nat lost'). lia.
Qed.

Lemma length_received p cs : length (received p cs) = length (chunkData cs).
Proof.
  unfold received, zeroed. rewrite length_app, length_replicate, length_drop.
  pose proof (lostBytes_bound (len (bodyBuf p)) (maxSize p) 0 (ck_data <$> cs) 0). unfold chunkData. lia.
Qed.

Lemma lostBytes_fits size limit n ds lost :
  Z.of_nat (n + length (concat ds)) ≤ size → lostBytes size limit n ds lost = lost.
Proof.
  revert size n lost. induction ds as [|d ds IH]; intros size n lost H; [done |]. simpl in *. rewrite length_app in H.
  unfold bufferAfter. rewrite !(proj2 (Z.leb_le _ _)) by lia. apply IH. lia.
Qed.

(** A body that fits the buffer is received as it was sent. *)
Lemma received_fits p cs : (length (chunkData cs) ≤ length (bodyBuf p))%nat → received p cs = chunkData cs.
Proof. intros H. unfold received. rewrite lostBytes_fits; [done |]. unfold chunkData, len in *. lia. Qed.

(** ** Lines *)

Lemma take_init (l : bytes) (x : Z) : take (length (l ++ [x]) - 1) (l ++ [x]) = l.
Proof. rewrite length_app, Nat.add_sub. apply take_app_length. Qed.

Lemma dropCR_snoc l : dropCR (l ++ [CR]) = l.
Proof. unfold dropCR. rewrite bool_decide_eq_true_2 by apply last_snoc. apply take_init. Qed.

(** A character other than CR stops the removal. *)
Lemma dropCR_keep l (c : Z) t : c ≠ CR → ∃ y, dropCR (l ++ c :: t) = l ++ c :: y.
Proof.
  intros Hc. unfold dropCR. case_bool_decide as Hl; [| by exists t].
  destruct t as [|x t _] using rev_ind; [rewrite last_snoc in Hl; congruence |].
  exists t. rewrite app_comm_cons, app_assoc. apply take_init.
Qed.

Lemma dropCR_length l : (length l - 1 ≤ length (dropCR l))%nat.
Proof. unfold dropCR. case_bool_decide; rewrite ?length_take; lia. Qed.

Lemma cutSemicolon_plain size : Forall (λ c, c ≠ 59) size → cutSemicolon size = size.
Proof.
  induction 1 as [|c t Hc _ IH]; [done |]. simpl.
  by rewrite (proj2 (Z.eqb_neq _ _)), IH by done.
Qed.

Lemma cutSemicolon_ext size y : Forall (λ c, c ≠ 59) size → cutSemicolon (size ++ 59 :: y) = size.
Proof.
  induction 1 as [|c t Hc _ IH]; [done |]. simpl.
  by rewrite (proj2 (Z.eqb_neq _ _)), IH by done.
Qed.

(** The 64-byte line buffer never cuts into the size. *)
Lemma sizeLine_read size ext n :
  sizeLine size ext n →
  ParseInt 16 (cutSemicolon (dropCR (take 64 (size ++ ext ++ [CR])))) = Some n.
Proof.
  intros (Hp & Hl & Hs & Hext).
  assert (Forall (λ c, c ≠ 59) size) as Hs' by (eapply Forall_impl; [exact Hs |]; by intros ? []).
  destruct Hext as [-> | (e & -> & _)].
  - rewrite app_nil_l, take_ge, dropCR_snoc, cutSemicolon_plain; try done.
    rewrite length_app. simpl. lia.
  - rewrite take_app_ge by lia.
    destruct (64 - length size)%nat as [|k] eqn:Ek; [lia |].
    rewrite <- app_comm_cons. cbn [take].
    destruct (dropCR_keep size 59 (take k (e ++ [CR]))) as [y ->]; [done |].
    by rewrite cutSemicolon_ext.
Qed.

Lemma trailer_read t : wfTrailer t → dropCR (take 64 (t ++ [CR])) ≠ [].
Proof.
  intros [Hne _] E. apply (f_equal length) in E. cbn [length] in E.
  destruct (decide (length t < 64)%nat).
  - rewrite take_ge, dropCR_snoc in E by (rewrite length_app; simpl; lia). by destruct t.
  - pose proof (dropCR_length (take 64 (t ++ [CR]))) as Hl.
    rewrite length_take, length_app in Hl. lia.
Qed.

(** ** The source of the chunk reader *)

Section facts.

Context {R : Type} `{ReaderLaws R}.

(** A bound on the bytes left over from the head. *)
Variable k : nat.

Definition feeds (f : error) (s : src R) (x : bytes) : Prop :=
  s.1 ++ stream s.2 = x ∧ prompt s.2 ∧ final s.2 = f ∧ (length s.1 ≤ k)%nat.

Lemma readByte_feeds f s b x :
  feeds f s (b :: x) → ∃ s', readByte s = (Ret b, s') ∧ feeds f s' x.
Proof.
  destruct s as [[|c lo] r]; intros (Hs & Hp & Hf & Hk); cbn [fst snd length] in *.
  - rewrite app_nil_l in Hs.
    destruct (prompt_read 1 r Hp ltac:(lia)) as (d & r' & HR & Hd & Hl & Hst & Hf' & Hp').
    { by rewrite Hs. }
    destruct d as [|c [|c' d]]; [done | | simpl in Hl; lia].
    rewrite Hst in Hs. injection Hs as -> Hs.
    exists ([], r'). unfold readByte. cbn [fst snd readByteLoop]. rewrite HR.
    split; [done |]. repeat split; [done | done | cbn [snd]; congruence | simpl; lia].
  - injection Hs as -> Hs. exists (lo, r). split; [done |].
    repeat split; [done | done | done | simpl; lia].
Qed.

Lemma readLineLoop_feeds f fuel line s l x :
  (srcSize s < fuel)%nat → feeds f s (l ++ LF :: x) → Forall (λ c, c ≠ LF) l →
  (length line ≤ 64)%nat →
  ∃ s', readLineLoop fuel line s = (Ret (dropCR (take 64 (line ++ l))), s') ∧ feeds f s' x.
Proof.
  revert line s l. induction fuel as [|fuel IH]; intros line s l Hf Hs Hl Hline; [lia |].
  cbn [readLineLoop]. destruct Hl as [|c l Hc Hl].
  - destruct (readByte_feeds f s LF x Hs) as (s' & HR & Hs').
    exists s'. rewrite (bind_Ret _ _ _ _ _ HR). simpl.
    rewrite app_nil_r, take_ge by done. done.
  - destruct (readByte_feeds f s c (l ++ LF :: x) Hs) as (s' & HR & Hs').
    rewrite (bind_Ret _ _ _ _ _ HR). rewrite (proj2 (Z.eqb_neq c LF)) by done.
    pose proof (readByte_settles s) as (_ & _ & Hd). rewrite HR in Hd.
    specialize (Hd c eq_refl). cbn [snd] in Hd.
    destruct (Nat.ltb_spec (length line) 64) as [Hlt | Hge].
    + destruct (IH (line ++ [c]) s' l) as (s2 & -> & Hs2); try done; [lia | |].
      { rewrite length_app. simpl. lia. }
      exists s2. by rewrite <- app_assoc.
    + destruct (IH line s' l) as (s2 & -> & Hs2); try done; [lia |].
      exists s2. split; [| done]. rewrite !take_app_le by lia. done.
Qed.

Lemma readLine_feeds f s l x :
  feeds f s (l ++ LF :: x) → Forall (λ c, c ≠ LF) l →
  ∃ s', readLine s = (Ret (dropCR (take 64 l)), s') ∧ feeds f s' x.
Proof.
  intros Hs Hl. unfold readLine.
  destruct (readLineLoop_feeds f (S (srcSize s)) [] s l x) as (s' & E & Hs'); try done;
    [lia | simpl; lia |].
  exists s'. by rewrite E.
Qed.

(** One turn of [readExactLoop] that stored [e]. *)
Lemma readExact_step f (fuel off : nat) s p e d2 x :
  (∀ s', (srcSize s' < fuel)%nat → feeds f s' (d2 ++ x) →
    ∀ p', (off + length e + length d2 ≤ length (bodyBuf p'))%nat →
    ∃ s2, readExactLoop fuel (off + length e) (length d2) (s', p') =
          (Ret tt, (s2, setBuf (splice (bodyBuf p') (off + length e) d2) p')) ∧ feeds f s2 x) →
  (srcSize s < fuel)%nat → feeds f s (d2 ++ x) →
  (off + length (e ++ d2) ≤ length (bodyBuf p))%nat →
  ∃ s2, readExactLoop fuel (off + length e) (length (e ++ d2) - length e)
          (s, setBuf (splice (bodyBuf p) off e) p) =
        (Ret tt, (s2, setBuf (splice (bodyBuf p) off (e ++ d2)) p)) ∧ feeds f s2 x.
Proof.
  intros IH Hf Hs Hl. rewrite length_app in *.
  replace (length e + length d2 - length e)%nat with (length d2) by lia.
  destruct (IH s Hf Hs (setBuf (splice (bodyBuf p) off e) p)) as (s2 & -> & Hs2).
  { simpl bodyBuf. rewrite length_splice. lia. }
  exists s2. simpl bodyBuf. rewrite splice_splice by lia. done.
Qed.

Lemma readExactLoop_feeds f fuel off s p d x :
  (srcSize s < fuel)%nat → feeds f s (d ++ x) → (off + length d ≤ length (bodyBuf p))%nat →
  ∃ s', readExactLoop fuel off (length d) (s, p) =
        (Ret tt, (s', setBuf (splice (bodyBuf p) off d) p)) ∧ feeds f s' x.
Proof.
  revert off s p d. induction fuel as [|fuel IH]; intros off s p d Hf Hs Hl; [lia |].
  destruct (decide (d = [])) as [-> | Hne].
  { exists s. split; [| done]. simpl. rewrite splice_nil. by destruct p. }
  assert (∃ n, length d = S n) as [n Hn] by (destruct d; [done | by eexists]).
  destruct s as [lo r]. rewrite Hn. cbn [readExactLoop].
  destruct Hs as (Hs & Hp & Hfin & Hk). cbn [fst snd] in *.
  unfold srcSize in Hf. cbn [fst snd] in Hf.
  destruct lo as [|b lo].
  - rewrite app_nil_l in Hs.
    destruct (prompt_read (S n) r Hp ltac:(lia)) as (e & r' & HR & He & Hle & Hst & Hf' & Hp').
    { rewrite Hs. by destruct d. }
    rewrite HR. pose proof (read_budget _ _ _ _ _ (Nat.lt_0_succ _) HR) as [_ Hb].
    specialize (Hb eq_refl). rewrite Hst in Hs.
    apply app_split_le in Hs as (d2 & -> & Hs); [| lia].
    destruct e as [|b e]; [done |]. rewrite <- Hn.
    apply readExact_step; [| unfold srcSize; simpl; lia | | done].
    + intros s' ? ? p' ?. by apply IH.
    + repeat split; [done | done | cbn [snd]; congruence | simpl; lia].
  - set (e := take (S n) (b :: lo)).
    rewrite <- (take_drop (S n) (b :: lo)), <- app_assoc in Hs. fold e in Hs.
    apply app_split_le in Hs as (d2 & -> & Hs);
      [| unfold e; rewrite length_take; lia].
    fold e. replace (S n - length e)%nat with (length (e ++ d2) - length e)%nat by lia.
    apply readExact_step;
      [| | split; [exact Hs | split; [exact Hp | split; [exact Hfin |]]] | done].
    + intros s' ? ? p' ?. by apply IH.
    + unfold srcSize. cbn [fst snd]. rewrite length_drop. simpl in Hf |- *. lia.
    + cbn [fst]. rewrite length_drop. lia.
Qed.

Lemma onL_eq {S T A} (m : go S error A) s (t : T) o s' :
  m s = (o, s') → onL m (s, t) = (o, (s', t)).
Proof. intros E. unfold onL. cbn [fst snd]. by rewrite E. Qed.

(** Reading a line that ends with CRLF. *)
Lemma readLine_crlf f s l x :
  feeds f s (l ++ crlf ++ x) → Forall (λ c, c ≠ LF) l →
  ∃ s', readLine s = (Ret (dropCR (take 64 (l ++ [CR]))), s') ∧ feeds f s' x.
Proof.
  intros Hs Hl. apply readLine_feeds; [by rewrite <- app_assoc |].
  rewrite Forall_app. split; [done | by repeat constructor].
Qed.

Lemma readLine_shrinks (s : src R) a s' : readLine s = (Ret a, s') → (srcSize s' < srcSize s)%nat.
Proof.
  intros E. pose proof (readLine_settles s) as (_ & _ & Hd). rewrite E in Hd.
  by apply (Hd a).
Qed.

Lemma drainTrailers_feeds f fuel s ts x :
  (srcSize s < fuel)%nat → feeds f s (encodeTrailers ts ++ x) → Forall wfTrailer ts →
  ∃ s', drainTrailers fuel s = (Ret tt, s') ∧ feeds f s' x.
Proof.
  revert s ts. induction fuel as [|fuel IH]; intros s ts Hf Hs Hts; [lia |].
  cbn [drainTrailers]. unfold encodeTrailers in Hs. destruct Hts as [|t ts Ht Hts].
  - destruct (readLine_crlf f s [] x Hs) as (s' & E & Hs'); [done |].
    exists s'. split; [| done]. unfold ignoreError, mbind, go_bind. by rewrite E.
  - rewrite fmap_cons in Hs. cbn [concat] in Hs. rewrite <- !app_assoc in Hs.
    destruct (readLine_crlf f s t _ Hs) as (s1 & E & Hs1); [apply Ht |].
    pose proof (readLine_shrinks _ _ _ E).
    destruct (IH s1 ts) as (s2 & E2 & Hs2); [lia | | done |].
    { unfold encodeTrailers. by rewrite <- app_assoc. }
    exists s2. split; [| done]. unfold ignoreError, mbind, go_bind. rewrite E.
    pose proof (trailer_read t Ht). destruct (dropCR _); [done |]. exact E2.
Qed.

(** The size line of a chunk, up to the parsed size. *)
Lemma readSize_feeds f (s : src R) size ext n x :
  sizeLine size ext n → feeds f s (size ++ ext ++ crlf ++ x) →
  ∃ line s', readLine s = (Ret line, s') ∧ feeds f s' x ∧
             ParseInt 16 (cutSemicolon line) = Some n.
Proof.
  intros Hz Hs. rewrite app_assoc in Hs.
  destruct (readLine_crlf f s (size ++ ext) x Hs) as (s' & E & Hs').
  - destruct Hz as (_ & _ & Hsz & [-> | (e & -> & He)]); rewrite Forall_app; split;
      try (eapply Forall_impl; [exact Hsz |]; by intros ? []); [done | by constructor].
  - eexists _, s'. split; [exact E |]. split; [done |].
    rewrite <- app_assoc. by apply sizeLine_read.
Qed.

(** The same response but for its body, its length and its buffer. *)
Definition sameMeta (p p' : Response) : Prop :=
  StatusCode p' = StatusCode p ∧ Headers p' = Headers p ∧ maxSize p' = maxSize p ∧ rawHeaderBuf p' = rawHeaderBuf p.

(** How the buffer answers a demand its limit allows: it stays, or a new one of
    [bufferAfter] zeroes takes its place. *)
Lemma ensureBufferSize_after hi (s : src R) p :
  len (bodyBuf p) ≤ 2 ^ 40 → maxSize p ≤ 2 ^ 40 → hi ≤ 2 ^ 38 → (0 < maxSize p → hi ≤ maxSize p) →
  let size := bufferAfter (len (bodyBuf p)) (maxSize p) hi in
  ∃ p', onR (ensureBufferSize hi) (s, p) = (Ret true, (s, p')) ∧ sameMeta p p' ∧
    bodyBuf p' = (if hi <=? len (bodyBuf p) then bodyBuf p else replicate (Z.to_nat size) 0) ∧
    hi ≤ size ≤ 2 ^ 40 ∧ len (bodyBuf p') = size.
Proof.
  intros Hb Hm Hh Hl. unfold onR, ensureBufferSize, bufferAfter. cbn [fst snd].
  pose proof (len_nonneg (bodyBuf p)) as Hnn.
  destruct (Z.leb_spec hi (len (bodyBuf p))) as [Hle | Hgt]; [exists p; split_and!; done || lia |].
  assert ((0 <? maxSize p) && (maxSize p <? hi) = false) as ->
    by (destruct (Z.ltb_spec 0 (maxSize p)); [apply Z.ltb_ge; auto | done]).
  pose proof (grownSize_bounds (len (bodyBuf p)) hi ltac:(lia) ltac:(lia)) as Hg.
  set (g := grownSize _ _) in *.
  assert (∀ n, hi ≤ n ≤ 2 ^ 40 →
    ∃ p', (if makeOK n then (Ret (E := error) true, replaceBuf n p) else (Panic, p)) = (Ret true, p') ∧ sameMeta p p' ∧
      bodyBuf p' = replicate (Z.to_nat n) 0 ∧ hi ≤ n ≤ 2 ^ 40 ∧ len (bodyBuf p') = n) as Hmake.
  { intros n Hn. exists (replaceBuf n p). unfold makeOK.
    rewrite (proj2 (andb_true_iff _ _)) by (unfold maxAlloc; lia).
    split_and!; try done; try lia. apply replaceBuf_len. lia. }
  destruct (Z.ltb_spec 0 (maxSize p)), (Z.ltb_spec (maxSize p) g); cbn [andb].
  1: rewrite (proj2 (Z.ltb_ge (maxSize p) hi)) by auto.
  all: match goal with |- ∃ _, _ ∧ _ ∧ bodyBuf _ = replicate (Z.to_nat ?n) 0 ∧ _ =>
         destruct (Hmake n) as (p' & E & Hp'); [lia |] end; exists p'; by rewrite E.
Qed.

(** The limits a chunked body of [n] bytes must respect. *)
Definition bodyAllowed (maxBody : Z) (p : Response) (n : nat) : Prop :=
  sane p ∧ (0 < maxBody → Z.of_nat n ≤ maxBody) ∧ (0 < maxSize p → Z.of_nat n ≤ maxSize p) ∧
  Z.of_nat n ≤ 2 ^ 38.

Variable maxBody : Z.

(** Behind the last-chunk line the source holds [t]; draining it leaves [x]. *)
Definition drains (f : error) (t x : bytes) : Prop :=
  ∀ s, feeds f s t → ∃ s', drainTrailers (S (srcSize s)) s = (Ret tt, s') ∧ feeds f s' x.

Lemma drains_trailers f ts x : Forall wfTrailer ts → drains f (encodeTrailers ts ++ x) x.
Proof. intros Hts s Hs. apply (drainTrailers_feeds f (S (srcSize s)) s ts x); [lia | done | done]. Qed.

Lemma chunkLoop_last f fuel n s p ls le t x :
  sizeLine ls le 0 → drains f t x → feeds f s (ls ++ le ++ crlf ++ t) →
  ∃ s', chunkLoop maxBody (S fuel) n (s, p) = (Ret n, (s', p)) ∧ feeds f s' x.
Proof.
  intros Hz Ht Hs.
  destruct (readSize_feeds f s ls le 0 _ Hz Hs) as (line & s1 & E & Hs1 & Hn).
  cbn [chunkLoop]. rewrite (bind_Ret _ _ _ _ _ (onL_eq _ _ p _ _ E)), Hn. cbn [Z.ltb Z.eqb Z.compare].
  destruct (Ht s1 Hs1) as (s2 & E2 & Hs2).
  exists s2. split; [| done].
  rewrite (bind_Ret _ _ (s1, p) (s1, p) (s1, p)) by done. cbn [fst].
  by rewrite (bind_Ret _ _ _ _ _ (onL_eq _ _ p _ _ E2)).
Qed.

(** The size line of a chunk is read, and there is room for its data. *)
Lemma chunkLoop_data f fuel n s p c x :
  wfChunk c → feeds f s (ck_size c ++ ck_ext c ++ crlf ++ x) → bodyAllowed maxBody p (n + length (ck_data c)) →
  let hi := Z.of_nat (n + length (ck_data c)) in
  let size := bufferAfter (len (bodyBuf p)) (maxSize p) hi in
  ∃ s' p', (srcSize s' < srcSize s)%nat ∧ feeds f s' x ∧ sameMeta p p' ∧
    bodyBuf p' = (if hi <=? len (bodyBuf p) then bodyBuf p else replicate (Z.to_nat size) 0) ∧
    hi ≤ size ≤ 2 ^ 40 ∧ len (bodyBuf p') = size ∧
    chunkLoop maxBody (S fuel) (Z.of_nat n) (s, p)
      = (_ ← readExact n (length (ck_data c)); _ ← onL (ignoreError readLine); chunkLoop maxBody fuel hi) (s', p').
Proof.
  intros [Hne Hz] Hs ([Hb Hms] & Hm & Hl & H38) hi size.
  destruct (readSize_feeds f s _ _ _ _ Hz Hs) as (line & s1 & E & Hs1 & Hn).
  pose proof (readLine_shrinks _ _ _ E) as Hd1.
  assert (len (ck_data c) ≠ 0) by (destruct (ck_data c); [done | unfold len; simpl; lia]).
  pose proof (len_nonneg (ck_data c)).
  destruct (ensureBufferSize_after hi s1 p Hb Hms H38 Hl) as (p1 & Ee & Hmeta & Hbuf & Hsize & Hlen).
  fold size in Hbuf, Hsize, Hlen. exists s1, p1. do 6 (split; [done |]).
  cbn [chunkLoop]. rewrite (bind_Ret _ _ _ _ _ (onL_eq _ _ p _ _ E)), Hn.
  rewrite (proj2 (Z.ltb_ge _ _)), (proj2 (Z.eqb_neq _ _)) by done.
  assert (i64 (Z.of_nat n + len (ck_data c)) = hi) as ->.
  { rewrite i64_small; unfold hi, int64_range, len in *; lia. }
  assert ((0 <? maxBody) && (maxBody <? hi) = false) as ->.
  { destruct (Z.ltb_spec 0 maxBody) as [Hpos |]; [| done].
    specialize (Hm Hpos). apply Z.ltb_ge. unfold hi. lia. }
  rewrite (bind_Ret _ _ _ _ _ Ee).
  cbn [negb]. rewrite (bind_Ret _ _ (s1, p1) (s1, p1) (s1, p1)) by done. cbn [snd].
  rewrite (proj2 (Z.ltb_ge hi (Z.of_nat n))), (proj2 (Z.ltb_ge (len (bodyBuf p1)) hi)) by (unfold hi in *; lia).
  cbn [orb]. by rewrite len_to_nat, Nat2Z.id.
Qed.

(** One chunk: its data is stored behind the body read so far, in the buffer that is
    there or in a new one. *)
Lemma chunkLoop_step f fuel n s p c x :
  wfChunk c → feeds f s (encodeChunk c ++ x) → bodyAllowed maxBody p (n + length (ck_data c)) →
  let hi := Z.of_nat (n + length (ck_data c)) in
  let size := bufferAfter (len (bodyBuf p)) (maxSize p) hi in
  let buf := if hi <=? len (bodyBuf p) then bodyBuf p else replicate (Z.to_nat size) 0 in
  ∃ s' p', (srcSize s' < srcSize s)%nat ∧ feeds f s' x ∧ sameMeta p p' ∧
    bodyBuf p' = splice buf n (ck_data c) ∧ len (bodyBuf p') = size ∧ hi ≤ size ≤ 2 ^ 40 ∧
    chunkLoop maxBody (S fuel) (Z.of_nat n) (s, p) = chunkLoop maxBody fuel hi (s', p').
Proof.
  intros Hc Hs Hall hi size buf. unfold encodeChunk in Hs. rewrite <- !app_assoc in Hs.
  destruct (chunkLoop_data f fuel n s p c _ Hc Hs Hall) as (s1 & p1 & Hd1 & Hs1 & Hmeta & Hbuf & Hsize & Hlen & ->).
  fold hi size in Hbuf, Hsize, Hlen. fold buf in Hbuf.
  destruct (readExactLoop_feeds f (S (S (srcSize s1))) n s1 p1 (ck_data c) (crlf ++ x))
    as (s2 & E2 & Hs2); [lia | done | unfold hi, len in *; lia |].
  pose proof (readExactLoop_settles (S (S (srcSize s1))) n (length (ck_data c)) (s1, p1)
                ltac:(cbn [fst]; lia)) as [_ Hd2].
  rewrite E2 in Hd2. cbn [fst snd] in Hd2.
  destruct (readLine_crlf f s2 [] x Hs2) as (s3 & E3 & Hs3); [done |].
  pose proof (readLine_shrinks _ _ _ E3) as Hd3.
  exists s3, (setBuf (splice (bodyBuf p1) n (ck_data c)) p1). split; [lia |]. split; [done |]. split; [done |].
  split; [simpl; by rewrite Hbuf |].
  split; [simpl bodyBuf; unfold len; rewrite length_splice; exact Hlen |]. split; [done |].
  rewrite (bind_Ret _ _ (s1, p1) tt (s2, setBuf (splice (bodyBuf p1) n (ck_data c)) p1)) by exact E2.
  erewrite bind_Ret; [done |]. apply (onL_eq (ignoreError readLine)).
  unfold ignoreError. by rewrite E3.
Qed.

Lemma bodyAllowed_next p p' n m size :
  bodyAllowed maxBody p n → sameMeta p p' → len (bodyBuf p') = size → size ≤ 2 ^ 40 → (m ≤ n)%nat →
  bodyAllowed maxBody p' m.
Proof.
  intros ([Hb Hms] & Hm & Hl & H38) (_ & _ & E & _) Hlen Hsz Hmn. unfold bodyAllowed, sane. rewrite E, Hlen.
  split_and!; try done; lia.
Qed.

(** [done] has been read, and its first [lost] bytes have been lost. *)
Lemma chunkLoop_feeds f fuel done_ lost s p cs ls le t x :
  Forall wfChunk cs → sizeLine ls le 0 → drains f t x →
  (srcSize s < fuel)%nat → feeds f s (concat (encodeChunk <$> cs) ++ ls ++ le ++ crlf ++ t) →
  (lost ≤ length done_ ≤ length (bodyBuf p))%nat → take (length done_) (bodyBuf p) = zeroed lost done_ →
  bodyAllowed maxBody p (length done_ + length (chunkData cs)) →
  let k := lostBytes (len (bodyBuf p)) (maxSize p) (length done_) (ck_data <$> cs) lost in
  let n := (length done_ + length (chunkData cs))%nat in
  ∃ s' p', chunkLoop maxBody fuel (Z.of_nat (length done_)) (s, p) = (Ret (Z.of_nat n), (s', p')) ∧
    feeds f s' x ∧ sameMeta p p' ∧ take n (bodyBuf p') = zeroed k (done_ ++ chunkData cs).
Proof.
  intros Hcs Hz Hts. revert fuel done_ lost s p.
  induction Hcs as [|c cs Hc Hcs IH]; intros fuel done_ lost s p Hf Hs Hlost Htake Hfit;
    (destruct fuel as [|fuel]; [lia |]).
  - destruct (chunkLoop_last f fuel (Z.of_nat (length done_)) s p ls le t x) as (s' & E & Hs'); try done.
    exists s', p. simpl. rewrite Nat.add_0_r, app_nil_r. by split_and!.
  - unfold chunkData in *. rewrite fmap_cons in *. cbn [concat lostBytes] in *.
    rewrite length_app in *. set (m := length (concat _)) in *.
    destruct (chunkLoop_step f fuel (length done_) s p c (concat (encodeChunk <$> cs) ++ ls ++ le ++ crlf ++ t))
      as (s1 & p1 & Hd & Hs1 & Hmeta & Hbuf & Hlen & Hsize & ->); [done | | |].
    { by rewrite <- !app_assoc in *. }
    { destruct Hfit as (? & ? & ? & ?). split_and!; try done; lia. }
    set (hi := Z.of_nat (length done_ + length (ck_data c))) in *.
    set (size := bufferAfter (len (bodyBuf p)) (maxSize p) hi) in *.
    set (lost1 := if hi <=? len (bodyBuf p) then lost else length done_).
    destruct (IH fuel (done_ ++ ck_data c) lost1 s1 p1) as (s2 & p2 & E & Hs2 & Hmeta2 & Htake2).
    + lia.
    + done.
    + rewrite length_app. unfold lost1, len, hi in *. case_if; lia.
    + rewrite length_app, Hbuf. unfold lost1. unfold hi, len in *.
      destruct (Z.leb_spec (Z.of_nat (length done_ + length (ck_data c))) (Z.of_nat (length (bodyBuf p)))) as [Hle | Hgt].
      * rewrite take_splice by lia. rewrite Htake. apply zeroed_app. lia.
      * rewrite take_splice by (rewrite length_replicate; lia). rewrite take_replicate, Nat.min_l by lia.
        rewrite <- (zeroed_all done_). by apply zeroed_app.
    + rewrite length_app. eapply bodyAllowed_next; [exact Hfit | done | done | lia |]. fold m. lia.
    + destruct Hmeta as (Hm1 & Hm2 & Hm3 & Hm4). destruct Hmeta2 as (Hn1 & Hn2 & Hn3 & Hn4).
      rewrite !length_app in E, Htake2. fold m in E, Htake2. rewrite Hm3, Hlen in Htake2.
      exists s2, p2. fold hi in E. rewrite Nat.add_assoc. split; [exact E |]. split; [done |].
      split; [split_and!; congruence |]. rewrite app_assoc. exact Htake2.
Qed.

(** A chunked body is decoded, and the reader stops right behind it. *)
Lemma readChunkedBody_drains f leftover r p cs ls le t x :
  Forall wfChunk cs → sizeLine ls le 0 → drains f t x →
  feeds f (leftover, r) (concat (encodeChunk <$> cs) ++ ls ++ le ++ crlf ++ t) →
  bodyAllowed maxBody p (length (chunkData cs)) →
  ∃ lo r' p', readChunkedBody maxBody leftover (r, p) = (Ret tt, (r', p')) ∧
    sameMeta p p' ∧ bodyBytes p' = received p cs ∧ ContentLength p' = len (received p cs) ∧
    feeds f (lo, r') x.
Proof.
  intros Hcs Hz Hts Hs Hfit.
  destruct (chunkLoop_feeds f (S (srcSize (leftover, r))) [] 0 (leftover, r) p cs ls le t x)
    as ([lo r'] & p' & E & Hs' & Hmeta & Htake); try done; [lia | simpl; lia |].
  exists lo, r'. unfold readChunkedBody. cbv zeta. cbn [fst snd].
  change (Z.of_nat (length (@nil Z))) with 0 in E. rewrite E, Nat2Z.id. simpl in Htake.
  eexists. split; [done |]. split; [exact Hmeta |]. unfold bodyBytes. cbn [Body setBody setContentLength].
  split; [exact Htake |]. split; [| done]. simpl. unfold len. by rewrite length_received.
Qed.

Lemma readChunkedBody_feeds f leftover r p cs ls le ts x :
  Forall wfChunk cs → sizeLine ls le 0 → Forall wfTrailer ts →
  feeds f (leftover, r) (encodeChunked cs ls le ts ++ x) →
  bodyAllowed maxBody p (length (chunkData cs)) →
  ∃ lo r' p', readChunkedBody maxBody leftover (r, p) = (Ret tt, (r', p')) ∧
    sameMeta p p' ∧ bodyBytes p' = received p cs ∧ ContentLength p' = len (received p cs) ∧
    feeds f (lo, r') x.
Proof.
  intros Hcs Hz Hts Hs Hfit. unfold encodeChunked in Hs. rewrite <- !app_assoc in Hs.
  by eapply readChunkedBody_drains; [| | apply (drains_trailers f ts x Hts) | |].
Qed.

End facts.
