(* ===== verification/ParserSpec.v ===== *)
(** * ParserSpec: a well-formed response is read back exactly

    The framing a response may have ([framed]), what a caller must find in the
    response object afterwards ([delivered]), and the theorems that both
    readers deliver it whatever the segmentation of the stream, and that the
    buffered reader stops exactly at the end of the response, so that the
    responses of a pipelined connection come out one by one. *)

From stdpp Require Import prelude list.
From S2P Require Import Prelude Errors Strconv IO Scan Response Parser ParserTotal ParserFacts.

(** How the body [payload] of a response with head [head] travels as the bytes
    [raw]: no body, Content-Length, or chunked; with the limits it respects.  The payload
    of a chunked body is what is [received] of it: the chunk data when it fits into the
    body buffer that is there, and else the chunk data with zeroes in front, up to the
    last growth of the buffer. *)
Inductive framed (maxBody : Z) (p : Response) (method head : bytes) (status : Z) :
    bytes → bytes → Prop :=
  | framed_none :
      noBody method status = true →
      framed maxBody p method head status [] []
  | framed_length payload :
      noBody method status = false → parseTransferEncoding head = false →
      parseContentLength head = (len payload, true) →
      sane p → len payload ≤ maxBody ≤ 2 ^ 40 → (0 < maxSize p → len payload ≤ maxSize p) →
      framed maxBody p method head status payload payload
  | framed_chunked cs ls le ts :
      noBody method status = false → parseTransferEncoding head = true →
      Forall wfChunk cs → sizeLine ls le 0 → Forall wfTrailer ts →
      bodyAllowed maxBody p (length (chunkData cs)) →
      framed maxBody p method head status (encodeChunked cs ls le ts) (received p cs).

(** A head the readers accept. *)
Definition goodHead (head : bytes) (status : Z) : Prop :=
  isHead head ∧ parseStatusCode head = (status, true).

(** What the caller finds in the response object [p'], [p] being its state
    before the call. *)
Definition delivered (head : bytes) (status : Z) (payload : bytes) (p p' : Response) : Prop :=
  StatusCode p' = status ∧ ContentLength p' = len payload ∧ bodyBytes p' = payload ∧
  Headers p' = default (Headers p) (scanHeaders head) ∧ rawHeaderBuf p' = head.

Lemma isHead_pos head : isHead head → (0 < length head)%nat.
Proof. intros (n & -> & _). lia. Qed.

(** ** Reading the head *)

Section heads.

Context {R : Type} `{ReaderLaws R}.

Lemma readHeadLoop_prompt fuel cap readSize acc (r : R) head x :
  isHead head → len head ≤ cap → 0 < readSize →
  prompt r → acc ++ stream r = head ++ x → (length acc < length head)%nat →
  (Z.to_nat (cap - len acc) < fuel)%nat →
  ∃ d r', readHeadLoop fuel cap readSize acc r = (Ret (head ++ d), r') ∧
          d ++ stream r' = x ∧ final r' = final r ∧ prompt r'.
Proof.
  intros Hh Hcap Hrs. revert acc r. induction fuel as [|fuel IH]; intros acc r Hp Hs Hacc Hf; [lia |].
  cbn [readHeadLoop]. unfold len in *.
  rewrite (proj2 (Z.leb_gt cap _)) by lia.
  set (rem := if readSize <? _ then readSize else _).
  assert (0 < rem) as Hrem by (unfold rem; case_if; lia).
  rewrite (proj2 (Z.ltb_ge rem 0)) by lia.
  destruct (prompt_read (Z.to_nat rem) r Hp ltac:(lia)) as (d & r1 & -> & Hd & _ & Hst & Hf1 & Hp1).
  { intros E. rewrite E, app_nil_r in Hs. rewrite Hs, length_app in Hacc. lia. }
  rewrite Hst, app_assoc in Hs. destruct d as [|b d]; [done |].
  destruct (decide (length (acc ++ b :: d) < length head)%nat) as [Hlt | Hge].
  - apply app_split_le in Hs as Hs2; [| lia]. destruct Hs2 as (q & -> & Hx).
    rewrite (findHeaderEnd_partial _ q); [| done | intros ->; rewrite app_nil_r in Hlt; lia].
    cbn [Z.ltb Z.compare].
    destruct (IH (acc ++ b :: d) r1) as (d' & r' & -> & Hx' & Hf' & Hp'); try done.
    { rewrite length_app in *. simpl in *. lia. }
    exists d', r'. split_and!; done || congruence.
  - symmetry in Hs. apply app_split_le in Hs as (q & Hq & ->); [| lia].
    rewrite Hq. rewrite findHeaderEnd_head by done.
    rewrite (proj2 (Z.ltb_ge _ 0)) by (unfold len; lia).
    exists q, r1. split_and!; done || congruence.
Qed.

Lemma readInto_eq off k (r : R) p d e r' :
  Read k r = (d, e, r') →
  readInto off k (r, p) = (Ret (length d, e), (r', setBuf (splice (bodyBuf p) off d) p)).
Proof. intros E. unfold readInto. cbn [fst snd]. by rewrite E. Qed.

Lemma readBodyLoop_prompt fuel brs off (r : R) p d x :
  0 < brs → prompt r → stream r = d ++ x → (off + length d ≤ length (bodyBuf p))%nat →
  (budget r < fuel)%nat →
  ∃ r', readBodyLoop fuel brs off (length d) (r, p) =
        (Ret (off + length d)%nat, (r', setBuf (splice (bodyBuf p) off d) p)) ∧
        stream r' = x ∧ final r' = final r ∧ prompt r'.
Proof.
  intros Hbrs. revert off r p d. induction fuel as [|fuel IH]; intros off r p d Hp Hs Hl Hf; [lia |].
  destruct (decide (d = [])) as [-> | Hne].
  { exists r. split; [| by repeat split]. cbn [readBodyLoop length].
    rewrite splice_nil, Nat.add_0_r. by destruct p. }
  assert (∃ n, length d = S n) as [n Hn] by (destruct d; [done | by eexists]).
  rewrite Hn. cbn [readBodyLoop].
  set (k := if _ <? _ then _ else _).
  assert (0 < k ≤ S n)%nat as [Hk Hk'] by (unfold k; case_if; lia).
  destruct (prompt_read k r Hp Hk) as (e & r1 & HR & He & Hle & Hst & Hf1 & Hp1).
  { rewrite Hs. by destruct d. }
  rewrite (bind_Ret _ _ _ _ _ (readInto_eq off k r p e None r1 HR)).
  apply read_budget in HR as [_ Hb]; [| done]. specialize (Hb eq_refl).
  rewrite Hst in Hs. apply app_split_le in Hs as (d2 & -> & Hs); [| lia].
  rewrite length_app in *.
  assert ((length e =? 0)%nat = false) as -> by (destruct e; done).
  destruct (IH (off + length e)%nat r1 (setBuf (splice (bodyBuf p) off e) p) d2)
    as (r2 & E & Hx & Hf2 & Hp2); try done; [simpl; rewrite length_splice; lia | lia |].
  replace (S n - length e)%nat with (length d2) by lia. rewrite E.
  exists r2. simpl bodyBuf. rewrite splice_splice by lia.
  replace (off + length e + length d2)%nat with (off + S n)%nat by lia.
  split_and!; done || congruence.
Qed.

End heads.

(** The byte-by-byte loop stops at the first blank line. *)
Lemma sep_at_end acc : (4 ≤ length acc)%nat → drop (length acc - 4) acc = headerSep →
  sep_at headerSep acc (length acc - 4).
Proof. intros Hl E. unfold sep_at. by rewrite E. Qed.

Lemma readHeadBytes_prompt room acc b head x :
  isHead head → prompt b → acc ++ stream b = head ++ x →
  (length acc < length head)%nat → (length head ≤ length acc + room)%nat →
  ∃ b', readHeadBytes room acc b = (Ret head, b') ∧ stream b' = x ∧ final b' = final b ∧ prompt b'.
Proof.
  intros Hh. revert acc b. induction room as [|room IH]; intros acc b Hp Hs Hacc Hroom; [lia |].
  assert (∃ c s, stream b = c :: s) as (c & s & Hc).
  { destruct (stream b) eqn:E; [| by do 2 eexists].
    rewrite app_nil_r in Hs. rewrite Hs, length_app in Hacc. lia. }
  destruct (bufReadByte_prompt b c s Hp Hc) as (b1 & E & Hs1 & Hf1 & Hp1).
  cbn [readHeadBytes]. rewrite (bind_Ret _ _ _ _ _ E). cbv zeta.
  assert ((acc ++ [c]) ++ stream b1 = head ++ x) as Hs2.
  { rewrite <- app_assoc, Hs1. rewrite Hc in Hs. exact Hs. }
  pose proof Hh as (n & Hlen & Hn & Hmin).
  assert (length (acc ++ [c]) = S (length acc)) as Hl1 by (rewrite length_app; simpl; lia).
  apply app_split_le in Hs2 as Hq; [| lia]. destruct Hq as (q & Hhq & Hx).
  destruct (decide (q = [])) as [-> | Hq].
  - rewrite app_nil_r in Hhq. rewrite <- Hhq in *.
    rewrite (proj2 (Nat.leb_le _ _)) by lia.
    rewrite bool_decide_eq_true_2.
    + exists b1. split_and!; done || congruence.
    + replace (length head - 4)%nat with n by lia.
      unfold sep_at in Hn. rewrite take_ge in Hn; [done |]. rewrite length_drop. simpl. lia.
  - assert (length q ≠ 0%nat) by (by destruct q).
    assert (length head = length (acc ++ [c]) + length q)%nat as Hlh by (rewrite Hhq at 1; by rewrite length_app).
    assert ((4 <=? length (acc ++ [c]))%nat
            && bool_decide (drop (length (acc ++ [c]) - 4) (acc ++ [c]) = headerSep) = false) as ->.
    { destruct (Nat.leb_spec 4 (length (acc ++ [c]))); [| done]. simpl.
      apply bool_decide_eq_false. intros Hd.
      apply (Hmin (length (acc ++ [c]) - 4)%nat); [lia |].
      rewrite Hhq. apply sep_at_app_l; [rewrite headerSep_length; lia |]. by apply sep_at_end. }
    destruct (IH (acc ++ [c]) b1) as (b2 & -> & Hx2 & Hf2 & Hp2); try done; [lia | lia |].
    exists b2. split_and!; done || congruence.
Qed.

(** ** Making room *)

(** Same response up to the body and its buffer. *)
Definition sameHead (p p' : Response) : Prop :=
  StatusCode p' = StatusCode p ∧ ContentLength p' = ContentLength p ∧
  Headers p' = Headers p ∧ rawHeaderBuf p' = rawHeaderBuf p.

Lemma ensureBufferSize_grants p n :
  sane p → n ≤ 2 ^ 40 → (0 < maxSize p → n ≤ maxSize p) →
  ∃ p1, ensureBufferSize n p = (Ret true, p1) ∧ n ≤ len (bodyBuf p1) ∧ sameHead p p1.
Proof.
  intros Hs Hn Hm.
  destruct (ensureBufferSize_cases p n Hs ltac:(lia)) as [[Hl E] | [(_ & Hms & _) | (m & Hm1 & _ & _ & E)]].
  - exists p. by split_and!.
  - lia.
  - exists (replaceBuf m p). pose proof (len_nonneg (bodyBuf p)).
    split; [done |]. split; [rewrite replaceBuf_len; lia | done].
Qed.

Lemma onR_eq {S T A} (m : go T error A) (s : S) t o t' :
  m t = (o, t') → onR m (s, t) = (o, (s, t')).
Proof. intros E. unfold onR. cbn [fst snd]. by rewrite E. Qed.

(** A view of the buffer right after the payload was written at its start. *)
Lemma bodyBytes_view p payload :
  (length payload ≤ length (bodyBuf p))%nat →
  bodyBytes (setBuf (splice (bodyBuf p) 0 payload) (setBody (BView (length payload)) p)) = payload.
Proof. intros H. unfold bodyBytes. simpl. by rewrite take_splice_0 by lia. Qed.

Lemma parseHeaders_delivered head status n p :
  let p1 := parseHeaders head (setContentLength n (setStatus status p)) in
  StatusCode p1 = status ∧ ContentLength p1 = n ∧
  Headers p1 = default (Headers p) (scanHeaders head) ∧ rawHeaderBuf p1 = head.
Proof. by destruct (scanHeaders head) eqn:E; simpl; rewrite ?E. Qed.

(** ** The sequential reader *)

Section sequential.

Context {R : Type} `{ReaderLaws R}.
Variables (cap maxBody : Z) (method : bytes) (hrs brs : Z).

(** What [readResponse] does once the head is in the buffer. *)
Definition afterHead (head leftover : bytes) (status : Z) : go (R * Response) error unit :=
  if noBody method status then
    modify (λ s, (s.1, setBody (BView 0)
                   (parseHeaders head (setContentLength 0 (setStatus status s.2)))))
  else if parseTransferEncoding head then
    _ ← modify (λ s, (s.1, parseHeaders head (setStatus status s.2)));
    readChunkedBody maxBody leftover
  else
    let '(length_, hasLen) := parseContentLength head in
    if negb hasLen then readResponseUntilEOF head leftover maxBody brs
    else if maxBody <? length_ then fail (ESentinel ErrResponseTooLarge)
    else
      _ ← modify (λ s, (s.1, parseHeaders head (setContentLength length_ (setStatus status s.2))));
      if length_ =? 0 then modify (λ s, (s.1, setBody (BView 0) s.2))
      else
        ok ← onR (ensureBufferSize length_);
        if negb ok then fail (ESentinel ErrResponseTooLarge)
        else if length_ <? 0 then panic
        else
          let n := Z.to_nat length_ in
          let inBuf := take n leftover in
          _ ← modify (λ s, (s.1, setBuf (splice (bodyBuf s.2) 0 inBuf) (setBody (BView n) s.2)));
          s ← get;
          offset ← readBodyLoop (S (budget s.1)) (defaultBodyReadSize brs)
                     (length inBuf) (n - length inBuf);
          if negb (Z.of_nat offset =? length_) then fail (protocolError "incomplete body read")
          else mret tt.

Lemma readResponse_head (r : R) p head status x :
  goodHead head status → len head ≤ cap → 0 < hrs →
  prompt r → stream r = head ++ x →
  ∃ d r', readResponse cap maxBody method hrs brs (r, p) = afterHead head d status (r', p) ∧
          d ++ stream r' = x ∧ final r' = final r ∧ prompt r'.
Proof.
  intros [Hh Hst] Hcap Hhrs Hp Hs. pose proof (isHead_pos _ Hh) as Hpos.
  destruct (readHeadLoop_prompt (S (Z.to_nat cap)) cap (if cap <? hrs then cap else hrs) [] r head x)
    as (d & r' & E & Hx & Hf & Hp'); try done.
  - unfold len in Hcap. case_if; lia.
  - rewrite len_nil. lia.
  - exists d, r'. split; [| done]. unfold readResponse.
    rewrite (bind_Ret _ _ _ _ _ (onL_eq _ _ p _ _ E)).
    rewrite findHeaderEnd_head, len_to_nat, take_app_length, drop_app_length, Hst by done.
    done.
Qed.

(** Storing a body of known length, part of which came with the head. *)
Lemma afterHead_length (r : R) p head status d payload x :
  noBody method status = false → parseTransferEncoding head = false →
  parseContentLength head = (len payload, true) →
  sane p → len payload ≤ maxBody ≤ 2 ^ 40 → (0 < maxSize p → len payload ≤ maxSize p) →
  prompt r → d ++ stream r = payload ++ x →
  ∃ r' p', afterHead head d status (r, p) = (Ret tt, (r', p')) ∧
           delivered head status payload p p'.
Proof.
  intros Hnb Hte Hcl Hsane Hmax Hms Hp Hs. unfold afterHead. rewrite Hnb, Hte, Hcl. cbn [negb].
  rewrite (proj2 (Z.ltb_ge _ _)) by lia.
  rewrite (bind_Ret _ _ (r, p) tt (r, parseHeaders head (setContentLength (len payload) (setStatus status p)))) by done.
  set (p1 := parseHeaders _ _).
  destruct (parseHeaders_delivered head status (len payload) p) as (HA & HB & HC & HD). fold p1 in HA, HB, HC, HD.
  destruct (Z.eqb_spec (len payload) 0) as [Hz | Hz].
  { exists r, (setBody (BView 0) p1). split; [done |].
    assert (payload = []) as -> by (destruct payload; [done | unfold len in Hz; simpl in Hz; lia]).
    by split_and!. }
  destruct (ensureBufferSize_grants p1 (len payload)) as (p2 & E2 & Hroom & HE & HF & HG & HH); try done; [lia |].
  rewrite (bind_Ret _ _ _ _ _ (onR_eq _ r _ _ _ E2)). cbn [negb].
  rewrite (proj2 (Z.ltb_ge _ 0)) by apply len_nonneg. rewrite len_to_nat. cbv zeta.
  set (inBuf := take (length payload) d).
  assert (∃ payload2 y, payload = inBuf ++ payload2 ∧ stream r = payload2 ++ y) as (payload2 & y & Hpay & Hy).
  { unfold inBuf. destruct (decide (length d < length payload)%nat).
    - rewrite take_ge by lia. apply app_split_le in Hs as (q & -> & Hq); [eauto | lia].
    - symmetry in Hs. apply app_split_le in Hs as (q & -> & Hq); [| lia].
      rewrite take_app_length. exists [], (stream r). by rewrite app_nil_r. }
  rewrite (bind_Ret _ _ (r, p2) tt
    (r, setBuf (splice (bodyBuf p2) 0 inBuf) (setBody (BView (length payload)) p2))) by done.
  set (p3 := setBuf _ _). rewrite (bind_Ret _ _ (r, p3) (r, p3) (r, p3)) by done. cbn [fst].
  assert (length payload = length inBuf + length payload2)%nat as Hl by (rewrite Hpay at 1; apply length_app).
  unfold len in Hroom.
  replace (length payload - length inBuf)%nat with (length payload2) by lia.
  destruct (readBodyLoop_prompt (S (budget r)) (defaultBodyReadSize brs) (length inBuf) r p3 payload2 y)
    as (r' & E3 & _); try done.
  - apply defaultBodyReadSize_pos.
  - unfold p3. simpl bodyBuf. rewrite length_splice. lia.
  - lia.
  - rewrite (bind_Ret _ _ _ _ _ E3), <- Hl.
    unfold len at 1. rewrite Z.eqb_refl. cbn [negb].
    eexists _, _. split; [done |]. unfold p3. simpl bodyBuf.
    rewrite (splice_splice (bodyBuf p2) 0) by lia. rewrite <- Hpay.
    split_and!; try done; simpl; try congruence. apply (bodyBytes_view p2). lia.
Qed.

(** However the stream is cut into reads, a framed response is delivered. *)
Lemma readResponse_delivers (r : R) p head status raw payload x :
  goodHead head status → framed maxBody p method head status raw payload →
  len head ≤ cap → 0 < hrs → prompt r → stream r = head ++ raw ++ x →
  ∃ r' p', readResponse cap maxBody method hrs brs (r, p) = (Ret tt, (r', p')) ∧
           delivered head status payload p p'.
Proof.
  intros Hg Hfr Hcap Hhrs Hp Hs.
  destruct (readResponse_head r p head status (raw ++ x)) as (d & r1 & -> & Hx & Hf & Hp1); try done.
  destruct Hfr as [Hnb | payload Hnb Hte Hcl Hsane Hmax Hms | cs ls le ts Hnb Hte Hcs Hz Hts Hfit].
  - unfold afterHead. rewrite Hnb. eexists _, _. split; [done |].
    destruct (parseHeaders_delivered head status 0 p) as (HA & HB & HC & HD).
    by split_and!.
  - by eapply (afterHead_length r1 p head status d payload x).
  - unfold afterHead. rewrite Hnb, Hte.
    rewrite (bind_Ret _ _ (r1, p) tt (r1, parseHeaders head (setStatus status p))) by done.
    destruct (readChunkedBody_feeds (length d) maxBody (final r1) d r1
                (parseHeaders head (setStatus status p)) cs ls le ts x)
      as (lo & r' & p' & E & (Hm1 & Hm2 & Hm3 & Hm4) & Hb & Hc & _); try done.
    eexists _, _. split; [exact E |]. by split_and!.
Qed.

End sequential.

(** ** The buffered reader *)

Section buffered.

Variable gunzip : bytes → gzipResult.
Variables (cap : nat) (maxBody : Z).

(** The head does not announce a gzip body. *)
Definition plainHead (head : bytes) (p : Response) : Prop :=
  isGzip (parseHeaders head p) = false.

Lemma decompressBody_plain r : isGzip r = false → decompressBody gunzip r = (Ret tt, r).
Proof. intros E. unfold decompressBody. case_bool_decide; [done |]. by rewrite E. Qed.

Lemma isGzip_meta p p' : Headers p' = Headers p → isGzip p' = isGzip p.
Proof. intros E. unfold isGzip. by rewrite E. Qed.

(** [br] is positioned at the bytes [x], with the error [f] behind them. *)
Definition positioned (f : error) (x : bytes) (br : BufReader) : Prop :=
  stream br = x ∧ final br = f ∧ prompt br.

(** The body of known length, read with [io.ReadFull]. *)
Lemma readFullBody_prompt f br p payload x :
  positioned f (payload ++ x) br →
  ∃ br', readFullBody (length payload) (br, p) =
         (Ret tt, (br', setBuf (splice (bodyBuf p) 0 payload) p)) ∧ positioned f x br'.
Proof.
  intros (Hs & Hf & Hp).
  destruct (ReadFull_prompt (length payload) br payload x) as (br' & E & Hs' & Hf' & Hp'); try done.
  exists br'. unfold readFullBody. cbn [fst snd]. rewrite E. split; [done |].
  split_and!; done || congruence.
Qed.

(** The framed response is stored, and what is left to do is to decompress it. *)
Lemma readResponseBuffered_stores method f br p head status raw payload x :
  goodHead head status → framed maxBody p method head status raw payload →
  (length head ≤ cap)%nat → positioned f (head ++ raw ++ x) br →
  ∃ br' p', readResponseBuffered gunzip cap maxBody method (br, p)
              = (let '(o, p'') := decompressBody gunzip p' in (o, (br', p''))) ∧
            delivered head status payload p p' ∧ positioned f x br'.
Proof.
  intros [Hh Hst] Hfr Hcap (Hs & Hf & Hp).
  destruct (readHeadBytes_prompt cap [] br head (raw ++ x)) as (b1 & E & Hs1 & Hf1 & Hp1); try done.
  { by apply isHead_pos. }
  unfold readResponseBuffered. rewrite (bind_Ret _ _ _ _ _ (onL_eq _ _ p _ _ E)), Hst. cbn [negb].
  destruct Hfr as [Hnb | payload Hnb Hte Hcl Hsane Hmax Hms | cs ls le ts Hnb Hte Hcs Hz Hts Hfit];
    rewrite Hnb, ?Hte.
  - eexists _, (setBody (BView 0) (parseHeaders head (setContentLength 0 (setStatus status p)))). split; [done |]. split; [| split_and!; (done || (simpl in *; congruence))].
    destruct (parseHeaders_delivered head status 0 p) as (HA & HB & HC & HD). by split_and!.
  - rewrite Hcl. cbn [negb].
    assert ((0 <? maxBody) && (maxBody <? len payload) = false) as ->.
    { apply andb_false_iff. right. apply Z.ltb_ge. lia. }
    rewrite (bind_Ret _ _ (b1, p) tt (b1, parseHeaders head (setContentLength (len payload) (setStatus status p)))) by done.
    set (p1 := parseHeaders _ _).
    destruct (parseHeaders_delivered head status (len payload) p) as (HA & HB & HC & HD). fold p1 in HA, HB, HC, HD.
    destruct (Z.eqb_spec (len payload) 0) as [Hz | Hz].
    { assert (payload = []) as -> by (destruct payload; [done | unfold len in Hz; simpl in Hz; lia]).
      exists b1, (setBody (BView 0) p1). split; [done |].
      split; [by split_and! | split_and!; (done || (simpl in *; congruence))]. }
    destruct (ensureBufferSize_grants p1 (len payload)) as (p2 & E2 & Hroom & HE & HF & HG & HH); try done; [lia |].
    rewrite (bind_Ret _ _ _ _ _ (onR_eq _ b1 _ _ _ E2)). cbn [negb].
    rewrite (proj2 (Z.ltb_ge _ 0)) by apply len_nonneg. rewrite len_to_nat.
    rewrite (bind_Ret _ _ (b1, p2) tt (b1, setBody (BView (length payload)) p2)) by done.
    destruct (readFullBody_prompt f b1 (setBody (BView (length payload)) p2) payload x) as (b2 & E3 & Hpos).
    { split_and!; done || congruence. }
    rewrite (bind_Ret _ _ _ _ _ E3). unfold onR. cbn [fst snd].
    eexists _, _. split; [done |]. split; [| done]. unfold len in Hroom.
    split_and!; simpl; try congruence. apply (bodyBytes_view p2). lia.
  - rewrite (bind_Ret _ _ (b1, p) tt (b1, parseHeaders head (setStatus status p))) by done.
    destruct (readChunkedBody_feeds 0 maxBody f [] b1 (parseHeaders head (setStatus status p)) cs ls le ts x)
      as (lo & b2 & p2 & E2 & (Hm1 & Hm2 & Hm3 & Hm4) & Hb & Hc & Hst2 & Hp2 & Hf2 & Hlo); try done.
    { split_and!; (done || (simpl; lia) || (simpl in *; congruence)). }
    apply Nat.le_0_r, nil_length_inv in Hlo. cbn [fst] in Hlo. subst lo.
    rewrite (bind_Ret _ _ _ _ _ E2). unfold onR. cbn [fst snd].
    eexists _, _. split; [done |]. split; [by split_and! | by split_and!].
Qed.

Lemma plainHead_delivered head status payload p p' :
  plainHead head p → delivered head status payload p p' → isGzip p' = false.
Proof.
  intros Hgz (_ & _ & _ & Hh & _). erewrite isGzip_meta; [exact Hgz |]. rewrite Hh. cbn [parseHeaders Headers].
  by destruct (scanHeaders head).
Qed.

Lemma readResponseBuffered_delivers method f br p head status raw payload x :
  goodHead head status → framed maxBody p method head status raw payload →
  plainHead head p → (length head ≤ cap)%nat → positioned f (head ++ raw ++ x) br →
  ∃ br' p', readResponseBuffered gunzip cap maxBody method (br, p) = (Ret tt, (br', p')) ∧
            delivered head status payload p p' ∧ positioned f x br'.
Proof.
  intros Hg Hfr Hgz Hcap Hpos.
  destruct (readResponseBuffered_stores method f br p head status raw payload x) as (br' & p' & E & Hdel & Hx); try done.
  rewrite (decompressBody_plain p') in E by (by eapply plainHead_delivered). by exists br', p'.
Qed.

End buffered.
