(* ===== verification/ParserCut.v ===== *)
(** * ParserCut: a response whose connection breaks

    The stream ends, with an error, in the middle of a framed response.  The buffered
    reader then reads what is there to the last byte.  Before the end of the head it
    reports the error and stores nothing; behind it the status and the headers are
    stored, so that [ResponseReader.run] takes the response for a good one. *)

From stdpp Require Import prelude list.
From S2P Require Import Prelude Errors Strconv IO Scan Response Parser ParserTotal ParserFacts ParserSpec.

(** [y] is what arrives of [whole]: not all of it. *)
Definition partOf (y whole : bytes) : Prop := ∃ z, whole = y ++ z ∧ z ≠ [].

Lemma partOf_app y a b : partOf y (a ++ b) → partOf y a ∨ ∃ y', y = a ++ y' ∧ partOf y' b.
Proof.
  intros (z & E & Hz). destruct (decide (length y < length a)%nat) as [Hlt | Hge].
  - symmetry in E. apply app_split_le in E as (d & -> & _); [| lia]. left. exists d. split; [done |].
    intros ->. rewrite app_nil_r in Hlt. lia.
  - apply app_split_le in E as (d & -> & E); [| lia]. right. exists d. split; [done |]. by exists z.
Qed.

Lemma partOf_nil y : ¬ partOf y [].
Proof. intros (z & E & Hz). symmetry in E. apply app_nil in E as [_ ->]. done. Qed.

Lemma partOf_forall (P : Z → Prop) y l : Forall P l → partOf y l → Forall P y.
Proof. intros Hl (z & -> & _). by apply Forall_app in Hl as [? _]. Qed.

(** What arrives of a line ends before its end. *)
Lemma partOf_line y l : Forall (λ c, c ≠ LF) l → partOf y (l ++ crlf) → Forall (λ c, c ≠ LF) y.
Proof.
  intros Hl Hy. change crlf with ([CR] ++ [LF]) in Hy. rewrite app_assoc in Hy.
  assert (Forall (λ c, c ≠ LF) (l ++ [CR])) as Hl' by (apply Forall_app; split; [done | by repeat constructor]).
  apply partOf_app in Hy as [Hy | (y' & -> & z & E & Hz)]; [by eapply partOf_forall |].
  apply Forall_app. split; [done |]. destruct y' as [|c y']; [done |]. injection E as _ E.
  symmetry in E. apply app_nil in E as [_ ->]. done.
Qed.

Section cut.

Context {R : Type} `{ReaderLaws R}.
Variable k : nat.

Local Abbreviation feeds := (feeds k).

(** ** The source runs dry *)

Lemma readByte_end f (s : src R) : feeds f s [] → ∃ s', readByte s = (Fail f, s') ∧ feeds f s' [].
Proof.
  destruct s as [lo r]. intros (Hs & Hp & Hf & Hk). cbn [fst snd] in *. apply app_nil in Hs as [-> Hs].
  destruct (prompt_end 1 r Hp ltac:(lia) Hs) as (r' & HR & Hs' & Hf' & Hp').
  unfold readByte. cbn [fst snd readByteLoop]. rewrite HR, Hf. exists ([], r'). split; [done |].
  split_and!; try done. cbn [snd]. congruence.
Qed.

Lemma readLineLoop_short f fuel line (s : src R) y :
  (srcSize s < fuel)%nat → feeds f s y → Forall (λ c, c ≠ LF) y →
  ∃ s', readLineLoop fuel line s = (Fail f, s') ∧ feeds f s' [].
Proof.
  revert line s y. induction fuel as [|fuel IH]; intros line s y Hf Hs Hy; [lia |].
  cbn [readLineLoop]. destruct Hy as [|c y Hc Hy].
  - destruct (readByte_end f s Hs) as (s' & E & Hs'). exists s'. by rewrite (bind_Fail _ _ _ _ _ E).
  - destruct (readByte_feeds k f s c y Hs) as (s' & E & Hs').
    rewrite (bind_Ret _ _ _ _ _ E), (proj2 (Z.eqb_neq c LF)) by done.
    pose proof (readByte_settles s) as (_ & _ & Hd). rewrite E in Hd. specialize (Hd c eq_refl). cbn [snd] in Hd.
    apply (IH _ s' y); [lia | done | done].
Qed.

Lemma readLine_short f (s : src R) y :
  feeds f s y → Forall (λ c, c ≠ LF) y → ∃ s', readLine s = (Fail f, s') ∧ feeds f s' [].
Proof. intros Hs Hy. apply (readLineLoop_short f _ [] s y); [lia | done | done]. Qed.

Lemma readExactLoop_short f fuel off n (s : src R) p y :
  (srcSize s < fuel)%nat → feeds f s y → (length y < n)%nat →
  ∃ s' b, readExactLoop fuel off n (s, p) = (Fail f, (s', setBuf b p)) ∧ feeds f s' [].
Proof.
  revert off n s p y. induction fuel as [|fuel IH]; intros off n s p y Hf Hs Hl; [lia |].
  destruct n as [|n]; [lia |]. destruct s as [lo r]. cbn [readExactLoop].
  destruct Hs as (Hs & Hp & Hfin & Hk). cbn [fst snd] in *. unfold srcSize in Hf. cbn [fst snd] in Hf.
  assert (∀ s' (d y' : bytes), (srcSize s' < fuel)%nat → feeds f s' y' → y = d ++ y' →
    ∃ s2 b, readExactLoop fuel (off + length d) (S n - length d) (s', setBuf (splice (bodyBuf p) off d) p)
              = (Fail f, (s2, setBuf b p)) ∧ feeds f s2 []) as Hnext.
  { intros s' d y' Hs1 Hfd ->. rewrite length_app in Hl.
    destruct (IH (off + length d)%nat (S n - length d)%nat s' (setBuf (splice (bodyBuf p) off d) p) y')
      as (s2 & b & -> & Hs2); [done | done | lia |]. by exists s2, b. }
  destruct lo as [|b lo].
  - rewrite app_nil_l in Hs. destruct (decide (y = [])) as [-> | Hy].
    + destruct (prompt_end (S n) r Hp ltac:(lia) Hs) as (r' & HR & Hs' & Hf' & Hp').
      rewrite HR, Hfin. eexists _, _. split; [done |]. split_and!; try done. cbn [snd]. congruence.
    + destruct (prompt_read (S n) r Hp ltac:(lia)) as (d & r' & HR & Hd & _ & Hst & Hf' & Hp'); [by rewrite Hs |].
      pose proof (read_budget _ _ _ _ _ (Nat.lt_0_succ _) HR) as [_ Hb]. specialize (Hb eq_refl).
      rewrite HR. destruct d as [|b d]; [done |]. apply (Hnext _ _ (stream r')).
      * unfold srcSize. simpl. lia.
      * split_and!; try done; cbn [fst snd length]; congruence || lia.
      * by rewrite <- Hst.
  - apply (Hnext _ (take (S n) (b :: lo)) (drop (S n) (b :: lo) ++ stream r)).
    + unfold srcSize. cbn [fst snd]. rewrite length_drop. simpl in Hf |- *. lia.
    + split_and!; try done. cbn [fst]. rewrite length_drop. lia.
    + by rewrite app_assoc, take_drop.
Qed.

Lemma drainTrailers_short f fuel (s : src R) ts y :
  (srcSize s < fuel)%nat → Forall wfTrailer ts → feeds f s y → partOf y (encodeTrailers ts) →
  ∃ s', drainTrailers fuel s = (Ret tt, s') ∧ feeds f s' [].
Proof.
  revert s ts y. induction fuel as [|fuel IH]; intros s ts y Hf Hts Hs Hy; [lia |].
  cbn [drainTrailers]. unfold mbind, go_bind, ignoreError. unfold encodeTrailers in Hy.
  assert (∀ l, Forall (λ c, c ≠ LF) l → partOf y (l ++ crlf) →
    ∃ s', readLine s = (Fail f, s') ∧ feeds f s' []) as Hshort.
  { intros l Hl Hp. eapply readLine_short; [exact Hs | by eapply partOf_line]. }
  destruct Hts as [|t ts Ht Hts].
  - destruct (Hshort [] ltac:(done) Hy) as (s' & -> & Hs'). by exists s'.
  - rewrite fmap_cons in Hy. cbn [concat] in Hy. rewrite <- app_assoc in Hy.
    apply partOf_app in Hy as [Hy | (y' & -> & Hy)].
    + destruct (Hshort t ltac:(apply Ht) Hy) as (s' & -> & Hs'). by exists s'.
    + rewrite <- app_assoc in Hs. destruct (readLine_crlf k f s t y' Hs) as (s1 & E & Hs1); [apply Ht |].
      pose proof (readLine_shrinks _ _ _ E). rewrite E. pose proof (trailer_read t Ht). destruct (dropCR _); [done |].
      apply (IH s1 ts y'); [lia | done | done | exact Hy].
Qed.

(** ** A chunked body that breaks off *)

Variable maxBody : Z.

(** The size line of a chunk does not arrive. *)
Lemma chunkLoop_noLine f fuel n (s : src R) p y :
  feeds f s y → Forall (λ c, c ≠ LF) y →
  ∃ s', chunkLoop maxBody (S fuel) n (s, p) = (Fail f, (s', p)) ∧ feeds f s' [].
Proof.
  intros Hs Hy. destruct (readLine_short f s y Hs Hy) as (s' & E & Hs'). exists s'. split; [| done].
  cbn [chunkLoop]. by rewrite (bind_Fail _ _ _ _ _ (onL_eq _ _ p _ _ E)).
Qed.

Lemma sizeLine_noLF size ext n : sizeLine size ext n → Forall (λ c, c ≠ LF) (size ++ ext).
Proof.
  intros (_ & _ & Hs & Hext). apply Forall_app. split; [eapply Forall_impl; [exact Hs |]; by intros ? [] |].
  destruct Hext as [-> | (e & -> & He)]; [done | by constructor].
Qed.

(** A chunk does not arrive as a whole. *)
Lemma chunkLoop_noChunk f fuel n (s : src R) p c y :
  wfChunk c → (srcSize s < S fuel)%nat → feeds f s y → partOf y (encodeChunk c) →
  bodyAllowed maxBody p (n + length (ck_data c)) →
  ∃ s' p', chunkLoop maxBody (S fuel) (Z.of_nat n) (s, p) = (Fail f, (s', p')) ∧ feeds f s' [] ∧ sameMeta p p'.
Proof.
  intros Hc Hf Hs Hy Hall. unfold encodeChunk in Hy. rewrite (app_assoc (ck_ext c)), (app_assoc (ck_size c)) in Hy.
  apply partOf_app in Hy as [Hy | (y1 & -> & Hy)].
  { destruct (chunkLoop_noLine f fuel (Z.of_nat n) s p y Hs) as (s' & E & Hs').
    - rewrite app_assoc in Hy. eapply partOf_line; [| exact Hy]. by eapply sizeLine_noLF, Hc.
    - by exists s', p. }
  rewrite <- !app_assoc in Hs.
  destruct (chunkLoop_data k maxBody f fuel n s p c y1 Hc Hs Hall) as (s1 & p1 & Hd1 & Hs1 & Hmeta & _ & Hsize & Hlen & ->).
  apply partOf_app in Hy as [Hy | (y2 & -> & Hy)].
  - destruct (readExactLoop_short f (S (S (srcSize s1))) n (length (ck_data c)) s1 p1 y1) as (s2 & b & E & Hs2);
      [lia | done | |].
    { destruct Hy as (z & -> & Hz). rewrite length_app. destruct z; [done | simpl; lia]. }
    exists s2, (setBuf b p1). split; [| done]. rewrite (bind_Fail _ _ (s1, p1) f (s2, setBuf b p1)); [done |].
    exact E.
  - destruct (readExactLoop_feeds k f (S (S (srcSize s1))) n s1 p1 (ck_data c) y2)
      as (s2 & E2 & Hs2); [lia | done | unfold len in *; lia |].
    rewrite (bind_Ret _ _ (s1, p1) tt (s2, setBuf (splice (bodyBuf p1) n (ck_data c)) p1)) by exact E2.
    destruct (readLine_short f s2 y2 Hs2) as (s3 & E3 & Hs3); [by eapply (partOf_line _ []) |].
    rewrite (bind_Ret _ _ _ None (s3, setBuf (splice (bodyBuf p1) n (ck_data c)) p1)).
    2: { apply (onL_eq (ignoreError readLine)). unfold ignoreError. by rewrite E3. }
    destruct fuel as [|fuel]; [lia |].
    destruct (chunkLoop_noLine f fuel (Z.of_nat (n + length (ck_data c))) s3
      (setBuf (splice (bodyBuf p1) n (ck_data c)) p1) [] Hs3) as (s4 & E4 & Hs4); [done |].
    by eexists s4, _.
Qed.

Lemma chunkLoop_short f fuel n (s : src R) p cs ls le y :
  Forall wfChunk cs → sizeLine ls le 0 → (srcSize s < fuel)%nat → feeds f s y →
  partOf y (concat (encodeChunk <$> cs) ++ ls ++ le ++ crlf) →
  bodyAllowed maxBody p (n + length (chunkData cs)) →
  ∃ s' p', chunkLoop maxBody fuel (Z.of_nat n) (s, p) = (Fail f, (s', p')) ∧ feeds f s' [] ∧ sameMeta p p'.
Proof.
  intros Hcs Hz. revert fuel n s p y. induction Hcs as [|c cs Hc Hcs IH]; intros fuel n s p y Hf Hs Hy Hall;
    (destruct fuel as [|fuel]; [lia |]).
  - destruct (chunkLoop_noLine f fuel (Z.of_nat n) s p y Hs) as (s' & E & Hs'); [| by exists s', p].
    rewrite app_nil_l, app_assoc in Hy. eapply partOf_line; [by eapply sizeLine_noLF | exact Hy].
  - rewrite fmap_cons in Hy. cbn [concat] in Hy. rewrite <- app_assoc in Hy.
    unfold chunkData in Hall. rewrite fmap_cons in Hall. cbn [concat] in Hall. rewrite length_app in Hall.
    assert (bodyAllowed maxBody p (n + length (ck_data c))) as Hall1
      by (destruct Hall as (? & ? & ? & ?); split_and!; try done; lia).
    apply partOf_app in Hy as [Hy | (y' & -> & Hy)]; [by apply (chunkLoop_noChunk f fuel n s p c y) |].
    destruct (chunkLoop_step k maxBody f fuel n s p c y' Hc Hs Hall1)
      as (s1 & p1 & Hd & Hs1 & Hmeta & _ & Hlen & Hsize & ->).
    destruct (IH fuel (n + length (ck_data c))%nat s1 p1 y') as (s2 & p2 & E & Hs2 & Hmeta2); [lia | done | done | |].
    { eapply bodyAllowed_next; [exact Hall | done | done | lia |]. unfold chunkData. lia. }
    exists s2, p2. split; [exact E |]. split; [done |].
    destruct Hmeta as (? & ? & ? & ?), Hmeta2 as (? & ? & ? & ?). split_and!; congruence.
Qed.

End cut.

(** ** The buffered reader *)

Lemma bufReadByte_end f b :
  positioned f [] b → ∃ b', bufReadByte b = (Fail f, b') ∧ positioned f [] b'.
Proof.
  destruct b as [u e a c]. intros (Hs & Hf & Hp & He). rewrite buf_stream in Hs. cbn [unread berr below] in *. subst e.
  apply app_nil in Hs as [-> Hs].
  destruct (prompt_end _ c Hp (bsize_pos (mkBuf [] None a c)) Hs) as (c' & HR & Hs' & Hf' & Hp').
  unfold bufReadByte. cbn [unread berr below askedSize]. unfold maxConsecutiveEmptyReads. change 100%nat with (S 99).
  cbn [fillLoop]. rewrite HR. cbn [unread berr below]. change (final c = f) in Hf. rewrite Hf. exists (mkBuf [] None a c').
  split; [done |]. split_and!; [exact Hs' | simpl in *; congruence | by split].
Qed.

(** A head that breaks off is never taken for a head. *)
Lemma readHeadBytes_short f room acc b head y :
  isHead head → (length head ≤ length acc + room)%nat → partOf (acc ++ y) head → positioned f y b →
  ∃ b', readHeadBytes room acc b = (Fail f, b') ∧ positioned f [] b'.
Proof.
  intros Hh. revert acc b y. induction room as [|room IH]; intros acc b y Hroom Hy Hpos.
  { destruct Hy as (z & -> & Hz). rewrite !length_app in Hroom. destruct z; [done | simpl in Hroom; lia]. }
  cbn [readHeadBytes]. destruct y as [|c y].
  { destruct (bufReadByte_end f b Hpos) as (b' & E & Hb'). exists b'. by rewrite (bind_Fail _ _ _ _ _ E). }
  destruct Hpos as (Hs & Hf & Hp). destruct (bufReadByte_prompt b c y Hp Hs) as (b1 & E & Hs1 & Hf1 & Hp1).
  rewrite (bind_Ret _ _ _ _ _ E). change (acc ++ c :: y) with (acc ++ [c] ++ y) in Hy. rewrite app_assoc in Hy.
  set (acc1 := acc ++ [c]) in *. assert (length acc1 = S (length acc)) as Hl1 by (unfold acc1; rewrite length_app; simpl; lia).
  assert ((4 <=? length acc1)%nat && bool_decide (drop (length acc1 - 4) acc1 = headerSep) = false) as ->.
  { destruct (Nat.leb_spec 4 (length acc1)); [| done]. cbn [andb]. apply bool_decide_eq_false. intros Hd.
    destruct Hh as (n & Hlen & _ & Hmin), Hy as (z & E2 & Hz). rewrite <- app_assoc in E2.
    assert (length head = length acc1 + length (y ++ z))%nat as Hl by (rewrite E2 at 1; apply length_app).
    assert (length (y ++ z) ≠ 0)%nat by (rewrite length_app; destruct z; [done | simpl; lia]).
    apply (Hmin (length acc1 - 4)%nat); [lia |].
    rewrite E2. apply sep_at_app_l; [rewrite headerSep_length; lia |]. by apply sep_at_end. }
  apply (IH acc1 b1 y); [lia | exact Hy |]. split_and!; done || congruence.
Qed.

Lemma readFullLoop_short f fuel want got br y :
  positioned f y br → (length y < want)%nat → (budget br < fuel)%nat →
  ∃ e d br', readFullLoop fuel want got br = (Fail e, d, br') ∧ positioned f [] br'.
Proof.
  revert want got br y. induction fuel as [|fuel IH]; intros want got br y (Hs & Hf & Hp) Hl Hfuel; [lia |].
  destruct want as [|want]; [lia |]. cbn [readFullLoop]. destruct (decide (y = [])) as [-> | Hy].
  - destruct (prompt_end (S want) br Hp ltac:(lia) Hs) as (r' & HR & Hs' & Hf' & Hp'). rewrite HR.
    cbn [length Nat.leb]. rewrite app_nil_r. destruct (final br), got; eexists _, _, _; (split; [done |]);
      (split_and!; [exact Hs' | congruence | exact Hp']).
  - destruct (prompt_read (S want) br Hp ltac:(lia)) as (d & r' & HR & Hd & _ & Hst & Hf' & Hp'); [by rewrite Hs |].
    rewrite HR. apply read_budget in HR as [_ Hb]; [| lia]. specialize (Hb eq_refl).
    apply (IH _ _ r' (stream r')); [split_and!; done || congruence | | lia].
    apply (f_equal length) in Hst. rewrite Hs, length_app in Hst. destruct d; [done | simpl in *; lia].
Qed.

(** Status and headers are there; the body is whatever had arrived, and the rest of it
    what the buffer held. *)
Definition cutOff (head : bytes) (status : Z) (p p' : Response) : Prop :=
  StatusCode p' = status ∧ Headers p' = default (Headers p) (scanHeaders head) ∧ rawHeaderBuf p' = head.

Section buffered_cut.

Variable gunzip : bytes → gzipResult.
Variables (cap : nat) (maxBody : Z).

(** The response breaks off behind its head.  A chunked body whose trailers alone are
    missing is complete. *)
Lemma bodyBreaksOff method f br p head status raw payload y :
  goodHead head status → framed maxBody p method head status raw payload → plainHead head p →
  (length head ≤ cap)%nat → positioned f (head ++ y) br → partOf y raw →
  ∃ o br' p', readResponseBuffered gunzip cap maxBody method (br, p) = (o, (br', p')) ∧ positioned f [] br' ∧
    ((o = Ret tt ∧ delivered head status payload p p') ∨ ∃ e, o = Fail e ∧ cutOff head status p p').
Proof.
  intros [Hh Hst] Hfr Hgz Hcap (Hs & Hf & Hp) Hy.
  destruct (readHeadBytes_prompt cap [] br head y) as (b1 & E & Hs1 & Hf1 & Hp1); try done; [by apply isHead_pos |].
  unfold readResponseBuffered. rewrite (bind_Ret _ _ _ _ _ (onL_eq _ _ p _ _ E)), Hst. cbn [negb].
  destruct Hfr as [Hnb | payload Hnb Hte Hcl Hsane Hmax Hms | cs ls le ts Hnb Hte Hcs Hz Hts Hfit];
    rewrite Hnb, ?Hte; [by apply partOf_nil in Hy | |].
  - rewrite Hcl. cbn [negb].
    assert ((0 <? maxBody) && (maxBody <? len payload) = false) as ->.
    { apply andb_false_iff. right. apply Z.ltb_ge. lia. }
    rewrite (bind_Ret _ _ (b1, p) tt (b1, parseHeaders head (setContentLength (len payload) (setStatus status p)))) by done.
    set (p1 := parseHeaders _ _).
    destruct (parseHeaders_delivered head status (len payload) p) as (HA & HB & HC & HD). fold p1 in HA, HB, HC, HD.
    assert (length y < length payload)%nat as Hly.
    { destruct Hy as (z & -> & Hne). rewrite length_app. destruct z; [done | simpl; lia]. }
    rewrite (proj2 (Z.eqb_neq (len payload) 0)) by (unfold len; lia).
    destruct (ensureBufferSize_grants p1 (len payload)) as (p2 & E2 & Hroom & HE & HF & HG & HH); try done; [lia |].
    rewrite (bind_Ret _ _ _ _ _ (onR_eq _ b1 _ _ _ E2)). cbn [negb].
    rewrite (proj2 (Z.ltb_ge _ 0)) by apply len_nonneg. rewrite len_to_nat.
    rewrite (bind_Ret _ _ (b1, p2) tt (b1, setBody (BView (length payload)) p2)) by done.
    destruct (readFullLoop_short f (S (budget b1)) (length payload) [] b1 y) as (e & d & b2 & E3 & Hpos);
      [split_and!; (done || (simpl in *; congruence)) | lia | lia |].
    set (p3 := setBody (BView (length payload)) p2).
    rewrite (bind_Fail _ _ (b1, p3) e (b2, setBuf (splice (bodyBuf p3) 0 d) p3)).
    2: { unfold readFullBody, ReadFull. cbn [fst snd]. by rewrite E3. }
    eexists _, _, _. split; [done |]. split; [exact Hpos |]. right. eexists. split; [done |].
    split_and!; simpl; congruence.
  - rewrite (bind_Ret _ _ (b1, p) tt (b1, parseHeaders head (setStatus status p))) by done.
    set (p1 := parseHeaders _ _). assert (cutOff head status p p1) as Hcut by done.
    assert (ParserFacts.feeds 0 f ([], b1) y) as Hfeed by (split_and!; (done || (simpl in *; congruence))).
    unfold encodeChunked in Hy. rewrite (app_assoc le), (app_assoc ls), (app_assoc (concat _)) in Hy.
    apply partOf_app in Hy as [Hy | (t & -> & Hy)].
    + destruct (chunkLoop_short 0 maxBody f (S (srcSize ([], b1))) 0 ([], b1) p1 cs ls le y)
        as ([lo b2] & p2 & E2 & (Hst2 & Hp2 & Hf2 & Hlo) & (HM1 & HM2 & _ & HM4)); try done; [lia |].
      apply Nat.le_0_r, nil_length_inv in Hlo. cbn [fst] in Hlo. subst lo.
      rewrite (bind_Fail _ _ (b1, p1) f (b2, p2)).
      2: { unfold readChunkedBody. cbv zeta. cbn [fst snd]. change 0 with (Z.of_nat 0). by rewrite E2. }
      eexists _, _, _. split; [done |]. split; [by split_and! |]. right. eexists. split; [done |].
      destruct Hcut as (? & ? & ?). split_and!; congruence.
    + rewrite <- !app_assoc in Hfeed.
      destruct (readChunkedBody_drains 0 maxBody f [] b1 p1 cs ls le t [])
        as (lo & b2 & p2 & E2 & (Hm1 & Hm2 & Hm3 & Hm4) & Hb & Hc & Hst2 & Hp2 & Hf2 & Hlo); try done.
      { intros s Hs2. by apply (drainTrailers_short 0 f (S (srcSize s)) s ts t); [lia | ..]. }
      apply Nat.le_0_r, nil_length_inv in Hlo. cbn [fst] in Hlo. subst lo.
      assert (delivered head status (received p cs) p p2) as Hdel by (by split_and!).
      rewrite (bind_Ret _ _ _ _ _ E2). unfold onR. cbn [fst snd].
      rewrite decompressBody_plain by (by eapply plainHead_delivered).
      eexists _, _, _. split; [done |]. split; [by split_and! |]. by left.
Qed.

(** The response breaks off anywhere. *)
Lemma readResponseBuffered_breaksOff method f br p head status raw payload y :
  goodHead head status → framed maxBody p method head status raw payload → plainHead head p →
  (length head ≤ cap)%nat → positioned f y br → partOf y (head ++ raw) →
  ∃ o br' p', readResponseBuffered gunzip cap maxBody method (br, p) = (o, (br', p')) ∧ positioned f [] br' ∧
    ((o = Ret tt ∧ delivered head status payload p p') ∨
     ∃ e, o = Fail e ∧ (cutOff head status p p' ∨ p' = p)).
Proof.
  intros Hg Hfr Hgz Hcap Hpos Hy. apply partOf_app in Hy as [Hy | (y' & -> & Hy)].
  - destruct (readHeadBytes_short f cap [] br head y) as (b1 & E & Hb1); [apply Hg | done | done | done |].
    exists (Fail f), b1, p. split; [| split; [done | right; eauto]].
    unfold readResponseBuffered. by rewrite (bind_Fail _ _ _ _ _ (onL_eq _ _ p _ _ E)).
  - destruct (bodyBreaksOff method f br p head status raw payload y' Hg Hfr Hgz Hcap Hpos Hy)
      as (o & br' & p' & E & Hb & Hres). exists o, br', p'. split; [done |]. split; [done |]. naive_solver.
Qed.

End buffered_cut.
