(* ===== verification/ParserEOF.v ===== *)
(** * ParserEOF: bodies delimited by the end of the connection

    [readResponseUntilEOF] keeps its promise when the body buffer has room for
    the body and one more read.  When it has not, [ensureBufferSize] replaces
    the buffer by a zeroed one: with the sizes the client uses by default the
    bytes that were already read are lost. *)

From stdpp Require Import prelude list.
From S2P Require Import Prelude Errors IO Scan Response Parser ParserTotal ParserFacts ParserSpec.

Section until_eof.

Context {R : Type} `{ReaderLaws R}.
Variables maxBody brs : Z.
Hypothesis Hbrs : 0 < brs.

(** The size the loop asks for at [off], and how much it then reads. *)
Definition wanted (off : Z) : Z :=
  if (0 <? maxBody) && (maxBody <? off + brs) then maxBody else off + brs.

(** There is always room for a read when the buffer exceeds the body by [brs]. *)
Definition roomy (p : Response) (n : nat) : Prop :=
  Z.of_nat n + brs ≤ len (bodyBuf p) < 2 ^ 62 ∧ (0 < maxBody → Z.of_nat n < maxBody).

(** One turn of the loop in a roomy buffer is one read of the connection. *)
Lemma untilEOFLoop_turn fuel off (r : R) p :
  roomy p off →
  ∃ k, (0 < k)%nat ∧ (off + k ≤ length (bodyBuf p))%nat ∧
  untilEOFLoop maxBody brs (S fuel) off (r, p) =
    ('(n, e) ← readInto off k;
     match e with
     | Some EEOF => mret off
     | Some e => fail e
     | None => if (n =? 0)%nat then mret off else untilEOFLoop maxBody brs fuel (off + n)
     end) (r, p).
Proof.
  intros [[Hlo Hhi] Hmax]. cbn [untilEOFLoop]. cbv zeta.
  assert ((0 <? maxBody) && (maxBody <=? Z.of_nat off) = false) as ->.
  { destruct (Z.ltb_spec 0 maxBody) as [Hm |]; [| done]. specialize (Hmax Hm). apply Z.leb_gt. lia. }
  rewrite i64_small by (unfold int64_range; lia). fold (wanted (Z.of_nat off)).
  assert (wanted (Z.of_nat off) ≤ len (bodyBuf p)) as Hw.
  { unfold wanted. repeat case_if; lia. }
  assert (ensureBufferSize (wanted (Z.of_nat off)) p = (Ret true, p)) as E.
  { unfold ensureBufferSize. by rewrite (proj2 (Z.leb_le _ _)) by lia. }
  rewrite (bind_Ret _ _ _ _ _ (onR_eq _ r _ _ _ E)).
  rewrite (bind_Ret _ _ (r, p) (r, p) (r, p)) by done. cbn [negb andb snd].
  set (t := if brs <? _ then _ else _). assert (t = brs) as -> by (unfold t; case_if; lia).
  set (u := if _ && _ then _ else brs).
  assert (0 < u ≤ brs) as Hu.
  { unfold u. destruct (Z.ltb_spec 0 maxBody) as [Hm |]; cbn [andb]; [| lia].
    specialize (Hmax Hm). case_if; lia. }
  rewrite (proj2 (Z.leb_gt _ _)) by lia.
  exists (Z.to_nat u). unfold len in *. split; [lia |]. split; [lia | done].
Qed.

Lemma untilEOFLoop_prompt fuel off (r : R) p d :
  prompt r → stream r = d → final r = EEOF → roomy p (off + length d) → (budget r < fuel)%nat →
  ∃ r', untilEOFLoop maxBody brs fuel off (r, p) =
        (Ret (off + length d)%nat, (r', setBuf (splice (bodyBuf p) off d) p)).
Proof.
  revert off r p d. induction fuel as [|fuel IH]; intros off r p d Hp Hs Hf Hroom Hfuel; [lia |].
  destruct (untilEOFLoop_turn fuel off r p) as (k & Hk & Hk' & ->).
  { unfold roomy in *. destruct Hroom as [? Hm]. split; [lia |]. intros Hm'. specialize (Hm Hm'). lia. }
  destruct (decide (d = [])) as [-> | Hne].
  - destruct (prompt_end k r Hp Hk Hs) as (r1 & HR & _).
    rewrite (bind_Ret _ _ _ _ _ (readInto_eq off k r p [] _ r1 HR)), Hf.
    exists r1. by rewrite Nat.add_0_r.
  - destruct (prompt_read k r Hp Hk) as (e & r1 & HR & He & Hle & Hst & Hf1 & Hp1); [by rewrite Hs |].
    rewrite (bind_Ret _ _ _ _ _ (readInto_eq off k r p e None r1 HR)).
    apply read_budget in HR as [_ Hb]; [| done]. specialize (Hb eq_refl).
    rewrite Hst in Hs. subst d. rewrite length_app in *.
    assert ((length e =? 0)%nat = false) as -> by (destruct e; done).
    destruct (IH (off + length e)%nat r1 (setBuf (splice (bodyBuf p) off e) p) (stream r1))
      as (r2 & ->); try done; [congruence | | lia |].
    { unfold roomy, len in *. simpl bodyBuf. rewrite length_splice, <- Nat.add_assoc. done. }
    exists r2. simpl bodyBuf. destruct Hroom as [[Hlo _] _]. unfold len in Hlo.
    rewrite splice_splice by lia. by rewrite Nat.add_assoc.
Qed.

End until_eof.

Lemma roomy_meta maxBody brs p p' n :
  bodyBuf p' = bodyBuf p → roomy maxBody brs p n → roomy maxBody brs p' n.
Proof. unfold roomy. by intros ->. Qed.

(** A body that ends with the connection is read whole when the buffer has room. *)
Lemma readResponseUntilEOF_delivers {R} `{ReaderLaws R} maxBody brs (r : R) p head lo payload :
  prompt r → final r = EEOF → lo ++ stream r = payload →
  roomy maxBody (defaultBodyReadSize brs) p (length payload) →
  ∃ r' p', readResponseUntilEOF head lo maxBody brs (r, p) = (Ret tt, (r', p')) ∧
           delivered head (parseStatusCode head).1 payload p p'.
Proof.
  intros Hp Hf Hs Hroom. pose proof (defaultBodyReadSize_pos brs) as Hpos.
  assert (length payload = length lo + length (stream r))%nat as Hlen by (rewrite <- Hs; apply length_app).
  pose proof Hroom as [[Hlo _] _]. unfold len in Hlo.
  unfold readResponseUntilEOF.
  rewrite (bind_Ret _ _ (r, p) tt (r, parseHeaders head (setStatus (parseStatusCode head).1 p))) by done.
  set (p1 := parseHeaders _ _).
  rewrite (bind_Ret _ _ (r, p1) (length lo) (r, setBuf (splice (bodyBuf p1) 0 lo) p1)).
  2: { destruct (Nat.ltb_spec 0 (length lo)) as [Hl | Hl].
       - assert (ensureBufferSize (len lo) p1 = (Ret true, p1)) as E.
         { unfold ensureBufferSize, len. rewrite (proj2 (Z.leb_le _ _)); [done |]. simpl. lia. }
         rewrite (bind_Ret _ _ _ _ _ (onR_eq _ r _ _ _ E)).
         rewrite (bind_Ret _ _ (r, p1) (r, p1) (r, p1)) by done.
         rewrite (bind_Ret _ _ (r, p1) tt (r, setBuf (splice (bodyBuf p1) 0 (take (length lo) lo)) p1)) by done.
         by rewrite take_ge by lia.
       - assert (lo = []) as -> by (apply nil_length_inv; lia).
         rewrite splice_nil. by destruct p1. }
  set (p2 := setBuf _ _). rewrite (bind_Ret _ _ (r, p2) (r, p2) (r, p2)) by done. cbn [fst].
  destruct (untilEOFLoop_prompt maxBody (defaultBodyReadSize brs) Hpos (S (budget r)) (length lo) r p2 (stream r))
    as (r' & E); try done.
  { rewrite <- Hlen. unfold roomy, len in *. simpl bodyBuf. by rewrite length_splice. }
  { lia. }
  rewrite (bind_Ret _ _ _ _ _ E). eexists _, _. split; [done |].
  unfold p2. simpl bodyBuf. rewrite (splice_splice (bodyBuf p) 0) by lia. rewrite Hs, <- Hlen.
  split_and!; try done; unfold bodyBytes; simpl; by rewrite take_splice_0 by lia.
Qed.

(** A read that the buffer has no room for starts with a fresh buffer. *)
Lemma untilEOFLoop_regrows {R} `{ReaderLaws R} maxBody brs fuel off (r : R) p :
  0 < brs ≤ 2 ^ 40 → sane p → len (bodyBuf p) < Z.of_nat off + brs ≤ 2 ^ 40 →
  (0 < maxBody → Z.of_nat off + brs ≤ maxBody) → (0 < maxSize p → Z.of_nat off + brs ≤ maxSize p) →
  prompt r → stream r = [] → final r = EEOF →
  ∃ n r', Z.of_nat off + brs ≤ n ∧
    untilEOFLoop maxBody brs (S fuel) off (r, p) = (Ret off, (r', replaceBuf n p)).
Proof.
  intros Hbrs Hsane Hl Hmax Hms Hp Hs Hf. cbn [untilEOFLoop]. cbv zeta.
  assert ((0 <? maxBody) && (maxBody <=? Z.of_nat off) = false) as ->.
  { destruct (Z.ltb_spec 0 maxBody) as [Hm |]; [| done]. specialize (Hmax Hm). apply Z.leb_gt. lia. }
  rewrite i64_small by (unfold int64_range; lia). fold (wanted maxBody brs (Z.of_nat off)).
  assert (wanted maxBody brs (Z.of_nat off) = Z.of_nat off + brs) as ->.
  { unfold wanted. repeat case_if; lia. }
  destruct (ensureBufferSize_cases p (Z.of_nat off + brs) Hsane ltac:(lia))
    as [[? _] | [(_ & [? ?] & _) | (n & Hn & Hn2 & Hn3 & E)]]; [lia | lia |].
  rewrite (bind_Ret _ _ _ _ _ (onR_eq _ r _ _ _ E)).
  rewrite (bind_Ret _ _ (r, _) (r, replaceBuf n p) (r, replaceBuf n p)) by done. cbn [negb andb snd].
  pose proof (len_nonneg (bodyBuf p)). rewrite replaceBuf_len by lia.
  set (t := if brs <? _ then _ else _). assert (t = brs) as -> by (unfold t; case_if; lia).
  set (u := if _ && _ then _ else brs). assert (u = brs) as -> by (unfold u; repeat case_if; lia).
  rewrite (proj2 (Z.leb_gt _ _)) by lia.
  destruct (prompt_end (Z.to_nat brs) r Hp ltac:(lia) Hs) as (r1 & HR & _).
  rewrite (bind_Ret _ _ _ _ _ (readInto_eq off _ r (replaceBuf n p) [] _ r1 HR)), Hf.
  exists n, r1. split; [lia |]. simpl bodyBuf. by rewrite splice_nil.
Qed.

Lemma readResponseUntilEOF_loses {R} `{ReaderLaws R} maxBody brs (r : R) p head lo :
  let size := Z.of_nat (length lo) + defaultBodyReadSize brs in
  lo ≠ [] → len lo ≤ len (bodyBuf p) < size → sane p → size ≤ 2 ^ 40 →
  (0 < maxBody → size ≤ maxBody) → (0 < maxSize p → size ≤ maxSize p) →
  prompt r → stream r = [] → final r = EEOF →
  ∃ r' p', readResponseUntilEOF head lo maxBody brs (r, p) = (Ret tt, (r', p')) ∧
           bodyBytes p' = replicate (length lo) 0.
Proof.
  intros size Hne Hl Hsane Hsize Hmax Hms Hp Hs Hf. unfold size in *.
  pose proof (defaultBodyReadSize_pos brs) as Hpos. unfold readResponseUntilEOF.
  rewrite (bind_Ret _ _ (r, p) tt (r, parseHeaders head (setStatus (parseStatusCode head).1 p))) by done.
  set (p1 := parseHeaders _ _).
  assert (0 < length lo)%nat as Hlo by (by destruct lo; [| simpl; lia]).
  rewrite (proj2 (Nat.ltb_lt _ _)) by done.
  rewrite (bind_Ret _ _ (r, p1) (length lo) (r, setBuf (splice (bodyBuf p1) 0 lo) p1)).
  2: { assert (ensureBufferSize (len lo) p1 = (Ret true, p1)) as E.
       { unfold ensureBufferSize. rewrite (proj2 (Z.leb_le _ _)); [done |]. simpl. lia. }
       rewrite (bind_Ret _ _ _ _ _ (onR_eq _ r _ _ _ E)).
       rewrite (bind_Ret _ _ (r, p1) (r, p1) (r, p1)) by done.
       rewrite (bind_Ret _ _ (r, p1) tt (r, setBuf (splice (bodyBuf p1) 0 (take (length lo) lo)) p1)) by done.
       by rewrite take_ge by lia. }
  set (p2 := setBuf _ _). rewrite (bind_Ret _ _ (r, p2) (r, p2) (r, p2)) by done. cbn [fst].
  unfold len, sane in *.
  destruct (untilEOFLoop_regrows maxBody (defaultBodyReadSize brs) (budget r) (length lo) r p2)
    as (n & r' & Hn & E); try done; try lia;
    try (unfold sane, len, p2; simpl; rewrite length_splice; lia).
  rewrite (bind_Ret _ _ _ _ _ E). eexists _, _. split; [done |].
  unfold bodyBytes. simpl. rewrite take_replicate. f_equal. lia.
Qed.
