(* ===== verification/ParserProps.v ===== *)
(** * ParserProps: the contract of the response readers

    The theorems a caller of [readResponse] and [readResponseBuffered] relies
    on, put together from [ParserSpec], [ParserFacts] and [ParserEOF]. *)

From stdpp Require Import prelude list.
From S2P Require Import Prelude Errors Strconv IO Scan Response Parser.
From S2P Require Import ParserTotal ParserFacts ParserSpec ParserEOF.

(** A small response object for the examples. *)
Definition freshResponse : Response := newPooledResponse 256.

(** ** Example traffic *)

Definition exHead : bytes :=
  str "HTTP/1.1 200 OK" ++ crlf ++ str "Content-Length: 5" ++ crlf ++ str "X-A: b" ++ crlf ++ crlf.
Definition exChunkedHead : bytes :=
  str "HTTP/1.1 201 Created" ++ crlf ++ str "Transfer-Encoding: chunked" ++ crlf ++ crlf.
Definition exChunks : list chunk :=
  [mkChunk (str "5") [] (str "hello"); mkChunk (str "6") (str ";x=y") (str " world")].
Definition exChunkedBody : bytes := encodeChunked exChunks (str "0") [] [str "T: v"].
Definition exCloseHead : bytes := str "HTTP/1.1 200 OK" ++ crlf ++ str "Connection: close" ++ crlf ++ crlf.

(** The bytes cut into packets of [n]. *)
Fixpoint packets (fuel n : nat) (b : bytes) : list (bytes * option error) :=
  match fuel, b with
  | S fuel', _ :: _ => (take n b, None) :: packets fuel' n (drop n b)
  | _, _ => []
  end.
Definition connOf (n : nat) (b : bytes) : Conn := mkConn (packets (length b) n b) EEOF.

Ltac forall_ok := vm_compute; repeat (constructor; [intuition congruence |]); constructor.

Lemma exChunks_wf : Forall wfChunk exChunks ∧ sizeLine (str "0") [] 0 ∧ Forall wfTrailer [str "T: v"].
Proof.
  assert (sizeLine (str "0") [] 0) as Hz by (split_and!; [done | vm_compute; lia | forall_ok | by left]).
  split; [| split; [done |]].
  - apply Forall_cons_2; [| apply Forall_cons_2; [| done]]; (split; [done |]); unfold exChunks.
    + split_and!; [done | vm_compute; lia | forall_ok | by left].
    + split_and!; [done | vm_compute; lia | forall_ok | right].
      exists (str "x=y"). split; [done | forall_ok].
  - apply Forall_cons_2; [| done]. split; [done | forall_ok].
Qed.

Lemma connOf_prompt n b : (0 < n)%nat → prompt (connOf n b).
Proof.
  intros Hn. unfold connOf. cbn [prompt Conn_Laws]. unfold connPrompt. cbn [script].
  generalize (length b) as k. intros k. revert b. induction k as [|k IH]; intros [|c b]; try constructor.
  - split; [by destruct n; [lia |] | done].
  - apply IH.
Qed.

Lemma goodHead_intro head status :
  findHeaderEnd head = len head → parseStatusCode head = (status, true) → goodHead head status.
Proof. split; [by apply isHead_intro | done]. Qed.

Lemma sane_fresh : sane freshResponse.
Proof. by vm_compute. Qed.

(** ** The sequential reader *)

(** C2: reading a response on a sequential connection does not depend on how the
    network cut it up.  Let a stream hold a head that [parseStatusCode] accepts and that
    fits the read buffer, then a body framed by its absence (HEAD, 101, 204, 304), by
    Content-Length or by chunks, within the size limits of the reader and of the response
    object (and at most 2^40, chunked 2^38 bytes), then anything.  For every reader that
    delivers that stream in non-empty pieces, every positive header read size and every
    body read size, [readResponse] returns without error and the response object holds
    the status, the payload as [Body], its length as [ContentLength], and the headers of
    that head.  The payload is the body that was sent, except for a chunked body that
    does not fit the body buffer the object has: there the bytes received before the last
    growth of the buffer are zeroes ([received]), since growing does not copy. *)
Theorem readResponse_reads_framed {R} `{ReaderLaws R} cap maxBody method hrs brs (r : R) p
    head status raw payload rest :
  goodHead head status → framed maxBody p method head status raw payload →
  len head ≤ cap → 0 < hrs → prompt r → stream r = head ++ raw ++ rest →
  ∃ r' p', readResponse cap maxBody method hrs brs (r, p) = (Ret tt, (r', p')) ∧
           delivered head status payload p p'.
Proof. apply readResponse_delivers. Qed.

Lemma readResponse_reads_framed_witness :
  ∃ r' p', readResponse 8192 65536 (str "GET") 4096 0
             (connOf 7 (exHead ++ str "hello" ++ str "junk"), freshResponse) = (Ret tt, (r', p')) ∧
           delivered exHead 200 (str "hello") freshResponse p'.
Proof.
  apply (readResponse_reads_framed 8192 65536 (str "GET") 4096 0 _ freshResponse
           exHead 200 (str "hello") (str "hello") (str "junk")).
  - apply goodHead_intro; reflexivity.
  - apply framed_length; try reflexivity; try exact sane_fresh; vm_compute; done.
  - vm_compute. done.
  - lia.
  - apply connOf_prompt. lia.
  - vm_compute. reflexivity.
Defined.

(** ** The buffered reader *)

(** C4: reading a response on a pipelined connection stops exactly at its end.  Under
    the framing and limits of C2, for a head that fits the reader's buffer,
    [readResponseBuffered] stores the response (status, headers, payload as [received],
    length) and leaves the buffered reader positioned at the first byte of whatever
    follows, with the same end of stream behind it.  Its result is then that of
    [decompressBody] on the stored response, for every decompressor; in particular it
    succeeds and hands over the stored response itself when the head announces no gzip
    body. *)
Theorem readResponseBuffered_keeps_framing gunzip cap maxBody method f br p
    head status raw payload rest :
  goodHead head status → framed maxBody p method head status raw payload →
  (length head ≤ cap)%nat → positioned f (head ++ raw ++ rest) br →
  ∃ br' p', delivered head status payload p p' ∧ positioned f rest br' ∧
    readResponseBuffered gunzip cap maxBody method (br, p)
      = (let '(o, p'') := decompressBody gunzip p' in (o, (br', p''))) ∧
    (plainHead head p → readResponseBuffered gunzip cap maxBody method (br, p) = (Ret tt, (br', p'))).
Proof.
  intros Hg Hfr Hcap Hpos.
  destruct (readResponseBuffered_stores gunzip cap maxBody method f br p head status raw payload rest)
    as (br' & p' & E & Hdel & Hx); try done.
  exists br', p'. split_and!; try done. intros Hgz.
  by rewrite E, decompressBody_plain by (by eapply plainHead_delivered).
Qed.

Lemma readResponseBuffered_keeps_framing_witness :
  ∃ br' p', delivered exChunkedHead 201 (str "hello world") freshResponse p' ∧ positioned EEOF exHead br' ∧
    readResponseBuffered (λ b, GzOK b) 512 65536 (str "GET")
      (NewReaderSize (connOf 9 (exChunkedHead ++ exChunkedBody ++ exHead)) 64, freshResponse) = (Ret tt, (br', p')).
Proof.
  destruct (readResponseBuffered_keeps_framing (λ b, GzOK b) 512 65536 (str "GET") EEOF
              (NewReaderSize (connOf 9 (exChunkedHead ++ exChunkedBody ++ exHead)) 64) freshResponse
           exChunkedHead 201 exChunkedBody (str "hello world") exHead) as (br' & p' & Hdel & Hpos & _ & E).
  - apply goodHead_intro; reflexivity.
  - destruct exChunks_wf as (Hc & Hl & Ht).
    apply (framed_chunked 65536 freshResponse (str "GET") exChunkedHead 201 exChunks (str "0") [] [str "T: v"]);
      try done.
  - vm_compute. lia.
  - split; [vm_compute; reflexivity |]. split; [reflexivity |].
    split; [apply connOf_prompt; lia | reflexivity].
  - exists br', p'. split; [exact Hdel |]. split; [exact Hpos |]. apply E. reflexivity.
Defined.

(** ** Chunked bodies *)



(** ** Bodies delimited by the end of the connection *)

(** C39: A response without framing headers is read to the end of the connection:
    when the body buffer exceeds the body by one read ([roomy]), [readResponse]
    delivers the head and exactly the bytes up to end of file. *)
Theorem readResponse_until_close {R} `{ReaderLaws R} cap maxBody method hrs brs (r : R) p
    head status payload :
  goodHead head status → noBody method status = false →
  parseTransferEncoding head = false → (parseContentLength head).2 = false →
  len head ≤ cap → 0 < hrs → prompt r → stream r = head ++ payload → final r = EEOF →
  roomy maxBody (defaultBodyReadSize brs) p (length payload) →
  ∃ r' p', readResponse cap maxBody method hrs brs (r, p) = (Ret tt, (r', p')) ∧
           delivered head status payload p p'.
Proof.
  intros Hg Hnb Hte Hcl Hcap Hhrs Hp Hs Hf Hroom.
  destruct (readResponse_head cap maxBody method hrs brs r p head status payload)
    as (d & r1 & -> & Hx & Hf1 & Hp1); try done.
  unfold afterHead. rewrite Hnb, Hte. destruct (parseContentLength head) as [n []]; [done |]. cbn [negb].
  replace status with (parseStatusCode head).1 by (by destruct Hg as [_ ->]).
  apply readResponseUntilEOF_delivers; try done. congruence.
Qed.

Lemma readResponse_until_close_witness :
  ∃ r' p', readResponse 8192 65536 (str "GET") 4096 100
             (connOf 7 (exCloseHead ++ str "until the end"), freshResponse) = (Ret tt, (r', p')) ∧
           delivered exCloseHead 200 (str "until the end") freshResponse p'.
Proof.
  apply (readResponse_until_close 8192 65536 (str "GET") 4096 100 _ freshResponse
           exCloseHead 200 (str "until the end")); try reflexivity.
  - apply goodHead_intro; reflexivity.
  - vm_compute. done.
  - apply connOf_prompt. lia.
  - vm_compute. intuition (done || lia).
Defined.

(** The same reader loses a body it has no room to extend.  When the head and
    the whole body arrive in one read, the buffer holds the body but not one more
    read behind it (as the client's own 64 KiB buffer and 64 KiB read size do),
    and the limits allow growing, the call succeeds with a [Body] of the right
    length in which every byte is zero: [ensureBufferSize] makes a new buffer and
    does not copy the old one. *)
Theorem readResponse_close_loses_body cap maxBody method hrs brs p head status payload :
  let size := len payload + defaultBodyReadSize brs in
  goodHead head status → noBody method status = false →
  parseTransferEncoding head = false → (parseContentLength head).2 = false →
  len head + len payload ≤ Z.min cap hrs → payload ≠ [] →
  len payload ≤ len (bodyBuf p) < size → sane p → size ≤ 2 ^ 40 →
  (0 < maxBody → size ≤ maxBody) → (0 < maxSize p → size ≤ maxSize p) →
  ∃ r' p', readResponse cap maxBody method hrs brs
             (mkConn [(head ++ payload, None)] EEOF, p) = (Ret tt, (r', p')) ∧
           bodyBytes p' = replicate (length payload) 0.
Proof.
  intros size Hg Hnb Hte Hcl Hcap Hne Hl Hsane Hsize Hmax Hms. unfold size, len in *.
  pose proof Hg as [Hh Hst]. pose proof (isHead_pos _ Hh) as Hpos.
  assert (readHeadLoop (S (Z.to_nat cap)) cap (if cap <? hrs then cap else hrs) []
            (mkConn [(head ++ payload, None)] EEOF) = (Ret (head ++ payload), mkConn [] EEOF)) as E.
  { cbn [readHeadLoop]. unfold len. rewrite (proj2 (Z.leb_gt _ _)) by (simpl; lia).
    set (n := if _ <? cap - _ then _ else _).
    assert (Z.of_nat (length (head ++ payload)) ≤ n) as Hn.
    { rewrite length_app. unfold n. simpl length. repeat case_if; lia. }
    rewrite (proj2 (Z.ltb_ge n 0)) by lia. cbn [Read Conn_Reader]. unfold connRead. cbn [script].
    rewrite (proj2 (Nat.leb_le _ _)) by lia. cbn [atEnd].
    destruct (head ++ payload) as [|b t] eqn:Eh.
    { apply app_nil in Eh as [-> _]. simpl in Hpos. lia. }
    rewrite app_nil_l, <- Eh, findHeaderEnd_head by done.
    by rewrite (proj2 (Z.ltb_ge _ _)) by apply len_nonneg. }
  unfold readResponse. rewrite (bind_Ret _ _ _ _ _ (onL_eq _ _ p _ _ E)).
  rewrite findHeaderEnd_head, len_to_nat, take_app_length, drop_app_length, Hst, Hnb, Hte by done.
  cbn [negb]. destruct (parseContentLength head) as [n []]; [done |]. cbn [negb].
  apply readResponseUntilEOF_loses; try done. apply Forall_nil_2.
Qed.

Lemma readResponse_close_loses_body_witness :
  ∃ r' p', readResponse 8192 10485760 (str "GET") 4096 65536
             (mkConn [(exCloseHead ++ str "lost", None)] EEOF, freshResponse) = (Ret tt, (r', p')) ∧
           bodyBytes p' = [0; 0; 0; 0].
Proof.
  apply (readResponse_close_loses_body 8192 10485760 (str "GET") 4096 65536 freshResponse
           exCloseHead 200 (str "lost")); try reflexivity; try done.
  - apply goodHead_intro; reflexivity.
Defined.

(** ** Lengths beyond the machine's *)

(** A Content-Length whose 64-bit value comes out negative makes the reader
    panic: the length passes the limit check and the buffer check, and then
    bounds a slice of the buffer. *)
Theorem readResponse_negative_length_panics {R} `{ReaderLaws R} cap maxBody method hrs brs (r : R) p
    head status n rest :
  goodHead head status → noBody method status = false →
  parseTransferEncoding head = false → parseContentLength head = (n, true) → n < 0 ≤ maxBody →
  len head ≤ cap → 0 < hrs → prompt r → stream r = head ++ rest →
  (readResponse cap maxBody method hrs brs (r, p)).1 = Panic.
Proof.
  intros Hg Hnb Hte Hcl [Hn Hmax] Hcap Hhrs Hp Hs.
  destruct (readResponse_head cap maxBody method hrs brs r p head status rest)
    as (d & r1 & -> & _); try done.
  unfold afterHead. rewrite Hnb, Hte, Hcl. cbn [negb].
  rewrite (proj2 (Z.ltb_ge _ _)), (proj2 (Z.eqb_neq _ _)) by lia.
  set (p1 := parseHeaders head (setContentLength n (setStatus status p))).
  rewrite (bind_Ret _ _ (r1, p) tt (r1, p1)) by done.
  assert (ensureBufferSize n p1 = (Ret true, p1)) as E.
  { unfold ensureBufferSize. pose proof (len_nonneg (bodyBuf p1)). by rewrite (proj2 (Z.leb_le _ _)) by lia. }
  rewrite (bind_Ret _ _ _ _ _ (onR_eq _ r1 _ _ _ E)). cbn [negb].
  by rewrite (proj2 (Z.ltb_lt _ _)) by lia.
Qed.

Definition exHugeHead : bytes :=
  str "HTTP/1.1 200 OK" ++ crlf ++ str "Content-Length: 9223372036854775808" ++ crlf ++ crlf.

Lemma readResponse_negative_length_panics_witness :
  (readResponse 8192 65536 (str "GET") 4096 0 (connOf 50 (exHugeHead ++ str "x"), freshResponse)).1 = Panic.
Proof.
  apply (readResponse_negative_length_panics 8192 65536 (str "GET") 4096 0 _ freshResponse
           exHugeHead 200 (- 2 ^ 63) (str "x")); try reflexivity; try lia.
  - apply goodHead_intro; reflexivity.
  - vm_compute. done.
  - apply connOf_prompt. lia.
Defined.

(** ** decompressBody *)

(** [decompressBody] replaces a gzip body by what the decompressor makes of
    it: a body that is empty or not marked [Content-Encoding: gzip] is left
    alone, a decompressor error is reported as a protocol error with the response
    unchanged, and otherwise [Body] is the decompressed data (with its length in
    [ContentLength] and everything else kept) when the size limit allows it, and
    its first [len(bodyBuf)] bytes, silently, when it does not. *)
Theorem decompressBody_spec gunzip r :
  sane r → (∀ b d, gunzip b = GzOK d → len d ≤ 2 ^ 40) →
  (bodyBytes r = [] ∨ isGzip r = false → decompressBody gunzip r = (Ret tt, r)) ∧
  (bodyBytes r ≠ [] → isGzip r = true →
   match gunzip (bodyBytes r) with
   | GzInitError e | GzReadError e =>
       ∃ msg, decompressBody gunzip r = (Fail (WrapError ErrorTypeProtocol msg e), r)
   | GzOK d =>
       ∃ r' d', decompressBody gunzip r = (Ret tt, r') ∧
         bodyBytes r' = d' ∧ ContentLength r' = len d' ∧
         StatusCode r' = StatusCode r ∧ Headers r' = Headers r ∧ rawHeaderBuf r' = rawHeaderBuf r ∧
         ((0 < maxSize r → len d ≤ maxSize r) ∨ len d ≤ len (bodyBuf r) → d' = d) ∧
         (0 < maxSize r < len d → len (bodyBuf r) < len d → d' = take (length (bodyBuf r)) d)
   end).
Proof.
  intros Hsane Hgz. unfold decompressBody. split.
  { intros [E | E]; [by rewrite bool_decide_eq_true_2 by done |].
    case_bool_decide; [done |]. by rewrite E. }
  intros Hne Hg. rewrite bool_decide_eq_false_2, Hg by done. cbn [negb].
  destruct (gunzip (bodyBytes r)) as [e | e | d] eqn:Ed; [by eexists | by eexists |].
  apply Hgz in Ed. unfold len in *.
  destruct (ensureBufferSize_cases r (len d) Hsane ltac:(unfold len; lia))
    as [[Hl E] | [(Hl & Hm & E) | (n & Hn & Hn2 & Hn3 & E)]]; unfold len in *;
    rewrite (bind_Ret _ _ _ _ _ E);
    (rewrite (bind_Ret _ _ _ _ _ (eq_refl : get _ = (Ret _, _)))); eexists _, _;
    (split; [done |]); unfold bodyBytes; simpl.
  - rewrite take_splice_0 by lia. split_and!; done || lia.
  - rewrite take_splice_0 by (rewrite length_take; lia). split_and!; try done. intros [? | ?]; lia.
  - rewrite take_splice_0 by (rewrite length_replicate; lia). split_and!; done || lia.
Qed.

Definition exGzip : Response :=
  mkResponse 200 3 (BView 3) [mkHeader (str "content-encoding") (str " GZIP")] (str "abc.....") 0 [].

Lemma decompressBody_spec_witness :
  ∃ r' d', decompressBody (λ b, GzOK (take 3 (rev b))) exGzip = (Ret tt, r') ∧
    bodyBytes r' = d' ∧ ContentLength r' = len d' ∧
    StatusCode r' = 200 ∧ Headers r' = Headers exGzip ∧ rawHeaderBuf r' = [] ∧
    ((0 < 0 → 3 ≤ 0) ∨ 3 ≤ 8 → d' = str "cba") ∧
    (0 < 0 < 3 → 8 < 3 → d' = take 8 (str "cba")).
Proof.
  apply (decompressBody_spec (λ b, GzOK (take 3 (rev b))) exGzip); try done.
  intros b d [= <-]. unfold len. rewrite length_take. lia.
Defined.
