(* ===== verification/Compressor.v ===== *)
(** * Compressor: request bodies (src/compressor.go)

    [CompressInto] around the gzip writer of the standard library, which is a
    parameter: the bytes it produces for a source, or its error. *)

From stdpp Require Import prelude list.
From S2P Require Import Prelude Errors.

(** [NewCompressor(level)]: the level that is used. *)
Definition NewCompressor (level : Z) : Z := if (level <? 1) || (9 <? level) then 6 else level.

Section compress.

Variable gzip : bytes → error + bytes.

(** [(c *Compressor) CompressInto(dst, src)]: the result and [dst] afterwards. *)
Definition CompressInto (dst src : bytes) : (error + bytes) * bytes :=
  if bool_decide (src = []) then (inr src, dst)
  else
    match gzip src with
    | inl e => (inl e, dst)
    | inr compressed =>
        if (length dst <? length compressed)%nat then (inl (ESentinel ErrRequestTooLarge), dst)
        else (inr compressed, splice dst 0 compressed)
    end.

End compress.
