(* ===== verification/Connection.v ===== *)
(** * Connection: one keep-alive connection (src/connection.go)

    The [Connection] struct and its operations: health and latency accounting,
    pipeline-depth tuning, buffers, reconnection and closing, sending a request
    and reading its response, and the sequential round trip [doSequential].
    The pipelined round trip is in [Pipeline].

    The clock, the dialer, the state of a context and the compressor are
    arguments of the operations that consult them.  A network connection is
    what its peer does: the script of the reads and of the writes. *)

From stdpp Require Import prelude list gmap.
From S2P Require Import Prelude Errors Strconv Float Config IO Scan Response Parser Request Writer Compressor.

Definition initialConnectionReadBufSize : Z := 16 * 1024.
Definition initialConnectionWriteBufSize : Z := 16 * 1024.
Definition healthWindowSize : Z := 50.

(** A [net.Conn]: its two directions, and what setting a deadline answers. *)
Record NetConn := mkNet { rd : Conn; wr : WConn; deadlineErr : option error }.

(** A [PendingRequest], named by [pr_id]; [pr_resp] is its response object.  Its
    two channels live in the [mail] of the connection. *)
Record PendingRequest := mkPending {
  pr_id : nat;
  pr_resp : option Response;
  pr_method : bytes;
  pr_readTimeout : Z;
  pr_sentAt : Z
}.

(** The channels [response] and [err] of a pending request, both of capacity 1,
    and the [cancelled] flag its caller sets. *)
Record mailbox := mkMail { mb_response : option Response; mb_err : option error; mb_cancelled : bool }.
Definition emptyMail : mailbox := mkMail None None false.

(** [select { case ch <- v: default: }] *)
Definition offer {A} (ch : option A) (v : A) : option A :=
  match ch with None => Some v | Some w => Some w end.

Module Con.

Record Connection := mkConnection {
  id : Z;
  host : bytes;
  port : Z;
  config : Config;
  hasTLS : bool;
  hasCompressor : bool;
  conn : option NetConn;
  stopped : Z;
  healthy : Z;
  cachedNow : Z;
  timeCounter : Z;
  reqsOnConn : Z;
  lastUsed : Z;
  activeReqs : Z;
  poolClaimed : bool;
  latencyEWMA : Z;
  errorCount : Z;
  totalWindow : Z;
  healthScore : Z;
  pipelineDepth : Z;
  bytesRead : Z;
  bytesWritten : Z;
  pendingReqs : list PendingRequest;
  responseReader : bool;
  readerStopped : Z;
  closing : Z;
  mail : gmap nat mailbox;
  readBufSize : Z;
  writeBufSize : Z;
  maxRespSize : Z;
  maxReqSize : Z;
  headerReadSize : Z;
  bodyReadSize : Z;
  isForwardProxy : bool;
  proxyAuthHeader : bytes
}.

(** Field assignments (the [Store] of the atomics). *)
Definition set_conn (v : option NetConn) (c : Connection) : Connection :=
  mkConnection (id c) (host c) (port c) (config c) (hasTLS c) (hasCompressor c)
    v (stopped c) (healthy c) (cachedNow c) (timeCounter c) (reqsOnConn c) (lastUsed c) (activeReqs c) (poolClaimed c)
    (latencyEWMA c) (errorCount c) (totalWindow c) (healthScore c) (pipelineDepth c) (bytesRead c) (bytesWritten c)
    (pendingReqs c) (responseReader c) (readerStopped c) (closing c) (mail c)
    (readBufSize c) (writeBufSize c) (maxRespSize c) (maxReqSize c) (headerReadSize c) (bodyReadSize c) (isForwardProxy c) (proxyAuthHeader c).
Definition set_stopped (v : Z) (c : Connection) : Connection :=
  mkConnection (id c) (host c) (port c) (config c) (hasTLS c) (hasCompressor c)
    (conn c) v (healthy c) (cachedNow c) (timeCounter c) (reqsOnConn c) (lastUsed c) (activeReqs c) (poolClaimed c)
    (latencyEWMA c) (errorCount c) (totalWindow c) (healthScore c) (pipelineDepth c) (bytesRead c) (bytesWritten c)
    (pendingReqs c) (responseReader c) (readerStopped c) (closing c) (mail c)
    (readBufSize c) (writeBufSize c) (maxRespSize c) (maxReqSize c) (headerReadSize c) (bodyReadSize c) (isForwardProxy c) (proxyAuthHeader c).
Definition set_healthy (v : Z) (c : Connection) : Connection :=
  mkConnection (id c) (host c) (port c) (config c) (hasTLS c) (hasCompressor c)
    (conn c) (stopped c) v (cachedNow c) (timeCounter c) (reqsOnConn c) (lastUsed c) (activeReqs c) (poolClaimed c)
    (latencyEWMA c) (errorCount c) (totalWindow c) (healthScore c) (pipelineDepth c) (bytesRead c) (bytesWritten c)
    (pendingReqs c) (responseReader c) (readerStopped c) (closing c) (mail c)
    (readBufSize c) (writeBufSize c) (maxRespSize c) (maxReqSize c) (headerReadSize c) (bodyReadSize c) (isForwardProxy c) (proxyAuthHeader c).
Definition set_cachedNow (v : Z) (c : Connection) : Connection :=
  mkConnection (id c) (host c) (port c) (config c) (hasTLS c) (hasCompressor c)
    (conn c) (stopped c) (healthy c) v (timeCounter c) (reqsOnConn c) (lastUsed c) (activeReqs c) (poolClaimed c)
    (latencyEWMA c) (errorCount c) (totalWindow c) (healthScore c) (pipelineDepth c) (bytesRead c) (bytesWritten c)
    (pendingReqs c) (responseReader c) (readerStopped c) (closing c) (mail c)
    (readBufSize c) (writeBufSize c) (maxRespSize c) (maxReqSize c) (headerReadSize c) (bodyReadSize c) (isForwardProxy c) (proxyAuthHeader c).
Definition set_timeCounter (v : Z) (c : Connection) : Connection :=
  mkConnection (id c) (host c) (port c) (config c) (hasTLS c) (hasCompressor c)
    (conn c) (stopped c) (healthy c) (cachedNow c) v (reqsOnConn c) (lastUsed c) (activeReqs c) (poolClaimed c)
    (latencyEWMA c) (errorCount c) (totalWindow c) (healthScore c) (pipelineDepth c) (bytesRead c) (bytesWritten c)
    (pendingReqs c) (responseReader c) (readerStopped c) (closing c) (mail c)
    (readBufSize c) (writeBufSize c) (maxRespSize c) (maxReqSize c) (headerReadSize c) (bodyReadSize c) (isForwardProxy c) (proxyAuthHeader c).
Definition set_reqsOnConn (v : Z) (c : Connection) : Connection :=
  mkConnection (id c) (host c) (port c) (config c) (hasTLS c) (hasCompressor c)
    (conn c) (stopped c) (healthy c) (cachedNow c) (timeCounter c) v (lastUsed c) (activeReqs c) (poolClaimed c)
    (latencyEWMA c) (errorCount c) (totalWindow c) (healthScore c) (pipelineDepth c) (bytesRead c) (bytesWritten c)
    (pendingReqs c) (responseReader c) (readerStopped c) (closing c) (mail c)
    (readBufSize c) (writeBufSize c) (maxRespSize c) (maxReqSize c) (headerReadSize c) (bodyReadSize c) (isForwardProxy c) (proxyAuthHeader c).
Definition set_lastUsed (v : Z) (c : Connection) : Connection :=
  mkConnection (id c) (host c) (port c) (config c) (hasTLS c) (hasCompressor c)
    (conn c) (stopped c) (healthy c) (cachedNow c) (timeCounter c) (reqsOnConn c) v (activeReqs c) (poolClaimed c)
    (latencyEWMA c) (errorCount c) (totalWindow c) (healthScore c) (pipelineDepth c) (bytesRead c) (bytesWritten c)
    (pendingReqs c) (responseReader c) (readerStopped c) (closing c) (mail c)
    (readBufSize c) (writeBufSize c) (maxRespSize c) (maxReqSize c) (headerReadSize c) (bodyReadSize c) (isForwardProxy c) (proxyAuthHeader c).
Definition set_activeReqs (v : Z) (c : Connection) : Connection :=
  mkConnection (id c) (host c) (port c) (config c) (hasTLS c) (hasCompressor c)
    (conn c) (stopped c) (healthy c) (cachedNow c) (timeCounter c) (reqsOnConn c) (lastUsed c) v (poolClaimed c)
    (latencyEWMA c) (errorCount c) (totalWindow c) (healthScore c) (pipelineDepth c) (bytesRead c) (bytesWritten c)
    (pendingReqs c) (responseReader c) (readerStopped c) (closing c) (mail c)
    (readBufSize c) (writeBufSize c) (maxRespSize c) (maxReqSize c) (headerReadSize c) (bodyReadSize c) (isForwardProxy c) (proxyAuthHeader c).
Definition set_poolClaimed (v : bool) (c : Connection) : Connection :=
  mkConnection (id c) (host c) (port c) (config c) (hasTLS c) (hasCompressor c)
    (conn c) (stopped c) (healthy c) (cachedNow c) (timeCounter c) (reqsOnConn c) (lastUsed c) (activeReqs c) v
    (latencyEWMA c) (errorCount c) (totalWindow c) (healthScore c) (pipelineDepth c) (bytesRead c) (bytesWritten c)
    (pendingReqs c) (responseReader c) (readerStopped c) (closing c) (mail c)
    (readBufSize c) (writeBufSize c) (maxRespSize c) (maxReqSize c) (headerReadSize c) (bodyReadSize c) (isForwardProxy c) (proxyAuthHeader c).
Definition set_latencyEWMA (v : Z) (c : Connection) : Connection :=
  mkConnection (id c) (host c) (port c) (config c) (hasTLS c) (hasCompressor c)
    (conn c) (stopped c) (healthy c) (cachedNow c) (timeCounter c) (reqsOnConn c) (lastUsed c) (activeReqs c) (poolClaimed c)
    v (errorCount c) (totalWindow c) (healthScore c) (pipelineDepth c) (bytesRead c) (bytesWritten c)
    (pendingReqs c) (responseReader c) (readerStopped c) (closing c) (mail c)
    (readBufSize c) (writeBufSize c) (maxRespSize c) (maxReqSize c) (headerReadSize c) (bodyReadSize c) (isForwardProxy c) (proxyAuthHeader c).
Definition set_errorCount (v : Z) (c : Connection) : Connection :=
  mkConnection (id c) (host c) (port c) (config c) (hasTLS c) (hasCompressor c)
    (conn c) (stopped c) (healthy c) (cachedNow c) (timeCounter c) (reqsOnConn c) (lastUsed c) (activeReqs c) (poolClaimed c)
    (latencyEWMA c) v (totalWindow c) (healthScore c) (pipelineDepth c) (bytesRead c) (bytesWritten c)
    (pendingReqs c) (responseReader c) (readerStopped c) (closing c) (mail c)
    (readBufSize c) (writeBufSize c) (maxRespSize c) (maxReqSize c) (headerReadSize c) (bodyReadSize c) (isForwardProxy c) (proxyAuthHeader c).
Definition set_totalWindow (v : Z) (c : Connection) : Connection :=
  mkConnection (id c) (host c) (port c) (config c) (hasTLS c) (hasCompressor c)
    (conn c) (stopped c) (healthy c) (cachedNow c) (timeCounter c) (reqsOnConn c) (lastUsed c) (activeReqs c) (poolClaimed c)
    (latencyEWMA c) (errorCount c) v (healthScore c) (pipelineDepth c) (bytesRead c) (bytesWritten c)
    (pendingReqs c) (responseReader c) (readerStopped c) (closing c) (mail c)
    (readBufSize c) (writeBufSize c) (maxRespSize c) (maxReqSize c) (headerReadSize c) (bodyReadSize c) (isForwardProxy c) (proxyAuthHeader c).
Definition set_healthScore (v : Z) (c : Connection) : Connection :=
  mkConnection (id c) (host c) (port c) (config c) (hasTLS c) (hasCompressor c)
    (conn c) (stopped c) (healthy c) (cachedNow c) (timeCounter c) (reqsOnConn c) (lastUsed c) (activeReqs c) (poolClaimed c)
    (latencyEWMA c) (errorCount c) (totalWindow c) v (pipelineDepth c) (bytesRead c) (bytesWritten c)
    (pendingReqs c) (responseReader c) (readerStopped c) (closing c) (mail c)
    (readBufSize c) (writeBufSize c) (maxRespSize c) (maxReqSize c) (headerReadSize c) (bodyReadSize c) (isForwardProxy c) (proxyAuthHeader c).
Definition set_pipelineDepth (v : Z) (c : Connection) : Connection :=
  mkConnection (id c) (host c) (port c) (config c) (hasTLS c) (hasCompressor c)
    (conn c) (stopped c) (healthy c) (cachedNow c) (timeCounter c) (reqsOnConn c) (lastUsed c) (activeReqs c) (poolClaimed c)
    (latencyEWMA c) (errorCount c) (totalWindow c) (healthScore c) v (bytesRead c) (bytesWritten c)
    (pendingReqs c) (responseReader c) (readerStopped c) (closing c) (mail c)
    (readBufSize c) (writeBufSize c) (maxRespSize c) (maxReqSize c) (headerReadSize c) (bodyReadSize c) (isForwardProxy c) (proxyAuthHeader c).
Definition set_bytesRead (v : Z) (c : Connection) : Connection :=
  mkConnection (id c) (host c) (port c) (config c) (hasTLS c) (hasCompressor c)
    (conn c) (stopped c) (healthy c) (cachedNow c) (timeCounter c) (reqsOnConn c) (lastUsed c) (activeReqs c) (poolClaimed c)
    (latencyEWMA c) (errorCount c) (totalWindow c) (healthScore c) (pipelineDepth c) v (bytesWritten c)
    (pendingReqs c) (responseReader c) (readerStopped c) (closing c) (mail c)
    (readBufSize c) (writeBufSize c) (maxRespSize c) (maxReqSize c) (headerReadSize c) (bodyReadSize c) (isForwardProxy c) (proxyAuthHeader c).
Definition set_bytesWritten (v : Z) (c : Connection) : Connection :=
  mkConnection (id c) (host c) (port c) (config c) (hasTLS c) (hasCompressor c)
    (conn c) (stopped c) (healthy c) (cachedNow c) (timeCounter c) (reqsOnConn c) (lastUsed c) (activeReqs c) (poolClaimed c)
    (latencyEWMA c) (errorCount c) (totalWindow c) (healthScore c) (pipelineDepth c) (bytesRead c) v
    (pendingReqs c) (responseReader c) (readerStopped c) (closing c) (mail c)
    (readBufSize c) (writeBufSize c) (maxRespSize c) (maxReqSize c) (headerReadSize c) (bodyReadSize c) (isForwardProxy c) (proxyAuthHeader c).
Definition set_pendingReqs (v : list PendingRequest) (c : Connection) : Connection :=
  mkConnection (id c) (host c) (port c) (config c) (hasTLS c) (hasCompressor c)
    (conn c) (stopped c) (healthy c) (cachedNow c) (timeCounter c) (reqsOnConn c) (lastUsed c) (activeReqs c) (poolClaimed c)
    (latencyEWMA c) (errorCount c) (totalWindow c) (healthScore c) (pipelineDepth c) (bytesRead c) (bytesWritten c)
    v (responseReader c) (readerStopped c) (closing c) (mail c)
    (readBufSize c) (writeBufSize c) (maxRespSize c) (maxReqSize c) (headerReadSize c) (bodyReadSize c) (isForwardProxy c) (proxyAuthHeader c).
Definition set_responseReader (v : bool) (c : Connection) : Connection :=
  mkConnection (id c) (host c) (port c) (config c) (hasTLS c) (hasCompressor c)
    (conn c) (stopped c) (healthy c) (cachedNow c) (timeCounter c) (reqsOnConn c) (lastUsed c) (activeReqs c) (poolClaimed c)
    (latencyEWMA c) (errorCount c) (totalWindow c) (healthScore c) (pipelineDepth c) (bytesRead c) (bytesWritten c)
    (pendingReqs c) v (readerStopped c) (closing c) (mail c)
    (readBufSize c) (writeBufSize c) (maxRespSize c) (maxReqSize c) (headerReadSize c) (bodyReadSize c) (isForwardProxy c) (proxyAuthHeader c).
Definition set_readerStopped (v : Z) (c : Connection) : Connection :=
  mkConnection (id c) (host c) (port c) (config c) (hasTLS c) (hasCompressor c)
    (conn c) (stopped c) (healthy c) (cachedNow c) (timeCounter c) (reqsOnConn c) (lastUsed c) (activeReqs c) (poolClaimed c)
    (latencyEWMA c) (errorCount c) (totalWindow c) (healthScore c) (pipelineDepth c) (bytesRead c) (bytesWritten c)
    (pendingReqs c) (responseReader c) v (closing c) (mail c)
    (readBufSize c) (writeBufSize c) (maxRespSize c) (maxReqSize c) (headerReadSize c) (bodyReadSize c) (isForwardProxy c) (proxyAuthHeader c).
Definition set_closing (v : Z) (c : Connection) : Connection :=
  mkConnection (id c) (host c) (port c) (config c) (hasTLS c) (hasCompressor c)
    (conn c) (stopped c) (healthy c) (cachedNow c) (timeCounter c) (reqsOnConn c) (lastUsed c) (activeReqs c) (poolClaimed c)
    (latencyEWMA c) (errorCount c) (totalWindow c) (healthScore c) (pipelineDepth c) (bytesRead c) (bytesWritten c)
    (pendingReqs c) (responseReader c) (readerStopped c) v (mail c)
    (readBufSize c) (writeBufSize c) (maxRespSize c) (maxReqSize c) (headerReadSize c) (bodyReadSize c) (isForwardProxy c) (proxyAuthHeader c).
Definition set_mail (v : gmap nat mailbox) (c : Connection) : Connection :=
  mkConnection (id c) (host c) (port c) (config c) (hasTLS c) (hasCompressor c)
    (conn c) (stopped c) (healthy c) (cachedNow c) (timeCounter c) (reqsOnConn c) (lastUsed c) (activeReqs c) (poolClaimed c)
    (latencyEWMA c) (errorCount c) (totalWindow c) (healthScore c) (pipelineDepth c) (bytesRead c) (bytesWritten c)
    (pendingReqs c) (responseReader c) (readerStopped c) (closing c) v
    (readBufSize c) (writeBufSize c) (maxRespSize c) (maxReqSize c) (headerReadSize c) (bodyReadSize c) (isForwardProxy c) (proxyAuthHeader c).

(** ** Construction *)

Definition orElse (n d : Z) : Z := if n <=? 0 then d else n.

(** [NewConnection(id, host, port, config, dialer, tlsConfig, compressor)]:
    [forwardProxy] and [authHeader] are what the dialer answers. *)
Definition NewConnection (id : Z) (host : bytes) (port : Z) (cfg : Config)
    (hasTLS hasCompressor forwardProxy : bool) (authHeader : bytes) (now : Z) : Connection :=
  let depth := i32 (Cfg.MaxPipelinedRequests cfg) in
  mkConnection id host port cfg hasTLS hasCompressor
    None 0 0 now 0 0 now 0 false
    0 0 0 0 (if depth <=? 0 then 10 else depth) 0 0
    [] false 0 0 ∅
    (orElse (Cfg.ReadBufferSize cfg) (64 * 1024)) (orElse (Cfg.WriteBufferSize cfg) (64 * 1024))
    (orElse (Cfg.MaxResponseBodySize cfg) (10 * 1024 * 1024))
    (orElse (Cfg.MaxRequestBodySize cfg) (10 * 1024 * 1024))
    (orElse (Cfg.HeaderReadChunkSize cfg) (4 * 1024)) (orElse (Cfg.BodyReadChunkSize cfg) (64 * 1024))
    forwardProxy (if forwardProxy then authHeader else []).

(** ** Buffers *)

(** The size of the slice [getReadBuf] and [getWriteBuf] return, [pooled] being
    the length of the one the pool hands out and [limit] the configured size. *)
Definition getBufSize (pooled limit requiredSize : Z) : Z :=
  if requiredSize <=? pooled then pooled
  else
    let newSize := i64 (pooled * 2) in
    let newSize := if newSize <? requiredSize then requiredSize else newSize in
    if (limit <? newSize) && (limit <? requiredSize) then requiredSize
    else
      let newSize := if limit <? newSize then limit else newSize in
      roundUp newSize 4096.
Definition getReadBuf (c : Connection) (pooled requiredSize : Z) : Z :=
  getBufSize pooled (readBufSize c) requiredSize.
Definition getWriteBuf (c : Connection) (pooled requiredSize : Z) : Z :=
  getBufSize pooled (writeBufSize c) requiredSize.

(** [putReadBuf], [putWriteBuf]: the size of the slice put back. *)
Definition putReadBuf (size : Z) : Z :=
  if initialConnectionReadBufSize * 4 <? size then initialConnectionReadBufSize else size.
Definition putWriteBuf (size : Z) : Z :=
  if initialConnectionWriteBufSize * 4 <? size then initialConnectionWriteBufSize else size.

(** ** Health *)

Definition IsHealthy (c : Connection) : bool := (healthy c =? 1) && (stopped c =? 0).

Definition CanAcceptRequest (c : Connection) : bool :=
  if negb (IsHealthy c) then false
  else if Cfg.EnablePipelining (config c) then
    let max := if pipelineDepth c <=? 0 then 10 else pipelineDepth c in
    activeReqs c <? max
  else activeReqs c =? 0.

(** [tunePipelineDepth(ewmaNs)] *)
Definition tunePipelineDepth (ewmaNs : Z) (c : Connection) : Connection :=
  let ms := Z.quot ewmaNs 1000000 in
  let cur := pipelineDepth c in
  let maxDepth := i32 (Cfg.MaxPipelinedRequests (config c)) in
  let maxDepth := if maxDepth <=? 0 then 10 else maxDepth in
  let maxDepth := if 32 <? maxDepth then 32 else maxDepth in
  if ms <? 10 then
    let target := i32 (cur + 1) in
    set_pipelineDepth (if maxDepth <? target then maxDepth else target) c
  else if 100 <? ms then
    let target := i32 (cur - 1) in
    set_pipelineDepth (if target <? 1 then 1 else target) c
  else c.

(** [advanceHealthWindow(isError)]; the argument is not used by the code. *)
Definition advanceHealthWindow (c : Connection) : Connection :=
  let total := i32 (totalWindow c + 1) in
  let c := set_totalWindow total c in
  if total <? healthWindowSize then c
  else
    let errors := errorCount c in
    let c := set_totalWindow 0 (set_errorCount 0 c) in
    let score := 100 in
    let latMs := Z.quot (latencyEWMA c) 1000000 in
    let score := if 50 <? latMs then
                   let penalty := Z.quot (latMs - 50) 10 in
                   let penalty := if 60 <? penalty then 60 else penalty in
                   i32 (score - i32 penalty)
                 else score in
    let score := if 0 <? errors then
                   i32 (score - Z.quot (i32 (40 * errors)) (i32 healthWindowSize))
                 else score in
    set_healthScore (if score <? 0 then 0 else score) c.

(** [recordSuccess(elapsed)] *)
Definition recordSuccess (elapsed : Z) (c : Connection) : Connection :=
  if negb (Cfg.EnableHealthScoring (config c)) then c
  else
    let old := latencyEWMA c in
    let newEWMA := if old =? 0 then elapsed
                   else i64 (old + Z.shiftr (i64 (elapsed - old)) 3) in
    let c := advanceHealthWindow (set_latencyEWMA newEWMA c) in
    if Cfg.EnablePipelineAutoTune (config c) && Cfg.EnablePipelining (config c)
    then tunePipelineDepth newEWMA c else c.

(** [recordError()] *)
Definition recordError (c : Connection) : Connection :=
  if negb (Cfg.EnableHealthScoring (config c)) then c
  else advanceHealthWindow (set_errorCount (i32 (errorCount c + 1)) c).

(** [HealthScore()] *)
Definition HealthScore (c : Connection) : Z :=
  if (healthScore c =? 0) && (latencyEWMA c =? 0) then 100 else healthScore c.

(** [updateTimeCache()] *)
Definition updateTimeCache (now : Z) (c : Connection) : Connection :=
  let ctr := u32 (timeCounter c + 1) in
  let c := set_timeCounter ctr c in
  if Z.land ctr 127 =? 0 then set_lastUsed now (set_cachedNow now c)
  else set_lastUsed (cachedNow c) c.

(** [effectiveReadTimeout(req)]; [remaining] is the time left to the deadline of the
    request's context, if it has one. *)
Definition effectiveReadTimeout (c : Connection) (req : Request) (remaining : option Z) : Z :=
  let t := if Req.ReadTimeout req =? 0 then Cfg.ReadTimeout (config c) else Req.ReadTimeout req in
  match remaining with
  | None => t
  | Some rem =>
      if rem <=? 0 then Millisecond
      else if (t =? 0) || (rem <? t) then rem else t
  end.

(** ** Closing and reconnecting *)

(** Post the error to every pending request. *)
Definition failPending (e : error) (ps : list PendingRequest) (m : gmap nat mailbox) : gmap nat mailbox :=
  foldl (λ m p, alter (λ b, mkMail (mb_response b) (offer (mb_err b) e) (mb_cancelled b)) (pr_id p) m) m ps.

(** [closeConn()] *)
Definition closeConn (c : Connection) : Connection :=
  if negb (closing c =? 0) then c
  else
    let c := set_closing 1 c in
    let c := set_conn None c in
    let c := set_healthy 0 c in
    let closeErr := WrapError ErrorTypeNetwork "connection closed" (ESentinel ErrConnectFailed) in
    let c := set_mail (failPending closeErr (pendingReqs c) (mail c)) c in
    let c := set_pendingReqs [] c in
    set_readerStopped 1 (set_responseReader false c).

(** [Stop()] *)
Definition Stop (c : Connection) : Connection :=
  if negb (stopped c =? 0) then c else closeConn (set_stopped 1 c).

(** The connection is healthy and not idle for too long. *)
Definition reusable (c : Connection) : bool :=
  (healthy c =? 1)
  && (if 0 <? Cfg.IdleTimeout (config c)
      then i64 (cachedNow c - lastUsed c) <=? Cfg.IdleTimeout (config c) else true).

(** [connectLocked()]; [dial] is the connection the dialer and the TLS handshake
    yield, or their error. *)
Definition connectLocked (dial : error + NetConn) (c : Connection) : option error * Connection :=
  match dial with
  | inl e => (Some e, c)
  | inr n => (None, set_healthy 1 (set_reqsOnConn 0 (set_conn (Some n) c)))
  end.

(** [ensureConnection()] *)
Definition ensureConnection (dial : error + NetConn) (now : Z) (c : Connection) : bool * Connection :=
  if reusable c then (true, c)
  else
    let c := set_healthy 0 (set_conn None c) in
    match connectLocked dial c with
    | (Some _, c) => (false, c)
    | (None, c) =>
        let c := set_readerStopped 0 (set_closing 0 c) in
        (true, set_timeCounter 0 (set_lastUsed now (set_cachedNow now c)))
    end.

(** [removePending(pending)] *)
Fixpoint removeFirst (i : nat) (ps : list PendingRequest) : list PendingRequest :=
  match ps with
  | [] => []
  | p :: t => if (pr_id p =? i)%nat then t else p :: removeFirst i t
  end.
Definition removePending (i : nat) (c : Connection) : Connection :=
  set_pendingReqs (removeFirst i (pendingReqs c)) c.

End Con.
Abbreviation Connection := Con.Connection.

(** ** Sending and receiving *)

Section wire.

Variable gzip : bytes → error + bytes.
Variable gunzip : bytes → gzipResult.

(** [prepareBody(req)]: the body to send and whether it is compressed. *)
Definition prepareBody (c : Connection) : go Request error (bytes * bool) :=
  r ← get;
  let body := Req.Body r in
  if Con.maxReqSize c <? len body then fail (ESentinel ErrRequestTooLarge)
  else if Req.Compressed r && Con.hasCompressor c && (0 <? len body) then
    let needed := i64 (len body + len body / 10 + 100) in
    let needed := if (0 <? Req.maxBodySize r) && (Req.maxBodySize r <? needed)
                  then Req.maxBodySize r else needed in
    ok ← Req.ensureBodyBufferSize needed;
    if negb ok then
      fail (WrapError ErrorTypeInternal "body buffer too small for compression" (ESentinel ErrRequestTooLarge))
    else
      r ← get;
      match CompressInto gzip (Req.bodyBuf r) body with
      | (inl e, _) => fail (WrapError ErrorTypeInternal "compression failed" e)
      | (inr comp, dst) =>
          _ ← modify (Req.set_bodyBuf dst);
          if 0 <? len comp then mret (comp, true) else mret (body, false)
      end
  else mret (body, false).

(** Run a writer on the outgoing side. *)
Definition onWr {A} (m : go WConn error A) : go NetConn error A := λ n,
  let '(o, w) := m (wr n) in (o, mkNet (rd n) w (deadlineErr n)).

(** The error a call reports, wrapped. *)
Definition wrapErr {S A} (t : ErrorType) (msg : string) (m : go S error A) : go S error A := λ s,
  match m s with
  | (Fail e, s') => (Fail (WrapError t msg e), s')
  | x => x
  end.

(** [conn.SetWriteDeadline], [conn.SetReadDeadline] with a positive timeout. *)
Definition setDeadline (timeout : Z) (msg : string) : go NetConn error unit := λ n,
  match deadlineErr n with
  | Some e => if 0 <? timeout then (Fail (WrapError ErrorTypeNetwork msg e), n) else (Ret tt, n)
  | None => (Ret tt, n)
  end.

(** [(c *Connection) writeRequest(conn, req, body, compressed, timeout)]; [pooled]
    is the length of the write buffer the pool hands out. *)
Definition connWriteRequest (c : Connection) (req : Request) (body : bytes) (compressed : bool)
    (timeout pooled : Z) : go NetConn error unit :=
  _ ← setDeadline timeout "set write deadline failed";
  if (0 <? length (Req.PreEncodedHeaderPrefix req))%nat then
    let clLine := take 64 (str "Content-Length: " ++ Itoa (len body) ++ headerSep) in
    wrapErr ErrorTypeNetwork "write pre-encoded request failed"
      (onWr (buffersWriteTo [Req.PreEncodedHeaderPrefix req; clLine; body]))
  else
    let part1Buf := replicate (Z.to_nat (Con.getWriteBuf c pooled 512)) 0 in
    match writeRequestPart1 req (Con.config c) (Con.host c) (Con.port c)
            (Cfg.UseTLS (Con.config c)) compressed (Con.isForwardProxy c) (part1Buf, 0%nat) with
    | (Fail e, _) => fail (WrapError ErrorTypeInternal "encode request part1 failed" e)
    | (Panic, _) => panic
    | (Hang, _) => hang
    | (Ret p1, (part1Buf, _)) =>
        match writeRequestPart3 req (len body) (Con.proxyAuthHeader c) (replicate 128 0, 0%nat) with
        | (Fail e, _) => fail (WrapError ErrorTypeInternal "encode request part3 failed" e)
        | (Panic, _) => panic
        | (Hang, _) => hang
        | (Ret p3, (part3Buf, _)) =>
            let headerBlock := if (0 <? Req.headerLen req)%nat
                               then take (Req.headerLen req) (Req.headerBuf req) else [] in
            _ ← wrapErr ErrorTypeNetwork "write request failed"
                  (onWr (buffersWriteTo [take p1 part1Buf; headerBlock; take p3 part3Buf]));
            if 0 <? len body
            then wrapErr ErrorTypeNetwork "write body failed" (onWr (writeAll body))
            else mret tt
        end
    end.

(** [(c *Connection) readResponse(conn, resp, timeout, method)]; [pooled] is the
    length of the read buffer the pool hands out. *)
Definition connReadResponse (c : Connection) (timeout pooled : Z) (method : bytes)
    : go (NetConn * Response) error unit :=
  _ ← onL (setDeadline timeout "set read deadline failed");
  let cap := Con.getReadBuf c pooled (Con.readBufSize c) in
  _ ← (λ s, let '(o, (r, p)) :=
              readResponse cap (Con.maxRespSize c) method (Con.headerReadSize c)
                (Con.bodyReadSize c) (rd s.1, s.2) in
            (o, (mkNet r (wr s.1) (deadlineErr s.1), p)));
  onR (decompressBody gunzip).

End wire.

(** ** doSequential *)

(** What the surroundings answer during one round trip: the clock and the measured
    latency, the error of a context that is already done, the time left to its
    deadline, the result of a dial, and the sizes of the pooled buffers. *)
Record surroundings := mkEnv {
  env_now : Z;
  env_elapsed : Z;
  env_ctxErr : option error;
  env_remaining : option Z;
  env_dial : error + NetConn;
  env_pooledRead : Z;
  env_pooledWrite : Z
}.

(** The objects a round trip works on. *)
Record trip := mkTrip { t_conn : Connection; t_req : Request; t_resp : option Response }.

Definition updConn (f : Connection → Connection) : go trip error unit :=
  modify (λ t, mkTrip (f (t_conn t)) (t_req t) (t_resp t)).
Definition updResp (f : Response → Response) : go trip error unit :=
  modify (λ t, mkTrip (t_conn t) (t_req t) (f <$> t_resp t)).

(** Run a computation on the request. *)
Definition onReq {A} (m : go Request error A) : go trip error A := λ t,
  let '(o, r) := m (t_req t) in (o, mkTrip (t_conn t) r (t_resp t)).

(** Run a computation on the network connection, which was checked to be there,
    and on the response object of the request. *)
Definition onNet {A} (m : go (NetConn * Response) error A) : go trip error A := λ t,
  match Con.conn (t_conn t), t_resp t with
  | Some n, Some p =>
      let '(o, (n', p')) := m (n, p) in
      (o, mkTrip (Con.set_conn (Some n') (t_conn t)) (t_req t) (Some p'))
  | _, _ => (Panic, t)
  end.

(** The same with a response object of its own, which is returned. *)
Definition onNetTemp {A} (p : Response) (m : go (NetConn * Response) error A) : go trip error Response := λ t,
  match Con.conn (t_conn t) with
  | None => (Panic, t)
  | Some n =>
      let '(o, (n', p')) := m (n, p) in
      let t' := mkTrip (Con.set_conn (Some n') (t_conn t)) (t_req t) (t_resp t) in
      match o with
      | Ret _ => (Ret p', t')
      | Fail e => (Fail e, t')
      | Panic => (Panic, t')
      | Hang => (Hang, t')
      end
  end.

(** [defer f()]: [f] runs whatever happened; [onError]: only before returning an
    error. *)
Definition deferred {A} (f : Connection → Connection) (m : go trip error A) : go trip error A := λ t,
  let '(o, t') := m t in (o, mkTrip (f (t_conn t')) (t_req t') (t_resp t')).
Definition onError {A} (f : Connection → Connection) (m : go trip error A) : go trip error A := λ t,
  match m t with
  | (Fail e, t') => (Fail e, mkTrip (f (t_conn t')) (t_req t') (t_resp t'))
  | x => x
  end.

(** [err := m()]: the error is handed over instead of returned. *)
Definition attempt {S A} (m : go S error A) : go S error (option error) := λ s,
  match m s with
  | (Ret _, s') => (Ret None, s')
  | (Fail e, s') => (Ret (Some e), s')
  | (Panic, s') => (Panic, s')
  | (Hang, s') => (Hang, s')
  end.

Definition addActive (d : Z) (c : Connection) : Connection :=
  Con.set_activeReqs (i32 (Con.activeReqs c + d)) c.
Definition addReqs (c : Connection) : Connection :=
  Con.set_reqsOnConn (i32 (Con.reqsOnConn c + 1)) c.
Definition unhealthy (c : Connection) : Connection := Con.set_healthy 0 c.

Section sequential.

Variable gzip : bytes → error + bytes.
Variable gunzip : bytes → gzipResult.
Variable env : surroundings.

(** The rotation after [MaxRequestsPerConn] requests. *)
Definition rotate (msg : string) : go trip error unit :=
  t ← get;
  let c := t_conn t in
  let max := Cfg.MaxRequestsPerConn (Con.config c) in
  if (0 <? max) && (max <=? Con.reqsOnConn c) then
    _ ← updConn Con.closeConn;
    t ← get;
    let '(ok, c) := Con.ensureConnection (env_dial env) (env_now env) (t_conn t) in
    _ ← updConn (λ _, c);
    if ok : bool then mret tt
    else fail (WrapError ErrorTypeNetwork msg (ESentinel ErrConnectFailed))
  else mret tt.

Definition sendOn (body : bytes) (compressed : bool) : go trip error unit :=
  t ← get;
  let writeTimeout := if Req.WriteTimeout (t_req t) =? 0
                      then Cfg.WriteTimeout (Con.config (t_conn t)) else Req.WriteTimeout (t_req t) in
  onError unhealthy
    (onNet (onL (connWriteRequest (t_conn t) (t_req t) body compressed writeTimeout (env_pooledWrite env)))).

Definition readTimeoutOf (t : trip) : Z :=
  Con.effectiveReadTimeout (t_conn t) (t_req t) (env_remaining env).

(** The bookkeeping after a response was taken off the connection. *)
Definition settled (c : Connection) : Connection :=
  Con.updateTimeCache (env_now env) (addReqs c).

(** The [ExpectContinue] branch; [true] when the interim answer is final. *)
Definition expectContinue (body : bytes) (compressed : bool) : go trip error bool :=
  _ ← sendOn [] compressed;
  t ← get;
  let fresh := mkResponse 0 0 BNil [] (replicate 512 0) 0 [] in
  cr ← onError unhealthy
         (onNetTemp fresh (connReadResponse gunzip (t_conn t) (readTimeoutOf t)
                             (env_pooledRead env) (Req.Method (t_req t))));
  if negb (StatusCode cr =? 100) then
    _ ← updResp (λ r, mkResponse (StatusCode cr) (ContentLength cr) (BOwn (bodyBytes cr))
                        (Headers cr) (bodyBuf r) (maxSize r) (rawHeaderBuf r));
    _ ← updConn settled;
    mret true
  else
    _ ← onError unhealthy
          (wrapErr ErrorTypeNetwork "write body after 100-continue failed" (onNet (onL (onWr (writeAll body)))));
    mret false.

(** What is returned for a read error without a status. *)
Definition readFailure (e : error) : error :=
  if errorsAsNetTimeout e then WrapError ErrorTypeTimeout "read timeout" e
  else match e with
       | EEOF => WrapError ErrorTypeNetwork "connection closed by server" e
       | _ => e
       end.

(** Reading the response and the bookkeeping behind it. *)
Definition receive (bodyLen : Z) : go trip error unit :=
  t ← get;
  err ← attempt (onNet (connReadResponse gunzip (t_conn t) (readTimeoutOf t)
                          (env_pooledRead env) (Req.Method (t_req t))));
  t ← get;
  let status := default 0 (StatusCode <$> t_resp t) in
  match err with
  | Some e =>
      if 0 <? status then updConn settled
      else
        _ ← updConn (λ c, Con.recordError (unhealthy c));
        fail (readFailure e)
  | None =>
      let clen := default 0 (ContentLength <$> t_resp t) in
      _ ← updConn (λ c,
            let c := Con.recordSuccess (env_elapsed env) (settled c) in
            let c := Con.set_bytesWritten (i64 (Con.bytesWritten c + bodyLen)) c in
            Con.set_bytesRead (i64 (Con.bytesRead c + clen)) c);
      if default false (isConnectionClose <$> t_resp t) then updConn unhealthy else mret tt
  end.

(** [doSequential(req)]; the response returned is [t_resp]. *)
Definition doSequential : go trip error unit :=
  _ ← updConn (λ c, if Con.poolClaimed c then Con.set_poolClaimed false c else addActive 1 c);
  deferred (addActive (-1))
    (_ ← (match env_ctxErr env with
          | Some e => fail (WrapError ErrorTypeTimeout "request cancelled" e)
          | None => mret tt
          end);
     _ ← rotate "connection not available";
     t ← get;
     match Con.conn (t_conn t) with
     | None => fail (WrapError ErrorTypeNetwork "connection is nil" (ESentinel ErrConnectFailed))
     | Some _ =>
         '(body, compressed) ← onReq (prepareBody gzip (t_conn t));
         match t_resp t with
         | None => fail (WrapError ErrorTypeInternal "response object is nil" (ESentinel ErrInvalidResponse))
         | Some _ =>
             _ ← updResp Reset;
             final ← (if Req.ExpectContinue (t_req t) && (0 <? len body)
                      then expectContinue body compressed
                      else _ ← sendOn body compressed; mret false);
             if final : bool then mret tt else receive (len body)
         end
     end).

End sequential.
