(* ===== verification/ConnectionProps.v ===== *)
(** * ConnectionProps: accounting, sending and the sequential round trip *)

From stdpp Require Import prelude list gmap.
From Stdlib Require Import SpecFloat.
From S2P Require Import Prelude Errors Strconv Float Config IO Scan Response Parser ParserTotal ParserFacts.
From S2P Require Import ParserSpec ResponseProps Request RequestProps Writer WriterProps Compressor Connection.

(** ** Health and latency accounting *)

(** The depth a connection starts with, and the bound of the tuner. *)
Definition startDepth (cfg : Config) : Z :=
  let d := i32 (Cfg.MaxPipelinedRequests cfg) in if d <=? 0 then 10 else d.

Record accounted (c : Connection) : Prop := {
  ac_errors : 0 ≤ Con.errorCount c ≤ Con.totalWindow c;
  ac_window : Con.totalWindow c < healthWindowSize;
  ac_score : 0 ≤ Con.healthScore c ≤ 100;
  ac_depth : 1 ≤ Con.pipelineDepth c ≤ startDepth (Con.config c);
  ac_max : startDepth (Con.config c) < 2 ^ 31 - 1;
  ac_ewma : 0 ≤ Con.latencyEWMA c < 2 ^ 62
}.

Definition i32_range (z : Z) : Prop := - 2 ^ 31 ≤ z < 2 ^ 31.

Lemma i32_small z : i32_range z → i32 z = z.
Proof.
  unfold i32_range, wrap. intros H. change (32 - 1) with 31. rewrite Z.mod_small; lia.
Qed.

Lemma i32_bound z : i32_range (i32 z).
Proof.
  unfold i32_range, wrap. change (32 - 1) with 31.
  pose proof (Z.mod_pos_bound (z + 2 ^ 31) (2 ^ 32) ltac:(lia)). lia.
Qed.

Lemma startDepth_bounds cfg : 1 ≤ startDepth cfg < 2 ^ 31.
Proof.
  unfold startDepth. pose proof (i32_bound (Cfg.MaxPipelinedRequests cfg)). unfold i32_range in *.
  case_if; lia.
Qed.

(** The score computed at the end of a window is a percentage. *)
Lemma advanceHealthWindow_accounted c :
  0 ≤ Con.errorCount c ≤ Con.totalWindow c + 1 → Con.totalWindow c < healthWindowSize →
  0 ≤ Con.healthScore c ≤ 100 → 1 ≤ Con.pipelineDepth c ≤ startDepth (Con.config c) →
  startDepth (Con.config c) < 2 ^ 31 - 1 →
  0 ≤ Con.latencyEWMA c < 2 ^ 62 → accounted (Con.advanceHealthWindow c).
Proof.
  intros He Hw Hs Hd Hm Hl. unfold healthWindowSize in *. unfold Con.advanceHealthWindow. cbv zeta.
  rewrite (i32_small (Con.totalWindow c + 1)) by (unfold i32_range; lia).
  unfold healthWindowSize.
  case_if; [split; simpl; unfold healthWindowSize; lia |].
  split; cbn [Con.set_healthScore Con.set_totalWindow Con.set_errorCount Con.errorCount Con.totalWindow
              Con.healthScore Con.pipelineDepth Con.config Con.latencyEWMA]; try done; try lia.
  set (lat := Z.quot (Con.latencyEWMA c) 1000000). set (e := Con.errorCount c) in *.
  assert (∀ p, 0 ≤ p ≤ 60 → 40 ≤ i32 (100 - i32 p) ≤ 100) as Hp.
  { intros p Hp. rewrite (i32_small p), i32_small by (unfold i32_range; lia). lia. }
  set (s1 := if 50 <? lat then _ else _).
  assert (40 ≤ s1 ≤ 100) as Hs1.
  { unfold s1. case_if; [| lia]. apply Hp. case_if; [lia |]. split; [apply Z.quot_pos; lia | done]. }
  set (s2 := if 0 <? e then _ else _).
  assert (0 ≤ s2 ≤ 100) as Hs2; [| case_if; lia].
  unfold s2. case_if; [| lia].
  rewrite (i32_small (40 * e)), (i32_small 50) by (unfold i32_range; lia).
  assert (0 ≤ Z.quot (40 * e) 50 ≤ 40) by (rewrite Z.quot_div_nonneg by lia; dlia).
  rewrite i32_small by (unfold i32_range; lia). lia.
Qed.

Lemma tunePipelineDepth_accounted ns c : accounted c → accounted (Con.tunePipelineDepth ns c).
Proof.
  intros [He Hw Hs Hd Hm Hl]. pose proof (startDepth_bounds (Con.config c)) as Hb.
  unfold Con.tunePipelineDepth. cbv zeta.
  fold (startDepth (Con.config c)). set (m := startDepth (Con.config c)) in *.
  set (m' := if 32 <? m then 32 else m). assert (1 ≤ m' ≤ m) as Hm' by (unfold m'; case_if; lia).
  rewrite (i32_small (Con.pipelineDepth c + 1)), (i32_small (Con.pipelineDepth c - 1))
    by (unfold i32_range; lia).
  repeat case_if; split; simpl; try done; fold m; lia.
Qed.

(** The moving average stays between the old average and the new sample. *)
Lemma ewma_between old ns :
  0 ≤ old < 2 ^ 62 → 0 ≤ ns < 2 ^ 62 →
  let new := if old =? 0 then ns else i64 (old + Z.shiftr (i64 (ns - old)) 3) in
  Z.min old ns ≤ new ≤ Z.max old ns.
Proof.
  intros Ho Hn. cbv zeta. case_if; [lia |].
  rewrite (i64_small (ns - old)) by (unfold int64_range; lia).
  rewrite Z.shiftr_div_pow2 by lia. change (2 ^ 3) with 8.
  assert (Z.min old ns ≤ old + (ns - old) / 8 ≤ Z.max old ns) as H by dlia.
  rewrite i64_small by (unfold int64_range; lia). lia.
Qed.

Lemma recordSuccess_accounted ns c :
  0 ≤ ns < 2 ^ 62 → accounted c → accounted (Con.recordSuccess ns c).
Proof.
  intros Hns [He Hw Hs Hd Hm Hl]. unfold Con.recordSuccess.
  destruct (negb _); [by split |]. cbv zeta.
  pose proof (ewma_between (Con.latencyEWMA c) ns Hl Hns) as He'. cbv zeta in He'.
  set (new := if _ =? 0 then _ else _) in *.
  assert (accounted (Con.advanceHealthWindow (Con.set_latencyEWMA new c))) as Ha.
  { apply advanceHealthWindow_accounted; simpl; lia. }
  destruct (_ && _); [by apply tunePipelineDepth_accounted | done].
Qed.

Lemma recordError_accounted c : accounted c → accounted (Con.recordError c).
Proof.
  intros [He Hw Hs Hd Hm Hl]. unfold Con.recordError. destruct (negb _); [by split |].
  unfold healthWindowSize in *.
  apply advanceHealthWindow_accounted; simpl; try done; try lia.
  rewrite i32_small by (unfold i32_range; lia). lia.
Qed.

(** *** The number of requests in flight, which the accounting leaves alone *)

Lemma active_closeConn c : Con.activeReqs (Con.closeConn c) = Con.activeReqs c.
Proof. unfold Con.closeConn. by case_if. Qed.
Lemma active_ensure dial now c : Con.activeReqs (Con.ensureConnection dial now c).2 = Con.activeReqs c.
Proof. unfold Con.ensureConnection, Con.connectLocked. case_if; [done |]. by destruct dial. Qed.
Lemma active_advance c : Con.activeReqs (Con.advanceHealthWindow c) = Con.activeReqs c.
Proof. unfold Con.advanceHealthWindow. cbv zeta. by case_if. Qed.
Lemma active_tune ns c : Con.activeReqs (Con.tunePipelineDepth ns c) = Con.activeReqs c.
Proof. unfold Con.tunePipelineDepth. cbv zeta. case_if; [done |]. by case_if. Qed.
Lemma active_recordError c : Con.activeReqs (Con.recordError c) = Con.activeReqs c.
Proof. unfold Con.recordError. destruct (negb _); [done |]. by rewrite active_advance. Qed.
Lemma active_recordSuccess ns c : Con.activeReqs (Con.recordSuccess ns c) = Con.activeReqs c.
Proof.
  unfold Con.recordSuccess. destruct (negb _); [done |]. cbv zeta.
  destruct (_ && _); rewrite ?active_tune, active_advance; done.
Qed.
Lemma active_updateTimeCache now c : Con.activeReqs (Con.updateTimeCache now c) = Con.activeReqs c.
Proof. unfold Con.updateTimeCache. cbv zeta. by case_if. Qed.

#[export] Hint Rewrite active_closeConn active_ensure active_recordError active_recordSuccess
  active_updateTimeCache : burst.

(** What happens to a connection during its life. *)
Inductive lifeEvent :=
  | LSuccess (ns : Z)
  | LError
  | LBegin
  | LEnd
  | LConnect (dial : error + NetConn) (now : Z)
  | LUnhealthy
  | LClose
  | LStop.

Definition lived (c : Connection) (e : lifeEvent) : Connection :=
  match e with
  | LSuccess ns => Con.recordSuccess ns c
  | LError => Con.recordError c
  | LBegin => addActive 1 c
  | LEnd => addActive (-1) c
  | LConnect dial now => (Con.ensureConnection dial now c).2
  | LUnhealthy => unhealthy c
  | LClose => Con.closeConn c
  | LStop => Con.Stop c
  end.

(** Latencies below 2^62 ns, over a century. *)
Definition plausible (e : lifeEvent) : Prop :=
  match e with LSuccess ns => 0 ≤ ns < 2 ^ 62 | _ => True end.

(** The window of the last requests: how many there are, and how many of them failed;
    the 50th completes the window. *)
Definition windowAfter (w : Z * Z) (e : lifeEvent) : Z * Z :=
  let push d := if w.1 + 1 =? 50 then (0, 0) else (w.1 + 1, w.2 + d) in
  match e with LSuccess _ => push 0 | LError => push 1 | _ => w end.

Definition activeAfter (n : Z) (e : lifeEvent) : Z :=
  match e with LBegin => n + 1 | LEnd => n - 1 | _ => n end.

(** The fields the health accounting is about, which the other operations keep. *)
Definition ledger (c : Connection) : Z * Z * Z * Z * Z * Config :=
  (Con.errorCount c, Con.totalWindow c, Con.healthScore c, Con.pipelineDepth c, Con.latencyEWMA c, Con.config c).

Lemma ledger_accounted c c' : ledger c' = ledger c → accounted c → accounted c'.
Proof. intros [= E1 E2 E3 E4 E5 E6] []. split; congruence. Qed.

Lemma ledger_ensure dial now c : ledger (Con.ensureConnection dial now c).2 = ledger c.
Proof. unfold Con.ensureConnection, Con.connectLocked. case_if; [done |]. by destruct dial. Qed.
Lemma ledger_close c : ledger (Con.closeConn c) = ledger c.
Proof. unfold Con.closeConn. by case_if. Qed.
Lemma ledger_Stop c : ledger (Con.Stop c) = ledger c.
Proof. unfold Con.Stop. destruct (negb _); [done |]. by rewrite ledger_close. Qed.

Lemma ledger_other c e :
  match e with LSuccess _ | LError => False | _ => True end → ledger (lived c e) = ledger c.
Proof.
  destruct e; simpl; try done; intros _; [apply ledger_ensure | apply ledger_close | apply ledger_Stop].
Qed.

Definition window (c : Connection) : Z * Z := (Con.totalWindow c, Con.errorCount c).

(** An operation outside the accounting. *)
Lemma lived_other c e :
  match e with LSuccess _ | LError => False | _ => True end →
  window (lived c e) = window c ∧ Con.config (lived c e) = Con.config c.
Proof. intros H%(ledger_other c). injection H as E1 E2 _ _ _ E6. unfold window. by rewrite E1, E2, E6. Qed.

(** The accounting says nothing of the requests in flight. *)
Lemma active_lived c e :
  Con.activeReqs (lived c e) = match e with LBegin | LEnd => i32 (activeAfter (Con.activeReqs c) e) | _ => Con.activeReqs c end.
Proof. destruct e; simpl; autorewrite with burst; try done. unfold Con.Stop. destruct (negb _); by autorewrite with burst. Qed.

Lemma i32_off z : ∃ q, i32 z = z + q * 2 ^ 32.
Proof.
  exists (- ((z + 2 ^ 31) / 2 ^ 32)). unfold wrap. change (32 - 1) with 31. rewrite Z.mod_eq by lia. lia.
Qed.

Lemma i32_eq z z' k : z = z' + k * 2 ^ 32 → i32 z = i32 z'.
Proof.
  intros ->. unfold wrap. f_equal.
  replace (z' + k * 2 ^ 32 + 2 ^ (32 - 1)) with (z' + 2 ^ (32 - 1) + k * 2 ^ 32) by lia. apply Z.mod_add. lia.
Qed.

Lemma i32_add_l z d : i32 (i32 z + d) = i32 (z + d).
Proof. destruct (i32_off z) as [q ->]. apply (i32_eq _ _ q). lia. Qed.

Lemma active_life es c n :
  Con.activeReqs c = i32 n → Con.activeReqs (foldl lived c es) = i32 (foldl activeAfter n es).
Proof.
  revert c n. induction es as [|e es IH]; intros c n Hn; [done |]. simpl. apply IH.
  rewrite active_lived, Hn. destruct e; simpl; try done; rewrite <- ?Z.add_opp_r; apply i32_add_l.
Qed.

Lemma lived_accounted e c : plausible e → accounted c → accounted (lived c e).
Proof.
  intros He Hc. destruct e; try (apply (ledger_accounted c); [by apply ledger_other | done]).
  - by apply recordSuccess_accounted.
  - by apply recordError_accounted.
Qed.

Lemma life_accounted es c : Forall plausible es → accounted c → accounted (foldl lived c es).
Proof.
  intros Hes. revert c. induction Hes as [|e es He _ IH]; intros c Hc; [done |]. by apply IH, lived_accounted.
Qed.

(** *** The window is counted exactly *)

Lemma window_advance c d :
  0 ≤ Con.totalWindow c < 50 →
  window (Con.advanceHealthWindow (Con.set_errorCount (Con.errorCount c + d) c))
    = if Con.totalWindow c + 1 =? 50 then (0, 0) else (Con.totalWindow c + 1, Con.errorCount c + d).
Proof.
  intros Hw. unfold Con.advanceHealthWindow. cbv zeta. cbn [Con.totalWindow Con.set_errorCount].
  rewrite i32_small by (unfold i32_range; lia). unfold healthWindowSize.
  destruct (Z.eqb_spec (Con.totalWindow c + 1) 50) as [E | E].
  - by rewrite E.
  - by rewrite (proj2 (Z.ltb_lt _ _)) by lia.
Qed.

Lemma window_tune ns c : window (Con.tunePipelineDepth ns c) = window c.
Proof. unfold Con.tunePipelineDepth. cbv zeta. case_if; [done |]. by case_if. Qed.

Lemma config_advance c : Con.config (Con.advanceHealthWindow c) = Con.config c.
Proof. unfold Con.advanceHealthWindow. cbv zeta. by case_if. Qed.

Lemma config_tune ns c : Con.config (Con.tunePipelineDepth ns c) = Con.config c.
Proof. unfold Con.tunePipelineDepth. cbv zeta. case_if; [done |]. by case_if. Qed.

Lemma config_lived c e : Con.config (lived c e) = Con.config c.
Proof.
  destruct e as [ns | | | | dial now | | |]; try (by apply lived_other).
  - simpl. unfold Con.recordSuccess. destruct (negb _); [done |]. cbv zeta.
    destruct (_ && _); rewrite ?config_tune; by rewrite config_advance.
  - simpl. unfold Con.recordError. destruct (negb _); [done |]. by rewrite config_advance.
Qed.

Lemma window_lived c e :
  accounted c → Cfg.EnableHealthScoring (Con.config c) = true →
  window (lived c e) = windowAfter (window c) e.
Proof.
  intros [He Hw _ _ _ _] Hs. unfold healthWindowSize in Hw.
  destruct e; try (by apply lived_other).
  - simpl. unfold Con.recordSuccess. rewrite Hs. cbn [negb]. cbv zeta. set (c1 := Con.set_latencyEWMA _ c).
    pose proof (window_advance c1 0 ltac:(simpl; lia)) as E.
    replace (Con.set_errorCount (Con.errorCount c1 + 0) c1) with c1 in E by (unfold c1; simpl; by rewrite Z.add_0_r).
    destruct (_ && _); rewrite ?window_tune; exact E.
  - simpl. unfold Con.recordError. rewrite Hs. cbn [negb].
    rewrite i32_small by (unfold i32_range; lia). apply window_advance. lia.
Qed.

Lemma window_life es c :
  Forall plausible es → accounted c → Cfg.EnableHealthScoring (Con.config c) = true →
  window (foldl lived c es) = foldl windowAfter (window c) es.
Proof.
  intros Hes. revert c. induction Hes as [|e es He _ IH]; intros c Hc Hs; [done |].
  simpl. rewrite IH; [| by apply lived_accounted | by rewrite config_lived]. by rewrite window_lived.
Qed.

Lemma window_off es c :
  Cfg.EnableHealthScoring (Con.config c) = false → window (foldl lived c es) = window c.
Proof.
  revert c. induction es as [|e es IH]; intros c Hs; [done |]. simpl. rewrite IH by (by rewrite config_lived).
  destruct e; try (by apply lived_other).
  - simpl. unfold Con.recordSuccess. by rewrite Hs.
  - simpl. unfold Con.recordError. by rewrite Hs.
Qed.

Lemma config_life es c : Con.config (foldl lived c es) = Con.config c.
Proof. revert c. induction es as [|e es IH]; intros c; [done |]. simpl. by rewrite IH, config_lived. Qed.

Lemma NewConnection_accounted id host port cfg tls comp fwd auth now :
  startDepth cfg < 2 ^ 31 - 1 →
  accounted (Con.NewConnection id host port cfg tls comp fwd auth now).
Proof.
  intros Hm. pose proof (startDepth_bounds cfg) as Hb. unfold Con.NewConnection.
  split; cbn; try (unfold healthWindowSize; lia); fold (startDepth cfg); lia.
Qed.

(** C29: the adaptive state of a connection stays in range for its whole life, for a
    configured pipeline depth other than 2^31-1 (where the 32-bit counter would wrap) and
    latencies below 2^62 ns.  After any sequence of successes, errors, request starts and
    ends, reconnections (which succeed or fail), closings, stops and markings as unhealthy
    of a new connection: the health score is a percentage; the latency average is a
    latency; the pipeline depth lies between 1 and the configured maximum; with health
    scoring on, the window's counters are exactly the requests and the errors since the
    last multiple of 50, and with it off they are 0; the count of requests in flight is
    the starts less the ends (at 32 bits); and the connection accepts a further
    request exactly when it is healthy and not stopped and has fewer requests in flight
    than its depth (none, without pipelining), so that a healthy connection with no
    request in flight always accepts one. *)
Theorem accounting_stays_in_range id host port cfg tls comp fwd auth now es :
  startDepth cfg < 2 ^ 31 - 1 → Forall plausible es →
  let c := foldl lived (Con.NewConnection id host port cfg tls comp fwd auth now) es in
  0 ≤ Con.HealthScore c ≤ 100 ∧ 0 ≤ Con.latencyEWMA c < 2 ^ 62 ∧
  1 ≤ Con.pipelineDepth c ≤ startDepth cfg ∧
  (Con.totalWindow c, Con.errorCount c)
    = (if Cfg.EnableHealthScoring cfg then foldl windowAfter (0, 0) es else (0, 0)) ∧
  Con.activeReqs c = i32 (foldl activeAfter 0 es) ∧
  (Con.CanAcceptRequest c = true ↔
     Con.healthy c = 1 ∧ Con.stopped c = 0 ∧
     (if Cfg.EnablePipelining cfg then Con.activeReqs c < Con.pipelineDepth c else Con.activeReqs c = 0)).
Proof.
  intros Hmax Hes c. set (c0 := Con.NewConnection id host port cfg tls comp fwd auth now) in c.
  pose proof (NewConnection_accounted id host port cfg tls comp fwd auth now Hmax) as H0. fold c0 in H0.
  pose proof (config_life es c0) as Hcfg. fold c in Hcfg. change (Con.config c0) with cfg in Hcfg.
  destruct (life_accounted es c0 Hes H0) as [He Hw Hs Hd Hm Hl]. fold c in He, Hw, Hs, Hd, Hl. rewrite Hcfg in Hd.
  split_and!; try lia; try (unfold Con.HealthScore; case_if; try case_if; lia).
  - destruct (Cfg.EnableHealthScoring cfg) eqn:Es.
    + by apply (window_life es c0).
    + by apply (window_off es c0).
  - by apply (active_life es c0 0).
  - unfold Con.CanAcceptRequest, Con.IsHealthy. rewrite Hcfg, (proj2 (Z.leb_gt _ 0)) by lia.
    destruct (Z.eqb_spec (Con.healthy c) 1), (Z.eqb_spec (Con.stopped c) 0); cbn [andb negb];
      try (split; [done | naive_solver]).
    destruct (Cfg.EnablePipelining cfg); rewrite ?Z.ltb_lt, ?Z.eqb_eq; naive_solver.
Qed.

Lemma accounting_stays_in_range_witness :
  let net := mkNet (mkConn [] EEOF) (mkWConn [] []) None in
  let c := foldl lived (Con.NewConnection 0 (str "h") 80 Cfg.HighThroughputConfig false false false [] 7)
             [LConnect (inr net) 7; LBegin; LSuccess 5000000; LEnd; LBegin; LError; LEnd; LSuccess 200000000000] in
  Con.IsHealthy c = true ∧ Con.CanAcceptRequest c = true ∧
  0 ≤ Con.HealthScore c ≤ 100 ∧ 1 ≤ Con.pipelineDepth c ≤ startDepth Cfg.HighThroughputConfig ∧
  (Con.totalWindow c, Con.errorCount c) = (3, 1).
Proof.
  intros net c. split; [vm_compute; reflexivity |].
  destruct (accounting_stays_in_range 0 (str "h") 80 Cfg.HighThroughputConfig false false false [] 7
    [LConnect (inr net) 7; LBegin; LSuccess 5000000; LEnd; LBegin; LError; LEnd; LSuccess 200000000000])
    as (H1 & _ & H3 & H4 & _ & H6).
  - by vm_compute.
  - repeat constructor; simpl; lia.
  - split; [apply H6; vm_compute; done |]. split; [exact H1 |]. split; [exact H3 | exact H4].
Defined.

(** ** What a request puts on the wire *)

(** A peer that honours the contract of [net.Conn.Write] for buffers of at most
    [m] bytes: a call that takes less than the buffer reports an error. *)
Definition honest (m : nat) (w : WConn) : Prop :=
  Forall (λ a, a.2 = None → (m ≤ a.1)%nat) (answers w).

Lemma Write_honest m buf w :
  honest m w → (length buf ≤ m)%nat →
  (∃ w', Write buf w = (length buf, None, w') ∧ sent w' = sent w ++ buf ∧ honest m w' ∧
         (length (answers w') ≤ length (answers w))%nat) ∨
  (∃ n e w', Write buf w = (n, Some e, w') ∧ ∃ k, sent w' = sent w ++ take k buf).
Proof.
  intros Hh Hl. unfold Write. destruct w as [s [|[n [e|]] t]]; simpl.
  - left. eexists. split; [done |]. by split_and!.
  - right. do 3 eexists. split; [done |]. by eexists.
  - left. apply Forall_cons in Hh as [Hn Ht]. specialize (Hn eq_refl). simpl in Hn.
    rewrite Nat.min_r, take_ge by lia. eexists. split; [done |]. split_and!; try done. simpl. lia.
Qed.

(** [m] sends the bytes [d], or fails having sent a prefix of them. *)
Definition sends (k : nat) (m : go WConn error unit) (d : bytes) : Prop :=
  ∀ w, honest k w →
    (∃ w', m w = (Ret tt, w') ∧ sent w' = sent w ++ d ∧ honest k w') ∨
    (∃ e w', m w = (Fail e, w') ∧ ∃ j, sent w' = sent w ++ take j d).

Lemma buffersWriteTo_sends k bs :
  Forall (λ b : bytes, (length b ≤ k)%nat) bs → sends k (buffersWriteTo bs) (concat bs).
Proof.
  induction 1 as [|b bs Hb _ IH]; intros w Hw; simpl.
  - left. exists w. by rewrite app_nil_r.
  - destruct (Write_honest k b w Hw Hb) as [(w1 & -> & Hs & Hh & _) | (n & e & w1 & -> & j & Hs)].
    + destruct (IH w1 Hh) as [(w2 & -> & Hs2 & Hh2) | (e & w2 & -> & j & Hs2)].
      * left. exists w2. rewrite Hs2, Hs, <- app_assoc. done.
      * right. exists e, w2. split; [done |]. exists (length b + j)%nat.
        rewrite Hs2, Hs, <- app_assoc. by rewrite take_app_add.
    + right. exists e, w1. split; [done |]. exists (Nat.min j (length b)).
      rewrite Hs, take_app_le by lia. f_equal.
      destruct (decide (j ≤ length b)%nat); [by rewrite Nat.min_l by lia |].
      by rewrite Nat.min_r, !take_ge by lia.
Qed.

Lemma writeAll_sends k b : (length b ≤ k)%nat → sends k (writeAll b) b.
Proof.
  intros Hb w Hw. unfold writeAll. destruct b as [|c b].
  { left. exists w. by rewrite app_nil_r. }
  cbn [writeAllLoop].
  destruct (Write_honest k (c :: b) w Hw Hb) as [(w1 & -> & Hs & Hh & _) | (n & e & w1 & -> & j & Hs)].
  - left. exists w1. rewrite drop_ge by done. by destruct (S (length (answers w))).
  - right. by exists e, w1; split; [done |]; exists j.
Qed.

(** [writeAllBatched], which no path of the client calls, sends the same bytes. *)
Lemma writeAllBatched_sends k header body :
  (length header ≤ k)%nat → (length body ≤ k)%nat → sends k (writeAllBatched header body) (header ++ body).
Proof.
  intros Hh Hb. unfold writeAllBatched. case_bool_decide as E.
  - subst. rewrite app_nil_r. by apply writeAll_sends.
  - replace (header ++ body) with (concat [header; body]) by (simpl; by rewrite app_nil_r).
    apply buffersWriteTo_sends. by repeat constructor.
Qed.

Lemma sends_net k (m : go WConn error unit) d t msg (n : NetConn) :
  sends k m d → honest k (wr n) →
  (∃ n', wrapErr t msg (onWr m) n = (Ret tt, n') ∧ sent (wr n') = sent (wr n) ++ d ∧
         honest k (wr n') ∧ rd n' = rd n) ∨
  (∃ e n', wrapErr t msg (onWr m) n = (Fail (WrapError t msg e), n') ∧
           ∃ j, sent (wr n') = sent (wr n) ++ take j d).
Proof.
  intros Hm Hh. unfold wrapErr, onWr.
  destruct (Hm (wr n) Hh) as [(w' & -> & Hs & Hh') | (e & w' & -> & Hj)].
  - left. eexists. split; [done |]. done.
  - right. by do 2 eexists.
Qed.

(** A bound on each element of an explicit list. *)
Ltac forall_lia := repeat (apply Forall_cons_2; [cbv beta; lia |]); apply Forall_nil_2.

(** The credentials are only there for a forward proxy, as [NewConnection] sets
    them. *)
Definition proxyOK (c : Connection) : Prop :=
  Con.isForwardProxy c = false → Con.proxyAuthHeader c = [].

Lemma NewConnection_proxyOK id host port cfg tls comp fwd auth now :
  proxyOK (Con.NewConnection id host port cfg tls comp fwd auth now).
Proof. unfold proxyOK. simpl. by intros ->. Qed.

(** The whole message of a request. *)
Definition wireMessage (c : Connection) (req : Request) (body : bytes) (compressed : bool) : bytes :=
  wireHead req (Con.config c) (Con.host c) (Con.port c) (Cfg.UseTLS (Con.config c)) (len body)
    compressed (Con.isForwardProxy c) (Con.proxyAuthHeader c) ++ body.

(** The sizes [connWriteRequest] can handle: part 1 in the pooled buffer, part 3 in
    its 128 bytes. *)
Definition fitsBuffers (c : Connection) (req : Request) (body : bytes) (compressed : bool) (pooled : Z) : Prop :=
  len (wirePart1 req (Con.config c) (Con.host c) (Con.port c) (Cfg.UseTLS (Con.config c)) compressed
         (Con.isForwardProxy c)) ≤ Con.getWriteBuf c pooled 512 ∧
  len (wirePart3 req (len body) (Con.proxyAuthHeader c)) ≤ 128.

(** A prefix pre-encoded for this very request. *)
Definition preEncoded (c : Connection) (req : Request) (compressed : bool) : bytes :=
  wirePart1 req (Con.config c) (Con.host c) (Con.port c) (Cfg.UseTLS (Con.config c)) compressed
    (Con.isForwardProxy c) ++ headerBlock req ++
  (if Con.isForwardProxy c then Con.proxyAuthHeader c else []) ++ expectLine req true.

Lemma formatLoop_length base fuel n acc : (length (formatLoop base fuel n acc) ≤ fuel + length acc)%nat.
Proof.
  revert n acc. induction fuel as [|fuel IH]; intros n acc; simpl; [lia |].
  case_if; [| lia]. specialize (IH (n / base) (digitChar (n `mod` base) :: acc)). simpl in IH. lia.
Qed.

Lemma Itoa_length n : 0 ≤ n < 2 ^ 63 → (length (Itoa n) ≤ 20)%nat.
Proof.
  intros Hn. destruct (decide (n = 0)) as [-> | Hz]; [vm_compute; lia |].
  rewrite (Itoa_digits 20) by (simpl; lia). pose proof (formatLoop_length 10 20 n []). simpl in *. lia.
Qed.

Lemma proxyOK_auth c :
  proxyOK c → (if Con.isForwardProxy c then Con.proxyAuthHeader c else []) = Con.proxyAuthHeader c.
Proof. intros H. destruct (Con.isForwardProxy c) eqn:E; [done |]. by rewrite (H E). Qed.

Lemma headerBlock_if req :
  (if (0 <? Req.headerLen req)%nat then take (Req.headerLen req) (Req.headerBuf req) else []) = headerBlock req.
Proof.
  unfold headerBlock. case_if; [done |]. by assert (Req.headerLen req = 0%nat) as -> by lia.
Qed.

(** Sent in full, or a network error after a prefix. *)
Definition transmitted (text : bytes) (n : NetConn) (r : outcome error unit * NetConn) : Prop :=
  (r.1 = Ret tt ∧ sent (wr r.2) = sent (wr n) ++ text ∧ rd r.2 = rd n) ∨
  (∃ msg e j, r.1 = Fail (WrapError ErrorTypeNetwork msg e) ∧ sent (wr r.2) = sent (wr n) ++ take j text).

Lemma transmitted_prefix text n n' msg e p q j :
  text = p ++ q → sent (wr n') = sent (wr n) ++ take j p →
  transmitted text n (Fail (WrapError ErrorTypeNetwork msg e), n').
Proof.
  intros Hm Hs. right. exists msg, e, (Nat.min j (length p)). split; [done |]. simpl.
  rewrite Hs, Hm, take_app_le by lia. f_equal.
  destruct (decide (j ≤ length p)%nat); [by rewrite Nat.min_l by lia |].
  by rewrite Nat.min_r, !take_ge by lia.
Qed.

Section send.

Variables (c : Connection) (req : Request) (body : bytes) (compressed : bool) (timeout pooled : Z).
Hypothesis Hproxy : proxyOK c.
Hypothesis Hport : Con.port c < 2 ^ 63.
Hypothesis Hbody : len body < 2 ^ 63.
Let message := wireMessage c req body compressed.
(** Once the parts are encoded, they are sent one after the other. *)
Lemma connWriteRequest_encoded n :
  deadlineErr n = None → Req.PreEncodedHeaderPrefix req = [] →
  fitsBuffers c req body compressed pooled →
  let p1 := wirePart1 req (Con.config c) (Con.host c) (Con.port c) (Cfg.UseTLS (Con.config c)) compressed
              (Con.isForwardProxy c) in
  let p3 := wirePart3 req (len body) (Con.proxyAuthHeader c) in
  message = concat [p1; headerBlock req; p3] ++ body ∧
  connWriteRequest c req body compressed timeout pooled n =
    (_ ← wrapErr ErrorTypeNetwork "write request failed" (onWr (buffersWriteTo [p1; headerBlock req; p3]));
     if 0 <? len body then wrapErr ErrorTypeNetwork "write body failed" (onWr (writeAll body)) else mret tt) n.
Proof.
  intros Hd Hpre [H1 H3] p1 p3. split.
  { unfold message, wireMessage, wireHead. rewrite (proxyOK_auth c Hproxy). fold p1 p3. cbn [concat].
    by rewrite app_nil_r, <- !app_assoc. }
  unfold connWriteRequest.
  rewrite (bind_Ret _ _ n tt n) by (unfold setDeadline; by rewrite Hd).
  rewrite Hpre. change (0 <? length (@nil Z))%nat with false. cbv iota.
  pose proof (len_nonneg body) as Hb0. unfold len in H1, H3. fold (len body) in H3.
  destruct (writes_whole _ _ (replicate (Z.to_nat (Con.getWriteBuf c pooled 512)) 0)
    (part1_writes req (Con.config c) (Con.host c) (Con.port c) (Cfg.UseTLS (Con.config c)) Hport
       compressed (Con.isForwardProxy c))) as [Hok1 _];
    [unfold writeRequestPart1; auto 30 with burst |].
  destruct (writes_whole _ _ (replicate 128 0) (part3_writes req (len body) (Con.proxyAuthHeader c) ltac:(lia)))
    as [Hok3 _]; [unfold writeRequestPart3; auto 30 with burst |].
  rewrite length_replicate in Hok1, Hok3. rewrite Hok1, Hok3 by lia.
  rewrite !take_splice_0 by (rewrite length_replicate; lia). cbv zeta. by rewrite headerBlock_if.
Qed.

Variable k : nat.

Lemma connWriteRequest_parts n :
  (length message ≤ k)%nat → deadlineErr n = None → Req.PreEncodedHeaderPrefix req = [] →
  fitsBuffers c req body compressed pooled → honest k (wr n) →
  transmitted message n (connWriteRequest c req body compressed timeout pooled n).
Proof.
  intros Hk Hd Hpre Hfit Hh. destruct (connWriteRequest_encoded n Hd Hpre Hfit) as [Hmsg ->].
  set (p1 := wirePart1 _ _ _ _ _ _ _) in *. set (p3 := wirePart3 _ _ _) in *.
  assert (length message = length (concat [p1; headerBlock req; p3]) + length body)%nat as Hlen
    by (by rewrite Hmsg, length_app).
  cbn [concat] in Hlen. rewrite app_nil_r, !length_app in Hlen.
  destruct (sends_net k (buffersWriteTo [p1; headerBlock req; p3]) _ ErrorTypeNetwork "write request failed" n
              (buffersWriteTo_sends k [p1; headerBlock req; p3] ltac:(forall_lia)) Hh)
    as [(n1 & E & Hs & Hh1 & Hr) | (e & n1 & E & j & Hs)].
  2: { rewrite (bind_Fail _ _ _ _ _ E). by eapply transmitted_prefix. }
  rewrite (bind_Ret _ _ _ _ _ E).
  destruct (Z.ltb_spec 0 (len body)) as [Hpos | Hpos].
  2: { left. assert (body = []) as Hnil by (apply nil_length_inv; unfold len in Hpos; lia).
       split; [done |]. simpl. rewrite Hs, Hmsg, Hnil, app_nil_r. done. }
  destruct (sends_net k (writeAll body) _ ErrorTypeNetwork "write body failed" n1
              (writeAll_sends k body ltac:(lia)) Hh1)
    as [(n2 & -> & Hs2 & Hh2 & Hr2) | (e & n2 & -> & j & Hs2)].
  - left. simpl. rewrite Hs2, Hs, Hmsg, <- app_assoc. split_and!; congruence.
  - right. do 2 eexists. exists (length (concat [p1; headerBlock req; p3]) + j)%nat. split; [done |].
    simpl snd. rewrite Hs2, Hs, Hmsg, <- app_assoc. by rewrite take_app_add.
Qed.

Lemma wirePart1_pos z :
  (0 < length (wirePart1 req (Con.config c) (Con.host c) (Con.port c) (Cfg.UseTLS (Con.config c)) z (Con.isForwardProxy c)))%nat.
Proof. unfold wirePart1, requestLine. rewrite !length_app. simpl. lia. Qed.

(** A part that does not fit its buffer: nothing is sent. *)
Lemma connWriteRequest_small n :
  deadlineErr n = None → Req.PreEncodedHeaderPrefix req = [] → ¬ fitsBuffers c req body compressed pooled →
  ∃ msg, connWriteRequest c req body compressed timeout pooled n
    = (Fail (WrapError ErrorTypeInternal msg (ESentinel ErrHeaderBufferSmall)), n).
Proof.
  intros Hd Hpre Hfit. unfold connWriteRequest.
  rewrite (bind_Ret _ _ n tt n) by (unfold setDeadline; by rewrite Hd).
  rewrite Hpre. change (0 <? length (@nil Z))%nat with false. cbv iota. pose proof (len_nonneg body) as Hb0.
  destruct (writes_whole _ _ (replicate (Z.to_nat (Con.getWriteBuf c pooled 512)) 0)
    (part1_writes req (Con.config c) (Con.host c) (Con.port c) (Cfg.UseTLS (Con.config c)) Hport
       compressed (Con.isForwardProxy c))) as [Hok1 Hno1];
    [unfold writeRequestPart1; auto 30 with burst |].
  destruct (writes_whole _ _ (replicate 128 0) (part3_writes req (len body) (Con.proxyAuthHeader c) ltac:(lia)))
    as [Hok3 Hno3]; [unfold writeRequestPart3; auto 30 with burst |].
  rewrite length_replicate in *. unfold fitsBuffers, len at 1 in Hfit.
  change (len (wirePart3 req (len body) (Con.proxyAuthHeader c)))
    with (Z.of_nat (length (wirePart3 req (len body) (Con.proxyAuthHeader c)))) in Hfit.
  destruct (writeRequestPart1 _ _ _ _ _ _ _ _) as [o1 [buf1 pos1]] eqn:E1. cbn [fst] in *.
  destruct (decide (Z.of_nat (length (wirePart1 req (Con.config c) (Con.host c) (Con.port c)
    (Cfg.UseTLS (Con.config c)) compressed (Con.isForwardProxy c))) ≤ Con.getWriteBuf c pooled 512)) as [H1 | H1].
  - specialize (Hok1 ltac:(lia)). injection Hok1 as -> -> ->.
    destruct (writeRequestPart3 _ _ _ _) as [o3 [buf3 pos3]] eqn:E3. cbn [fst] in *.
    rewrite Hno3; [by eexists |]. lia.
  - rewrite Hno1; [by eexists |]. pose proof (wirePart1_pos compressed). lia.
Qed.

(** The pre-encoded path sends the prefix, whatever it is, the length and the body. *)
Lemma connWriteRequest_pre n prefix :
  let text := prefix ++ lengthLine (len body) ++ body in
  (length text ≤ k)%nat → deadlineErr n = None → Req.PreEncodedHeaderPrefix req = prefix → prefix ≠ [] →
  honest k (wr n) →
  transmitted text n (connWriteRequest c req body compressed timeout pooled n).
Proof.
  intros text Hk Hd Hpre Hne Hh. unfold connWriteRequest.
  rewrite (bind_Ret _ _ n tt n) by (unfold setDeadline; by rewrite Hd).
  rewrite Hpre, (proj2 (Nat.ltb_lt _ _)) by (destruct prefix; [done | simpl; lia]).
  pose proof (len_nonneg body) as Hb0. pose proof (Itoa_length (len body) ltac:(lia)) as Hi.
  rewrite take_ge by (rewrite !length_app; simpl; lia). fold (lengthLine (len body)).
  assert (text = concat [prefix; lengthLine (len body); body]) as Hmsg by (cbn [concat]; by rewrite app_nil_r).
  assert (length text = length prefix + (length (lengthLine (len body)) + length body))%nat
    as Hlen by (unfold text; by rewrite !length_app).
  destruct (sends_net k (buffersWriteTo [prefix; lengthLine (len body); body]) _
              ErrorTypeNetwork "write pre-encoded request failed" n
              (buffersWriteTo_sends k [prefix; lengthLine (len body); body]
                 ltac:(forall_lia)) Hh)
    as [(n1 & -> & Hs & Hh1 & Hr) | (e & n1 & -> & j & Hs)].
  - left. simpl. by rewrite Hs, Hmsg.
  - right. do 3 eexists. split; [done |]. simpl. rewrite Hmsg. exact Hs.
Qed.

End send.

(** C11: what [(c *Connection).writeRequest] puts on the wire, against a peer that
    honours the contract of [Write] and a connection that takes deadlines.  Without a
    pre-encoded prefix it sends exactly the head that [writeRequest] produces (part 1
    from a pooled buffer, the header block in place, part 3 from the stack) followed by
    the body, or returns a network error after a prefix of them; if part 1 does not fit
    the pooled buffer or part 3 (proxy credentials, Expect, Content-Length) not its 128
    bytes, it sends nothing and returns an internal error that wraps
    [ErrHeaderBufferSmall].  With a pre-encoded prefix it sends exactly that prefix, the
    Content-Length line with the blank line, and the body, or again a network error
    after a part.  (The credentials are there only for a forward proxy, as
    [NewConnection] sees to; port and body length below 2^63.) *)
Theorem connWriteRequest_wire c req body compressed timeout pooled n k :
  proxyOK c → Con.port c < 2 ^ 63 → len body < 2 ^ 63 → deadlineErr n = None → honest k (wr n) →
  let res := connWriteRequest c req body compressed timeout pooled n in
  let message := wireMessage c req body compressed in
  let prefix := Req.PreEncodedHeaderPrefix req in
  let text := prefix ++ str "Content-Length: " ++ Itoa (len body) ++ crlf ++ crlf ++ body in
  (prefix = [] → fitsBuffers c req body compressed pooled → (length message ≤ k)%nat → transmitted message n res) ∧
  (prefix = [] → ¬ fitsBuffers c req body compressed pooled →
     ∃ msg, res = (Fail (WrapError ErrorTypeInternal msg (ESentinel ErrHeaderBufferSmall)), n)) ∧
  (prefix ≠ [] → (length text ≤ k)%nat → transmitted text n res).
Proof.
  intros Hp Hport Hb Hd Hh res message prefix text.
  assert (text = prefix ++ lengthLine (len body) ++ body) as ->
    by (unfold text, lengthLine, headerSep; by rewrite <- !app_assoc).
  split_and!; intros Hpre H1.
  - intros Hk. by eapply connWriteRequest_parts.
  - by apply connWriteRequest_small.
  - by eapply connWriteRequest_pre.
Qed.

Definition exConnection : Connection :=
  Con.set_conn (Some (mkNet (mkConn [] EEOF) (mkWConn [] [(1000%nat, None); (3%nat, Some (ENet true))]) None))
    (Con.NewConnection 1 (str "h") 8080 Cfg.DefaultConfig true false false [] 0).

Definition exCutNet : NetConn := mkNet (mkConn [] EEOF) (mkWConn [] [(1000%nat, None); (3%nat, Some (ENet true))]) None.

(** A head that is sent, and one whose 122 bytes of proxy credentials are too many for
    part 3. *)
Lemma connWriteRequest_wire_witness :
  let proxied := Con.NewConnection 1 (str "h") 80 Cfg.DefaultConfig false false true (replicate 120 65 ++ crlf) 0 in
  transmitted (wireMessage exConnection exRequest (str "body") false) exCutNet
    (connWriteRequest exConnection exRequest (str "body") false 0 16384 exCutNet) ∧
  (∃ msg, connWriteRequest proxied exRequest (str "body") false 0 16384 exCutNet
    = (Fail (WrapError ErrorTypeInternal msg (ESentinel ErrHeaderBufferSmall)), exCutNet)).
Proof.
  intros proxied.
  assert (Hh : honest 500 (wr exCutNet)) by (apply Forall_cons_2; [intros _; simpl; lia |]; by apply Forall_cons_2).
  split.
  - apply (connWriteRequest_wire exConnection exRequest (str "body") false 0 16384 exCutNet 500).
    + by intros _.
    + by vm_compute.
    + by vm_compute.
    + done.
    + exact Hh.
    + done.
    + split; by vm_compute.
    + vm_compute. lia.
  - apply (connWriteRequest_wire proxied exRequest (str "body") false 0 16384 exCutNet 500).
    + by vm_compute.
    + by vm_compute.
    + by vm_compute.
    + done.
    + exact Hh.
    + done.
    + intros [_ H]. vm_compute in H. by apply H.
Defined.

(** ** The number of requests in flight *)

(** [m] changes the count of requests in flight by [d], whatever its outcome. *)
Definition shiftsActive {A} (d : Z) (m : go trip error A) : Prop :=
  ∀ t, Con.activeReqs (t_conn (m t).2) = i32 (Con.activeReqs (t_conn t) + d).

Definition keepsActive {A} (m : go trip error A) : Prop :=
  ∀ t, Con.activeReqs (t_conn (m t).2) = Con.activeReqs (t_conn t).

Section keeps.

Lemma keeps_bind {A B} (m : go trip error A) (k : A → go trip error B) :
  keepsActive m → (∀ a, keepsActive (k a)) → keepsActive (m ≫= k).
Proof.
  intros Hm Hk t. specialize (Hm t). unfold mbind, go_bind.
  destruct (m t) as [[a | | |] t'] eqn:E; simpl in *; try done. by rewrite Hk.
Qed.
Lemma keeps_ret {A} (a : A) : keepsActive (mret a).
Proof. done. Qed.
Lemma keeps_fail {A} e : keepsActive (fail e : go trip error A).
Proof. done. Qed.
Lemma keeps_get : keepsActive get.
Proof. done. Qed.
Lemma keeps_updResp f : keepsActive (updResp f).
Proof. done. Qed.
Lemma keeps_updConn f : (∀ c, Con.activeReqs (f c) = Con.activeReqs c) → keepsActive (updConn f).
Proof. intros Hf t. apply Hf. Qed.
Lemma keeps_onReq {A} (m : go Request error A) : keepsActive (onReq m).
Proof. intros t. unfold onReq. by destruct (m (t_req t)). Qed.
Lemma keeps_onNet {A} (m : go (NetConn * Response) error A) : keepsActive (onNet m).
Proof.
  intros t. unfold onNet. destruct (Con.conn (t_conn t)), (t_resp t); try done.
  by destruct (m _) as [o [n' p']].
Qed.
Lemma keeps_onNetTemp {A} p (m : go (NetConn * Response) error A) : keepsActive (onNetTemp p m).
Proof.
  intros t. unfold onNetTemp. destruct (Con.conn (t_conn t)); [| done].
  by destruct (m _) as [[] [n' p']].
Qed.
Lemma keeps_onError {A} f (m : go trip error A) :
  keepsActive m → (∀ c, Con.activeReqs (f c) = Con.activeReqs c) → keepsActive (onError f m).
Proof.
  intros Hm Hf t. specialize (Hm t). unfold onError. destruct (m t) as [[] t']; try done.
  simpl. by rewrite Hf.
Qed.
Lemma keeps_wrapErr {A} ty msg (m : go trip error A) : keepsActive m → keepsActive (wrapErr ty msg m).
Proof. intros Hm t. specialize (Hm t). unfold wrapErr. by destruct (m t) as [[] t']. Qed.
Lemma keeps_attempt {A} (m : go trip error A) : keepsActive m → keepsActive (attempt m).
Proof. intros Hm t. specialize (Hm t). unfold attempt. by destruct (m t) as [[] t']. Qed.
Lemma keeps_if {A} (b : bool) (m k : go trip error A) :
  keepsActive m → keepsActive k → keepsActive (if b then m else k).
Proof. by destruct b. Qed.

End keeps.

#[export] Hint Resolve keeps_bind keeps_ret keeps_fail keeps_get keeps_updResp keeps_updConn keeps_onReq
  keeps_onNet keeps_onNetTemp keeps_onError keeps_wrapErr keeps_attempt keeps_if active_closeConn
  active_ensure : burst.

Section balance.

Variable gzip : bytes → error + bytes.
Variable gunzip : bytes → gzipResult.
Variable env : surroundings.

Lemma keeps_rotate msg : keepsActive (rotate env msg).
Proof.
  unfold rotate. apply keeps_bind; [apply keeps_get |]. intros t. apply keeps_if; [| done].
  apply keeps_bind; [apply keeps_updConn, active_closeConn |]. intros _ t1.
  rewrite (bind_Ret _ _ t1 t1 t1) by done.
  pose proof (active_ensure (env_dial env) (env_now env) (t_conn t1)) as E.
  destruct (Con.ensureConnection (env_dial env) (env_now env) (t_conn t1)) as [ok c].
  rewrite (bind_Ret _ _ t1 tt (mkTrip c (t_req t1) (t_resp t1))) by done.
  by destruct ok.
Qed.

Lemma active_settled c : Con.activeReqs (settled env c) = Con.activeReqs c.
Proof. unfold settled. by rewrite active_updateTimeCache. Qed.

Lemma keeps_sendOn body compressed : keepsActive (sendOn env body compressed).
Proof. unfold sendOn. auto with burst. Qed.

Lemma keeps_expectContinue body compressed : keepsActive (expectContinue gunzip env body compressed).
Proof.
  unfold expectContinue. apply keeps_bind; [apply keeps_sendOn |]. intros _.
  apply keeps_bind; [done |]. intros t. apply keeps_bind; [auto with burst |]. intros cr.
  apply keeps_if; [| auto 10 with burst].
  apply keeps_bind; [auto with burst |]. intros _. apply keeps_bind; [| auto with burst].
  apply keeps_updConn. apply active_settled.
Qed.

Lemma keeps_receive n : keepsActive (receive gunzip env n).
Proof.
  unfold receive. apply keeps_bind; [done |]. intros t. apply keeps_bind; [auto with burst |].
  intros err. apply keeps_bind; [done |]. intros t1. destruct err as [e|].
  - apply keeps_if; [apply keeps_updConn, active_settled |].
    apply keeps_bind; [| auto with burst]. apply keeps_updConn. intros c. by rewrite active_recordError.
  - apply keeps_bind.
    + apply keeps_updConn. intros c. simpl. by rewrite active_recordSuccess, active_settled.
    + intros _. apply keeps_if; [by apply keeps_updConn | done].
Qed.

Lemma i32_add_sub z : i32 (i32 (z + 1) + -1) = i32 z.
Proof.
  unfold wrap. change (32 - 1) with 31.
  replace ((z + 1 + 2 ^ 31) `mod` 2 ^ 32 - 2 ^ 31 + -1 + 2 ^ 31) with ((z + 1 + 2 ^ 31) `mod` 2 ^ 32 - 1) by lia.
  f_equal. rewrite <- (Z.mod_small 1 (2 ^ 32)) at 2 by lia. rewrite <- Zdiv.Zminus_mod. f_equal. lia.
Qed.

(** C22: The count of requests in flight is balanced on every path.  Whatever
    happens during [doSequential] (a cancelled context, a failed rotation, an
    oversized body, write and read errors, timeouts, success, even a panic), the
    count afterwards is the count before; if the pool had already claimed the
    connection for this request, that claim is released exactly once. *)
Theorem doSequential_active_balanced t :
  i32_range (Con.activeReqs (t_conn t)) →
  let t' := (doSequential gzip gunzip env t).2 in
  Con.activeReqs (t_conn t') =
    (if Con.poolClaimed (t_conn t) then i32 (Con.activeReqs (t_conn t) - 1) else Con.activeReqs (t_conn t)).
Proof.
  intros Hr. cbv zeta. unfold doSequential.
  rewrite (bind_Ret _ _ t tt (mkTrip (if Con.poolClaimed (t_conn t) then Con.set_poolClaimed false (t_conn t)
    else addActive 1 (t_conn t)) (t_req t) (t_resp t))) by done.
  set (t0 := mkTrip _ _ _). set (m := _ ≫= _). assert (keepsActive m) as Hm.
  { unfold m. apply keeps_bind; [destruct (env_ctxErr env); done |]. intros _.
    apply keeps_bind; [apply keeps_rotate |]. intros _. apply keeps_bind; [done |]. intros t1.
    destruct (Con.conn (t_conn t1)); [| done].
    apply keeps_bind; [apply keeps_onReq |]. intros [body compressed].
    destruct (t_resp t1); [| done]. apply keeps_bind; [done |]. intros _.
    apply keeps_bind.
    - apply keeps_if; [apply keeps_expectContinue |]. apply keeps_bind; [apply keeps_sendOn | done].
    - intros fin. apply keeps_if; [done | apply keeps_receive]. }
  specialize (Hm t0). unfold deferred. destruct (m t0) as [o t'] eqn:E. cbn [fst snd] in *.
  cbn [t_conn addActive Con.set_activeReqs Con.activeReqs]. rewrite Hm. unfold t0. cbn [t_conn].
  destruct (Con.poolClaimed (t_conn t)); [done |].
  cbn [addActive Con.set_activeReqs Con.activeReqs]. rewrite i32_add_sub. by apply i32_small.
Qed.

End balance.

Lemma doSequential_active_balanced_witness :
  let env := mkEnv 5 1000 None None (inl EEOF) 16384 16384 in
  let t := mkTrip exConnection exRequest (Some (newPooledResponse 64)) in
  Con.activeReqs (t_conn (doSequential inr (λ b, GzOK b) env t).2) = 0.
Proof.
  apply (doSequential_active_balanced inr (λ b, GzOK b) (mkEnv 5 1000 None None (inl EEOF) 16384 16384)
           (mkTrip exConnection exRequest (Some (newPooledResponse 64)))). by vm_compute.
Defined.

(** ** A whole round trip *)

(** A request that is sent as it is: no compression, no interim answer, a body
    within the limit. *)
Record plainRequest (c : Connection) (req : Request) : Prop := {
  pq_size : len (Req.Body req) ≤ Con.maxReqSize c;
  pq_plain : Req.Compressed req && Con.hasCompressor c = false;
  pq_expect : Req.ExpectContinue req = false;
  pq_prefix : Req.PreEncodedHeaderPrefix req = []
}.

Lemma prepareBody_plain gzip c req :
  plainRequest c req → prepareBody gzip c req = (Ret (Req.Body req, false), req).
Proof.
  intros [Hs Hp _ _]. unfold prepareBody. rewrite (bind_Ret _ _ req req req) by done.
  rewrite (proj2 (Z.ltb_ge _ _)), Hp by done. done.
Qed.

(** A peer that accepts everything. *)
Lemma buffersWriteTo_calm bs w :
  answers w = [] → buffersWriteTo bs w = (Ret tt, mkWConn (sent w ++ concat bs) []).
Proof.
  revert w. induction bs as [|b bs IH]; intros [s a] Ha; simpl in *; subst a.
  - by rewrite app_nil_r.
  - unfold Write. cbn [answers]. rewrite IH by done. simpl. by rewrite <- app_assoc.
Qed.

Lemma writeAll_calm b w : answers w = [] → writeAll b w = (Ret tt, mkWConn (sent w ++ b) []).
Proof.
  destruct w as [s a]. simpl. intros ->. unfold writeAll. destruct b as [|c b]; [simpl; by rewrite app_nil_r |].
  cbn [writeAllLoop]. unfold Write. cbn [answers sent]. by rewrite drop_ge.
Qed.

Lemma connWriteRequest_accepts c req body compressed timeout pooled n :
  proxyOK c → Con.port c < 2 ^ 63 → len body < 2 ^ 63 → deadlineErr n = None →
  Req.PreEncodedHeaderPrefix req = [] → fitsBuffers c req body compressed pooled → answers (wr n) = [] →
  connWriteRequest c req body compressed timeout pooled n =
    (Ret tt, mkNet (rd n) (mkWConn (sent (wr n) ++ wireMessage c req body compressed) []) None).
Proof.
  intros Hp Hport Hb Hd Hpre Hfit Ha.
  destruct (connWriteRequest_encoded c req body compressed timeout pooled Hp Hport Hb n Hd Hpre Hfit) as [-> ->].
  set (bs := [_; _; _]).
  rewrite (bind_Ret _ _ n tt (mkNet (rd n) (mkWConn (sent (wr n) ++ concat bs) []) (deadlineErr n)))
    by (unfold wrapErr, onWr; by rewrite buffersWriteTo_calm).
  rewrite Hd. case_if.
  - unfold wrapErr, onWr. rewrite writeAll_calm by done. simpl. by rewrite <- app_assoc.
  - assert (body = []) as -> by (apply nil_length_inv; unfold len in *; lia). by rewrite app_nil_r.
Qed.

(** Receiving a framed response, decompression included. *)
Lemma connReadResponse_delivers gunzip c timeout pooled method n p head status raw payload x :
  deadlineErr n = None → goodHead head status →
  framed (Con.maxRespSize c) p method head status raw payload → plainHead head p →
  len head ≤ Con.getReadBuf c pooled (Con.readBufSize c) → 0 < Con.headerReadSize c →
  prompt (rd n) → stream (rd n) = head ++ raw ++ x →
  ∃ r' p', connReadResponse gunzip c timeout pooled method (n, p) = (Ret tt, (mkNet r' (wr n) None, p')) ∧
           delivered head status payload p p'.
Proof.
  intros Hd Hg Hfr Hgz Hcap Hh Hp Hs. unfold connReadResponse.
  assert (setDeadline timeout "set read deadline failed" n = (Ret tt, n)) as E
    by (unfold setDeadline; by rewrite Hd).
  rewrite (bind_Ret _ _ _ _ _ (onL_eq _ n p _ _ E)).
  destruct (readResponse_delivers (Con.getReadBuf c pooled (Con.readBufSize c)) (Con.maxRespSize c) method
    (Con.headerReadSize c) (Con.bodyReadSize c) (rd n) p head status raw payload x)
    as (r' & p' & E1 & Hdel); try done.
  rewrite (bind_Ret _ _ (n, p) tt (mkNet r' (wr n) (deadlineErr n), p')) by (cbn [fst snd]; by rewrite E1).
  unfold onR. cbn [fst snd]. rewrite decompressBody_plain.
  - rewrite Hd. by do 2 eexists.
  - erewrite isGzip_meta; [exact Hgz |]. destruct Hdel as (_ & _ & _ & -> & _). cbn [parseHeaders Headers]. by destruct (scanHeaders head).
Qed.

(** What the caller sees of a successful round trip. *)
Record tripDone (t t' : trip) (n : NetConn) (head : bytes) (status : Z) (payload : bytes) (p0 : Response) : Prop := {
  td_response : ∃ p', t_resp t' = Some p' ∧ delivered head status payload (Reset p0) p';
  td_wire : ∃ n', Con.conn (t_conn t') = Some n' ∧
    sent (wr n') = sent (wr n) ++ wireMessage (t_conn t) (t_req t) (Req.Body (t_req t)) false;
  td_count : Con.reqsOnConn (t_conn t') = i32 (Con.reqsOnConn (t_conn t) + 1);
  td_health : Con.healthy (t_conn t')
    = (if serverCloses (default [] (scanHeaders head)) then 0 else Con.healthy (t_conn t))
}.

(** The accounting leaves the rest of the connection alone. *)
Definition sameCore (c c' : Connection) : Prop :=
  Con.conn c' = Con.conn c ∧ Con.reqsOnConn c' = Con.reqsOnConn c ∧ Con.healthy c' = Con.healthy c.

Lemma recordSuccess_core ns c : sameCore c (Con.recordSuccess ns c).
Proof.
  unfold Con.recordSuccess. destruct (negb _); [done |]. cbv zeta.
  set (c1 := Con.set_latencyEWMA _ c).
  assert (sameCore c (Con.advanceHealthWindow c1)) as H1
    by (unfold Con.advanceHealthWindow; cbv zeta; by case_if).
  destruct (_ && _); [| done]. unfold Con.tunePipelineDepth. cbv zeta. repeat case_if; exact H1.
Qed.

Lemma rotate_skip env msg t :
  Cfg.MaxRequestsPerConn (Con.config (t_conn t)) ≤ 0 → rotate env msg t = (Ret tt, t).
Proof.
  intros H. unfold rotate. rewrite (bind_Ret _ _ t t t) by done. cbv zeta.
  by rewrite (proj2 (Z.ltb_ge _ _)).
Qed.

Lemma sendOn_accepts env c req p n body :
  Con.conn c = Some n → deadlineErr n = None → answers (wr n) = [] → proxyOK c → Con.port c < 2 ^ 63 →
  len body < 2 ^ 63 → Req.PreEncodedHeaderPrefix req = [] → fitsBuffers c req body false (env_pooledWrite env) →
  sendOn env body false (mkTrip c req (Some p)) =
    (Ret tt, mkTrip (Con.set_conn (Some (mkNet (rd n)
       (mkWConn (sent (wr n) ++ wireMessage c req body false) []) None)) c) req (Some p)).
Proof.
  intros Hconn Hd Ha Hproxy Hport Hb Hpre Hfit. unfold sendOn.
  set (t := mkTrip c req (Some p)). rewrite (bind_Ret _ _ t t t) by done. cbv zeta.
  unfold onError, onNet. cbn [t_conn t_resp t_req t]. rewrite Hconn.
  erewrite onL_eq by (by apply connWriteRequest_accepts). done.
Qed.

(** Receiving and the bookkeeping behind it. *)
Lemma receive_delivers gunzip env c req p n bodyLen head status raw payload x :
  Con.conn c = Some n → deadlineErr n = None → goodHead head status →
  framed (Con.maxRespSize c) p (Req.Method req) head status raw payload → plainHead head p →
  len head ≤ Con.getReadBuf c (env_pooledRead env) (Con.readBufSize c) → 0 < Con.headerReadSize c →
  prompt (rd n) → stream (rd n) = head ++ raw ++ x →
  ∃ c' n' p', receive gunzip env bodyLen (mkTrip c req (Some p)) = (Ret tt, mkTrip c' req (Some p')) ∧
    delivered head status payload p p' ∧ Con.conn c' = Some n' ∧ wr n' = wr n ∧
    Con.reqsOnConn c' = i32 (Con.reqsOnConn c + 1) ∧
    Con.healthy c' = (if serverCloses (default (Headers p) (scanHeaders head)) then 0 else Con.healthy c).
Proof.
  intros Hconn Hd Hg Hfr Hgz Hcap Hhrs Hp Hs. unfold receive.
  set (t := mkTrip c req (Some p)). rewrite (bind_Ret _ _ t t t) by done.
  destruct (connReadResponse_delivers gunzip c (readTimeoutOf env t) (env_pooledRead env) (Req.Method req)
    n p head status raw payload x) as (r' & p' & E & Hdel); try done.
  set (n' := mkNet r' (wr n) None). set (t1 := mkTrip (Con.set_conn (Some n') c) req (Some p')).
  rewrite (bind_Ret _ _ t None t1)
    by (unfold attempt, onNet; cbn [t_conn t_resp t_req t]; by rewrite Hconn, E).
  rewrite (bind_Ret _ _ t1 t1 t1) by done. cbv zeta. cbn [t_resp t1 fmap option_fmap option_map default].
  set (c2 := Con.recordSuccess (env_elapsed env) (settled env (Con.set_conn (Some n') c))).
  destruct (recordSuccess_core (env_elapsed env) (settled env (Con.set_conn (Some n') c))) as (H1 & H2 & H3).
  fold c2 in H1, H2, H3.
  assert (sameCore (addReqs (Con.set_conn (Some n') c)) (settled env (Con.set_conn (Some n') c))) as (H4 & H5 & H6)
    by (unfold settled, Con.updateTimeCache; cbv zeta; by case_if).
  rewrite H4 in H1. rewrite H5 in H2. rewrite H6 in H3.
  match goal with |- context [updConn ?f ≫= _] =>
    rewrite (bind_Ret (updConn f) _ t1 tt (mkTrip (f (t_conn t1)) req (Some p'))) by done end.
  pose proof Hdel as (_ & _ & _ & Hh & _). rewrite isConnectionClose_spec, <- Hh.
  destruct (serverCloses (Headers p')).
  - do 3 eexists. split; [done |]. split_and!; [done | exact H1 | done | exact H2 | done].
  - do 3 eexists. split; [done |]. split_and!; [done | exact H1 | done | exact H2 | exact H3].
Qed.

(** The connection a round trip starts from, once it is counted in. *)
Definition claimed (c : Connection) : Connection :=
  if Con.poolClaimed c then Con.set_poolClaimed false c else addActive 1 c.

Lemma claimed_reqs n c : Con.reqsOnConn (Con.set_conn n (claimed c)) = Con.reqsOnConn c.
Proof. unfold claimed. by destruct (Con.poolClaimed c). Qed.
Lemma claimed_healthy n c : Con.healthy (Con.set_conn n (claimed c)) = Con.healthy c.
Proof. unfold claimed. by destruct (Con.poolClaimed c). Qed.

(** The conditions under which a request is sent at once and in full. *)
Record ready (env : surroundings) (c : Connection) (req : Request) (n : NetConn) : Prop := {
  rdy_ctx : env_ctxErr env = None;
  rdy_rotation : Cfg.MaxRequestsPerConn (Con.config c) ≤ 0;
  rdy_conn : Con.conn c = Some n;
  rdy_deadline : deadlineErr n = None;
  rdy_calm : answers (wr n) = [];
  rdy_plain : plainRequest c req;
  rdy_proxy : proxyOK c;
  rdy_port : Con.port c < 2 ^ 63;
  rdy_body : len (Req.Body req) < 2 ^ 63;
  rdy_fits : fitsBuffers c req (Req.Body req) false (env_pooledWrite env)
}.

(** The network connection after the request was sent. *)
Definition sentNet (c : Connection) (req : Request) (n : NetConn) : NetConn :=
  mkNet (rd n) (mkWConn (sent (wr n) ++ wireMessage c req (Req.Body req) false) []) None.

(** What is left of [doSequential] once the request is out. *)
Lemma doSequential_sends gzip gunzip env c req p0 n :
  ready env c req n →
  doSequential gzip gunzip env (mkTrip c req (Some p0)) =
    deferred (addActive (-1)) (receive gunzip env (len (Req.Body req)))
      (mkTrip (Con.set_conn (Some (sentNet c req n)) (claimed c)) req (Some (Reset p0))).
Proof.
  intros [Hctx Hmax Hconn Hd Ha Hpq Hproxy Hport Hb Hfit]. unfold doSequential.
  rewrite (bind_Ret _ _ _ tt (mkTrip (claimed c) req (Some p0))) by done.
  set (t1 := mkTrip (claimed c) req (Some p0)).
  assert (Con.conn (claimed c) = Some n ∧ plainRequest (claimed c) req ∧ proxyOK (claimed c) ∧
    Con.port (claimed c) = Con.port c ∧ Con.config (claimed c) = Con.config c ∧
    fitsBuffers (claimed c) req (Req.Body req) false (env_pooledWrite env) ∧
    wireMessage (claimed c) req (Req.Body req) false = wireMessage c req (Req.Body req) false)
    as (Hc1 & Hc2 & Hc3 & Hc4 & Hc5 & Hc6 & Hc7).
  { unfold claimed. destruct Hpq. by destruct (Con.poolClaimed c). }
  unfold deferred. rewrite Hctx. rewrite (bind_Ret _ _ t1 tt t1) by done.
  rewrite (bind_Ret _ _ t1 tt t1) by (apply rotate_skip; cbn [t_conn t1]; by rewrite Hc5).
  rewrite (bind_Ret _ _ t1 t1 t1) by done. cbn [t_conn t_resp t_req t1]. rewrite Hc1.
  rewrite (bind_Ret _ _ _ (Req.Body req, false) t1)
    by (unfold onReq; cbn [t_req t1]; by rewrite prepareBody_plain).
  rewrite (bind_Ret _ _ t1 tt (mkTrip (claimed c) req (Some (Reset p0)))) by done.
  rewrite (pq_expect _ _ Hpq). cbn [andb].
  rewrite (bind_Ret _ _ _ false
    (mkTrip (Con.set_conn (Some (sentNet c req n)) (claimed c)) req (Some (Reset p0)))); [done |].
  erewrite bind_Ret; [done |]. unfold sentNet. rewrite <- Hc7.
  apply sendOn_accepts; try done; [congruence | by destruct Hpq].
Qed.

Lemma doSequential_delivers gzip gunzip env c req p0 n head status raw payload x :
  let t := mkTrip c req (Some p0) in
  ready env c req n → goodHead head status →
  framed (Con.maxRespSize c) (Reset p0) (Req.Method req) head status raw payload →
  plainHead head (Reset p0) → len head ≤ Con.getReadBuf c (env_pooledRead env) (Con.readBufSize c) →
  0 < Con.headerReadSize c → prompt (rd n) → stream (rd n) = head ++ raw ++ x →
  ∃ t', doSequential gzip gunzip env t = (Ret tt, t') ∧ tripDone t t' n head status payload p0.
Proof.
  intros t Hr Hg Hfr Hgz Hcap Hhrs Hp Hs. unfold t. rewrite (doSequential_sends _ _ _ _ _ _ n) by done.
  destruct (receive_delivers gunzip env (Con.set_conn (Some (sentNet c req n)) (claimed c)) req (Reset p0)
    (sentNet c req n) (len (Req.Body req)) head status raw payload x)
    as (c' & n' & p' & E & Hdel & Hn' & Hwr & Hreq & Hhealth); try done;
    try (unfold claimed; by destruct (Con.poolClaimed c)).
  unfold deferred. rewrite E. eexists. split; [done |].
  split; cbn [t_resp t_conn t_req].
  - by exists p'.
  - exists n'. split; [done |]. by rewrite Hwr.
  - rewrite claimed_reqs in Hreq. exact Hreq.
  - rewrite claimed_healthy in Hhealth. exact Hhealth.
Qed.

(** C10: a round trip on a sequential connection.  The connection is open, accepts
    writes and deadlines and is not due for rotation ([MaxRequestsPerConn] off); the
    request is plain (not compressed, no Expect, no pre-encoded prefix, body within the
    limit), its first part fits the pooled write buffer and its last part the 128 bytes
    the code has for it; the context is live.  The incoming stream holds a framed,
    not gzip-compressed response whose head fits the read buffer, cut up in any way and
    followed by anything.  Then [doSequential] returns without error; exactly the
    serialised request was sent; the response object holds the status, the headers and
    the payload of that response (for a chunked body that outgrows the buffer, what is
    [received] of it); the connection has counted one request; and it is marked unhealthy
    if the response has a header "Connection: close", and otherwise its health flag is as
    it was. *)
Theorem doSequential_round_trip gzip gunzip env c req p0 n head status raw payload x :
  let t := mkTrip c req (Some p0) in
  ready env c req n → goodHead head status →
  framed (Con.maxRespSize c) (Reset p0) (Req.Method req) head status raw payload →
  plainHead head (Reset p0) → len head ≤ Con.getReadBuf c (env_pooledRead env) (Con.readBufSize c) →
  0 < Con.headerReadSize c → prompt (rd n) → stream (rd n) = head ++ raw ++ x →
  ∃ t', doSequential gzip gunzip env t = (Ret tt, t') ∧ tripDone t t' n head status payload p0.
Proof. intros t. apply doSequential_delivers. Qed.

(** *** Example *)

Definition exReply : bytes :=
  strln "HTTP/1.1 200 OK" ++ strln "Content-Length: 5" ++ crlf.
Definition exNet (b : bytes) : NetConn := mkNet (mkConn [(take 9 b, None); (drop 9 b, None)] EEOF) (mkWConn [] []) None.
Definition exConn (b : bytes) : Connection :=
  Con.set_conn (Some (exNet b)) (Con.NewConnection 1 (str "h") 8080 Cfg.DefaultConfig true false false [] 0).
Definition exEnv : surroundings := mkEnv 5 1000 None None (inl EEOF) 16384 16384.
(** A pooled response whose buffer still holds bytes of an earlier answer. *)
Definition exUsed : Response := mkResponse 0 0 BNil [] (str "secret-secret-secret") 0 [].

Lemma exReady b : ready exEnv (exConn b) exRequest (exNet b).
Proof. split; try done; by vm_compute. Qed.

Lemma doSequential_round_trip_witness :
  let b := exReply ++ str "hello" in
  let t := mkTrip (exConn b) exRequest (Some exUsed) in
  ∃ t', doSequential inr (λ b, GzOK b) exEnv t = (Ret tt, t') ∧
        tripDone t t' (exNet b) exReply 200 (str "hello") exUsed.
Proof.
  set (b := exReply ++ str "hello").
  apply (doSequential_round_trip inr (λ b, GzOK b) exEnv (exConn b) exRequest exUsed (exNet b)
           exReply 200 (str "hello") (str "hello") []).
  - apply exReady.
  - split; [apply isHead_intro; reflexivity | reflexivity].
  - apply framed_length; by vm_compute.
  - reflexivity.
  - by vm_compute.
  - by vm_compute.
  - by repeat constructor.
  - reflexivity.
Defined.

(** ** A response that breaks off *)

(** A body that ends early: what arrived is in the buffer, and the error of the
    connection is returned. *)
Lemma readBodyLoop_short {R} `{ReaderLaws R} fuel brs off want (r : R) p d :
  0 < brs → prompt r → stream r = d → (length d < want)%nat → (off + want ≤ length (bodyBuf p))%nat →
  (budget r < fuel)%nat →
  ∃ r', readBodyLoop fuel brs off want (r, p) =
        (Fail (final r), (r', setBuf (splice (bodyBuf p) off d) p)).
Proof.
  intros Hbrs. revert off want r p d. induction fuel as [|fuel IH]; intros off want r p d Hp Hs Hw Hl Hf; [lia |].
  destruct want as [|want]; [lia |]. cbn [readBodyLoop].
  set (k := if _ <? _ then _ else _).
  assert (0 < k ≤ S want)%nat as [Hk Hk'] by (unfold k; case_if; lia).
  destruct (decide (d = [])) as [-> | Hne].
  - destruct (prompt_end k r Hp Hk Hs) as (r1 & HR & _).
    rewrite (bind_Ret _ _ _ _ _ (readInto_eq off k r p [] _ r1 HR)). by exists r1.
  - destruct (prompt_read k r Hp Hk) as (e & r1 & HR & He & Hle & Hst & Hf1 & Hp1); [by rewrite Hs |].
    rewrite (bind_Ret _ _ _ _ _ (readInto_eq off k r p e None r1 HR)).
    apply read_budget in HR as [_ Hb]; [| done]. specialize (Hb eq_refl).
    rewrite Hst in Hs. subst d. rewrite length_app in *.
    assert ((length e =? 0)%nat = false) as -> by (destruct e; done).
    destruct (IH (off + length e)%nat (S want - length e)%nat r1 (setBuf (splice (bodyBuf p) off e) p) (stream r1))
      as (r2 & ->); try done; [lia | simpl; rewrite length_splice; lia | lia |].
    exists r2. simpl bodyBuf. rewrite splice_splice by lia. by rewrite Hf1.
Qed.

(** The head announces [want] bytes, the connection ends after fewer. *)
Lemma readResponse_breaks_off {R} `{ReaderLaws R} cap maxBody method hrs brs (r : R) p head status want got :
  goodHead head status → noBody method status = false → parseTransferEncoding head = false →
  parseContentLength head = (Z.of_nat want, true) → Z.of_nat want ≤ maxBody →
  (want ≤ length (bodyBuf p))%nat → (length got < want)%nat → len head ≤ cap → 0 < hrs →
  prompt r → stream r = head ++ got →
  ∃ r', readResponse cap maxBody method hrs brs (r, p) =
    (Fail (final r), (r', setBuf (splice (bodyBuf p) 0 got) (setBody (BView want)
       (parseHeaders head (setContentLength (Z.of_nat want) (setStatus status p)))))).
Proof.
  intros Hg Hnb Hte Hcl Hmax Hbuf Hgot Hcap Hhrs Hp Hs.
  destruct (readResponse_head cap maxBody method hrs brs r p head status got)
    as (d & r1 & -> & Hx & Hf1 & Hp1); try done.
  unfold afterHead. rewrite Hnb, Hte, Hcl. cbn [negb].
  rewrite (proj2 (Z.ltb_ge _ _)), (proj2 (Z.eqb_neq _ _)) by lia.
  set (p1 := parseHeaders head (setContentLength (Z.of_nat want) (setStatus status p))).
  rewrite (bind_Ret _ _ (r1, p) tt (r1, p1)) by done.
  assert (ensureBufferSize (Z.of_nat want) p1 = (Ret true, p1)) as E
    by (unfold ensureBufferSize, len; rewrite (proj2 (Z.leb_le _ _)); [done | simpl; lia]).
  rewrite (bind_Ret _ _ _ _ _ (onR_eq _ r1 _ _ _ E)). cbn [negb].
  rewrite (proj2 (Z.ltb_ge _ _)), Nat2Z.id by lia. cbv zeta.
  assert (length got = length d + length (stream r1))%nat as Hlen by (rewrite <- Hx; apply length_app).
  rewrite (take_ge d) by lia.
  rewrite (bind_Ret _ _ (r1, p1) tt (r1, setBuf (splice (bodyBuf p1) 0 d) (setBody (BView want) p1))) by done.
  set (p2 := setBuf _ _). rewrite (bind_Ret _ _ (r1, p2) (r1, p2) (r1, p2)) by done. cbn [fst].
  destruct (readBodyLoop_short (S (budget r1)) (defaultBodyReadSize brs) (length d) (want - length d) r1 p2 (stream r1))
    as (r2 & E2); try done; try lia.
  { apply defaultBodyReadSize_pos. }
  { unfold p2. simpl bodyBuf. rewrite length_splice. lia. }
  rewrite (bind_Fail _ _ _ _ _ E2). exists r2. unfold p2. simpl bodyBuf.
  rewrite (splice_splice (bodyBuf p) 0) by lia. by rewrite Hx, Hf1.
Qed.

Lemma splice_view b d n :
  (length d ≤ n ≤ length b)%nat → take n (splice b 0 d) = d ++ slice b (length d) n.
Proof.
  intros H. unfold splice, slice. rewrite take_0, app_nil_l, Nat.sub_0_r, (take_ge d) by lia.
  rewrite take_app_ge by lia. done.
Qed.

(** C40: A response cut off in the middle of its body is returned as a success.  The
    server announces [want] bytes and closes the connection after fewer; the read
    error is dropped because a status was parsed.  The caller gets no error, a
    [Body] of the full announced length, and behind the bytes that arrived it finds
    what an earlier response left in the pooled buffer. *)
Theorem doSequential_truncated_is_success gzip gunzip env c req p0 n head status want got :
  ready env c req n → goodHead head status → noBody (Req.Method req) status = false →
  parseTransferEncoding head = false → parseContentLength head = (Z.of_nat want, true) →
  Z.of_nat want ≤ Con.maxRespSize c → (want ≤ length (bodyBuf p0))%nat → (length got < want)%nat →
  len head ≤ Con.getReadBuf c (env_pooledRead env) (Con.readBufSize c) → 0 < Con.headerReadSize c →
  prompt (rd n) → stream (rd n) = head ++ got →
  ∃ t' p', doSequential gzip gunzip env (mkTrip c req (Some p0)) = (Ret tt, t') ∧ t_resp t' = Some p' ∧
    StatusCode p' = status ∧ bodyBytes p' = got ++ slice (bodyBuf p0) (length got) want ∧
    Con.healthy (t_conn t') = Con.healthy c.
Proof.
  intros Hr Hg Hnb Hte Hcl Hmax Hbuf Hgot Hcap Hhrs Hp Hs.
  rewrite (doSequential_sends _ _ _ _ _ _ n) by done.
  set (c1 := Con.set_conn (Some (sentNet c req n)) (claimed c)).
  assert (0 < status) as Hst by (destruct Hg as [_ Hg]; apply parseStatusCode_sound in Hg as (? & ? & ? & _ & _ & _ & _ & ? & _); lia).
  destruct (readResponse_breaks_off (Con.getReadBuf c (env_pooledRead env) (Con.readBufSize c)) (Con.maxRespSize c)
    (Req.Method req) (Con.headerReadSize c) (Con.bodyReadSize c) (rd n) (Reset p0) head status want got)
    as (r' & E); try done.
  set (p1 := setBuf _ _) in E. set (t1 := mkTrip c1 req (Some (Reset p0))).
  assert (Con.conn c1 = Some (sentNet c req n)) as Hc by done.
  assert (connReadResponse gunzip c1 (readTimeoutOf env t1) (env_pooledRead env) (Req.Method req)
            (sentNet c req n, Reset p0) = (Fail (final (rd n)), (mkNet r' (wr (sentNet c req n)) None, p1))) as E1.
  { unfold connReadResponse. rewrite (bind_Ret _ _ _ tt (sentNet c req n, Reset p0)) by done.
    apply bind_Fail. cbn [fst snd]. change (rd (sentNet c req n)) with (rd n).
    assert (∀ m : outcome error unit * (Conn * Response), m = (Fail (final (rd n)), (r', p1)) → (let '(o, (r0, p)) := m in
      (o, (mkNet r0 (wr (sentNet c req n)) (deadlineErr (sentNet c req n)), p))) =
      (Fail (final (rd n)), (mkNet r' (wr (sentNet c req n)) None, p1))) as H by (by intros ? ->).
    apply H. rewrite <- E. unfold c1, claimed. by destruct (Con.poolClaimed c). }
  unfold deferred, receive. fold t1. rewrite (bind_Ret _ _ t1 t1 t1) by done.
  set (t2 := mkTrip (Con.set_conn (Some (mkNet r' (wr (sentNet c req n)) None)) c1) req (Some p1)).
  rewrite (bind_Ret _ _ t1 (Some (final (rd n))) t2)
    by (unfold attempt, onNet; cbn [t_conn t_resp t_req t1]; by rewrite Hc, E1).
  rewrite (bind_Ret _ _ t2 t2 t2) by done. cbv zeta. cbn [t_resp t2 fmap option_fmap option_map default].
  change (StatusCode p1) with status. rewrite (proj2 (Z.ltb_lt _ _)) by done.
  eexists _, p1. split; [done |]. split; [done |]. split; [done |]. split.
  - unfold bodyBytes, p1. simpl. apply splice_view. lia.
  - cbn [t_conn updConn modify snd]. unfold addActive, settled, Con.updateTimeCache. cbv zeta.
    transitivity (Con.healthy c1); [by case_if | apply claimed_healthy].
Qed.

Lemma doSequential_truncated_is_success_witness :
  let b := exReply ++ str "he" in
  ∃ t' p', doSequential inr (λ b, GzOK b) exEnv (mkTrip (exConn b) exRequest (Some exUsed)) = (Ret tt, t') ∧
    t_resp t' = Some p' ∧ StatusCode p' = 200 ∧ bodyBytes p' = str "hecre" ∧ Con.healthy (t_conn t') = 0.
Proof.
  set (b := exReply ++ str "he").
  apply (doSequential_truncated_is_success inr (λ b, GzOK b) exEnv (exConn b) exRequest exUsed (exNet b)
           exReply 200 5 (str "he")).
  - apply exReady.
  - split; [apply isHead_intro; reflexivity | reflexivity].
  - reflexivity.
  - reflexivity.
  - reflexivity.
  - by vm_compute.
  - vm_compute. lia.
  - vm_compute. lia.
  - by vm_compute.
  - by vm_compute.
  - by repeat constructor.
  - reflexivity.
Defined.
