(* ===== verification/Socks5.v ===== *)
(** * Socks5: dialing through a SOCKS5 proxy (src/socks5.go)

    The handshake, the user/password sub-negotiation and the CONNECT request,
    over a [net.Conn] that delivers its bytes in packets of any size. *)

From stdpp Require Import prelude list.
From S2P Require Import Prelude Errors Strconv Config IO Request Writer Connection.

Record SOCKS5Dialer := mkSocks {
  sk_proxyAddr : bytes;
  username : bytes;
  password : bytes;
  sk_timeout : Z
}.

(** [NewSOCKS5Dialer(config)] *)
Definition NewSOCKS5Dialer (c : Config) : error + SOCKS5Dialer :=
  if bool_decide (Cfg.SOCKS5Addr c = [])
  then inl (WrapError ErrorTypeProxy "SOCKS5 address is empty" (ESentinel ErrProxyFailed))
  else
    let timeout := if Cfg.ProxyConnectTimeout c <=? 0 then Cfg.DialTimeout c else Cfg.ProxyConnectTimeout c in
    inr (mkSocks (Cfg.SOCKS5Addr c) (Cfg.SOCKS5Username c) (Cfg.SOCKS5Password c) timeout).

(** [conn.Write(b)], the count ignored. *)
Definition send (b : bytes) : go NetConn error unit := λ n,
  let '(_, e, w) := Write b (wr n) in
  (match e with Some e => Fail e | None => Ret tt end, mkNet (rd n) w (deadlineErr n)).

(** [readFull(conn, buf)]: an error ends it even when the buffer is full. *)
Fixpoint recvLoop (fuel want : nat) (got : bytes) (c : Conn) : outcome error bytes * Conn :=
  match want with
  | O => (Ret got, c)
  | _ =>
      match fuel with
      | O => (Hang, c)
      | S fuel' =>
          match Read want c with
          | (_, Some e, c') => (Fail e, c')
          | (d, None, c') => recvLoop fuel' (want - length d) (got ++ d) c'
          end
      end
  end.
Definition readFull (want : nat) : go NetConn error bytes := λ n,
  let '(o, c) := recvLoop (S (budget (rd n))) want [] (rd n) in
  (o, mkNet c (wr n) (deadlineErr n)).

(** [buf[i]] of a buffer [readFull] filled. *)
Definition byteAt (b : bytes) (i : nat) : Z := default 0 (b !! i).

Section dialer.

(** [net.ParseIP(host)] with [To4] and [To16]: the four bytes of an IPv4 address,
    the sixteen of an IPv6 address, or [None] for a name. *)
Variable parseIP : bytes → option (bytes + bytes).
Variable d : SOCKS5Dialer.

(** The message of [authenticate]. *)
Definition authMessage : bytes :=
  1 :: u8 (len (username d)) :: username d ++ u8 (len (password d)) :: password d.

(** [authenticate(conn)] *)
Definition authenticate : go NetConn error unit :=
  if (255 <? len (username d)) || (255 <? len (password d)) then fail ESocksAuthFailed
  else
    _ ← send authMessage;
    resp ← readFull 2;
    if negb (byteAt resp 1 =? 0) then fail ESocksAuthFailed else mret tt.

(** The greeting of [handshake]: with a user name, authentication is offered. *)
Definition greeting : bytes := if negb (bool_decide (username d = [])) then [5; 2; 0; 2] else [5; 1; 0].

(** [handshake(conn)] *)
Definition handshake : go NetConn error unit :=
  _ ← send greeting;
  resp ← readFull 2;
  if negb (byteAt resp 0 =? 5) then fail ESocksUnsupported
  else
    let m := byteAt resp 1 in
    if m =? 0 then mret tt
    else if m =? 2 then authenticate
    else if m =? 255 then fail ESocksAuthFailed
    else fail ESocksUnsupported.

(** [binary.BigEndian.PutUint16(portBytes[:], uint16(port))] *)
Definition portBytes (port : Z) : bytes := [u16 port / 256; u16 port `mod` 256].

(** The message of [connectRequest]. *)
Definition connectMessage (host : bytes) (port : Z) : bytes :=
  match parseIP host with
  | Some (inl ip4) => [5; 1; 0; 1] ++ ip4 ++ portBytes port
  | Some (inr ip16) => [5; 1; 0; 4] ++ ip16 ++ portBytes port
  | None =>
      let host := if 255 <? len host then take 255 host else host in
      [5; 1; 0; 3; u8 (len host)] ++ host ++ portBytes port
  end.

(** [connectRequest(conn, host, port)] *)
Definition connectRequest (host : bytes) (port : Z) : go NetConn error unit :=
  _ ← send (connectMessage host port);
  hdr ← readFull 4;
  if negb (byteAt hdr 0 =? 5) then fail ESocksUnsupported
  else if negb (byteAt hdr 1 =? 0) then
    fail (EDetailed ErrorTypeProxy "SOCKS5 connection failed with code" (Some ESocksConnRefused))
  else
    let t := byteAt hdr 3 in
    if t =? 1 then _ ← readFull 6; mret tt
    else if t =? 4 then _ ← readFull 18; mret tt
    else if t =? 3 then
      dLen ← readFull 1;
      _ ← readFull (Z.to_nat (byteAt dLen 0) + 2);
      mret tt
    else fail ESocksUnsupported.

Definition logged {A} (msg : string) (m : go NetConn error A) : go NetConn error A := λ n,
  match m n with
  | (Fail e, n') => (Fail (LogErrorWithFlag ErrorTypeProxy msg e), n')
  | x => x
  end.

(** [Dial(host, port)]; [dialed] is what [net.DialTimeout] yields.  The connection
    is returned only on success; on an error it is closed. *)
Definition Dial (dialed : error + NetConn) (host : bytes) (port : Z) : outcome error NetConn :=
  match dialed with
  | inl e => Fail (LogErrorWithFlag ErrorTypeProxy "SOCKS5 connect failed" e)
  | inr n =>
      match deadlineErr n with
      | Some e => Fail e
      | None =>
          match (_ ← logged "SOCKS5 handshake failed" handshake;
                 logged "SOCKS5 connect request failed" (connectRequest host port)) n with
          | (Ret _, n') => Ret n'
          | (Fail e, _) => Fail e
          | (Panic, _) => Panic
          | (Hang, _) => Hang
          end
      end
  end.

End dialer.

(** ** What the proxy makes of the messages (RFC 1928 and 1929) *)

Inductive address := IPv4 (a : bytes) | IPv6 (a : bytes) | DomainName (a : bytes).

(** A proxy reading a CONNECT request: version 5, command 1, then the address by
    its type and two bytes of port. *)
Definition parseConnect (m : bytes) : option (address * Z) :=
  let port r := match r with [a; b] => Some (a * 256 + b) | _ => None end in
  match m with
  | 5 :: 1 :: 0 :: 1 :: t => p ← port (drop 4 t); Some (IPv4 (take 4 t), p)
  | 5 :: 1 :: 0 :: 4 :: t => p ← port (drop 16 t); Some (IPv6 (take 16 t), p)
  | 5 :: 1 :: 0 :: 3 :: n :: t =>
      p ← port (drop (Z.to_nat n) t); Some (DomainName (take (Z.to_nat n) t), p)
  | _ => None
  end.

(** A proxy reading the user and password. *)
Definition parseAuth (m : bytes) : option (bytes * bytes) :=
  match m with
  | 1 :: n :: t =>
      match drop (Z.to_nat n) t with
      | k :: p => if len p =? k then Some (take (Z.to_nat n) t, p) else None
      | [] => None
      end
  | _ => None
  end.

(** The reply to a CONNECT request: success, and the address it bound. *)
Inductive connectReply : bytes → Prop :=
  | reply4 rsv a : length a = 6%nat → connectReply ([5; 0; rsv; 1] ++ a)
  | reply6 rsv a : length a = 18%nat → connectReply ([5; 0; rsv; 4] ++ a)
  | replyName rsv n a : 0 ≤ n < 256 → length a = (Z.to_nat n + 2)%nat → connectReply ([5; 0; rsv; 3; n] ++ a).

(** What the proxy answers before the tunnel opens, and what the client must have
    sent: without authentication, or with it. *)
Definition dialog (auth : bool) (verdict : Z) (conReply : bytes) : bytes :=
  (if auth then [5; 2; verdict; 0] else [5; 0]) ++ conReply.

Definition clientSays (parseIP : bytes → option (bytes + bytes)) (d : SOCKS5Dialer) (auth : bool)
    (host : bytes) (port : Z) : bytes :=
  greeting d ++ (if auth then authMessage d else []) ++ connectMessage parseIP host port.

(** ** The dialog *)

(** A connection on which the client has sent [s] and has [rest] still to read. *)
Record linked (n : NetConn) (s rest : bytes) : Prop := {
  lk_answers : answers (wr n) = [];
  lk_sent : sent (wr n) = s;
  lk_prompt : prompt (rd n);
  lk_stream : stream (rd n) = rest
}.

Lemma send_linked n s rest b :
  linked n s rest → ∃ n', send b n = (Ret tt, n') ∧ linked n' (s ++ b) rest.
Proof.
  intros [Ha Hs Hp Hr]. unfold send, Write. rewrite Ha. eexists. split; [done |].
  split; try done. simpl. by rewrite Hs.
Qed.

Lemma recvLoop_prompt fuel want got c body rest :
  prompt c → stream c = body ++ rest → length body = want → (budget c < fuel)%nat →
  ∃ c', recvLoop fuel want got c = (Ret (got ++ body), c') ∧ stream c' = rest ∧ prompt c'.
Proof.
  revert want got c body. induction fuel as [|fuel IH]; intros want got c body Hp Hs Hl Hf; [lia |].
  destruct want as [|want].
  { apply nil_length_inv in Hl as ->. exists c. by rewrite app_nil_r. }
  assert (stream c ≠ []) as Hne by (rewrite Hs; by destruct body).
  destruct (prompt_read (S want) c Hp ltac:(lia) Hne) as (d & c1 & HR & Hd & Hld & Hst & _ & Hp1).
  cbn [recvLoop]. rewrite HR. apply read_budget in HR as [_ Hb]; [| lia]. specialize (Hb eq_refl).
  rewrite Hst in Hs. apply app_split_le in Hs as (body2 & -> & Hs); [| lia]. rewrite length_app in Hl.
  destruct (IH (S want - length d)%nat (got ++ d) c1 body2) as (c2 & -> & ? & ?); try done; [lia | lia |].
  exists c2. by rewrite <- app_assoc.
Qed.

Lemma readFull_linked n s body rest want :
  linked n s (body ++ rest) → length body = want →
  ∃ n', readFull want n = (Ret body, n') ∧ linked n' s rest.
Proof.
  intros [Ha Hs Hp Hr] Hl. unfold readFull.
  destruct (recvLoop_prompt (S (budget (rd n))) want [] (rd n) body rest) as (c' & -> & ? & ?); try done; [lia |].
  eexists. split; [done |]. by split.
Qed.

(** Run the next [send] or [readFull] of a dialog. *)
Ltac say H := let n := fresh "n" in let E := fresh "E" in
  match goal with |- context [send ?b] =>
    destruct (send_linked _ _ _ b H) as (n & E & ?); rewrite (bind_Ret _ _ _ _ _ E); clear H E
  end.
Ltac hear H body := let n := fresh "n" in let E := fresh "E" in
  destruct (readFull_linked _ _ body _ _ H eq_refl) as (n & E & ?); rewrite (bind_Ret _ _ _ _ _ E); clear H E.

Section proxy.

Context (parseIP : bytes → option (bytes + bytes)) (d : SOCKS5Dialer).

Lemma authenticate_ok n s v rest :
  linked n s ([v; 0] ++ rest) → len (username d) ≤ 255 → len (password d) ≤ 255 →
  ∃ n', authenticate d n = (Ret tt, n') ∧ linked n' (s ++ authMessage d) rest.
Proof.
  intros H Hu Hp. unfold authenticate. rewrite !(proj2 (Z.ltb_ge _ _)) by lia. cbn [orb].
  say H. hear H0 [v; 0]. by eexists.
Qed.

Lemma handshake_ok n s auth v rest :
  linked n s ((if auth : bool then [5; 2; v; 0] else [5; 0]) ++ rest) →
  (auth = true → len (username d) ≤ 255 ∧ len (password d) ≤ 255) →
  ∃ n', handshake d n = (Ret tt, n') ∧
    linked n' (s ++ greeting d ++ (if auth then authMessage d else [])) rest.
Proof.
  intros H Ha. unfold handshake. say H. destruct auth.
  - hear H0 [5; 2]. destruct Ha as [Hu Hp]; [done |].
    destruct (authenticate_ok _ _ v rest H Hu Hp) as (n2 & E & L).
    exists n2. split; [exact E |]. by rewrite app_assoc.
  - hear H0 [5; 0]. eexists. split; [done |]. by rewrite app_nil_r.
Qed.

Lemma connectRequest_ok n s host port rep rest :
  linked n s (rep ++ rest) → connectReply rep →
  ∃ n', connectRequest parseIP host port n = (Ret tt, n') ∧
    linked n' (s ++ connectMessage parseIP host port) rest.
Proof.
  intros H Hrep. unfold connectRequest. say H.
  destruct Hrep as [rsv a Hl | rsv a Hl | rsv k a Hk Hl].
  - rewrite <- app_assoc in H0. hear H0 [5; 0; rsv; 1]. cbn [byteAt lookup list_lookup default].
    destruct (readFull_linked _ _ a rest 6 H Hl) as (n2 & E & L). simpl.
    rewrite (bind_Ret _ _ _ _ _ E). by exists n2.
  - rewrite <- app_assoc in H0. hear H0 [5; 0; rsv; 4]. cbn [byteAt lookup list_lookup default].
    destruct (readFull_linked _ _ a rest 18 H Hl) as (n2 & E & L). simpl.
    rewrite (bind_Ret _ _ _ _ _ E). by exists n2.
  - change (([5; 0; rsv; 3; k] ++ a) ++ rest) with ([5; 0; rsv; 3] ++ [k] ++ a ++ rest) in H0.
    hear H0 [5; 0; rsv; 3]. simpl. hear H [k].
    destruct (readFull_linked _ _ a rest (Z.to_nat k + 2) H0 Hl) as (n3 & E & L). simpl.
    rewrite (bind_Ret _ _ _ _ _ E). by exists n3.
Qed.

End proxy.

(** The address the proxy should connect to. *)
Definition wanted (parseIP : bytes → option (bytes + bytes)) (host : bytes) : address :=
  match parseIP host with
  | Some (inl a) => IPv4 a
  | Some (inr a) => IPv6 a
  | None => DomainName host
  end.

Lemma port_parts port : 0 ≤ port < 65536 → u16 port / 256 * 256 + u16 port `mod` 256 = port.
Proof. intros. unfold u16. rewrite (Z.mod_small port) by lia. pose proof (Z.div_mod port 256). lia. Qed.

Lemma parseConnect_connectMessage parseIP host port :
  (∀ h a, parseIP h = Some (inl a) → length a = 4%nat) →
  (∀ h a, parseIP h = Some (inr a) → length a = 16%nat) →
  len host ≤ 255 → 0 ≤ port < 65536 →
  parseConnect (connectMessage parseIP host port) = Some (wanted parseIP host, port).
Proof.
  intros H4 H6 Hh Hp. unfold connectMessage, wanted, parseConnect.
  destruct (parseIP host) as [[a | a] |] eqn:E; cbn [app].
  - rewrite drop_app_length', take_app_length' by (symmetry; eauto). simpl. by rewrite port_parts.
  - rewrite drop_app_length', take_app_length' by (symmetry; eauto). simpl. by rewrite port_parts.
  - rewrite (proj2 (Z.ltb_ge _ _)) by lia. cbn [app].
    unfold u8. rewrite Z.mod_small by (pose proof (len_nonneg host); lia). rewrite len_to_nat.
    rewrite drop_app_length, take_app_length. simpl. by rewrite port_parts.
Qed.

Lemma parseAuth_authMessage d :
  len (username d) ≤ 255 → len (password d) ≤ 255 →
  parseAuth (authMessage d) = Some (username d, password d).
Proof.
  intros Hu Hp. unfold parseAuth, authMessage, u8.
  pose proof (len_nonneg (username d)). pose proof (len_nonneg (password d)).
  rewrite !Z.mod_small by lia. rewrite len_to_nat, drop_app_length, take_app_length.
  by rewrite Z.eqb_refl.
Qed.

(** C27: dialing through a SOCKS5 proxy.  Whether or not the proxy asks for the
    user name and password, in whatever packets its answers arrive, and whatever
    address it reports, [Dial] returns the connection with exactly the proxy's
    answers taken off it, so that the first byte read next is the first byte of
    the tunnel.  The client has sent the greeting, the credentials if asked, and
    the CONNECT request, and a proxy that reads them by RFC 1928 and 1929 gets
    the host, the port, the user name and the password. *)
Theorem Dial_opens_tunnel parseIP d n auth v rep rest host port :
  (∀ h a, parseIP h = Some (inl a) → length a = 4%nat) →
  (∀ h a, parseIP h = Some (inr a) → length a = 16%nat) →
  len host ≤ 255 → 0 ≤ port < 65536 →
  len (username d) ≤ 255 → len (password d) ≤ 255 →
  deadlineErr n = None → linked n [] (dialog auth v rep ++ rest) → connectReply rep →
  ∃ n', Dial parseIP d (inr n) host port = Ret n' ∧
    linked n' (clientSays parseIP d auth host port) rest ∧
    parseConnect (connectMessage parseIP host port) = Some (wanted parseIP host, port) ∧
    parseAuth (authMessage d) = Some (username d, password d).
Proof.
  intros H4 H6 Hh Hp Hu Hpw Hd Hl Hrep. unfold dialog in Hl. rewrite <- app_assoc in Hl.
  destruct (handshake_ok d n [] auth v (rep ++ rest) Hl) as (n1 & E1 & L1); [done |].
  destruct (connectRequest_ok parseIP n1 _ host port rep rest L1 Hrep) as (n2 & E2 & L2).
  exists n2. split_and!.
  - unfold Dial. rewrite Hd. unfold mbind, go_bind, logged. by rewrite E1, E2.
  - unfold clientSays. by rewrite app_nil_l, <- app_assoc in L2.
  - by apply parseConnect_connectMessage.
  - by apply parseAuth_authMessage.
Qed.

Lemma Dial_opens_tunnel_witness :
  let d := mkSocks (str "proxy:1080") (str "bob") (str "pw") 0 in
  let n := mkNet (mkConn [([5], None); ([2; 1; 0; 5; 0], None); ([0; 1; 10; 0; 0; 1; 4], None); ([56; 72; 84], None)] EEOF)
                 (mkWConn [] []) None in
  ∃ n', Dial (λ _, None) d (inr n) (str "example.org") 443 = Ret n' ∧
    linked n' (clientSays (λ _, None) d true (str "example.org") 443) (str "HT") ∧
    parseConnect (connectMessage (λ _, None) (str "example.org") 443) = Some (wanted (λ _, None) (str "example.org"), 443) ∧
    parseAuth (authMessage d) = Some (username d, password d).
Proof.
  intros d n.
  apply (Dial_opens_tunnel (λ _, None) d n true 1 ([5; 0; 0; 1] ++ [10; 0; 0; 1; 4; 56]) (str "HT")); try done; try (by vm_compute).
  - split; try done. by repeat constructor.
  - by constructor.
Defined.
