(* ===== verification/Proxy.v ===== *)
(** * Proxy: dialing through an HTTP proxy, and the dialer (src/proxy.go, src/dialer.go)

    [NewProxyDialer], the CONNECT exchange, and the [Dialer] that chooses
    between a SOCKS5 proxy, an HTTP proxy and a direct connection. *)

From stdpp Require Import prelude list gmap.
From S2P Require Import Prelude Errors Strconv Config Dns IO Scan Request Writer WriterProps Connection ConnectionProps Socks5.

(** ** base64.StdEncoding *)

Definition b64char (n : Z) : Z :=
  if n <? 26 then 65 + n else if n <? 52 then 71 + n else if n <? 62 then n - 4
  else if n =? 62 then 43 else 47.

(** [EncodeToString]: three bytes to four characters, the rest padded with [=]. *)
Fixpoint encode64 (l : bytes) : bytes :=
  match l with
  | [] => []
  | [a] => [b64char (a / 4); b64char (a `mod` 4 * 16); 61; 61]
  | [a; b] => [b64char (a / 4); b64char (a `mod` 4 * 16 + b / 16); b64char (b `mod` 16 * 4); 61]
  | a :: b :: c :: t =>
      b64char (a / 4) :: b64char (a `mod` 4 * 16 + b / 16) :: b64char (b `mod` 16 * 4 + c / 64)
        :: b64char (c `mod` 64) :: encode64 t
  end.

(** ** ProxyDialer *)

Record ProxyDialer := mkProxy {
  px_addr : bytes;
  authHeader : bytes;
  connectTimeout : Z;
  px_readTimeout : Z
}.

(** The parts of the proxy's URL: [u.Host], [u.Port()], [u.Scheme]. *)
Record proxyURL := mkProxyURL { pu_Host : bytes; pu_Port : bytes; pu_Scheme : bytes }.

(** The header [NewProxyDialer] prepares; none without credentials. *)
Definition basicAuth (user pass : bytes) : bytes :=
  if negb (bool_decide (user = [])) || negb (bool_decide (pass = []))
  then str "Proxy-Authorization: Basic " ++ encode64 (user ++ [COLON] ++ pass) ++ crlf
  else [].

(** [NewProxyDialer(config)]; [parsed] is the result of [url.Parse]. *)
Definition NewProxyDialer (c : Config) (parsed : error + proxyURL) : error + ProxyDialer :=
  match parsed with
  | inl e => inl (LogErrorWithFlag ErrorTypeProxy "invalid proxy URL" e)
  | inr u =>
      if bool_decide (pu_Host u = [])
      then inl (WrapError ErrorTypeProxy "empty proxy address" (ESentinel ErrProxyFailed))
      else
        let addr := if bool_decide (pu_Port u = [])
                    then pu_Host u ++ (if bool_decide (pu_Scheme u = str "https") then str ":443" else str ":80")
                    else pu_Host u in
        inr (mkProxy addr (basicAuth (Cfg.ProxyUsername c) (Cfg.ProxyPassword c))
               (Cfg.ProxyConnectTimeout c) (Cfg.ProxyReadTimeout c))
  end.

(** [for n > 0 { start--; buf[start] = byte('0' + n%10); n /= 10 }] with [room]
    places left in the array; writing in front of it panics. *)
Fixpoint digitsInto (room : nat) (n : Z) (acc : bytes) : outcome error bytes :=
  if 0 <? n then
    match room with
    | O => Panic
    | S room' => digitsInto room' (n / 10) (48 + n `mod` 10 :: acc)
    end
  else Ret acc.

(** [buildTarget(host, port)] *)
Definition buildTarget (host : bytes) (port : Z) : outcome error bytes :=
  if port =? 443 then Ret (host ++ str ":443")
  else if port =? 80 then Ret (host ++ str ":80")
  else if port =? 0 then Ret (host ++ [COLON] ++ [48])
  else match digitsInto 12 port [] with
       | Ret ds => Ret (host ++ [COLON] ++ ds)
       | o => o
       end.

(** [copy(buf[pos:], d); pos += n]: a position behind the end of the buffer panics, and
    what does not fit is not copied. *)
Definition copyAt (d : bytes) (n : nat) : go wbuf error unit := λ '(buf, pos),
  if (pos <=? length buf)%nat
  then (Ret tt, (splice buf pos d, (pos + n)%nat))
  else (Panic, (buf, pos)).

(** [totalSize] of [writeConnect] *)
Definition connectSize (p : ProxyDialer) (target : bytes) : nat :=
  8 + length target + 17 + length target + 2 + length (authHeader p) + 2.

(** [writeConnect]: the copies into the message's buffer, with the offsets of the
    code. *)
Definition fillConnect (p : ProxyDialer) (target : bytes) : go wbuf error unit :=
  let targetLen := length target in
  let authLen := length (authHeader p) in
  _ ← copyAt (str "CONNECT ") 8;
  _ ← copyAt target targetLen;
  _ ← copyAt (strln " HTTP/1.1" ++ str "Host: ") 17;
  _ ← copyAt target targetLen;
  _ ← copyAt crlf 2;
  _ ← (if (0 <? authLen)%nat then copyAt (authHeader p) authLen else mret tt);
  copyAt crlf 0.

(** [conn.SetWriteDeadline], [conn.SetReadDeadline] *)
Definition deadline : go NetConn error unit := λ n,
  (match deadlineErr n with Some e => Fail e | None => Ret tt end, n).

(** [writeConnect(conn, target)]; both kinds of buffer start out as zeroes. *)
Definition writeConnect (p : ProxyDialer) (target : bytes) : go NetConn error unit := λ n,
  match fillConnect p target (replicate (connectSize p target) 0, 0%nat) with
  | (Ret _, (buf, _)) => (_ ← deadline; onWr (writeAll buf)) n
  | (Fail e, _) => (Fail e, n)
  | (Panic, _) => (Panic, n)
  | (Hang, _) => (Hang, n)
  end.

(** [conn.Read(buf)] with [k] bytes of room: an error or the bytes. *)
Definition readOnce (k : nat) : go NetConn error bytes := λ n,
  let '(d, e, c) := Read k (rd n) in
  (match e with Some e => Fail e | None => Ret d end, mkNet c (wr n) (deadlineErr n)).

(** The checks once the head is there. *)
Definition checkConnect (buf : bytes) : go NetConn error unit :=
  if (length buf <? 12)%nat
  then fail (WrapError ErrorTypeProtocol "proxy response too short" (ESentinel ErrInvalidResponse))
  else if bool_decide (slice buf 9 12 = str "200") then mret tt
  else fail (WrapError ErrorTypeProxy "proxy CONNECT rejected" (ESentinel ErrProxyFailed)).

Definition proxyClosed : error :=
  WrapError ErrorTypeProtocol "proxy connection closed" (ESentinel ErrInvalidResponse).

(** [readConnectResponse(conn)]: at most two reads into 512 bytes. *)
Definition readConnectResponse : go NetConn error unit :=
  _ ← deadline;
  d1 ← readOnce 512;
  if bool_decide (d1 = []) then fail proxyClosed
  else if findHeaderEnd d1 <? 0 then
    if (512 <=? length d1)%nat
    then fail (WrapError ErrorTypeProtocol "proxy response too large" (ESentinel ErrHeaderTooLarge))
    else
      d2 ← readOnce (512 - length d1);
      if bool_decide (d2 = []) then fail proxyClosed
      else if findHeaderEnd (d1 ++ d2) <? 0
      then fail (WrapError ErrorTypeProtocol "proxy response incomplete" (ESentinel ErrInvalidResponse))
      else checkConnect (d1 ++ d2)
  else checkConnect d1.

(** [Dial(host, port)]; [dialed] is what [net.DialTimeout] yields. *)
Definition proxyDial (p : ProxyDialer) (dialed : error + NetConn) (host : bytes) (port : Z) : outcome error NetConn :=
  match buildTarget host port with
  | Ret target =>
      match dialed with
      | inl e => Fail (LogErrorWithFlag ErrorTypeProxy "proxy connection failed" e)
      | inr n =>
          match (_ ← logged "proxy CONNECT write failed" (writeConnect p target);
                 logged "proxy CONNECT response failed" readConnectResponse) n with
          | (Ret _, n') => Ret n'
          | (Fail e, _) => Fail e
          | (Panic, _) => Panic
          | (Hang, _) => Hang
          end
      end
  | Fail e => Fail e
  | Panic => Panic
  | Hang => Hang
  end.

(** [DialForward()] of the proxy dialer *)
Definition proxyDialForward (dialed : error + NetConn) : error + NetConn :=
  match dialed with
  | inl e => inl (LogErrorWithFlag ErrorTypeProxy "forward proxy connection failed" e)
  | inr n => inr n
  end.

(** ** Dialer *)

Record Dialer := mkDialer {
  dl_config : Config;
  proxyDialer : option ProxyDialer;
  socks5Dialer : option SOCKS5Dialer;
  dnsCache : option DNSCache
}.

(** [NewDialer(config)] *)
Definition NewDialer (c : Config) (parsed : error + proxyURL) : error + Dialer :=
  let cache := if Cfg.EnableDNSCache c then Some (NewDNSCache (Cfg.DNSCacheTTL c) (Cfg.DNSNegativeTTL c)) else None in
  if negb (bool_decide (Cfg.SOCKS5Addr c = [])) then
    match NewSOCKS5Dialer c with
    | inl e => inl (WrapError ErrorTypeProxy "failed to create SOCKS5 dialer" e)
    | inr d => inr (mkDialer c None (Some d) cache)
    end
  else if negb (bool_decide (Cfg.ProxyURL c = [])) then
    match NewProxyDialer c parsed with
    | inl e => inl (WrapError ErrorTypeProxy "failed to create proxy dialer" e)
    | inr p => inr (mkDialer c (Some p) None cache)
    end
  else inr (mkDialer c None None cache).

(** [IsForwardProxy(useTLS)] and [ProxyAuthHeader()] *)
Definition IsForwardProxy (d : Dialer) (useTLS : bool) : bool :=
  bool_decide (is_Some (proxyDialer d)) && negb useTLS.
Definition ProxyAuthHeader (d : Dialer) : bytes := default [] (authHeader <$> proxyDialer d).

(** What the socket says when options are set on it. *)
Record tcpAnswers := mkTCP { isTCP : bool; noDelayErr : option error; keepAliveErr : option error }.

(** The options set on a new connection; buffer sizes and the keep-alive period are
    best effort. *)
Definition tuneTCP (c : Config) (a : tcpAnswers) (n : NetConn) : error + NetConn :=
  if isTCP a then
    match noDelayErr a with
    | Some e => inl (LogErrorWithFlag ErrorTypeInternal "set TCP no delay failed" e)
    | None =>
        match (if Cfg.TCPKeepAlive c then keepAliveErr a else None) with
        | Some e => inl (LogErrorWithFlag ErrorTypeInternal "set TCP keep alive failed" e)
        | None => inr n
        end
    end
  else inr n.

(** [DialForward()] *)
Definition DialForward (d : Dialer) (dialed : error + NetConn) (a : tcpAnswers) : error + NetConn :=
  match proxyDialer d with
  | None => inl (WrapError ErrorTypeProxy "no proxy configured for forward dial" (ESentinel ErrProxyFailed))
  | Some _ =>
      match proxyDialForward dialed with
      | inl e => inl e
      | inr n => tuneTCP (dl_config d) a n
      end
  end.

(** [buildAddr(host, port)] *)
Definition buildAddr (host : bytes) (port : Z) : outcome error bytes :=
  let ds := if port =? 80 then Ret (str "80") else if port =? 443 then Ret (str "443")
            else if port =? 8080 then Ret (str "8080") else if port =? 8443 then Ret (str "8443")
            else if port =? 0 then Ret [48] else digitsInto 8 port [] in
  match ds with
  | Ret p => Ret (if existsb (λ c, c =? COLON) host then [91] ++ host ++ str "]:" ++ p else host ++ [COLON] ++ p)
  | o => o
  end.

(** What the surroundings answer to one [DialAddr]: the connection or error of
    [net.Dial] to an address, the resolver, the clock, the socket. *)
Record dialEnv := mkDialEnv {
  de_tcp : bytes → error + NetConn;
  de_parseIP : bytes → option (bytes + bytes);
  de_resolver : lookup_result;
  de_now : Z;
  de_later : Z;
  de_socket : tcpAnswers
}.

(** The direct route: the address to dial, and the DNS cache afterwards. *)
Definition directAddr (d : Dialer) (env : dialEnv) (host : bytes) (port : Z) : outcome error bytes * option DNSCache :=
  let isIP h := bool_decide (is_Some (de_parseIP env h)) in
  match dnsCache d with
  | None => (buildAddr host port, None)
  | Some c =>
      let '(o, c) := LookupHost isIP (de_resolver env) (de_now env) (de_later env) host c in
      match o with
      | Ret (a :: _) => (buildAddr a port, Some c)
      | Panic => (Panic, Some c)
      | Hang => (Hang, Some c)
      | _ => (buildAddr host port, Some c)
      end
  end.

(** The socket options on what a route yields. *)
Definition tuned (d : Dialer) (env : dialEnv) (n : NetConn) : outcome error NetConn :=
  match tuneTCP (dl_config d) (de_socket env) n with inl e => Fail e | inr n => Ret n end.

(** The last branch of [DialAddr]. *)
Definition directDial (d : Dialer) (env : dialEnv) (host : bytes) (port : Z) : outcome error NetConn * Dialer :=
  let '(o, cache) := directAddr d env host port in
  let d := mkDialer (dl_config d) None None cache in
  match o with
  | Ret address =>
      match de_tcp env address with
      | inl e => (Fail (LogErrorWithFlag ErrorTypeNetwork "dial failed" e), d)
      | inr n => (tuned d env n, d)
      end
  | Fail e => (Fail e, d)
  | Panic => (Panic, d)
  | Hang => (Hang, d)
  end.

(** [DialAddr(host, port)]: the chosen route, then the socket options. *)
Definition DialAddr (d : Dialer) (env : dialEnv) (host : bytes) (port : Z) : outcome error NetConn * Dialer :=
  let host := if bool_decide (host = []) then Cfg.Host (dl_config d) else host in
  let port := if port =? 0 then Cfg.Port (dl_config d) else port in
  let port := if port <=? 0 then (if Cfg.UseTLS (dl_config d) then 443 else 80) else port in
  let via msg (o : outcome error NetConn) :=
    match o with
    | Ret n => tuned d env n
    | Fail e => Fail (LogErrorWithFlag ErrorTypeProxy msg e)
    | Panic => Panic
    | Hang => Hang
    end in
  match socks5Dialer d, proxyDialer d with
  | Some s, _ => (via "SOCKS5 dial failed" (Dial (de_parseIP env) s (de_tcp env (sk_proxyAddr s)) host port), d)
  | None, Some p => (via "proxy dial failed" (proxyDial p (de_tcp env (px_addr p)) host port), d)
  | None, None => directDial d env host port
  end.

(** [Dial()] *)
Definition dialConfigured (d : Dialer) (env : dialEnv) : outcome error NetConn * Dialer :=
  DialAddr d env [] 0.

(** [Stop()] *)
Definition stopDialer (d : Dialer) : Dialer :=
  mkDialer (dl_config d) (proxyDialer d) (socks5Dialer d) (StopDNS <$> dnsCache d).
