(* ===== verification/ProxyProps.v ===== *)
(** * ProxyProps: the CONNECT exchange and the addresses that are dialled

    [connectText] is the request the offsets of [fillConnect] are meant to produce,
    [dialText] the address [buildAddr] is meant to render. *)

From stdpp Require Import prelude list gmap.
From S2P Require Import Prelude Errors Strconv Config Dns IO Scan Request Writer WriterProps Connection ConnectionProps Socks5 Proxy.

(** ** base64 *)

(** A reader of the alphabet (RFC 4648). *)
Definition b64value (c : Z) : Z :=
  if (65 <=? c) && (c <=? 90) then c - 65 else if (97 <=? c) && (c <=? 122) then c - 71
  else if (48 <=? c) && (c <=? 57) then c + 4 else if c =? 43 then 62 else 63.

(** A decoder: four characters to three bytes, fewer before the padding. *)
Fixpoint decode64 (l : bytes) : option bytes :=
  match l with
  | [] => Some []
  | w :: x :: y :: z :: t =>
      let a := b64value w * 4 + b64value x / 16 in
      let b := b64value x `mod` 16 * 16 + b64value y / 4 in
      let c := b64value y `mod` 4 * 64 + b64value z in
      if (y =? 61) && (z =? 61) then Some [a]
      else if z =? 61 then Some [a; b]
      else rest ← decode64 t; Some (a :: b :: c :: rest)
  | _ => None
  end.

Lemma b64value_b64char n : 0 ≤ n < 64 → b64value (b64char n) = n ∧ b64char n ≠ 61.
Proof. intros. unfold b64value, b64char. repeat case_if; lia. Qed.

Lemma decode64_encode64 l : Forall is_byte l → decode64 (encode64 l) = Some l.
Proof.
  assert (∀ n l, (length l ≤ n)%nat → Forall is_byte l → decode64 (encode64 l) = Some l) as H; [| by apply (H (length l))].
  clear l. induction n as [|n IH]; intros l Hl Hb.
  { destruct l; [done | simpl in Hl; lia]. }
  unfold is_byte in Hb.
  destruct l as [|a [|b [|c t]]]; [done | | |]; repeat (apply Forall_cons in Hb as [? Hb]).
  all: cbn [encode64 decode64].
  - destruct (b64value_b64char (a / 4)) as [E1 _]; [dlia |].
    destruct (b64value_b64char (a `mod` 4 * 16)) as [E2 _]; [dlia |]. rewrite E1, E2. simpl. do 2 f_equal. dlia.
  - destruct (b64value_b64char (a / 4)) as [E1 _]; [dlia |].
    destruct (b64value_b64char (a `mod` 4 * 16 + b / 16)) as [E2 _]; [dlia |].
    destruct (b64value_b64char (b `mod` 16 * 4)) as [E3 N3]; [dlia |]. rewrite E1, E2, E3.
    rewrite (proj2 (Z.eqb_neq _ _) N3). simpl. repeat f_equal; dlia.
  - destruct (b64value_b64char (a / 4)) as [E1 _]; [dlia |].
    destruct (b64value_b64char (a `mod` 4 * 16 + b / 16)) as [E2 _]; [dlia |].
    destruct (b64value_b64char (b `mod` 16 * 4 + c / 64)) as [E3 N3]; [dlia |].
    destruct (b64value_b64char (c `mod` 64)) as [E4 N4]; [dlia |]. rewrite E1, E2, E3, E4.
    rewrite (proj2 (Z.eqb_neq _ _) N3), (proj2 (Z.eqb_neq _ _) N4). cbn [andb].
    rewrite IH by (simpl in Hl; try lia; done). simpl. repeat f_equal; dlia.
Qed.

(** ** Ports in decimal *)

Lemma digitsInto_ok room n acc :
  0 ≤ n < 10 ^ Z.of_nat room → digitsInto room n acc = Ret (formatLoop 10 room n acc).
Proof.
  revert n acc. induction room as [|room IH]; intros n acc Hn.
  { assert (n = 0) as -> by (simpl in Hn; lia). done. }
  cbn [digitsInto]. rewrite Nat2Z.inj_succ, Z.pow_succ_r in Hn by lia. destruct (Z.ltb_spec 0 n).
  - rewrite formatLoop_step by done. apply IH. split; [apply Z.div_pos; lia | apply Z.div_lt_upper_bound; lia].
  - assert (n = 0) as -> by lia. done.
Qed.

Lemma digitsInto_panics room n acc : 10 ^ Z.of_nat room ≤ n → digitsInto room n acc = Panic.
Proof.
  revert n acc. induction room as [|room IH]; intros n acc Hn; cbn [digitsInto].
  - rewrite (proj2 (Z.ltb_lt _ _)) by (simpl in Hn; lia). done.
  - rewrite Nat2Z.inj_succ, Z.pow_succ_r in Hn by lia. pose proof (Z.pow_pos_nonneg 10 (Z.of_nat room)).
    rewrite (proj2 (Z.ltb_lt _ _)) by lia. apply IH. apply Z.div_le_lower_bound; lia.
Qed.

Lemma buildTarget_ok host port :
  0 ≤ port < 10 ^ 12 → buildTarget host port = Ret (host ++ [COLON] ++ Itoa port).
Proof.
  intros Hp. unfold buildTarget.
  destruct (Z.eqb_spec port 443) as [-> |]; [done |]. destruct (Z.eqb_spec port 80) as [-> |]; [done |].
  destruct (Z.eqb_spec port 0) as [-> |]; [done |].
  rewrite digitsInto_ok by (simpl; lia). by rewrite (Itoa_digits 12) by (simpl; lia).
Qed.

(** The address [net.Dial] is given. *)
Definition dialText (host : bytes) (port : Z) : bytes :=
  if existsb (λ c, c =? COLON) host then [91] ++ host ++ str "]:" ++ Itoa port else host ++ [COLON] ++ Itoa port.

Lemma buildAddr_ok host port : 0 ≤ port < 10 ^ 8 → buildAddr host port = Ret (dialText host port).
Proof.
  intros Hp. unfold buildAddr, dialText. cbv zeta.
  destruct (Z.eqb_spec port 80) as [-> |]; [done |]. destruct (Z.eqb_spec port 443) as [-> |]; [done |].
  destruct (Z.eqb_spec port 8080) as [-> |]; [done |]. destruct (Z.eqb_spec port 8443) as [-> |]; [done |].
  destruct (Z.eqb_spec port 0) as [-> |]; [done |].
  rewrite digitsInto_ok by (simpl; lia). by rewrite (Itoa_digits 8) by (simpl; lia).
Qed.

(** ** The CONNECT exchange *)

(** The message [writeConnect] is meant to send. *)
Definition connectText (auth target : bytes) : bytes :=
  str "CONNECT " ++ target ++ strln " HTTP/1.1" ++ str "Host: " ++ target ++ crlf ++ auth ++ crlf.

(** A copy right behind what is already written. *)
Lemma copyAt_next t d n k :
  copyAt d n (t ++ replicate (length d + k) 0, length t)
    = (Ret tt, ((t ++ d) ++ replicate k 0, (length t + n)%nat)).
Proof.
  unfold copyAt. rewrite !length_app, length_replicate.
  rewrite (proj2 (Nat.leb_le _ _)) by lia. unfold splice. rewrite length_app, length_replicate.
  rewrite take_app_length, take_ge by lia. rewrite drop_app_ge, drop_replicate by lia.
  replace (length d + k - (length t + length d - length t))%nat with k by lia.
  by rewrite <- app_assoc.
Qed.

Lemma copyAt_then {A} t d k (f : unit → go wbuf error A) :
  (copyAt d (length d) ≫= f) (t ++ replicate (length d + k) 0, length t)
    = f tt ((t ++ d) ++ replicate k 0, length (t ++ d)).
Proof. rewrite length_app. apply bind_Ret, copyAt_next. Qed.

Lemma copyAt_last t d : copyAt d 0 (t ++ replicate (length d) 0, length t) = (Ret tt, (t ++ d, length t)).
Proof.
  rewrite <- (Nat.add_0_r (length d)) at 1. rewrite copyAt_next. simpl. by rewrite app_nil_r, Nat.add_0_r.
Qed.

(** The copies at the offsets of the code fill the buffer with the message. *)
Lemma fillConnect_text p target :
  ∃ pos, fillConnect p target (replicate (connectSize p target) 0, 0%nat)
    = (Ret tt, (connectText (authHeader p) target, pos)).
Proof.
  unfold fillConnect, connectSize.
  assert (Ha : ∀ t, ((if (0 <? length (authHeader p))%nat then copyAt (authHeader p) (length (authHeader p)) else mret tt)
     ≫= λ _, copyAt crlf 0) (t ++ replicate (length (authHeader p) + 2) 0, length t)
     = (Ret tt, (t ++ authHeader p ++ crlf, length (t ++ authHeader p)))).
  { intros t. destruct (Nat.ltb_spec 0 (length (authHeader p))) as [Hp | Hp].
    - rewrite copyAt_then, (copyAt_last _ crlf). by rewrite <- app_assoc.
    - assert (authHeader p = []) as -> by (apply nil_length_inv; lia).
      rewrite app_nil_r. apply (copyAt_last t crlf). }
  set (l := length target). set (a := length (authHeader p)).
  replace (8 + l + 17 + l + 2 + a + 2)%nat
    with (length (str "CONNECT ") + (l + (length (strln " HTTP/1.1" ++ str "Host: ") + (l + (length crlf + (a + 2))))))%nat
    by (simpl; lia).
  eexists. change (replicate ?k 0, 0%nat) with ([] ++ replicate k 0, length (@nil Z)).
  rewrite (copyAt_then [] (str "CONNECT ")). unfold l. rewrite (copyAt_then _ target).
  rewrite (copyAt_then _ (strln " HTTP/1.1" ++ str "Host: ")). rewrite (copyAt_then _ target).
  rewrite (copyAt_then _ crlf). unfold a. rewrite Ha. unfold connectText. by rewrite <- !app_assoc.
Qed.

Lemma writeConnect_sends p target n :
  deadlineErr n = None → answers (wr n) = [] →
  writeConnect p target n
    = (Ret tt, mkNet (rd n) (mkWConn (sent (wr n) ++ connectText (authHeader p) target) []) None).
Proof.
  intros H1 H2. unfold writeConnect. destruct (fillConnect_text p target) as [pos ->].
  unfold deadline, mbind, go_bind, onWr. rewrite H1. by rewrite writeAll_calm.
Qed.

(** The credentials as they are sent: nothing without any, and else a Basic
    authorization that decodes to user:password. *)
Definition credentials (user pass auth : bytes) : Prop :=
  if decide (user = [] ∧ pass = []) then auth = []
  else ∃ code, auth = str "Proxy-Authorization: Basic " ++ code ++ crlf ∧
         decode64 code = Some (user ++ [COLON] ++ pass).

Lemma basicAuth_credentials user pass :
  Forall is_byte (user ++ pass) → credentials user pass (basicAuth user pass).
Proof.
  intros [Hu Hp]%Forall_app. unfold credentials, basicAuth.
  case_decide as E; [by destruct E as [-> ->] |].
  assert (negb (bool_decide (user = [])) || negb (bool_decide (pass = [])) = true) as ->.
  { destruct (decide (user = [])) as [-> |]; [| by rewrite (bool_decide_eq_false_2 (user = []))].
    rewrite (bool_decide_eq_false_2 (pass = [])) by naive_solver. apply orb_true_r. }
  eexists. split; [done |]. apply decode64_encode64, Forall_app. split; [done |].
  constructor; [unfold is_byte; lia | done].
Qed.

(** One read of a waiting packet. *)
Lemma readOnce_packet k d t e n :
  rd n = mkConn ((d, None) :: t) e → (length d ≤ k)%nat →
  readOnce k n = (Ret d, mkNet (mkConn t e) (wr n) (deadlineErr n)).
Proof.
  intros Hn Hk. unfold readOnce. rewrite Hn. cbn [Read Conn_Reader]. unfold connRead. cbn [script atEnd].
  by rewrite (proj2 (Nat.leb_le _ _)) by done.
Qed.

Definition accepted (head : bytes) : Prop := slice head 9 12 = str "200".

Lemma checkConnect_head head early n :
  isHead head → (12 ≤ length head)%nat →
  (checkConnect (head ++ early) n).1 =
    if bool_decide (accepted head) then Ret tt
    else Fail (WrapError ErrorTypeProxy "proxy CONNECT rejected" (ESentinel ErrProxyFailed)).
Proof.
  intros _ Hl. unfold checkConnect, accepted.
  rewrite (proj2 (Nat.ltb_ge _ _)) by (rewrite length_app; lia).
  replace (slice (head ++ early) 9 12) with (slice head 9 12); [by case_bool_decide |].
  unfold slice. rewrite drop_app_le by lia. rewrite take_app_le; [done |]. rewrite length_drop. lia.
Qed.

Lemma checkConnect_state buf n : (checkConnect buf n).2 = n.
Proof. unfold checkConnect. by destruct (_ <? _)%nat; [| case_bool_decide]. Qed.

Lemma readConnect_one head early t e n :
  isHead head → (12 ≤ length head)%nat → (length (head ++ early) ≤ 512)%nat → deadlineErr n = None →
  rd n = mkConn ((head ++ early, None) :: t) e →
  readConnectResponse n =
    (if bool_decide (accepted head) then Ret tt
     else Fail (WrapError ErrorTypeProxy "proxy CONNECT rejected" (ESentinel ErrProxyFailed)),
     mkNet (mkConn t e) (wr n) None).
Proof.
  intros Hh Hl Hk Hd Hn. unfold readConnectResponse.
  rewrite (bind_Ret _ _ n tt n) by (unfold deadline; by rewrite Hd).
  rewrite (bind_Ret _ _ _ _ _ (readOnce_packet 512 _ t e n Hn Hk)).
  rewrite bool_decide_eq_false_2 by (destruct head; [simpl in Hl; lia | done]).
  rewrite findHeaderEnd_head by done. rewrite (proj2 (Z.ltb_ge _ _)) by apply len_nonneg.
  rewrite Hd. rewrite <- (checkConnect_head head early (mkNet (mkConn t e) (wr n) None)) by done.
  rewrite (surjective_pairing (checkConnect _ _)). by rewrite checkConnect_state.
Qed.

Lemma readConnect_two head1 head2 early t e n :
  isHead (head1 ++ head2) → head1 ≠ [] → head2 ≠ [] → (12 ≤ length (head1 ++ head2))%nat →
  (length (head1 ++ head2 ++ early) ≤ 512)%nat → deadlineErr n = None →
  rd n = mkConn ((head1, None) :: (head2 ++ early, None) :: t) e →
  readConnectResponse n =
    (if bool_decide (accepted (head1 ++ head2)) then Ret tt
     else Fail (WrapError ErrorTypeProxy "proxy CONNECT rejected" (ESentinel ErrProxyFailed)),
     mkNet (mkConn t e) (wr n) None).
Proof.
  intros Hh H1 H2 Hl Hk Hd Hn. rewrite !length_app in Hk. unfold readConnectResponse.
  rewrite (bind_Ret _ _ n tt n) by (unfold deadline; by rewrite Hd).
  rewrite (bind_Ret _ _ _ _ _ (readOnce_packet 512 _ _ e n Hn ltac:(lia))).
  rewrite bool_decide_eq_false_2 by done. rewrite (findHeaderEnd_partial head1 head2) by done.
  change (-1 <? 0) with true. cbv iota.
  assert (length head2 ≠ 0%nat) by (by destruct head2).
  rewrite (proj2 (Nat.leb_gt _ _)) by lia.
  erewrite bind_Ret; [| apply (readOnce_packet _ (head2 ++ early) t e); [done | rewrite length_app; lia]].
  rewrite bool_decide_eq_false_2 by (by destruct head2).
  rewrite app_assoc, findHeaderEnd_head by done. rewrite (proj2 (Z.ltb_ge _ _)) by apply len_nonneg.
  cbn [wr deadlineErr]. rewrite Hd.
  rewrite <- (checkConnect_head (head1 ++ head2) early (mkNet (mkConn t e) (wr n) None)) by done.
  rewrite (surjective_pairing (checkConnect _ _)). by rewrite checkConnect_state.
Qed.

(** A head that has not ended with the second packet. *)
Lemma readConnect_three d1 d2 q t e n :
  isHead (d1 ++ d2 ++ q) → d1 ≠ [] → d2 ≠ [] → q ≠ [] → (length (d1 ++ d2) ≤ 512)%nat → deadlineErr n = None →
  rd n = mkConn ((d1, None) :: (d2, None) :: t) e →
  (readConnectResponse n).1 = Fail (WrapError ErrorTypeProtocol "proxy response incomplete" (ESentinel ErrInvalidResponse)).
Proof.
  intros Hh H1 H2 Hq Hk Hd Hn. rewrite !length_app in Hk. unfold readConnectResponse.
  rewrite (bind_Ret _ _ n tt n) by (unfold deadline; by rewrite Hd).
  rewrite (bind_Ret _ _ _ _ _ (readOnce_packet 512 _ _ e n Hn ltac:(lia))).
  rewrite bool_decide_eq_false_2 by done. rewrite (findHeaderEnd_partial d1 (d2 ++ q)) by (try done; by destruct d2).
  change (-1 <? 0) with true. cbv iota.
  assert (length d2 ≠ 0%nat) by (by destruct d2).
  rewrite (proj2 (Nat.leb_gt _ _)) by lia.
  erewrite bind_Ret; [| apply (readOnce_packet _ d2 t e); [done | lia]].
  rewrite bool_decide_eq_false_2 by done.
  by rewrite (findHeaderEnd_partial (d1 ++ d2) q) by (rewrite <- ?app_assoc; done).
Qed.

(** How the proxy's answer may arrive: its head in one or in two packets, with the
    first bytes of the tunnel possibly behind it. *)
Inductive arrives (head early : bytes) : list (bytes * option error) → Prop :=
  | arrives_one : arrives head early [(head ++ early, None)]
  | arrives_two h1 h2 : head = h1 ++ h2 → h1 ≠ [] → h2 ≠ [] → arrives head early [(h1, None); (h2 ++ early, None)].

(** C28: dialing through an HTTP proxy, for user names and passwords of bytes, every
    port below 10^12, and a connection on which deadlines can be set and every write is
    taken.  [Dial] fills its buffer at the offsets of the code and sends exactly
    "CONNECT host:port HTTP/1.1", the same Host, the credentials and the blank line;
    there are credentials exactly when a user name or a password is configured, and then
    they are a Basic authorization from which base64 decoding gives back user:password.
    When the answer's head has at least 12 bytes and arrives, with the bytes that follow
    it, in one or two packets of together at most 512 bytes, [Dial] returns the
    connection exactly when the status is 200 and an error otherwise; bytes the proxy
    sent behind the head in the same packet are taken off the connection with it and
    lost.  A head spread over three packets is refused, whatever its status. *)
Theorem proxy_connect c u d n host port head early pkts t e s :
  NewProxyDialer c (inr u) = inr d → 0 ≤ port < 10 ^ 12 →
  Forall is_byte (Cfg.ProxyUsername c ++ Cfg.ProxyPassword c) →
  isHead head → (12 ≤ length head)%nat → (length (head ++ early) ≤ 512)%nat →
  deadlineErr n = None → answers (wr n) = [] → sent (wr n) = s →
  arrives head early pkts → rd n = mkConn (pkts ++ t) e →
  let target := host ++ [COLON] ++ Itoa port in
  ∃ auth, credentials (Cfg.ProxyUsername c) (Cfg.ProxyPassword c) auth ∧
  let request := str "CONNECT " ++ target ++ strln " HTTP/1.1" ++ str "Host: " ++ target ++ crlf ++ auth ++ crlf in
  (if bool_decide (accepted head)
   then proxyDial d (inr n) host port = Ret (mkNet (mkConn t e) (mkWConn (s ++ request) []) None)
   else ∃ err, proxyDial d (inr n) host port = Fail err) ∧
  (∀ d1 d2 q m, isHead (d1 ++ d2 ++ q) → d1 ≠ [] → d2 ≠ [] → q ≠ [] → (length (d1 ++ d2) ≤ 512)%nat →
     m = mkNet (mkConn [(d1, None); (d2, None); (q, None)] e) (wr n) None →
     ∃ err, proxyDial d (inr m) host port = Fail err).
Proof.
  intros Hd Hp Hb Hh Hl Hk Hde Ha Hs Harr Hrd target. exists (authHeader d). split.
  { unfold NewProxyDialer in Hd. case_bool_decide; [done |]. simplify_eq. cbn [authHeader].
    by apply basicAuth_credentials. }
  intros request. unfold proxyDial. rewrite buildTarget_ok by done. fold target. unfold mbind, go_bind, logged. split.
  - rewrite writeConnect_sends by done. rewrite Hs. fold (connectText (authHeader d) target) in request.
    fold request.
    assert (readConnectResponse (mkNet (rd n) (mkWConn (s ++ request) []) None) =
      (if bool_decide (accepted head) then Ret tt
       else Fail (WrapError ErrorTypeProxy "proxy CONNECT rejected" (ESentinel ErrProxyFailed)),
       mkNet (mkConn t e) (mkWConn (s ++ request) []) None)) as ->.
    { rewrite Hrd. destruct Harr as [| h1 h2 -> H1 H2].
      - by apply (readConnect_one head early).
      - apply (readConnect_two h1 h2 early); try done. by rewrite app_assoc. }
    case_bool_decide; [done | by eexists].
  - intros d1 d2 q m Hq H1 H2 H3 H4 ->. rewrite writeConnect_sends by done. cbn [rd wr].
    set (m := mkNet _ _ _).
    assert ((readConnectResponse m).1 = Fail (WrapError ErrorTypeProtocol "proxy response incomplete" (ESentinel ErrInvalidResponse))) as E
      by (by eapply (readConnect_three d1 d2 q)).
    destruct (readConnectResponse m) as [o m']. simpl in E. subst o. by eexists.
Qed.

Definition exProxyReply : bytes := strln "HTTP/1.1 200 OK" ++ crlf.

Definition exProxyConfig : Config :=
  Cfg.set_ProxyCredentials (str "u") (str "p") Cfg.DefaultConfig.

Lemma proxy_connect_witness :
  let d := mkProxy (str "proxy:3128") (strln "Proxy-Authorization: Basic dTpw") (10 * Second) (10 * Second) in
  let n := mkNet (mkConn [(take 7 exProxyReply, None); (drop 7 exProxyReply, None); (str "x", None)] EEOF) (mkWConn [] []) None in
  ∃ auth, credentials (str "u") (str "p") auth ∧
  proxyDial d (inr n) (str "h") 8443
    = Ret (mkNet (mkConn [(str "x", None)] EEOF)
             (mkWConn (strln "CONNECT h:8443 HTTP/1.1" ++ strln "Host: h:8443" ++ auth ++ crlf) []) None).
Proof.
  intros d n.
  destruct (proxy_connect exProxyConfig (mkProxyURL (str "proxy:3128") (str "3128") (str "http")) d n (str "h") 8443
           exProxyReply [] [(take 7 exProxyReply, None); (drop 7 exProxyReply, None)] [(str "x", None)] EEOF [])
    as (auth & Hauth & Hdial & _); try done.
  - by repeat constructor.
  - apply isHead_intro. reflexivity.
  - vm_compute. lia.
  - vm_compute. lia.
  - pose proof (arrives_two exProxyReply [] (take 7 exProxyReply) (drop 7 exProxyReply)) as H.
    rewrite app_nil_r in H. by apply H.
  - exists auth. split; [exact Hauth |]. exact Hdial.
Defined.

(** ** The direct route *)

(** The host part of the address that is dialled: the cache's first answer, or the
    name itself when there is no cache or the lookup fails. *)
Definition resolvedHost (d : Dialer) (env : dialEnv) (host : bytes) : bytes :=
  match dnsCache d with
  | None => host
  | Some c =>
      match (LookupHost (λ h, bool_decide (is_Some (de_parseIP env h))) (de_resolver env) (de_now env) (de_later env) host c).1 with
      | Ret (a :: _) => a
      | _ => host
      end
  end.

Lemma directAddr_ok d env host port :
  from_option wfCache True (dnsCache d) → resolves (de_resolver env) →
  (directAddr d env host port).1 = buildAddr (resolvedHost d env host) port.
Proof.
  intros Hc Hr. unfold directAddr, resolvedHost. destruct (dnsCache d) as [c |]; [| done]. simpl in Hc.
  set (isIP := λ h, bool_decide (is_Some (de_parseIP env h))).
  destruct (LookupHost_total isIP (de_resolver env) (de_now env) (de_later env) host c Hc Hr) as [[e E] | (l & E & Hne)];
    destruct (LookupHost isIP _ _ _ host c) as [o c']; simpl in E; subst o; [done |]. by destruct l.
Qed.

(** What dialing an address comes to. *)
Definition reached (d : Dialer) (env : dialEnv) (host : bytes) (port : Z) : outcome error NetConn :=
  match de_tcp env (dialText (resolvedHost d env host) port) with
  | inl e => Fail (LogErrorWithFlag ErrorTypeNetwork "dial failed" e)
  | inr n => Ret n
  end.

Lemma directDial_reached d env host port :
  0 < port → from_option wfCache True (dnsCache d) → resolves (de_resolver env) →
  noDelayErr (de_socket env) = None → keepAliveErr (de_socket env) = None →
  (directDial d env host port).1 = (if port <? 10 ^ 8 then reached d env host port else Panic).
Proof.
  intros Hp0 Hc Hr Hn Hk. unfold directDial. pose proof (directAddr_ok d env host port Hc Hr) as E.
  destruct (directAddr d env host port) as [o cache]. simpl in E. subst o. destruct (Z.ltb_spec port (10 ^ 8)).
  - rewrite buildAddr_ok by lia. unfold reached. destruct (de_tcp env _); [done |].
    unfold tuned, tuneTCP. rewrite Hn, Hk. simpl. by destruct (isTCP (de_socket env)), (Cfg.TCPKeepAlive (dl_config d)).
  - unfold buildAddr. repeat (rewrite (proj2 (Z.eqb_neq port _)) by lia). by rewrite digitsInto_panics.
Qed.

Lemma DialAddr_reached d env host port :
  socks5Dialer d = None → proxyDialer d = None → host ≠ [] → 0 < port →
  from_option wfCache True (dnsCache d) → resolves (de_resolver env) →
  noDelayErr (de_socket env) = None → keepAliveErr (de_socket env) = None →
  (DialAddr d env host port).1 = (if port <? 10 ^ 8 then reached d env host port else Panic).
Proof.
  intros Hs Hp Hh Hport Hc Hr Hn Hk. unfold DialAddr. rewrite Hs, Hp, bool_decide_eq_false_2 by done.
  rewrite (proj2 (Z.eqb_neq port 0)), (proj2 (Z.leb_gt port 0)) by lia. by apply directDial_reached.
Qed.

(** C37: a direct dial reaches the address it should.  Without proxies, whatever the
    DNS cache holds, [DialAddr] dials "address:port", an IPv6 address in brackets,
    with the port in decimal, for every port below 10^8; the address is the one the
    cache selects and the name itself when the lookup fails; [Dial] falls back to the
    configured host and port.  A larger port overruns the 8-byte digit buffer
    and panics. *)
Theorem DialAddr_direct d env host port :
  socks5Dialer d = None → proxyDialer d = None → host ≠ [] →
  0 < Cfg.Port (dl_config d) < 10 ^ 8 → Cfg.Host (dl_config d) ≠ [] → 0 < port →
  from_option wfCache True (dnsCache d) → resolves (de_resolver env) →
  noDelayErr (de_socket env) = None → keepAliveErr (de_socket env) = None →
  (DialAddr d env host port).1 = (if port <? 10 ^ 8 then reached d env host port else Panic) ∧
  (dialConfigured d env).1 = reached d env (Cfg.Host (dl_config d)) (Cfg.Port (dl_config d)).
Proof.
  intros Hs Hp Hh Hcp Hch Hport Hc Hr Hn Hk.
  split; [by apply DialAddr_reached |].
  unfold dialConfigured, DialAddr. rewrite Hs, Hp.
  rewrite bool_decide_eq_true_2 by done. rewrite Z.eqb_refl.
  rewrite (proj2 (Z.leb_gt _ 0)) by lia. rewrite directDial_reached by (done || lia).
  by rewrite (proj2 (Z.ltb_lt _ _)) by lia.
Qed.

Lemma DialAddr_direct_witness :
  let d := mkDialer Cfg.DefaultConfig None None None in
  let env := mkDialEnv (λ a, if bool_decide (a = str "[::1]:9000") then inl EEOF else inl (EOther "no")) (λ _, None)
               (inl EEOF) 0 0 (mkTCP true None None) in
  (DialAddr d env (str "::1") 9000).1 = Fail (LogErrorWithFlag ErrorTypeNetwork "dial failed" EEOF).
Proof.
  intros d env.
  apply (DialAddr_direct d env (str "::1") 9000); try done; vm_compute; done.
Defined.
