(* ===== verification/Pipeline.v ===== *)
(** * Pipeline: many requests on one connection (src/connection.go)

    [doPipelined], the callers' side, and [ResponseReader.run], the goroutine
    that reads the responses.  The two run concurrently over the shared
    [Connection]; the mutex [pendingMu] makes each of the steps below atomic.
    The reader's program counter is part of the state, so that the steps of
    callers, of cancelled contexts and of [closeConn] can come between any two
    of its steps.  [closeConn] by another goroutine takes two steps, before and in
    its critical section; and the connection may break at any byte ([breakOff]). *)

From stdpp Require Import prelude list gmap.
From S2P Require Import Prelude Errors Config IO Scan Response Parser Request Writer Connection.

(** Where [run] stands: at the outer [select]; before the inspection of
    [pendingReqs]; about to read the response of a pending request into its
    (reset) response object; with the outcome of that read; returned; or dead
    after a run-time panic. *)
Inductive rpc :=
  | Waiting
  | Scanning
  | Reading (p : PendingRequest) (resp : Response)
  | Finished (p : PendingRequest) (o : outcome error unit) (resp : Response)
  | Exited
  | Crashed.

(** The [ResponseReader]: its buffered reader, [len(scratch)] and its position. *)
Record reader := mkReader { rr_br : BufReader; rr_cap : nat; rr_pc : rpc }.

(** The shared state: the connection, its reader goroutine and whether
    [pendingSignal] holds a token. *)
Record pipe := mkPipe { pp_conn : Connection; pp_reader : option reader; pp_signal : bool }.

Definition updPipe (f : Connection → Connection) (s : pipe) : pipe :=
  mkPipe (f (pp_conn s)) (pp_reader s) (pp_signal s).
Definition setPc (pc : rpc) (r : reader) : reader := mkReader (rr_br r) (rr_cap r) pc.
Definition setReader (r : reader) (s : pipe) : pipe := mkPipe (pp_conn s) (Some r) (pp_signal s).

(** [startResponseReader()], [pendingMu] held. *)
Definition startResponseReader (s : pipe) : pipe :=
  let c := pp_conn s in
  if negb (Con.readerStopped c =? 0) || negb (Con.closing c =? 0) || Con.responseReader c then s
  else
    match Con.conn c with
    | None => s
    | Some n =>
        let size := Z.to_nat (Con.readBufSize c) in
        mkPipe (Con.set_responseReader true c)
          (Some (mkReader (NewReaderSize (rd n) size) size Waiting)) (pp_signal s)
    end.

Definition onMail (i : nat) (f : mailbox → mailbox) (c : Connection) : Connection :=
  Con.set_mail (alter f i (Con.mail c)) c.
Definition postResponse (r : Response) (m : mailbox) : mailbox :=
  mkMail (offer (mb_response m) r) (mb_err m) (mb_cancelled m).
Definition postErr (e : error) (m : mailbox) : mailbox :=
  mkMail (mb_response m) (offer (mb_err m) e) (mb_cancelled m).
Definition wasCancelled (i : nat) (c : Connection) : bool :=
  default false (mb_cancelled <$> Con.mail c !! i).

(** ** The callers *)

Section submit.

Variable gzip : bytes → error + bytes.
Variable env : surroundings.

(** The end of [doPipelined]'s critical section: write the request and enqueue
    it as [i], with response object [resp]. *)
Definition writeAndEnqueue (i : nat) (req : Request) (resp : option Response) (n : NetConn)
    (body : bytes) (compressed : bool) (s : pipe) : outcome error unit * pipe :=
  let c := pp_conn s in
  let writeTimeout := if Req.WriteTimeout req =? 0 then Cfg.WriteTimeout (Con.config c) else Req.WriteTimeout req in
  let s := updPipe (addActive 1) s in
  match connWriteRequest c req body compressed writeTimeout (env_pooledWrite env) n with
  | (Fail e, n') =>
      (Fail e, updPipe (λ c, Con.closeConn (addActive (-1) (Con.set_conn (Some n') c))) s)
  | (Ret _, n') =>
      let p := mkPending i resp (Req.Method req)
                 (Con.effectiveReadTimeout c req (env_remaining env)) (env_now env) in
      let s := updPipe (λ c,
        let c := Con.set_conn (Some n') c in
        let c := Con.set_bytesWritten (i64 (Con.bytesWritten c + len body)) c in
        let c := Con.set_mail (<[i := emptyMail]> (Con.mail c)) c in
        Con.set_pendingReqs (Con.pendingReqs c ++ [p]) c) s in
      (Ret tt, mkPipe (pp_conn s) (pp_reader s) true)
  | (Panic, _) => (Panic, s)
  | (Hang, _) => (Hang, s)
  end.

(** [doPipelined(req)] up to the wait for its answer: it returns an error, or the
    request [i] is enqueued. *)
Definition submit (i : nat) (req : Request) (resp : option Response) (s : pipe) : outcome error unit * pipe :=
  let closingErr := WrapError ErrorTypeNetwork "connection is closing" (ESentinel ErrConnectFailed) in
  let nilErr := WrapError ErrorTypeNetwork "connection is nil" (ESentinel ErrConnectFailed) in
  if negb (Con.closing (pp_conn s) =? 0) then (Fail closingErr, s)
  else
    match rotate env "connection not available after rotation" (mkTrip (pp_conn s) req resp) with
    | (Ret _, t) =>
        let s := updPipe (λ _, t_conn t) s in
        match prepareBody gzip (pp_conn s) req with
        | (Ret (body, compressed), req) =>
            match env_ctxErr env with
            | Some e => (Fail (WrapError ErrorTypeTimeout "request cancelled before write" e), s)
            | None =>
                match Con.conn (pp_conn s) with
                | None => (Fail nilErr, s)
                | Some n =>
                    if negb (Con.closing (pp_conn s) =? 0) then (Fail closingErr, s)
                    else
                      let s := if negb (Con.responseReader (pp_conn s))
                                  && (Con.readerStopped (pp_conn s) =? 0)
                               then startResponseReader s else s in
                      writeAndEnqueue i req resp n body compressed s
                end
            end
        | (Fail e, _) => (Fail e, s)
        | (Panic, _) => (Panic, s)
        | (Hang, _) => (Hang, s)
        end
    | (o, t) => (o, updPipe (λ _, t_conn t) s)
    end.

End submit.

(** [<-ctxDone]: the caller of request [i] gives up. *)
Definition cancel (i : nat) (s : pipe) : pipe :=
  updPipe (onMail i (λ m, mkMail (mb_response m) (mb_err m) true)) s.

(** The results the final [select] of [doPipelined] may return: the caller that took
    [<-ctxDone] has returned; otherwise each of its two channels that holds a value
    may be chosen, and with none the call waits. *)
Definition await (i : nat) (s : pipe) : list (error + Response) :=
  match Con.mail (pp_conn s) !! i with
  | Some m =>
      if mb_cancelled m then [inl ERespTransferred]
      else option_list (inr <$> mb_response m) ++ option_list (inl <$> mb_err m)
  | None => []
  end.

(** ** The reader goroutine *)

Section run.

Variable gunzip : bytes → gzipResult.
(** [time.Now()] when a response has been read. *)
Variable now : Z.

(** [case <-rr.conn.pendingSignal] *)
Definition wake (r : reader) (s : pipe) : pipe :=
  mkPipe (pp_conn s) (Some (setPc Scanning r)) false.

(** The top of the inner loop. *)
Definition pick (r : reader) (s : pipe) : pipe :=
  let c := pp_conn s in
  match Con.pendingReqs c with
  | [] => setReader (setPc Waiting r) s
  | p :: _ =>
      if negb (Con.closing c =? 0) then setReader (setPc Exited r) s
      else
        match pr_resp p with
        | None =>
            let c := Con.removePending (pr_id p) (addActive (-1) c) in
            let e := WrapError ErrorTypeInternal "response object is nil" (ESentinel ErrInvalidResponse) in
            let c := if wasCancelled (pr_id p) c then c else onMail (pr_id p) (postErr e) c in
            setReader (setPc Scanning r) (mkPipe c (pp_reader s) (pp_signal s))
        | Some resp => setReader (setPc (Reading p (Reset resp)) r) s
        end
  end.

(** The read itself. *)
Definition readOne (p : PendingRequest) (resp : Response) (r : reader) (s : pipe) : pipe :=
  let '(o, (br, resp')) :=
    readResponseBuffered gunzip (rr_cap r) (Con.maxRespSize (pp_conn s)) (pr_method p) (rr_br r, resp) in
  setReader (mkReader br (rr_cap r) (Finished p o resp')) s.

(** Hand the response over, unless the caller is gone; [releaseFn] puts the object
    back into its pool and does not concern the connection. *)
Definition deliver (p : PendingRequest) (resp : Response) (c : Connection) : Connection :=
  if wasCancelled (pr_id p) c then c else onMail (pr_id p) (postResponse resp) c.

(** What follows the read. *)
Definition finish (p : PendingRequest) (o : outcome error unit) (resp : Response) (r : reader) (s : pipe) : pipe :=
  let c := Con.removePending (pr_id p) (addActive (-1) (pp_conn s)) in
  let settle c := Con.updateTimeCache now (addReqs c) in
  let goOn (c : Connection) :=
    if isConnectionClose resp
    then mkPipe (Con.closeConn c) (Some (setPc Exited r)) (pp_signal s)
    else mkPipe c (Some (setPc Scanning r)) (pp_signal s) in
  match o with
  | Ret _ =>
      let c := settle c in
      let c := if 0 <? pr_sentAt p then Con.recordSuccess (i64 (now - pr_sentAt p)) c else c in
      let c := Con.set_bytesRead (i64 (Con.bytesRead c + ContentLength resp)) c in
      goOn (deliver p resp c)
  | Fail e =>
      if 0 <? StatusCode resp then goOn (deliver p resp (settle c))
      else
        let c := Con.closeConn (Con.recordError c) in
        let c := if wasCancelled (pr_id p) (pp_conn s) then c
                 else onMail (pr_id p) (postErr (readFailure e)) c in
        mkPipe c (Some (setPc Exited r)) (pp_signal s)
  | Panic | Hang => setReader (setPc Crashed r) s
  end.

(** [case <-rr.stopChan]; [closeConn] closes the channel when it drops the reader. *)
Definition stopReader (s : pipe) : option pipe :=
  match pp_reader s with
  | Some (mkReader br cap Waiting) =>
      if Con.responseReader (pp_conn s) then None else Some (setReader (mkReader br cap Exited) s)
  | _ => None
  end.

(** One step of [run], whatever its position. *)
Definition runStep (s : pipe) : option pipe :=
  match pp_reader s with
  | None => None
  | Some r =>
      match rr_pc r with
      | Waiting => if pp_signal s then Some (wake r s) else None
      | Scanning => Some (pick r s)
      | Reading p resp => Some (readOne p resp r s)
      | Finished p o resp => Some (finish p o resp r s)
      | Exited | Crashed => None
      end
  end.

End run.

(** ** Closing in two halves *)

(** [closeConn()] up to [pendingMu.Lock()]. *)
Definition closeBegin (c : Connection) : Connection :=
  if negb (Con.closing c =? 0) then c
  else Con.set_healthy 0 (Con.set_conn None (Con.set_closing 1 c)).

(** Its critical section, with the closing of [stopChan]. *)
Definition closeEnd (c : Connection) : Connection :=
  let closeErr := WrapError ErrorTypeNetwork "connection closed" (ESentinel ErrConnectFailed) in
  let c := Con.set_mail (Con.failPending closeErr (Con.pendingReqs c) (Con.mail c)) c in
  let c := Con.set_pendingReqs [] c in
  Con.set_readerStopped 1 (Con.set_responseReader false c).

Lemma closeConn_halves c : Con.closing c = 0 → Con.closeConn c = closeEnd (closeBegin c).
Proof. intros E. unfold Con.closeConn, closeBegin. by rewrite E. Qed.

(** Some goroutine stands between the halves: [closing] is set, and [readerStopped],
    which the second half sets, is not. *)
Definition halfClosed (c : Connection) : bool := negb (Con.closing c =? 0) && (Con.readerStopped c =? 0).

(** That goroutine goes on. *)
Definition completeClose (s : pipe) : pipe := if halfClosed (pp_conn s) then updPipe closeEnd s else s.

(** ** The connection breaks *)

(** The first [m] bytes still arrive, then every read fails with [e]. *)
Fixpoint takeScript (m : nat) (l : list (bytes * option error)) : list (bytes * option error) :=
  match l, m with
  | [], _ | _, O => []
  | (d, x) :: t, _ =>
      if (length d <=? m)%nat then (d, x) :: takeScript (m - length d) t else [(take m d, None)]
  end.
Definition sever (e : error) (m : nat) (c : Conn) : Conn := mkConn (takeScript m (script c)) e.
Definition severBuf (e : error) (m : nat) (b : BufReader) : BufReader :=
  mkBuf (unread b) (berr b) (askedSize b) (sever e m (below b)).
Definition severNet (e : error) (m : nat) (n : NetConn) : NetConn := mkNet (sever e m (rd n)) (wr n) (deadlineErr n).

(** The break, at any time: under the reader goroutine, or before it was started. *)
Definition breakOff (e : error) (m : nat) (s : pipe) : pipe :=
  match pp_reader s with
  | Some r => setReader (mkReader (severBuf e m (rr_br r)) (rr_cap r) (rr_pc r)) s
  | None => updPipe (λ c, Con.set_conn (severNet e m <$> Con.conn c) c) s
  end.

(** At most [n] steps of the reader goroutine, nobody else moving; [clock n] is the
    time at the step that leaves [n]. *)
Fixpoint drain (gunzip : bytes → gzipResult) (clock : nat → Z) (n : nat) (s : pipe) : pipe :=
  match n with
  | O => s
  | S n' => match runStep gunzip (clock n') s with Some s' => drain gunzip clock n' s' | None => s end
  end.

(** ** A call on its own *)

(** The reader goroutine of a connection, if it runs, and [pendingSignal]. *)
Abbreviation piping := (option reader * bool)%type.

(** [doPipelined(req)] while no other call uses the connection and the context does
    not end: the request is written, the reader runs, and the call returns what it
    finds.  The compression buffer of the request is not followed. *)
Definition doPipelined (gzip : bytes → error + bytes) (gunzip : bytes → gzipResult) (env : surroundings)
    : go (trip * piping) error unit := λ '(t, (r, signal)),
  let '(o, s) := submit gzip env 0 (t_req t) (t_resp t) (mkPipe (t_conn t) r signal) in
  let out (s : pipe) resp := (mkTrip (pp_conn s) (t_req t) resp, (pp_reader s, pp_signal s)) in
  match o with
  | Ret _ =>
      let s := drain gunzip (λ _, env_now env + env_elapsed env)
                 (3 * length (Con.pendingReqs (pp_conn s)) + 5) s in
      match await 0 s with
      | inr resp :: _ => (Ret tt, out s (Some resp))
      | inl e :: _ => (Fail e, out s (t_resp t))
      | [] => (Hang, out s (t_resp t))
      end
  | Fail e => (Fail e, out s (t_resp t))
  | Panic => (Panic, out s (t_resp t))
  | Hang => (Hang, out s (t_resp t))
  end.
