(* ===== verification/PipelineProps.v ===== *)
(** * PipelineProps: pipelined responses reach their own requests

    A scenario fixes what the server sends: the answers to the requests, in the
    order in which the requests are written.  The steps of callers, reader,
    cancellations, failures and the halves of closing may interleave in any way, and
    the connection may break after any byte; in every reachable state each response
    that was handed out is the answer to the request of the caller that holds it, or
    what arrived of it. *)

From stdpp Require Import prelude list gmap.
From S2P Require Import Prelude Errors Config IO Scan Response Parser ParserTotal ParserFacts ParserSpec ParserCut.
From S2P Require Import Request Writer WriterProps Compressor Connection ConnectionProps Pipeline.

(** An answer of the server: head, status, body on the wire and payload. *)
Record answer := mkAnswer { an_head : bytes; an_status : Z; an_raw : bytes; an_payload : bytes }.

Definition wireOf (a : answer) : bytes := an_head a ++ an_raw a.

(** What the caller of the request must find. *)
Definition gotAnswer (a : answer) (r : Response) : Prop :=
  StatusCode r = an_status a ∧ bodyBytes r = an_payload a ∧ ContentLength r = len (an_payload a) ∧
  Headers r = default [] (scanHeaders (an_head a)) ∧ rawHeaderBuf r = an_head a.

(** What is left of an answer whose read broke behind the head. *)
Definition gotCut (a : answer) (r : Response) : Prop :=
  StatusCode r = an_status a ∧ Headers r = default [] (scanHeaders (an_head a)) ∧ rawHeaderBuf r = an_head a.

(** ** What the invariant sees of a connection *)

Definition view (c : Connection) :=
  (Con.config c, Con.maxRespSize c, Con.readBufSize c, Con.closing c, Con.pendingReqs c,
   Con.responseReader c, Con.readerStopped c, Con.conn c, Con.mail c).

Lemma view_advance c : view (Con.advanceHealthWindow c) = view c.
Proof. unfold Con.advanceHealthWindow. cbv zeta. by case_if. Qed.
Lemma view_tune ns c : view (Con.tunePipelineDepth ns c) = view c.
Proof. unfold Con.tunePipelineDepth. cbv zeta. case_if; [done |]. by case_if. Qed.
Lemma view_recordSuccess ns c : view (Con.recordSuccess ns c) = view c.
Proof.
  unfold Con.recordSuccess. destruct (negb _); [done |]. cbv zeta.
  destruct (_ && _); rewrite ?view_tune, view_advance; done.
Qed.
Lemma view_recordError c : view (Con.recordError c) = view c.
Proof. unfold Con.recordError. destruct (negb _); [done |]. by rewrite view_advance. Qed.
Lemma view_updateTimeCache now c : view (Con.updateTimeCache now c) = view c.
Proof. unfold Con.updateTimeCache. cbv zeta. by case_if. Qed.

Lemma view_bytesRead n c : view (Con.set_bytesRead n c) = view c.
Proof. done. Qed.
Lemma view_addReqs c : view (addReqs c) = view c.
Proof. done. Qed.

#[export] Hint Rewrite view_recordSuccess view_recordError view_updateTimeCache : burst.

(** [closeConn] posts errors only: no response appears or disappears. *)
Lemma failPending_response e ps m i :
  mb_response <$> Con.failPending e ps m !! i = mb_response <$> m !! i.
Proof.
  unfold Con.failPending. revert m. induction ps as [|p ps IH]; intros m; [done |].
  simpl. rewrite IH. destruct (decide (i = pr_id p)) as [-> | Hne].
  - rewrite lookup_alter_eq. by destruct (m !! pr_id p).
  - by rewrite lookup_alter_ne by congruence.
Qed.

Lemma removeFirst_head p ps : Con.removeFirst (pr_id p) (p :: ps) = ps.
Proof. simpl. by rewrite Nat.eqb_refl. Qed.

Lemma prepareBody_method gzip c req body b req' :
  prepareBody gzip c req = (Ret (body, b), req') → Req.Method req' = Req.Method req.
Proof.
  unfold prepareBody. rewrite (bind_Ret _ _ req req req) by done.
  case_if; [done |]. case_if; [| by intros [= <- <- <-]].
  case_if; [| by intros [= <- <- <-]]. case_if; [| by intros [= <- <- <-]]. cbv zeta.
  set (need := if _ && _ then _ else _).
  destruct (Req.ensureBodyBufferSize need req) as [[ok | e | |] r1] eqn:E.
  2: by rewrite (bind_Fail _ _ _ _ _ E).
  2: by rewrite (bind_Panic _ _ _ _ E).
  2: by unfold mbind, go_bind; rewrite E.
  rewrite (bind_Ret _ _ _ _ _ E). destruct ok; cbn [negb]; [| done].
  assert (Req.Method r1 = Req.Method req) as <-.
  { unfold Req.ensureBodyBufferSize in E. repeat case_if_in E; by simplify_eq. }
  rewrite (bind_Ret _ _ r1 r1 r1) by done.
  destruct (CompressInto gzip (Req.bodyBuf r1) (Req.Body req)) as [[e | comp] dst]; [done |].
  rewrite (bind_Ret _ _ r1 tt (Req.set_bodyBuf dst r1)) by done.
  case_if; by intros [= <- <- <-].
Qed.

Lemma await_response i s r :
  inr r ∈ await i s → ∃ m, Con.mail (pp_conn s) !! i = Some m ∧ mb_response m = Some r.
Proof.
  unfold await. destruct (Con.mail (pp_conn s) !! i) as [[ro eo []]|]; [| | by intros []%elem_of_nil]; simpl.
  - by intros ?%list_elem_of_singleton.
  - intros [H | H]%elem_of_app; [destruct ro as [r0|]; simpl in H; [| by apply elem_of_nil in H] |].
    + apply list_elem_of_singleton in H. injection H as ->. by eexists.
    + destruct eo; simpl in H; [by apply list_elem_of_singleton in H | by apply elem_of_nil in H].
Qed.

Section scenario.

Variable gzip : bytes → error + bytes.
Variable gunzip : bytes → gzipResult.
(** The answers in order, what follows them, and the end of the connection. *)
Variables (anss : list answer) (tail : bytes) (f : error).
(** The configured limits. *)
Variables (maxResp : Z) (cap : nat).
(** Whether the connection may break; closing the socket under a read breaks it too. *)
Variable mayBreak : bool.

(** [a] is a well-formed answer to a request with this method and object. *)
Definition suits (a : answer) (method : bytes) (resp : option Response) : Prop :=
  ∃ r0, resp = Some r0 ∧ goodHead (an_head a) (an_status a) ∧ (length (an_head a) ≤ cap)%nat ∧
    framed maxResp (Reset r0) method (an_head a) (an_status a) (an_raw a) (an_payload a) ∧
    plainHead (an_head a) (Reset r0).

(** What the server still has to send after [k] answers. *)
Definition rest (k : nat) : bytes := concat (wireOf <$> drop k anss) ++ tail.

(** ** Steps *)

(** The second component is the order in which the requests were written. *)
Inductive pstep : pipe * list nat → pipe * list nat → Prop :=
  | ps_submit env i req resp a s s' order :
      i ∉ order → anss !! length order = Some a → suits a (Req.Method req) resp →
      submit gzip env i req resp s = (Ret tt, s') →
      pstep (s, order) (s', order ++ [i])
  | ps_refused env i req resp s s' e order :
      submit gzip env i req resp s = (Fail e, s') →
      pstep (s, order) (s', order)
  | ps_cancel i s order : pstep (s, order) (cancel i s, order)
  | ps_closeBegin s order : pstep (s, order) (updPipe closeBegin s, order)
  | ps_closeEnd s order : pstep (s, order) (completeClose s, order)
  | ps_run now s s' order :
      runStep gunzip now s = Some s' → pstep (s, order) (s', order)
  | ps_stop s s' order : stopReader s = Some s' → pstep (s, order) (s', order)
  | ps_breaks e m s order :
      mayBreak = true → pstep (s, order) (breakOff e m s, order).

(** ** The invariant *)

(** The pending requests are those written and not answered yet, in order. *)
Definition queued (k : nat) (order : list nat) (c : Connection) : Prop :=
  pr_id <$> Con.pendingReqs c = drop k order ∧
  ∀ j p, Con.pendingReqs c !! j = Some p →
    ∃ a, anss !! (k + j)%nat = Some a ∧ suits a (pr_method p) (pr_resp p).

(** The reader has what is left after [k] answers ahead of it, or the part of it that a
    broken connection still delivers. *)
Definition ahead (k : nat) (br : BufReader) : Prop :=
  ∃ e y z, positioned e y br ∧ rest k = y ++ z ∧ (mayBreak = false → z = []).

(** The answer to its request, or, of a broken connection, part of it. *)
Definition answered (a : answer) (r : Response) : Prop := gotAnswer a r ∨ (mayBreak = true ∧ gotCut a r).

(** Where the reader stands relative to the [k] answers already consumed. *)
Definition readerAt (k : nat) (order : list nat) (r : reader) (c : Connection) : Prop :=
  rr_cap r = cap ∧
  match rr_pc r with
  | Waiting | Scanning => ahead k (rr_br r)
  | Reading p resp =>
      ahead k (rr_br r) ∧ order !! k = Some (pr_id p) ∧
      ∃ a r0, anss !! k = Some a ∧ suits a (pr_method p) (Some r0) ∧ resp = Reset r0
  | Finished p o resp =>
      order !! k = Some (pr_id p) ∧
      ((∃ a, anss !! k = Some a ∧ answered a resp ∧ ahead (S k) (rr_br r) ∧
          (o = Ret tt ∨ ∃ e, o = Fail e ∧ 0 < StatusCode resp)) ∨
       (∃ e, o = Fail e ∧ StatusCode resp <= 0))
  | Exited => Con.closing c ≠ 0
  | Crashed => False
  end.

(** Every response handed out is the answer to the request it was handed to. *)
Definition ownAnswers (k : nat) (order : list nat) (c : Connection) : Prop :=
  ∀ i m r, Con.mail c !! i = Some m → mb_response m = Some r →
    ∃ j a, order !! j = Some i ∧ (j < k)%nat ∧ anss !! j = Some a ∧ answered a r.

Record pinv (s : pipe) (order : list nat) (k : nat) : Prop := {
  pi_config : Cfg.MaxRequestsPerConn (Con.config (pp_conn s)) ≤ 0 ∧
              Con.maxRespSize (pp_conn s) = maxResp ∧ Z.to_nat (Con.readBufSize (pp_conn s)) = cap;
  pi_nodup : NoDup order;
  pi_k : (k ≤ length order)%nat;
  pi_queue : if Con.readerStopped (pp_conn s) =? 0 then queued k order (pp_conn s)
             else Con.pendingReqs (pp_conn s) = [];
  pi_reader : match pp_reader s with
              | None => k = 0%nat ∧ (Con.closing (pp_conn s) = 0 →
                  order = [] ∧ Con.responseReader (pp_conn s) = false ∧
                  ∃ n, Con.conn (pp_conn s) = Some n ∧ ahead 0 (NewReaderSize (rd n) cap))
              | Some r => readerAt k order r (pp_conn s) ∧
                  (Con.closing (pp_conn s) = 0 → Con.responseReader (pp_conn s) = true)
              end;
  pi_stopped : Con.closing (pp_conn s) = 0 → Con.readerStopped (pp_conn s) = 0;
  pi_mail : ownAnswers k order (pp_conn s)
}.

(** ** Each step keeps the invariant *)

Lemma rest_step k a : anss !! k = Some a → rest k = an_head a ++ an_raw a ++ rest (S k).
Proof.
  intros E. unfold rest. rewrite (drop_S _ _ _ E), fmap_cons. cbn [concat]. unfold wireOf at 1.
  by rewrite <- !app_assoc.
Qed.

Lemma pinv_view s order k c' :
  view c' = view (pp_conn s) → pinv s order k → pinv (mkPipe c' (pp_reader s) (pp_signal s)) order k.
Proof.
  destruct s as [c r g]. cbn [pp_conn pp_reader pp_signal]. unfold view.
  intros [= E1 E2 E3 E4 E5 E6 E7 E8 E9] [H1 H2 H3 H4 H5 H6 H7].
  cbn [pp_conn pp_reader pp_signal] in *.
  split; cbn [pp_conn pp_reader pp_signal]; unfold queued, ownAnswers, readerAt in *;
    rewrite ?E1, ?E2, ?E3, ?E4, ?E5, ?E6, ?E7, ?E8, ?E9; done.
Qed.

Lemma pinv_open s order k : pinv s order k → Con.closing (pp_conn s) = 0 → queued k order (pp_conn s).
Proof. intros [_ _ _ H4 _ H6 _] Hc. by rewrite (H6 Hc) in H4. Qed.

(** The reader says nothing of a connection that is being closed. *)
Lemma readerAt_conn k order r c c' :
  (Con.closing c ≠ 0 → Con.closing c' ≠ 0) → readerAt k order r c → readerAt k order r c'.
Proof. intros Hc [Hcap Hr]. split; [done |]. destruct (rr_pc r); auto. Qed.

Lemma pinv_closeBegin s order k : pinv s order k → pinv (updPipe closeBegin s) order k.
Proof.
  intros [H1 H2 H3 H4 H5 H6 H7]. unfold updPipe, closeBegin.
  destruct (Z.eqb_spec (Con.closing (pp_conn s)) 0) as [E | E]; cbn [negb]; [| by split].
  split; cbn [pp_conn pp_reader]; try done.
  destruct (pp_reader s) as [r|]; [| by destruct H5]. destruct H5 as [Hr _]. split; [| done].
  eapply readerAt_conn; [| exact Hr]. done.
Qed.

Lemma pinv_closeEnd s order k : Con.closing (pp_conn s) ≠ 0 → pinv s order k → pinv (updPipe closeEnd s) order k.
Proof.
  intros Hc [H1 H2 H3 H4 H5 H6 H7]. split; cbn [updPipe pp_conn pp_reader]; try done.
  - destruct (pp_reader s) as [r|]; [| by destruct H5]. destruct H5 as [Hr _]. split; [| done].
    by eapply readerAt_conn; [| exact Hr].
  - intros i m r Hm Hr. unfold closeEnd in Hm. simpl in Hm.
    pose proof (failPending_response (WrapError ErrorTypeNetwork "connection closed" (ESentinel ErrConnectFailed))
      (Con.pendingReqs (pp_conn s)) (Con.mail (pp_conn s)) i) as Hf.
    rewrite Hm in Hf. simpl in Hf. rewrite Hr in Hf.
    destruct (Con.mail (pp_conn s) !! i) as [m'|] eqn:Em; [| done]. injection Hf as Hf.
    by apply (H7 i m' r).
Qed.

Lemma pinv_completeClose s order k : pinv s order k → pinv (completeClose s) order k.
Proof.
  intros H. unfold completeClose, halfClosed. destruct (Z.eqb_spec (Con.closing (pp_conn s)) 0); [done |].
  simpl. case_if; [by apply pinv_closeEnd | done].
Qed.

Lemma pinv_close s order k : pinv s order k → pinv (updPipe Con.closeConn s) order k.
Proof.
  intros H. destruct (Z.eqb_spec (Con.closing (pp_conn s)) 0) as [E | E].
  - unfold updPipe. rewrite closeConn_halves by done. apply pinv_closeBegin in H.
    apply (pinv_closeEnd (updPipe closeBegin s) order k); [| exact H]. unfold updPipe, closeBegin. simpl. by rewrite E.
  - unfold updPipe, Con.closeConn. rewrite (proj2 (Z.eqb_neq _ _)) by done. by destruct s.
Qed.

(** The reader moves without touching the connection. *)
Lemma pinv_reader s order k r r' g :
  pp_reader s = Some r → readerAt k order r' (pp_conn s) →
  pinv s order k → pinv (mkPipe (pp_conn s) (Some r') g) order k.
Proof.
  intros Er Hr [H1 H2 H3 H4 H5 H6 H7]. rewrite Er in H5. destruct H5 as [_ H5].
  by split.
Qed.

Lemma queued_head k order c p ps :
  queued k order c → Con.pendingReqs c = p :: ps →
  order !! k = Some (pr_id p) ∧ ∃ a, anss !! k = Some a ∧ suits a (pr_method p) (pr_resp p).
Proof.
  intros [Hq Hs] E. rewrite E in Hq, Hs. split.
  - rewrite <- (Nat.add_0_r k), <- lookup_drop, <- Hq. done.
  - destruct (Hs 0%nat p eq_refl) as (a & Ha & Hsu). rewrite Nat.add_0_r in Ha. by exists a.
Qed.

(** The queue without its head. *)
Lemma queued_tail k order c c' p :
  queued k order c → order !! k = Some (pr_id p) →
  Con.pendingReqs c' = Con.removeFirst (pr_id p) (Con.pendingReqs c) → queued (S k) order c'.
Proof.
  intros [Hq Hsu] Hk E. unfold queued. rewrite E, (drop_S order _ k Hk) in *.
  destruct (Con.pendingReqs c) as [|p0 ps]; [done |]. injection Hq as Hid Hq.
  rewrite <- Hid, removeFirst_head. split; [done |]. intros j q Hj.
  destruct (Hsu (S j) q Hj) as (b & Hb & Hsb). exists b. by rewrite Nat.add_succ_r in Hb.
Qed.

Lemma pinv_pick s order k r :
  pp_reader s = Some r → rr_pc r = Scanning → pinv s order k → pinv (pick r s) order k.
Proof.
  intros Er Epc Hinv. pose proof Hinv as [_ _ _ H4 H5 _ _]. rewrite Er in H5.
  destruct H5 as [[Hcap Hat] _]. rewrite Epc in Hat. unfold pick, setReader.
  destruct (Con.pendingReqs (pp_conn s)) as [|p ps] eqn:Ep.
  { by eapply pinv_reader. }
  destruct (Z.eqb_spec (Con.closing (pp_conn s)) 0) as [Ec | Ec]; cbn [negb]; [| by eapply pinv_reader].
  destruct (queued_head k order _ p ps (pinv_open _ _ _ Hinv Ec) Ep) as (Hk & a & Ha & Hsu).
  pose proof Hsu as (r0 & Hr0 & _). rewrite Hr0.
  eapply pinv_reader; [done | | done]. split; [done |]. cbn [setPc rr_pc rr_br].
  split; [done |]. split; [done |]. exists a, r0. by rewrite Hr0 in Hsu.
Qed.

Lemma pinv_readOne s order k r p resp :
  pp_reader s = Some r → rr_pc r = Reading p resp → pinv s order k →
  pinv (readOne gunzip p resp r s) order k.
Proof.
  intros Er Epc Hinv. pose proof Hinv as [(_ & Hmax & _) _ _ _ H5 _ _]. rewrite Er in H5.
  destruct H5 as [[Hcap Hat] _]. rewrite Epc in Hat.
  destruct Hat as (Hpos & Hk & a & r0 & Ha & Hsu & ->).
  destruct Hsu as (r1 & [= <-] & Hg & Hlen & Hfr & Hgz).
  destruct Hpos as (e & y & z & Hpos & Hyz & Hz). rewrite (rest_step k a Ha), app_assoc in Hyz.
  assert (∀ o br' p', readResponseBuffered gunzip cap maxResp (pr_method p) (rr_br r, Reset r0) = (o, (br', p')) →
    readerAt k order (mkReader br' cap (Finished p o p')) (pp_conn s) →
    pinv (readOne gunzip p (Reset r0) r s) order k) as Hgo.
  { intros o br' p' E Hat. unfold readOne. rewrite Hcap, Hmax, E. by eapply pinv_reader. }
  destruct (decide (length (an_head a ++ an_raw a) ≤ length y)%nat) as [Hle | Hgt].
  - apply app_split_le in Hyz as (y' & -> & Hy'); [| done]. rewrite <- app_assoc in Hpos.
    destruct (readResponseBuffered_delivers gunzip cap maxResp (pr_method p) e (rr_br r) (Reset r0)
      (an_head a) (an_status a) (an_raw a) (an_payload a) y') as (br' & p' & E & Hdel & Hpos'); try done.
    apply (Hgo _ _ _ E). split; [done |]. split; [done |]. left. exists a. split; [done |].
    destruct Hdel as (D1 & D2 & D3 & D4 & D5). split; [by left |]. split; [by exists e, y', z | by left].
  - assert (partOf y (an_head a ++ an_raw a)) as Hpart.
    { symmetry in Hyz. apply app_split_le in Hyz as (d & Hd & _); [| lia]. exists d. split; [done |].
      intros ->. rewrite app_nil_r in Hd. rewrite Hd in Hgt. lia. }
    assert (mayBreak = true) as Hbr.
    { destruct mayBreak; [done |]. rewrite (Hz eq_refl), app_nil_r in Hyz.
      apply (f_equal length) in Hyz. rewrite length_app in Hyz. lia. }
    destruct (readResponseBuffered_breaksOff gunzip cap maxResp (pr_method p) e (rr_br r) (Reset r0)
      (an_head a) (an_status a) (an_raw a) (an_payload a) y) as (o & br' & p' & E & Hpos' & Hres); try done.
    assert (ahead (S k) br') as Hahead.
    { exists e, [], (rest (S k)). split; [done |]. split; [done |]. rewrite Hbr. done. }
    apply (Hgo _ _ _ E). split; [done |]. split; [done |]. cbn [rr_br].
    destruct Hres as [[-> (D1 & D2 & D3 & D4 & D5)] | (e' & -> & [(C1 & C2 & C3) | ->])].
    + left. exists a. split; [done |]. split; [by left |]. by auto.
    + destruct (Z.leb_spec (StatusCode p') 0) as [Hst | Hst]; [right; by exists e' |]. left. exists a.
      split; [done |]. split; [right; by split |]. split; [done | right; by exists e'].
    + right. by exists e'.
Qed.

(** After the response of request [k] was read, the next one is [k+1]. *)
Lemma pinv_deliver s order k r br p resp a c1 :
  pp_reader s = Some r → order !! k = Some (pr_id p) → anss !! k = Some a → answered a resp →
  ahead (S k) br → rr_cap r = cap → pinv s order k →
  view c1 = view (Con.removePending (pr_id p) (pp_conn s)) →
  pinv (mkPipe (deliver p resp c1) (Some (mkReader br cap Scanning)) (pp_signal s)) order (S k).
Proof.
  intros Er Hk Ha Hgot Hpos Hcap [H1 H2 H3 H4 H5 H6 H7]. rewrite Er in H5. destruct H5 as [_ H5].
  unfold view. cbn [Con.removePending Con.set_pendingReqs Con.config Con.maxRespSize Con.readBufSize Con.closing
    Con.pendingReqs Con.responseReader Con.readerStopped Con.conn Con.mail].
  intros [= E1 E2 E3 E4 E5 E6 E7 E8 E9].
  assert (∀ c2, c2 = deliver p resp c1 → Con.config c2 = Con.config c1 ∧ Con.maxRespSize c2 = Con.maxRespSize c1 ∧
    Con.readBufSize c2 = Con.readBufSize c1 ∧ Con.closing c2 = Con.closing c1 ∧
    Con.pendingReqs c2 = Con.pendingReqs c1 ∧ Con.responseReader c2 = Con.responseReader c1 ∧
    Con.readerStopped c2 = Con.readerStopped c1) as Hsame.
  { intros c2 ->. unfold deliver. by destruct (wasCancelled _ _). }
  destruct (Hsame _ eq_refl) as (S1 & S2 & S3 & S4 & S5 & S6 & S7).
  split; cbn [pp_conn pp_reader]; rewrite ?S1, ?S2, ?S3, ?S4, ?S6, ?S7, ?E1, ?E2, ?E3, ?E4, ?E6, ?E7; try done.
  - apply lookup_lt_Some in Hk. lia.
  - destruct (Con.readerStopped (pp_conn s) =? 0).
    + eapply queued_tail; [exact H4 | done | by rewrite S5, E5].
    + rewrite S5, E5, H4. done.
  - intros i m r' Hm Hr'. unfold deliver in Hm.
    assert (∀ m', Con.mail (pp_conn s) !! i = Some m' → mb_response m' = Some r' →
      ∃ j b, order !! j = Some i ∧ (j < S k)%nat ∧ anss !! j = Some b ∧ answered b r') as Hold.
    { intros m' Hm' Hr1. destruct (H7 i m' r' Hm' Hr1) as (j & b & ? & ? & ? & ?). exists j, b. split_and!; try done. lia. }
    destruct (wasCancelled (pr_id p) c1); [rewrite E9 in Hm; by apply (Hold m) |].
    cbn [onMail Con.set_mail Con.mail] in Hm. rewrite E9 in Hm.
    destruct (decide (i = pr_id p)) as [-> | Hne].
    + rewrite lookup_alter_eq in Hm. destruct (Con.mail (pp_conn s) !! pr_id p) as [m0|] eqn:E0; [| done].
      injection Hm as <-. simpl in Hr'. destruct (mb_response m0) as [r1|] eqn:E10.
      * injection Hr' as <-. by apply (Hold m0).
      * injection Hr' as <-. exists k, a. split_and!; done || lia.
    + rewrite lookup_alter_ne in Hm by congruence. by apply (Hold m).
Qed.

Lemma closeConn_closing c : Con.closing (Con.closeConn c) ≠ 0.
Proof. unfold Con.closeConn. destruct (Z.eqb_spec (Con.closing c) 0); done. Qed.

Lemma closeConn_mail c i :
  mb_response <$> Con.mail (Con.closeConn c) !! i = mb_response <$> Con.mail c !! i.
Proof. unfold Con.closeConn. case_if; [| done]. cbn. apply failPending_response. Qed.

Lemma closeConn_config c :
  Con.config (Con.closeConn c) = Con.config c ∧ Con.maxRespSize (Con.closeConn c) = Con.maxRespSize c ∧
  Con.readBufSize (Con.closeConn c) = Con.readBufSize c.
Proof. unfold Con.closeConn. by case_if. Qed.

Lemma postErr_mail i e c j :
  mb_response <$> Con.mail (onMail i (postErr e) c) !! j = mb_response <$> Con.mail c !! j.
Proof.
  cbn. destruct (decide (j = i)) as [-> | Hne].
  - rewrite lookup_alter_eq. by destruct (Con.mail c !! i).
  - by rewrite lookup_alter_ne by congruence.
Qed.

(** The read of request [k] failed: its caller gets an error, and the connection is
    closed, by this goroutine or by the one that began it. *)
Lemma pinv_failed s order k r p c1 c' g :
  pp_reader s = Some r → order !! k = Some (pr_id p) → pinv s order k →
  view c1 = view (Con.removePending (pr_id p) (pp_conn s)) →
  c' = Con.closeConn c1 ∨ (∃ i e, c' = onMail i (postErr e) (Con.closeConn c1)) →
  pinv (mkPipe c' (Some (setPc Exited r)) g) order (S k).
Proof.
  intros Er Hk [H1 H2 H3 H4 H5 H6 H7] Hv Hc'. rewrite Er in H5. destruct H5 as [[Hcap _] _].
  unfold view in Hv. injection Hv as V1 V2 V3 V4 V5 V6 V7 V8 V9. simpl in *.
  destruct (closeConn_config c1) as (C1 & C2 & C3). pose proof (closeConn_closing c1) as Hcl.
  assert (Con.config c' = Con.config c1 ∧ Con.maxRespSize c' = Con.maxRespSize c1 ∧
    Con.readBufSize c' = Con.readBufSize c1 ∧ Con.closing c' ≠ 0 ∧
    Con.readerStopped c' = Con.readerStopped (Con.closeConn c1) ∧
    Con.pendingReqs c' = Con.pendingReqs (Con.closeConn c1) ∧
    (∀ i, mb_response <$> Con.mail c' !! i = mb_response <$> Con.mail (Con.closeConn c1) !! i))
    as (E1 & E2 & E3 & E4 & E5 & E6 & E7).
  { destruct Hc' as [-> | (i & e & ->)]; split_and!; try done. intros j. apply postErr_mail. }
  split; cbn [pp_conn pp_reader]; rewrite ?E1, ?E2, ?E3, ?V1, ?V2, ?V3; try done.
  - apply lookup_lt_Some in Hk. lia.
  - unfold Con.closeConn in E5, E6. rewrite V4 in E5, E6.
    destruct (Con.closing (pp_conn s) =? 0); cbn [negb] in E5, E6; rewrite E5; [done |]. rewrite V5 in E6. rewrite V7.
    destruct (Con.readerStopped (pp_conn s) =? 0); [by eapply queued_tail | by rewrite E6, H4].
  - intros i m r' Hi Hr'. specialize (E7 i). rewrite Hi, closeConn_mail, V9 in E7. simpl in E7. rewrite Hr' in E7.
    destruct (Con.mail (pp_conn s) !! i) as [m'|] eqn:Em; [| done]. injection E7 as E7.
    destruct (H7 i m' r' Em ltac:(done)) as (j & a & ? & ? & ? & ?). exists j, a. split_and!; try done. lia.
Qed.

(** The response of request [k] is handed over, and the reader goes on or, asked to
    close, stops. *)
Lemma pinv_goOn s order k r p resp a c1 :
  pp_reader s = Some r → order !! k = Some (pr_id p) → anss !! k = Some a → answered a resp →
  ahead (S k) (rr_br r) → rr_cap r = cap → pinv s order k →
  view c1 = view (Con.removePending (pr_id p) (pp_conn s)) →
  pinv (if isConnectionClose resp
        then mkPipe (Con.closeConn (deliver p resp c1)) (Some (setPc Exited r)) (pp_signal s)
        else mkPipe (deliver p resp c1) (Some (setPc Scanning r)) (pp_signal s)) order (S k).
Proof.
  intros Er Hk Ha Hgot Hpos Hcap Hinv Hv.
  pose proof (pinv_deliver s order k r (rr_br r) p resp a c1 Er Hk Ha Hgot Hpos Hcap Hinv Hv) as Hd.
  case_if.
  - apply pinv_close in Hd. unfold updPipe in Hd. cbn [pp_conn pp_reader pp_signal] in Hd.
    eapply (pinv_reader _ _ _ _ (setPc Exited r) (pp_signal s)) in Hd; [exact Hd | done |].
    split; [done | apply closeConn_closing].
  - unfold setPc. by rewrite Hcap.
Qed.

Lemma pinv_finish now s order k r p o resp :
  pp_reader s = Some r → rr_pc r = Finished p o resp → pinv s order k →
  pinv (finish now p o resp r s) order (S k).
Proof.
  intros Er Epc Hinv. pose proof Hinv as [_ _ _ _ H5 _ _]. rewrite Er in H5.
  destruct H5 as [[Hcap Hat] _]. rewrite Epc in Hat.
  destruct Hat as [Hk [(a & Ha & Hgot & Hpos & [-> | (e & -> & Hst)]) | (e & -> & Hst)]]; unfold finish; cbv zeta.
  - set (c1 := Con.set_bytesRead _ _).
    assert (view c1 = view (Con.removePending (pr_id p) (pp_conn s))) as Hv.
    { unfold c1. rewrite view_bytesRead.
      destruct (0 <? pr_sentAt p); rewrite ?view_recordSuccess, view_updateTimeCache, view_addReqs; done. }
    by apply (pinv_goOn s order k r p resp a c1).
  - rewrite (proj2 (Z.ltb_lt _ _)) by done. apply (pinv_goOn s order k r p resp a); try done.
    by rewrite view_updateTimeCache, view_addReqs.
  - rewrite (proj2 (Z.ltb_ge _ _)) by done.
    eapply (pinv_failed s order k r p (Con.recordError (Con.removePending (pr_id p) (addActive (-1) (pp_conn s)))));
      [done | done | done | by rewrite view_recordError |].
    destruct (wasCancelled (pr_id p) (pp_conn s)); [by left | right; by eexists _, _].
Qed.

(** *** Submitting *)

Definition started (s : pipe) : pipe :=
  if negb (Con.responseReader (pp_conn s)) && (Con.readerStopped (pp_conn s) =? 0)
  then startResponseReader s else s.

Lemma pinv_started s order k :
  pinv s order k → Con.closing (pp_conn s) = 0 →
  pinv (started s) order k ∧ (∃ r, pp_reader (started s) = Some r) ∧
  Con.closing (pp_conn (started s)) = 0.
Proof.
  intros Hinv Hc. pose proof Hinv as [(H0 & H1 & Hcap) H2 H3 H4 H5 H6 H7]. specialize (H6 Hc).
  unfold started. rewrite H6. destruct (pp_reader s) as [r|] eqn:Er.
  - destruct H5 as [_ H5]. rewrite (H5 Hc). cbn [negb andb]. split_and!; eauto.
  - destruct H5 as [-> H5]. destruct (H5 Hc) as (-> & Hr & n & Hn & Hpos). rewrite Hr. cbn [negb andb Z.eqb].
    unfold startResponseReader. rewrite H6, Hc, Hr, Hn. cbn [Z.eqb negb orb].
    split_and!; [| by eexists | done]. rewrite Hcap.
    split; cbn [pp_conn pp_reader]; try done.
Qed.

(** The fields of the connection a written request changes are not those the
    invariant of a running reader speaks of. *)
Lemma pinv_setconn s order k r n :
  pp_reader s = Some r → pinv s order k →
  pinv (updPipe (Con.set_conn n) s) order k.
Proof.
  intros Er [H1 H2 H3 H4 H5 H6 H7]. rewrite Er in H5.
  split; cbn [updPipe pp_conn pp_reader]; rewrite ?Er; done.
Qed.

Lemma pinv_enqueue s order k r i q a c' g :
  pp_reader s = Some r → pinv s order k → Con.closing (pp_conn s) = 0 → i ∉ order →
  anss !! length order = Some a → suits a (pr_method q) (pr_resp q) → pr_id q = i →
  Con.config c' = Con.config (pp_conn s) → Con.maxRespSize c' = Con.maxRespSize (pp_conn s) →
  Con.readBufSize c' = Con.readBufSize (pp_conn s) → Con.closing c' = Con.closing (pp_conn s) →
  Con.responseReader c' = Con.responseReader (pp_conn s) → Con.readerStopped c' = Con.readerStopped (pp_conn s) →
  Con.pendingReqs c' = Con.pendingReqs (pp_conn s) ++ [q] →
  Con.mail c' = <[i := emptyMail]> (Con.mail (pp_conn s)) →
  pinv (mkPipe c' (Some r) g) (order ++ [i]) k.
Proof.
  intros Er [H1 H2 H3 H4 H5 H6 H7] Hc Hi Ha Hsu Hid E1 E2 E3 E4 E5 E6 E7 E8.
  rewrite Er in H5. destruct H5 as [[Hcap Hat] Hrr]. pose proof (H6 Hc) as Hst. rewrite Hst in H4. destruct H4 as [Hq Hs].
  assert (length (Con.pendingReqs (pp_conn s)) = length order - k)%nat as Hlen.
  { rewrite <- (length_fmap pr_id), Hq. apply length_drop. }
  split; cbn [pp_conn pp_reader]; rewrite ?E1, ?E2, ?E3, ?E4, ?E5, ?E6, ?Hc, ?Hst; try done.
  - apply NoDup_app. split; [done |]. split; [| apply NoDup_singleton].
    intros x Hx Hx'. apply list_elem_of_singleton in Hx'. by subst.
  - rewrite length_app. lia.
  - cbn [Z.eqb]. split; rewrite E7.
    + rewrite fmap_app, Hq, drop_app_le by lia. by rewrite <- Hid.
    + intros j p Hj. apply lookup_app_Some in Hj as [Hj | [Hge Hj]]; [by apply Hs |].
      apply list_lookup_singleton_Some in Hj as [Hj ->].
      exists a. split; [| done]. rewrite <- Ha. f_equal. lia.
  - split; [| by intros; apply Hrr]. split; [done |].
    destruct (rr_pc r); try done; rewrite ?E4.
    + destruct Hat as (? & Hk & ?). split_and!; try done. by apply lookup_app_l_Some.
    + destruct Hat as [Hk ?]. split; [by apply lookup_app_l_Some | done].
  - intros j m r' Hm Hr'. rewrite E8 in Hm. destruct (decide (j = i)) as [-> | Hne].
    + rewrite lookup_insert_eq in Hm. by injection Hm as <-.
    + rewrite lookup_insert_ne in Hm by congruence.
      destruct (H7 j m r' Hm Hr') as (x & b & Hx & ? & ? & ?). exists x, b.
      split_and!; try done. by apply lookup_app_l_Some.
Qed.

(** What a call of [submit] amounts to when no rotation is due. *)
Lemma submit_inv env i req resp s o s' :
  Cfg.MaxRequestsPerConn (Con.config (pp_conn s)) ≤ 0 → submit gzip env i req resp s = (o, s') →
  (s' = s ∧ o ≠ Ret tt) ∨
  ∃ req' n body comp, Con.closing (pp_conn s) = 0 ∧ Con.conn (pp_conn s) = Some n ∧
    Req.Method req' = Req.Method req ∧
    writeAndEnqueue env i req' resp n body comp (started s) = (o, s').
Proof.
  intros Hmax. unfold submit. destruct (Z.eqb_spec (Con.closing (pp_conn s)) 0) as [Hc | Hc]; cbn [negb].
  2: { intros [= <- <-]. by left. }
  rewrite rotate_skip by done. cbn [t_conn].
  assert (updPipe (λ _, pp_conn s) s = s) as -> by (by destruct s).
  destruct (prepareBody gzip (pp_conn s) req) as [[[body comp] | e | |] req'] eqn:Ep;
    try (intros [= <- <-]; by left).
  destruct (env_ctxErr env); [intros [= <- <-]; by left |].
  destruct (Con.conn (pp_conn s)) as [n|] eqn:En; [| intros [= <- <-]; by left].
  rewrite Hc. cbn [Z.eqb negb]. fold (started s). intros E. right. exists req', n, body, comp.
  split_and!; try done. by eapply prepareBody_method.
Qed.

Lemma pinv_submit env i req resp s s' a order k :
  i ∉ order → anss !! length order = Some a → suits a (Req.Method req) resp →
  submit gzip env i req resp s = (Ret tt, s') → pinv s order k → pinv s' (order ++ [i]) k.
Proof.
  intros Hi Ha Hsu E Hinv. apply submit_inv in E; [| by apply Hinv].
  destruct E as [[_ ?] | (req' & n & body & comp & Hc & Hn & Hm & E)]; [done |].
  destruct (pinv_started s order k Hinv Hc) as (Hinv1 & [r Er] & Hc1). set (s1 := started s) in *.
  unfold writeAndEnqueue in E. destruct (connWriteRequest _ _ _ _ _ _ _) as [[] n']; try done.
  injection E as <-. cbn [updPipe pp_conn pp_reader]. rewrite Er.
  eapply (pinv_enqueue s1 order k r i); try done; [simpl; by rewrite Hm | done].
Qed.

Lemma pinv_refused env i req resp s s' e order k :
  submit gzip env i req resp s = (Fail e, s') → pinv s order k → pinv s' order k.
Proof.
  intros E Hinv. apply submit_inv in E; [| by apply Hinv].
  destruct E as [[-> _] | (req' & n & body & comp & Hc & Hn & Hm & E)]; [done |].
  destruct (pinv_started s order k Hinv Hc) as (Hinv1 & [r Er] & Hc1). set (s1 := started s) in *.
  unfold writeAndEnqueue in E. destruct (connWriteRequest _ _ _ _ _ _ _) as [[] n']; try done.
  injection E as _ <-. apply (pinv_setconn s1 order k r (Some n') Er) in Hinv1.
  apply (pinv_view _ _ _ (addActive (-1) (Con.set_conn (Some n') (addActive 1 (pp_conn s1))))) in Hinv1; [| done].
  by apply pinv_close in Hinv1.
Qed.

(** *** Breaking *)

Lemma takeScript_prompt m l :
  Forall (λ p, p.1 ≠ [] ∧ p.2 = None) l →
  Forall (λ p, p.1 ≠ [] ∧ p.2 = None) (takeScript m l) ∧ concat (takeScript m l).*1 = take m (concat l.*1).
Proof.
  intros Hl. revert m. induction Hl as [|[d x] l [Hd Hx] Hl IH]; intros m; [by destruct m |]. simpl in *.
  destruct m as [|m]; [done |]. destruct (Nat.leb_spec (length d) (S m)) as [Hle | Hgt].
  - destruct (IH (S m - length d)%nat) as [H1 H2]. split; [by constructor |]. simpl.
    rewrite take_app_ge by done. by f_equal.
  - split; [constructor; [| done]; split; [by destruct d | done] |]. simpl. rewrite take_app_le, app_nil_r by lia. done.
Qed.

(** What a broken connection still delivers is the front of what was coming. *)
Lemma ahead_sever k e m br : mayBreak = true → ahead k br → ahead k (severBuf e m br).
Proof.
  intros Hb (e0 & y & z & (Hs & _ & Hp & He) & Hyz & _). destruct br as [u er a [sc en]].
  rewrite buf_stream in Hs. simpl in *. destruct (takeScript_prompt m sc Hp) as [H1 H2].
  exists e, (u ++ take m (concat sc.*1)), (drop m (concat sc.*1) ++ z). split; [| split].
  - split; [| split; [done | by split]]. rewrite buf_stream. simpl. by rewrite H2.
  - rewrite Hyz, <- Hs, <- !app_assoc. f_equal. by rewrite app_assoc, take_drop.
  - by rewrite Hb.
Qed.

Lemma pinv_breakOff e m s order k : mayBreak = true → pinv s order k → pinv (breakOff e m s) order k.
Proof.
  intros Hb Hinv. pose proof Hinv as [H1 H2 H3 H4 H5 H6 H7]. unfold breakOff, setReader.
  destruct (pp_reader s) as [r|] eqn:Er.
  - eapply pinv_reader; [exact Er | | done]. destruct H5 as [[Hcap Hat] _]. split; [done |]. cbn [rr_pc rr_br].
    destruct (rr_pc r); try done.
    + by apply ahead_sever.
    + by apply ahead_sever.
    + destruct Hat as [? ?]. split; [by apply ahead_sever | done].
    + destruct Hat as [Hk [(a & ? & ? & ? & ?) | ?]]; (split; [done |]); [left | by right].
      exists a. split_and!; try done. by apply ahead_sever.
  - split; cbn [updPipe pp_conn pp_reader]; rewrite ?Er; try done. destruct H5 as [-> H5]. split; [done |].
    intros Hc. destruct (H5 Hc) as (? & ? & n & Hn & Ha). split_and!; try done. exists (severNet e m n).
    simpl. rewrite Hn. split; [done |]. by apply (ahead_sever 0 e m (NewReaderSize (rd n) cap)).
Qed.

(** Every step keeps the invariant. *)
Lemma pinv_step s order s' order' k :
  pstep (s, order) (s', order') → pinv s order k → ∃ k', pinv s' order' k'.
Proof.
  intros Hstep Hinv. inversion Hstep; subst.
  - exists k. by eapply pinv_submit.
  - exists k. by eapply pinv_refused.
  - exists k. destruct Hinv as [H1 H2 H3 H4 H5 H6 H7]. split; try done.
    intros j m r Hm Hr. cbn in Hm. destruct (decide (j = i)) as [-> | Hne].
    + rewrite lookup_alter_eq in Hm. destruct (Con.mail (pp_conn s) !! i) as [m0|] eqn:E0; [| done].
      injection Hm as <-. by apply (H7 i m0 r).
    + rewrite lookup_alter_ne in Hm by congruence. by apply (H7 j m r).
  - exists k. by apply pinv_closeBegin.
  - exists k. by apply pinv_completeClose.
  - match goal with H : runStep _ _ _ = _ |- _ => unfold runStep in H; rename H into E end.
    destruct (pp_reader s) as [r|] eqn:Er; [| done].
    destruct (rr_pc r) eqn:Epc; try done.
    + destruct (pp_signal s); [| done]. injection E as <-. exists k. unfold wake.
      eapply pinv_reader; [done | | done]. destruct Hinv as [_ _ _ _ H5 _ _]. rewrite Er in H5.
      destruct H5 as [[Hcap Hat] _]. rewrite Epc in Hat. by split.
    + injection E as <-. exists k. by apply pinv_pick.
    + injection E as <-. exists k. by apply pinv_readOne.
    + injection E as <-. exists (S k). by eapply pinv_finish.
  - match goal with H : stopReader _ = _ |- _ => unfold stopReader in H; rename H into E end.
    destruct (pp_reader s) as [[br cp []]|] eqn:Er; try done.
    destruct (Con.responseReader (pp_conn s)) eqn:Err; [done |]. injection E as <-. exists k.
    eapply pinv_reader; [done | | done]. destruct Hinv as [_ _ _ _ H5 _ _]. rewrite Er in H5.
    destruct H5 as [[Hcap Hat] Hrr]. split; [done |]. cbn [rr_pc]. intros Hc. by rewrite (Hrr Hc) in Err.
  - exists k. by apply pinv_breakOff.
Qed.

(** A fresh, connected pipelined connection on which the server will send the
    answers. *)
Definition fresh (s : pipe) : Prop :=
  Cfg.MaxRequestsPerConn (Con.config (pp_conn s)) ≤ 0 ∧ Con.maxRespSize (pp_conn s) = maxResp ∧
  Z.to_nat (Con.readBufSize (pp_conn s)) = cap ∧ Con.pendingReqs (pp_conn s) = [] ∧ pp_reader s = None ∧
  Con.closing (pp_conn s) = 0 ∧ Con.readerStopped (pp_conn s) = 0 ∧ Con.responseReader (pp_conn s) = false ∧
  Con.mail (pp_conn s) = ∅ ∧
  ∃ n, Con.conn (pp_conn s) = Some n ∧ prompt (rd n) ∧ stream (rd n) = rest 0 ∧ final (rd n) = f.

Lemma pinv_fresh s : fresh s → pinv s [] 0.
Proof.
  intros (H1 & H2 & H3 & H4 & H5 & H6 & H7 & H8 & H9 & n & Hn & Hp & Hs & Hf).
  split; rewrite ?H5, ?H6, ?H7; try done.
  - by apply NoDup_nil.
  - cbn [Z.eqb]. split; rewrite H4; [done |]. intros j p Hj. by rewrite lookup_nil in Hj.
  - split; [done |]. intros _. split_and!; try done. exists n. split; [done |].
    exists f, (rest 0), []. split; [| by rewrite app_nil_r]. split; [exact Hs |]. split; [exact Hf |]. by split.
  - intros i m r Hm. by rewrite H9, lookup_empty in Hm.
Qed.

Lemma pinv_reachable s0 s order : fresh s0 → rtc pstep (s0, []) (s, order) → ∃ k, pinv s order k.
Proof.
  intros Hf Hr. remember (s0, []) as x eqn:Ex. remember (s, order) as y eqn:Ey.
  assert (∃ k, pinv x.1 x.2 k) as Hx by (exists 0%nat; subst x; by apply pinv_fresh).
  clear Ex. assert (∃ k, pinv y.1 y.2 k) as Hy; [| by subst y].
  clear Ey. induction Hr as [x | [s1 o1] [s2 o2] z Hstep _ IH]; [done |].
  apply IH. destruct Hx as [k Hk]. by eapply pinv_step.
Qed.

End scenario.


(** *** Example: two requests in flight *)

Definition exAnswers : list answer :=
  [mkAnswer (strln "HTTP/1.1 200 OK" ++ strln "Content-Length: 3" ++ crlf) 200 (str "one") (str "one");
   mkAnswer (strln "HTTP/1.1 404 Not Found" ++ strln "Content-Length: 3" ++ crlf) 404 (str "two") (str "two")].

Definition exPipeConfig : Config := Cfg.set_ReadBufferSize 128 Cfg.DefaultConfig.

Definition exPipe : pipe :=
  let b := concat (wireOf <$> exAnswers) in
  mkPipe (Con.set_conn (Some (mkNet (mkConn [(take 50 b, None); (drop 50 b, None)] EEOF) (mkWConn [] []) None))
            (Con.NewConnection 1 (str "h") 8080 exPipeConfig true false false [] 0)) None false.

Definition exObject : Response := newPooledResponse 8.

(** [n] steps of the reader goroutine. *)
Fixpoint runN (n : nat) (s : pipe) : pipe :=
  match n with
  | O => s
  | S n' => match runStep (λ b, GzOK b) 9 s with Some s' => runN n' s' | None => s end
  end.

Lemma runN_rtc anss maxResp cap b n s order :
  rtc (pstep inr (λ b, GzOK b) anss maxResp cap b) (s, order) (runN n s, order).
Proof.
  revert s. induction n as [|n IH]; intros s; simpl; [done |].
  destruct (runStep _ _ s) as [s'|] eqn:E; [| done]. eapply rtc_l; [| apply IH]. by eapply ps_run.
Qed.

Definition exSubmitEnv : surroundings := mkEnv 7 0 None None (inl EEOF) 1024 1024.
Definition exSubmit (i : nat) (s : pipe) : pipe :=
  (submit inr exSubmitEnv i exRequest (Some exObject) s).2.

Lemma exAnswers_suit j a :
  exAnswers !! j = Some a → suits (10 * 1024 * 1024) 128 a (Req.Method exRequest) (Some exObject).
Proof.
  intros Ha. exists exObject. split; [done |].
  destruct j as [|[|j]]; [| | done]; injection Ha as <-;
    (split; [split; [apply isHead_intro; reflexivity | reflexivity] |]);
    (split; [vm_compute; lia |]); (split; [| reflexivity]); apply framed_length; by vm_compute.
Qed.

Lemma exSubmit_step b i a s order :
  (submit inr exSubmitEnv i exRequest (Some exObject) s).1 = Ret tt → i ∉ order →
  exAnswers !! length order = Some a →
  pstep inr (λ b, GzOK b) exAnswers (10 * 1024 * 1024) 128 b (s, order) (exSubmit i s, order ++ [i]).
Proof.
  intros E Hi Ha. eapply ps_submit; [done | exact Ha | by eapply exAnswers_suit |].
  unfold exSubmit. destruct (submit inr exSubmitEnv i exRequest (Some exObject) s) as [o s'] eqn:Es.
  simpl in E. subst o. exact Es.
Qed.

(** Both requests are written before the reader runs; the first caller gives up. *)
Definition exQueued : pipe := exSubmit 11 (exSubmit 10 exPipe).
Definition exFinal : pipe := runN 8 (cancel 10 exQueued).

Lemma exQueued_reachable b :
  rtc (pstep inr (λ b, GzOK b) exAnswers (10 * 1024 * 1024) 128 b) (exPipe, []) (exQueued, [10%nat; 11%nat]).
Proof.
  apply (rtc_l _ _ (exSubmit 10 exPipe, [10%nat])).
  { apply (exSubmit_step b 10 (mkAnswer (strln "HTTP/1.1 200 OK" ++ strln "Content-Length: 3" ++ crlf) 200
             (str "one") (str "one")) exPipe []); [by vm_compute | apply not_elem_of_nil | reflexivity]. }
  apply rtc_once. unfold exQueued.
  apply (exSubmit_step b 11 (mkAnswer (strln "HTTP/1.1 404 Not Found" ++ strln "Content-Length: 3" ++ crlf) 404
           (str "two") (str "two")) (exSubmit 10 exPipe) [10%nat]); [by vm_compute | | reflexivity].
  intros H. apply list_elem_of_singleton in H. lia.
Qed.

Lemma exFinal_reachable b :
  rtc (pstep inr (λ b, GzOK b) exAnswers (10 * 1024 * 1024) 128 b) (exPipe, []) (exFinal, [10%nat; 11%nat]).
Proof.
  etrans; [apply exQueued_reachable |].
  apply (rtc_l _ _ (cancel 10 exQueued, [10%nat; 11%nat])); [apply ps_cancel | apply runN_rtc].
Qed.

Lemma exPipe_fresh : fresh exAnswers [] EEOF (10 * 1024 * 1024) 128 exPipe.
Proof.
  split; [vm_compute; discriminate |]. split_and!; try reflexivity. eexists. split; [reflexivity |].
  split; [| split; reflexivity]. by repeat constructor.
Qed.

(** The connection breaks two bytes before the end of the second answer. *)
Definition exBroken : pipe := runN 8 (breakOff EEOF (length (concat (wireOf <$> exAnswers)) - 2) exQueued).

Lemma exBroken_reachable :
  rtc (pstep inr (λ b, GzOK b) exAnswers (10 * 1024 * 1024) 128 true) (exPipe, []) (exBroken, [10%nat; 11%nat]).
Proof.
  etrans; [apply exQueued_reachable |].
  eapply rtc_l; [by apply (ps_breaks _ _ _ _ _ _ EEOF (length (concat (wireOf <$> exAnswers)) - 2)) | apply runN_rtc].
Qed.


(** *** A read timeout inside a body *)

(** A server whose first body looks, from its third byte on, like a response. *)
Definition exInner : bytes := strln "HTTP/1.1 200 OK" ++ strln "Content-Length: 3" ++ crlf ++ str "bad".
Definition exStalled : pipe :=
  let first := strln "HTTP/1.1 200 OK" ++ str "Content-Length: " ++ Strconv.Itoa (2 + len exInner) ++ crlf ++ crlf ++ str "ok" in
  let second := wireOf <$> drop 1 exAnswers in
  mkPipe (Con.set_conn (Some (mkNet (mkConn [(first, None); ([], Some (ENet true)); (exInner ++ concat second, None)] EEOF)
            (mkWConn [] []) None))
            (Con.NewConnection 1 (str "h") 8080 exPipeConfig true false false [] 0)) None false.

(** The deadline passes after two bytes of the first body: the first caller has its
    response cut short, the reader takes the rest of that body for the next response, and
    the second caller gets it in place of the 404 that answers its request. *)
Lemma timeout_desynchronises :
  let s := runN 8 (exSubmit 11 (exSubmit 10 exStalled)) in
  ∃ r, await 11 s = [inr r] ∧ StatusCode r = 200 ∧ bodyBytes r = str "bad" ∧ Con.closing (pp_conn s) = 0.
Proof.
  intros s. destruct (await 11 s) as [|[e | r] []] eqn:Hr; try (exfalso; revert Hr; vm_compute; discriminate).
  exists r. split; [done |]. revert Hr. vm_compute. by intros [= <-].
Qed.
