(* ===== verification/PipelineLive.v ===== *)
(** * PipelineLive: no pipelined caller is left waiting

    [PipelineProps] shows that a response which is handed out is the right one;
    here the reader goroutine is shown to make progress.  Whatever interleaving
    led to a state, the reader alone reaches a state in which it has nothing to
    do within a bounded number of its steps, and there every caller of
    [doPipelined] has its answer: no wake-up of [pendingSignal] is lost, and no
    request leaves [pendingReqs] without a message in its mailbox. *)

From stdpp Require Import prelude list gmap.
From S2P Require Import Prelude Errors Config IO Scan Response Parser ParserTotal ParserFacts ParserSpec.
From S2P Require Import Request Writer WriterProps Compressor Connection ConnectionProps Pipeline PipelineProps.

(** ** Mailboxes *)

(** The caller that waits on [m] is woken: it has a response, it gave up, or it has
    the error of a closed connection. *)
Definition served (closing : Z) (m : mailbox) : Prop :=
  is_Some (mb_response m) ∨ mb_cancelled m = true ∨ (is_Some (mb_err m) ∧ closing ≠ 0).

Definition pendingIds (c : Connection) : list nat := pr_id <$> Con.pendingReqs c.

(** Every written request has a mailbox, and is pending or served. *)
Definition attended (order : list nat) (c : Connection) : Prop :=
  ∀ i, i ∈ order → ∃ m, Con.mail c !! i = Some m ∧ (i ∈ pendingIds c ∨ served (Con.closing c) m).

(** Errors come with the end of the connection. *)
Definition errorsClosed (c : Connection) : Prop :=
  ∀ i m, Con.mail c !! i = Some m → is_Some (mb_err m) → Con.closing c ≠ 0.

(** The connection moves on from [c] to [c']: what was served stays served, and no
    request is dropped, [x] excepted. *)
Record advances (x : option nat) (c c' : Connection) : Prop := {
  ad_closing : Con.closing c ≠ 0 → Con.closing c' ≠ 0;
  ad_errors : errorsClosed c → errorsClosed c';
  ad_mail i m : Con.mail c !! i = Some m →
    ∃ m', Con.mail c' !! i = Some m' ∧ (served (Con.closing c) m → served (Con.closing c') m') ∧
      (i ∈ pendingIds c → x ≠ Some i → i ∈ pendingIds c' ∨ served (Con.closing c') m')
}.

Lemma advances_attended order c c' : advances None c c' → attended order c → attended order c'.
Proof.
  intros [_ _ Hm] Ha i Hi. destruct (Ha i Hi) as (m & Em & Hs).
  destruct (Hm i m Em) as (m' & Em' & Hk & Hp). exists m'. split; [done |]. naive_solver.
Qed.

Lemma advances_trans x c c1 c2 : advances x c c1 → advances None c1 c2 → advances x c c2.
Proof.
  intros [A1 E1 B1] [A2 E2 B2]. split; [by auto | by auto |]. intros i m Em.
  destruct (B1 i m Em) as (m1 & Em1 & K1 & P1). destruct (B2 i m1 Em1) as (m2 & Em2 & K2 & P2).
  exists m2. split; [done |]. split; [by auto |]. intros Hi Hx. destruct (P1 Hi Hx); naive_solver.
Qed.

Lemma advances_same c c' :
  Con.closing c' = Con.closing c → Con.mail c' = Con.mail c → Con.pendingReqs c' = Con.pendingReqs c →
  advances None c c'.
Proof.
  intros E1 E2 E3. split; [by rewrite E1 | unfold errorsClosed; by rewrite E1, E2 |]. intros i m Em. exists m. unfold pendingIds.
  rewrite E1, E2, E3. by auto.
Qed.

Lemma advances_view c c' : view c' = view c → advances None c c'.
Proof. unfold view. intros [=]. by apply advances_same. Qed.

Lemma advances_remove p c : advances (Some p) c (Con.removePending p c).
Proof.
  split; [done | done |]. intros i m Em. exists m. split_and!; [done | done |]. intros Hi Hne. left.
  unfold pendingIds in *. cbn [Con.removePending Con.set_pendingReqs Con.pendingReqs].
  induction (Con.pendingReqs c) as [|q ps IH]; [done |]. simpl in *.
  destruct (Nat.eqb_spec (pr_id q) p) as [E | E]; set_solver.
Qed.

(** The excepted request is served in the end. *)
Lemma advances_settle p c c' :
  advances (Some p) c c' → (∀ m, Con.mail c' !! p = Some m → served (Con.closing c') m) → advances None c c'.
Proof.
  intros [A E B] Hs. split; [done | done |]. intros i m Em. destruct (B i m Em) as (m' & Em' & K & P).
  exists m'. split_and!; [done | done |]. intros Hi _.
  destruct (decide (i = p)) as [-> | Hne]; [right; by apply Hs | apply P; [done | congruence]].
Qed.

(** A message or a cancellation only adds to a mailbox. *)
Definition adds (g : mailbox → mailbox) : Prop := ∀ cl m, served cl m → served cl (g m).

Lemma postResponse_adds r : adds (postResponse r).
Proof. intros cl [[r'|] e b]; unfold served, is_Some; simpl; naive_solver. Qed.
Lemma postErr_adds e : adds (postErr e).
Proof. intros cl [r [e'|] b]; unfold served, is_Some; simpl; naive_solver. Qed.
Lemma cancel_adds : adds (λ m, mkMail (mb_response m) (mb_err m) true).
Proof. intros cl m _. right. by left. Qed.

Lemma advances_onMail g i c :
  adds g → (∀ m, mb_err (g m) = mb_err m) ∨ Con.closing c ≠ 0 → advances None c (onMail i g c).
Proof.
  intros Hg Hn. split; [done | |].
  { intros He j m. cbn [onMail Con.set_mail Con.mail Con.closing]. destruct Hn as [Hn | ?]; [| done].
    intros Hj. apply lookup_alter_Some in Hj as [(-> & m0 & E0 & ->) | [_ Ej]]; [rewrite Hn; by eapply He | by eapply He]. } intros j m Em. cbn [onMail Con.set_mail Con.mail].
  destruct (decide (j = i)) as [-> | Hne].
  - rewrite lookup_alter_eq, Em. exists (g m). split_and!; [done | apply Hg | by left].
  - rewrite lookup_alter_ne by congruence. exists m. split_and!; [done | done | by left].
Qed.

(** [closeConn] wakes every pending caller. *)
Lemma failPending_mail e ps m i b :
  m !! i = Some b → ∃ b', Con.failPending e ps m !! i = Some b' ∧
    (∀ cl, served cl b → served cl b') ∧ (is_Some (mb_err b) → is_Some (mb_err b')) ∧
    (i ∈ pr_id <$> ps → is_Some (mb_err b')).
Proof.
  unfold Con.failPending. revert m b. induction ps as [|p ps IH]; intros m b Em.
  { exists b. split_and!; try done. intros Hi. by apply elem_of_nil in Hi. }
  simpl. destruct (decide (i = pr_id p)) as [-> | Hne].
  - destruct (IH (alter (postErr e) (pr_id p) m) (postErr e b)) as (b' & Eb & Hk & He & Hp).
    { by rewrite lookup_alter_eq, Em. }
    assert (is_Some (mb_err (postErr e b))) as Hs by (destruct b as [r [e'|] k]; by eexists).
    exists b'. split_and!; [exact Eb | | by auto | by auto].
    intros cl Hcl. by apply Hk, postErr_adds.
  - destruct (IH (alter (postErr e) (pr_id p) m) b) as (b' & Eb & Hk & He & Hp).
    { by rewrite lookup_alter_ne by congruence. }
    exists b'. split_and!; [exact Eb | done | done |]. intros Hi. apply Hp. set_solver.
Qed.

Lemma served_closed cl cl' m : cl' ≠ 0 → served cl m → served cl' m.
Proof. unfold served. naive_solver. Qed.

Lemma advances_close c : advances None c (Con.closeConn c).
Proof.
  split; [intros _; apply closeConn_closing | intros _ i m _ _; apply closeConn_closing |]. intros i m Em.
  pose proof (closeConn_closing c) as Hc. unfold Con.closeConn in *. cbv zeta in *.
  destruct (negb (Con.closing c =? 0)); [by exists m; auto |].
  match goal with |- context [Con.failPending ?e _ _] =>
    destruct (failPending_mail e (Con.pendingReqs c) (Con.mail c) i m Em) as (m' & Em' & Hk & _ & Hp) end.
  exists m'. split; [exact Em' |]. split.
  - intros Hs. apply Hk. by eapply served_closed.
  - intros Hi _. right. right. right. split; [by apply Hp | exact Hc].
Qed.

Lemma advances_begin c : advances None c (closeBegin c).
Proof.
  unfold closeBegin. destruct (Z.eqb_spec (Con.closing c) 0) as [E | E]; cbn [negb]; [| by apply advances_same].
  split; [done | done |]. intros i m Em. exists m. split; [exact Em |]. split; [by apply served_closed | by left].
Qed.

Lemma advances_complete s : advances None (pp_conn s) (pp_conn (completeClose s)).
Proof.
  unfold completeClose. destruct (halfClosed (pp_conn s)) eqn:E; [| by apply advances_same].
  apply andb_true_iff in E as [Hc%negb_true_iff%Z.eqb_neq _].
  split; [done | intros _ j m' _ _; exact Hc |]. intros i m Em. unfold closeEnd.
  match goal with |- context [Con.failPending ?e _ _] =>
    destruct (failPending_mail e (Con.pendingReqs (pp_conn s)) (Con.mail (pp_conn s)) i m Em) as (m' & Em' & Hk & _ & Hp) end.
  exists m'. split; [exact Em' |]. split; [apply Hk |]. intros Hi _. right. right. right. split; [by apply Hp | exact Hc].
Qed.

#[export] Hint Resolve advances_close advances_remove postResponse_adds postErr_adds cancel_adds : burst.

(** ** The reader's answer to a request *)

Lemma wasCancelled_inv i c :
  wasCancelled i c = true → ∃ m, Con.mail c !! i = Some m ∧ mb_cancelled m = true.
Proof. unfold wasCancelled. destruct (Con.mail c !! i) as [m|]; [| done]. by exists m. Qed.

Lemma deliver_served p resp c m :
  Con.mail (deliver p resp c) !! pr_id p = Some m → served (Con.closing (deliver p resp c)) m.
Proof.
  unfold deliver. destruct (wasCancelled (pr_id p) c) eqn:E.
  - apply wasCancelled_inv in E as (m0 & E0 & Hc). rewrite E0. intros [= <-]. right. by left.
  - cbn [onMail Con.set_mail Con.mail]. rewrite lookup_alter_eq.
    destruct (Con.mail c !! pr_id p) as [[[r|] e b]|]; [| | done]; intros [= <-]; left; by eexists.
Qed.

Lemma advances_deliver p resp c c1 :
  view c1 = view (Con.removePending (pr_id p) c) → advances None c (deliver p resp c1).
Proof.
  intros Hv. apply (advances_settle (pr_id p)); [| apply deliver_served].
  eapply advances_trans; [apply advances_remove |].
  eapply advances_trans; [apply advances_view, Hv |].
  unfold deliver. destruct (wasCancelled _ _); [by apply advances_same |].
  apply advances_onMail; [auto with burst | by left].
Qed.

(** A failed read closes the connection and tells the caller. *)
Lemma advances_fail p e c c1 :
  view c1 = view (Con.removePending (pr_id p) c) →
  advances None c (if wasCancelled (pr_id p) c then Con.closeConn c1
                   else onMail (pr_id p) (postErr e) (Con.closeConn c1)).
Proof.
  intros Hv.
  assert (advances (Some (pr_id p)) c (Con.closeConn c1)) as Ha.
  { eapply advances_trans; [apply advances_remove |].
    eapply advances_trans; [apply advances_view, Hv | apply advances_close]. }
  destruct (wasCancelled (pr_id p) c) eqn:E.
  - apply (advances_settle (pr_id p)); [done |]. intros m Em.
    apply wasCancelled_inv in E as (m0 & E0 & Hc). destruct (ad_mail _ _ _ Ha _ _ E0) as (m' & Em' & Hk & _).
    assert (m = m') as -> by congruence. apply Hk. right. by left.
  - apply (advances_settle (pr_id p)); [eapply advances_trans; [exact Ha |] |].
    { apply advances_onMail; [auto with burst | right; apply closeConn_closing]. }
    intros m. cbn [onMail Con.set_mail Con.mail Con.closing]. rewrite lookup_alter_eq.
    pose proof (closeConn_closing c1) as Hc.
    destruct (Con.mail (Con.closeConn c1) !! pr_id p) as [[r [e'|] b]|]; [| | done];
      intros [= <-]; right; right; (split; [by eexists | exact Hc]).
Qed.

(** ** The invariant *)

Record linv (s : pipe) (order : list nat) : Prop := {
  li_reader : pp_reader s = None → order = [];
  li_attended : attended order (pp_conn s);
  li_errors : errorsClosed (pp_conn s);
  li_signal r : pp_reader s = Some r → rr_pc r = Waiting → Con.pendingReqs (pp_conn s) ≠ [] → pp_signal s = true
}.

Lemma linv_advance s order c' r' g :
  linv s order → advances None (pp_conn s) c' →
  (rr_pc r' = Waiting → Con.pendingReqs c' ≠ [] → g = true) →
  linv (mkPipe c' (Some r') g) order.
Proof.
  intros [_ Ha He _] Hadv Hs. split; [done | by eapply advances_attended | by apply Hadv |].
  by intros r [= ->].
Qed.

(** The same reader over a connection that has moved on. *)
Lemma linv_conn s order c' :
  linv s order → advances None (pp_conn s) c' →
  (Con.pendingReqs c' ≠ [] → Con.pendingReqs (pp_conn s) ≠ []) →
  linv (mkPipe c' (pp_reader s) (pp_signal s)) order.
Proof.
  intros [Hr Ha He Hs] Hadv Hp. split; [done | by eapply advances_attended | by apply Hadv |].
  intros r Er Ew Hne. by eapply Hs; auto.
Qed.

Section progress.

Variable gzip : bytes → error + bytes.
Variable gunzip : bytes → gzipResult.
Variables (anss : list answer) (tail : bytes) (f : error).
Variables (maxResp : Z) (cap : nat) (mayBreak : bool).

Local Abbreviation pinv := (pinv anss tail maxResp cap mayBreak).
Local Abbreviation pstep := (pstep gzip gunzip anss maxResp cap mayBreak).

Lemma linv_finish now s order k r p o resp :
  pp_reader s = Some r → rr_pc r = Finished p o resp → pinv s order k → linv s order →
  linv (finish now p o resp r s) order.
Proof.
  intros Er Epc Hinv Hl. destruct Hinv as [_ _ _ _ H5 _ _]. rewrite Er in H5.
  destruct H5 as [[_ Hat] _]. rewrite Epc in Hat.
  assert (∀ c1, view c1 = view (Con.removePending (pr_id p) (pp_conn s)) →
    linv (if isConnectionClose resp
          then mkPipe (Con.closeConn (deliver p resp c1)) (Some (setPc Exited r)) (pp_signal s)
          else mkPipe (deliver p resp c1) (Some (setPc Scanning r)) (pp_signal s)) order) as HgoOn.
  { intros c1 Hv. apply (advances_deliver p resp) in Hv.
    case_if; (eapply linv_advance; [done | | done]); [| done].
    eapply advances_trans; [exact Hv | apply advances_close]. }
  destruct Hat as [_ [(a & _ & _ & _ & [-> | (e & -> & Hst)]) | (e & -> & Hst)]]; unfold finish; cbv zeta.
  - apply HgoOn. rewrite view_bytesRead.
    destruct (0 <? pr_sentAt p); rewrite ?view_recordSuccess, view_updateTimeCache, view_addReqs; done.
  - rewrite (proj2 (Z.ltb_lt _ _)) by done. apply HgoOn. by rewrite view_updateTimeCache, view_addReqs.
  - rewrite (proj2 (Z.ltb_ge _ _)) by done. eapply linv_advance; [done | | done].
    apply advances_fail. by rewrite view_recordError.
Qed.

Lemma linv_runStep now s s' order k :
  runStep gunzip now s = Some s' → pinv s order k → linv s order → linv s' order.
Proof.
  unfold runStep. destruct (pp_reader s) as [r|] eqn:Er; [| done]. intros E Hinv Hl.
  assert (∀ r' g, rr_pc r' ≠ Waiting → linv (mkPipe (pp_conn s) (Some r') g) order) as Hmove.
  { intros r' g Hw. eapply linv_advance; [done | by apply advances_same | done]. }
  destruct (rr_pc r) eqn:Epc; try done.
  - destruct (pp_signal s); [| done]. injection E as <-. by apply Hmove.
  - injection E as <-. unfold pick, setReader.
    destruct (Con.pendingReqs (pp_conn s)) as [|p ps] eqn:Ep.
    { eapply linv_advance; [done | by apply advances_same | by rewrite Ep]. }
    destruct (Z.eqb_spec (Con.closing (pp_conn s)) 0) as [Ec | Ec]; cbn [negb].
    + destruct (queued_head anss maxResp cap k order _ p ps (pinv_open _ _ _ _ _ _ _ _ Hinv Ec) Ep) as (_ & a & _ & r0 & -> & _).
      by apply Hmove.
    + by apply Hmove.
  - injection E as <-. unfold readOne, setReader.
    destruct (readResponseBuffered _ _ _ _ _) as [o [br resp']]. by apply Hmove.
  - injection E as <-. by eapply linv_finish.
Qed.

Lemma submit_attended env i req req' resp n body comp s s' order :
  i ∉ order → linv s order → (∃ r, pp_reader s = Some r) →
  writeAndEnqueue env i req' resp n body comp s = (Ret tt, s') → Req.Method req' = Req.Method req →
  linv s' (order ++ [i]).
Proof.
  intros Hi [Hr Ha He Hs] [r Er] E _. unfold writeAndEnqueue in E.
  destruct (connWriteRequest _ _ _ _ _ _ _) as [[] n']; try done. injection E as <-.
  cbn [updPipe pp_conn pp_reader]. rewrite Er. split; [done | | | done].
  2: { intros j m Hj. cbn in Hj. apply lookup_insert_Some in Hj as [[_ <-] | [_ Hj]]; [by intros [] | by eapply He]. }
  intros j Hj. unfold pendingIds.
  cbn [pp_conn Con.set_pendingReqs Con.set_mail Con.set_bytesWritten Con.set_conn addActive Con.set_activeReqs
    Con.mail Con.pendingReqs Con.closing].
  destruct (decide (j = i)) as [-> | Hne].
  - exists emptyMail. rewrite lookup_insert_eq. split; [done |]. left.
    rewrite fmap_app. apply elem_of_app. right. by apply list_elem_of_singleton.
  - rewrite lookup_insert_ne by congruence. destruct (Ha j) as (m & Em & Hm).
    { apply elem_of_app in Hj as [? | Hj]; [done |]. by apply list_elem_of_singleton in Hj. }
    exists m. split; [done |]. destruct Hm as [Hm | Hm]; [left | by right].
    rewrite fmap_app. apply elem_of_app. by left.
Qed.

Lemma linv_started s order k :
  pinv s order k → Con.closing (pp_conn s) = 0 → linv s order → linv (started s) order.
Proof.
  intros [_ _ _ H4 H5 H6 _] Hc Hl. specialize (H6 Hc). unfold started. rewrite H6. cbn [Z.eqb].
  destruct (pp_reader s) as [r|] eqn:Er.
  - destruct H5 as [_ H5]. by rewrite (H5 Hc).
  - destruct H5 as [-> H5]. destruct (H5 Hc) as (-> & Hr & n & Hn & _).
    rewrite Hr. unfold startResponseReader. rewrite H6, Hc, Hr, Hn. cbn [Z.eqb negb orb andb].
    eapply linv_advance; [done | by apply advances_same |]. intros _ Hp. destruct Hp.
    rewrite H6 in H4. destruct H4 as [Hq _]. cbn [Con.set_responseReader Con.pendingReqs].
    by destruct (Con.pendingReqs (pp_conn s)).
Qed.

Lemma linv_submit env i req resp s s' order k :
  i ∉ order → submit gzip env i req resp s = (Ret tt, s') → pinv s order k → linv s order →
  linv s' (order ++ [i]).
Proof.
  intros Hi E Hinv Hl. apply submit_inv in E; [| by apply Hinv].
  destruct E as [[_ ?] | (req' & n & body & comp & Hc & Hn & Hm & E)]; [done |].
  destruct (pinv_started anss tail maxResp cap mayBreak s order k Hinv Hc) as (_ & Hr & _).
  eapply submit_attended; [done | by eapply linv_started | done | exact E | exact Hm].
Qed.

Lemma closeConn_pending_sub c : Con.pendingReqs (Con.closeConn c) ≠ [] → Con.pendingReqs c ≠ [].
Proof. unfold Con.closeConn. by case_if. Qed.

Lemma linv_refused env i req resp s s' e order k :
  submit gzip env i req resp s = (Fail e, s') → pinv s order k → linv s order → linv s' order.
Proof.
  intros E Hinv Hl. apply submit_inv in E; [| by apply Hinv].
  destruct E as [[-> _] | (req' & n & body & comp & Hc & Hn & Hm & E)]; [done |].
  apply (linv_started s order k Hinv Hc) in Hl.
  unfold writeAndEnqueue in E. destruct (connWriteRequest _ _ _ _ _ _ _) as [[] n']; try done.
  injection E as _ <-. apply (linv_conn (started s)); [done | | intros Hp; by apply closeConn_pending_sub in Hp].
  eapply advances_trans; [| apply advances_close]. by apply advances_same.
Qed.

Lemma linv_step s order s' order' k :
  pstep (s, order) (s', order') → pinv s order k → linv s order → linv s' order'.
Proof.
  intros Hstep Hinv Hl. inversion Hstep; subst.
  - by eapply linv_submit.
  - by eapply linv_refused.
  - eapply linv_conn; [done | apply advances_onMail; [apply cancel_adds | by left] | done].
  - eapply linv_conn; [done | apply advances_begin | unfold closeBegin; simpl; by case_if].
  - assert (completeClose s = mkPipe (pp_conn (completeClose s)) (pp_reader s) (pp_signal s)) as ->.
    { unfold completeClose. case_if; [done | by destruct s]. }
    apply linv_conn; [done | apply advances_complete |]. unfold completeClose. by case_if.
  - by eapply linv_runStep.
  - match goal with H : stopReader _ = _ |- _ => unfold stopReader in H; rename H into E end.
    destruct (pp_reader s) as [[br cp []]|]; try done. case_if_in E; [done |]. injection E as <-.
    eapply linv_advance; [done | by apply advances_same | done].
  - unfold breakOff. destruct (pp_reader s) as [r|] eqn:Er.
    + eapply linv_advance; [done | by apply advances_same |]. cbn [rr_pc]. by apply (li_signal _ _ Hl).
    + unfold updPipe. rewrite Er, <- Er. eapply linv_conn; [done | by apply advances_same | done].
Qed.

Lemma linv_reachable s0 s order :
  fresh anss tail f maxResp cap s0 → rtc pstep (s0, []) (s, order) → ∃ k, pinv s order k ∧ linv s order.
Proof.
  intros Hf Hr. remember (s0, []) as x eqn:Ex. remember (s, order) as y eqn:Ey.
  assert (∃ k, pinv x.1 x.2 k ∧ linv x.1 x.2) as Hx.
  { exists 0%nat. subst x. split; [by eapply pinv_fresh |].
    destruct Hf as (_ & _ & _ & _ & H5 & Hf). split; [done | | | simpl; congruence].
    - intros i Hi. by apply elem_of_nil in Hi.
    - destruct Hf as (_ & _ & _ & H9 & _). intros i m. simpl. by rewrite H9, lookup_empty. }
  clear Ex. assert (∃ k, pinv y.1 y.2 k ∧ linv y.1 y.2) as Hy; [| by subst y].
  clear Ey. induction Hr as [x | [s1 o1] [s2 o2] z Hstep _ IH]; [done |].
  apply IH. destruct Hx as (k & Hk & Hl). destruct (pinv_step _ _ _ _ _ _ _ _ _ _ _ _ Hstep Hk) as [k' Hk'].
  exists k'. split; [done | by eapply linv_step].
Qed.

(** ** The reader runs dry *)

(** Three steps answer a pending request, and a token in [pendingSignal] costs one
    more look at the queue. *)
Definition remaining (s : pipe) : nat :=
  let todo := length (Con.pendingReqs (pp_conn s)) in
  let token := if pp_signal s then 2%nat else 0%nat in
  match rr_pc <$> pp_reader s with
  | Some Waiting => if pp_signal s then 2 + 3 * todo else 0
  | Some Scanning => 3 * todo + 1 + token
  | Some (Reading _ _) => 3 * (todo - 1) + 3 + token
  | Some (Finished _ _ _) => 3 * (todo - 1) + 2 + token
  | Some Exited | Some Crashed | None => 0
  end%nat.

Lemma remaining_bound s : (remaining s ≤ 3 * length (Con.pendingReqs (pp_conn s)) + 5)%nat.
Proof.
  unfold remaining. destruct (pp_reader s) as [r|]; cbn; [| lia].
  destruct (rr_pc r), (pp_signal s); lia.
Qed.

Lemma finish_remaining now s order k r p o resp :
  pp_reader s = Some r → rr_pc r = Finished p o resp → pinv s order k →
  (remaining (finish now p o resp r s) < remaining s)%nat.
Proof.
  intros Er Epc Hinv. pose proof Hinv as [_ _ _ H4 H5 _ _]. rewrite Er in H5.
  destruct H5 as [[_ Hat] _]. rewrite Epc in Hat. destruct Hat as [Hk Hat].
  assert (length (Con.removeFirst (pr_id p) (Con.pendingReqs (pp_conn s)))
          = length (Con.pendingReqs (pp_conn s)) - 1)%nat as Hlen.
  { destruct (Con.readerStopped (pp_conn s) =? 0); [| by rewrite H4]. destruct H4 as [Hq _].
    rewrite (drop_S order _ k Hk) in Hq.
    destruct (Con.pendingReqs (pp_conn s)) as [|p0 ps]; [done |]. injection Hq as Hid _.
    rewrite <- Hid, removeFirst_head. simpl. lia. }
  unfold remaining at 2. rewrite Er. cbn [fmap option_fmap option_map]. rewrite Epc.
  assert (∀ c1, view c1 = view (Con.removePending (pr_id p) (pp_conn s)) →
    (remaining (if isConnectionClose resp
                then mkPipe (Con.closeConn (deliver p resp c1)) (Some (setPc Exited r)) (pp_signal s)
                else mkPipe (deliver p resp c1) (Some (setPc Scanning r)) (pp_signal s))
     < 3 * (length (Con.pendingReqs (pp_conn s)) - 1) + 2 + (if pp_signal s then 2 else 0))%nat) as HgoOn.
  { intros c1 Hv. unfold remaining.
    case_if; cbn [pp_reader fmap option_fmap option_map setPc rr_pc pp_signal pp_conn]; [lia |].
    assert (Con.pendingReqs (deliver p resp c1) = Con.removeFirst (pr_id p) (Con.pendingReqs (pp_conn s))) as ->.
    { unfold view in Hv. injection Hv as _ _ _ _ Hv. unfold deliver. destruct (wasCancelled _ _); exact Hv. }
    rewrite Hlen. lia. }
  destruct Hat as [(a & _ & _ & _ & [-> | (e & -> & Hst)]) | (e & -> & Hst)]; unfold finish; cbv zeta.
  - apply HgoOn. rewrite view_bytesRead.
    destruct (0 <? pr_sentAt p); rewrite ?view_recordSuccess, view_updateTimeCache, view_addReqs; done.
  - rewrite (proj2 (Z.ltb_lt _ _)) by done. apply HgoOn. by rewrite view_updateTimeCache, view_addReqs.
  - rewrite (proj2 (Z.ltb_ge _ _)) by done. unfold remaining.
    cbn [pp_reader fmap option_fmap option_map setPc rr_pc]. lia.
Qed.

Lemma runStep_remaining now s s' order k :
  runStep gunzip now s = Some s' → pinv s order k → (remaining s' < remaining s)%nat.
Proof.
  unfold runStep. destruct (pp_reader s) as [r|] eqn:Er; [| done]. intros E Hinv.
  destruct (rr_pc r) eqn:Epc; try done.
  4: { injection E as <-. by eapply finish_remaining. }
  all: unfold remaining at 2; rewrite Er; cbn [fmap option_fmap option_map]; rewrite Epc.
  - destruct (pp_signal s); [| done]. injection E as <-. cbn. lia.
  - injection E as <-. unfold pick, setReader.
    destruct (Con.pendingReqs (pp_conn s)) as [|p ps] eqn:Ep.
    { unfold remaining. cbn. rewrite Ep. cbn. destruct (pp_signal s); lia. }
    destruct (Z.eqb_spec (Con.closing (pp_conn s)) 0) as [Ec | Ec]; cbn [negb].
    + destruct (queued_head anss maxResp cap k order _ p ps (pinv_open _ _ _ _ _ _ _ _ Hinv Ec) Ep) as (_ & a & _ & r0 & -> & _).
      unfold remaining. cbn. rewrite Ep. cbn. destruct (pp_signal s); lia.
    + unfold remaining. cbn. destruct (pp_signal s); lia.
  - injection E as <-. unfold readOne, setReader.
    destruct (readResponseBuffered _ _ _ _ _) as [o [br resp']]. unfold remaining. cbn. lia.
Qed.

End progress.

Lemma drain_quiet (gzip : bytes → error + bytes) gunzip anss tail maxResp cap mayBreak clock n s order k :
  pinv anss tail maxResp cap mayBreak s order k → linv s order → (remaining s ≤ n)%nat →
  let s' := drain gunzip clock n s in
  (∀ now, runStep gunzip now s' = None) ∧ (∃ k', pinv anss tail maxResp cap mayBreak s' order k') ∧ linv s' order.
Proof.
  revert s k. induction n as [|n IH]; intros s k Hinv Hl Hn; simpl.
  - split; [| by eauto]. intros now. destruct (runStep gunzip now s) eqn:E; [| done].
    eapply runStep_remaining in E; [lia | exact Hinv].
  - destruct (runStep gunzip (clock n) s) as [s1|] eqn:E.
    + destruct (pinv_step gzip gunzip anss tail maxResp cap mayBreak s order s1 order k) as [k1 Hk1]; [| done |].
      { by eapply ps_run. }
      apply (IH s1 k1 Hk1); [by eapply linv_runStep |].
      eapply runStep_remaining in E; [lia | exact Hinv].
    + split; [| by eauto]. intros now. unfold runStep in *. destruct (pp_reader s) as [r|]; [| done].
      destruct (rr_pc r); try discriminate E; try reflexivity. by destruct (pp_signal s).
Qed.

(** The rest of [closeConn] does not move the reader. *)
Lemma completeClose_quiet gunzip now s : runStep gunzip now s = None → runStep gunzip now (completeClose s) = None.
Proof.
  unfold completeClose. case_if; [| done]. unfold runStep, updPipe. cbn [pp_reader pp_signal].
  destruct (pp_reader s) as [r|]; [| done]. destruct (rr_pc r); try done. by destruct (pp_signal s).
Qed.

(** Where the reader has nothing to do and no [closeConn] is half done, nothing is
    pending. *)
Lemma quiet_nothing_pending gunzip anss tail maxResp cap mayBreak now s order k :
  pinv anss tail maxResp cap mayBreak s order k → linv s order → runStep gunzip now s = None →
  order = [] ∨ Con.pendingReqs (pp_conn (completeClose s)) = [].
Proof.
  intros Hinv [Hr _ _ Hs] E. unfold completeClose, halfClosed.
  destruct (negb (Con.closing (pp_conn s) =? 0) && _) eqn:Eh; [by right |].
  unfold runStep in E. destruct (pp_reader s) as [r|] eqn:Er; [| left; by apply Hr].
  right. destruct Hinv as [_ _ _ H4 H5 _ _]. rewrite Er in H5. destruct H5 as [[_ Hat] _].
  destruct (rr_pc r) eqn:Epc; try done.
  - destruct (Con.pendingReqs (pp_conn s)) eqn:Ep; [done |].
    rewrite (Hs r eq_refl Epc) in E; [done | congruence].
  - rewrite (proj2 (Z.eqb_neq _ _)) in Eh by done. simpl in Eh. by rewrite Eh in H4.
Qed.

(** C5: No pipelined caller waits forever, within one network connection.  On the terms of
    C3, whatever interleaving of submissions, reader steps, cancellations, refusals, breaks
    and the two halves of [closeConn] led to the present state, the reader goroutine alone
    comes to rest within three of its steps per pending request and five more; once a
    [closeConn] that was begun is completed too, the caller of every request that was
    written has its answer: the server's answer to that very request, or, of a connection
    that breaks, the front of it (which the code returns as a success) or an error; and an
    error only if the caller had given up or the connection was closed.  A reconnection
    between the halves of [closeConn] is not among the steps: there the code does strand a
    caller ([reconnect_strands_caller]). *)
Theorem pipelined_callers_answered gzip gunzip anss tail f maxResp cap mayBreak clock s0 s order i j :
  fresh anss tail f maxResp cap s0 →
  rtc (pstep gzip gunzip anss maxResp cap mayBreak) (s0, []) (s, order) →
  order !! j = Some i →
  let s' := completeClose (drain gunzip clock (3 * length (Con.pendingReqs (pp_conn s)) + 5) s) in
  (∀ now, runStep gunzip now s' = None) ∧ await i s' ≠ [] ∧
  (∀ r, inr r ∈ await i s' → ∃ a, anss !! j = Some a ∧ (gotAnswer a r ∨ (mayBreak = true ∧ gotCut a r))) ∧
  (∀ e, inl e ∈ await i s' → wasCancelled i (pp_conn s') = true ∨ Con.closing (pp_conn s') ≠ 0).
Proof.
  intros Hf Hr Hj s'.
  destruct (linv_reachable gzip gunzip anss tail f maxResp cap mayBreak s0 s order Hf Hr) as (k & Hk & Hl).
  destruct (drain_quiet gzip gunzip anss tail maxResp cap mayBreak clock _ s order k Hk Hl
    (remaining_bound s)) as (Hq & [k' Hk'] & Hl').
  set (d := drain gunzip clock _ s) in *.
  destruct (quiet_nothing_pending gunzip _ _ _ _ _ 0 d order k' Hk' Hl' (Hq 0)) as [-> | Hp]; [done |].
  fold s' in Hp. assert (pstep gzip gunzip anss maxResp cap mayBreak (d, order) (s', order)) as Hstep by apply ps_closeEnd.
  destruct (pinv_step gzip gunzip anss tail maxResp cap mayBreak d order s' order k' Hstep Hk') as [k2 Hk2].
  pose proof (linv_step gzip gunzip anss tail maxResp cap mayBreak d order s' order k' Hstep Hk' Hl') as Hl2.
  split; [intros now; by apply completeClose_quiet |].
  destruct (li_attended _ _ Hl2 i) as (m & Em & Hm); [by eapply list_elem_of_lookup_2 |].
  unfold pendingIds in Hm. rewrite Hp in Hm. destruct Hm as [Hm | Hm]; [by apply elem_of_nil in Hm |].
  split_and!.
  - unfold await. rewrite Em. destruct m as [[r|] [e|] []]; try done. by destruct Hm as [[? ?] | [? | [[? ?] _]]].
  - intros r (m' & Em' & Hm')%await_response.
    destruct (pi_mail _ _ _ _ _ _ _ _ Hk2 i _ r Em' Hm') as (j' & a & Hj' & _ & Ha & Hg).
    exists a. split; [| done]. by rewrite (NoDup_lookup order j j' i (pi_nodup _ _ _ _ _ _ _ _ Hk2) Hj Hj').
  - intros e. unfold await, wasCancelled. rewrite Em. destruct m as [ro [e'|] []]; simpl; try by left.
    + intros _. right. by eapply (li_errors _ _ Hl2 i).
    + rewrite app_nil_r. destruct ro; simpl; [by intros ?%list_elem_of_singleton | by intros ?%elem_of_nil].
Qed.

Lemma pipelined_callers_answered_witness :
  let s' := completeClose (drain (λ b, GzOK b) (λ _, 9) (3 * length (Con.pendingReqs (pp_conn exQueued)) + 5) exQueued) in
  ∃ r a, inr r ∈ await 11 s' ∧ exAnswers !! 1%nat = Some a ∧ gotAnswer a r.
Proof.
  intros s'.
  destruct (pipelined_callers_answered inr (λ b, GzOK b) exAnswers [] EEOF (10 * 1024 * 1024) 128 false (λ _, 9)
              exPipe exQueued [10%nat; 11%nat] 11 1 exPipe_fresh (exQueued_reachable false) eq_refl) as (_ & _ & H & _).
  fold s' in H. destruct (await 11 s') as [|[e | r] l] eqn:E; try (exfalso; revert E; vm_compute; discriminate).
  destruct (H r) as (a & Ha & [Hg | [? _]]); [by left | | done].
  exists r, a. split; [by left | split; [exact Ha | exact Hg]].
Defined.

(** *** A reconnection between the halves of [closeConn] *)

(** The connection is being closed; another goroutine finds it unhealthy and reconnects it
    ([ensureConnection] resets [closing] and [readerStopped]); then the second half of the
    close runs.  The connection is healthy and accepts requests, but [readerStopped] keeps
    every reader from starting: the next request is written, and nobody reads its answer. *)
Definition exReopened : pipe :=
  let net := mkNet (mkConn [(concat (wireOf <$> exAnswers), None)] EEOF) (mkWConn [] []) None in
  updPipe closeEnd (updPipe (λ c, (Con.ensureConnection (inr net) 7 (closeBegin c)).2) exPipe).

Lemma reconnect_strands_caller :
  let s := exSubmit 12 exReopened in
  (submit inr exSubmitEnv 12 exRequest (Some exObject) exReopened).1 = Ret tt ∧
  Con.IsHealthy (pp_conn s) = true ∧ pp_reader s = None ∧
  (∀ now, runStep (λ b, GzOK b) now s = None) ∧ await 12 s = [].
Proof. vm_compute. done. Qed.
