(* ===== verification/PipelineCall.v ===== *)
(** * PipelineCall: one call on a pipelined connection

    [doPipelined] for a caller that has the connection to itself: the request is
    written, the reader goroutine, started on the way or already waiting, reads the
    framed answer, and the call returns it.  The connection is then at rest again,
    at the byte where the answer ended, so that calls can follow one another. *)

From stdpp Require Import prelude list gmap.
From S2P Require Import Prelude Errors Config IO Scan Response Parser ParserTotal ParserFacts ParserSpec.
From S2P Require Import Request Writer WriterProps Compressor Connection ConnectionProps Pipeline PipelineProps.

(** Nothing is in flight, and [x] is what the server still sends, to the reader
    goroutine or, when none was started yet, on the connection. *)
Record atRest (c : Connection) (pp : piping) (f : error) (x : bytes) : Prop := {
  ar_open : Con.closing c = 0;
  ar_started : Con.readerStopped c = 0;
  ar_idle : Con.pendingReqs c = [];
  ar_reader : match pp.1 with
              | None => Con.responseReader c = false ∧
                  ∃ n, Con.conn c = Some n ∧ positioned f x (NewReaderSize (rd n) (Z.to_nat (Con.readBufSize c)))
              | Some r => Con.responseReader c = true ∧ rr_pc r = Waiting ∧
                  rr_cap r = Z.to_nat (Con.readBufSize c) ∧ positioned f x (rr_br r)
              end
}.

(** The reader goroutine waits at [br], and the signal is set. *)
Definition waitingReader (br : BufReader) (c : Connection) : option reader :=
  Some (mkReader br (Z.to_nat (Con.readBufSize c)) Waiting).

Lemma started_atRest c pp f x :
  atRest c pp f x →
  ∃ br c1, started (mkPipe c pp.1 pp.2) = mkPipe c1 (waitingReader br c) pp.2 ∧ positioned f x br ∧
    c1 = Con.set_responseReader true c.
Proof.
  intros [Ho Hs Hi Hr]. unfold started. cbn [pp_conn]. rewrite Hs. cbn [Z.eqb].
  destruct (pp.1) as [[br cp pc]|].
  - destruct Hr as (Hr & Hpc & Hcap & Hp). simpl in *. subst. rewrite Hr. cbn [negb andb].
    exists br, c. split; [done |]. split; [done |]. destruct c; simpl in *; by subst.
  - destruct Hr as (Hr & n & Hn & Hp). rewrite Hr. cbn [negb andb].
    unfold startResponseReader. cbn [pp_conn pp_signal]. rewrite Hs, Ho, Hr, Hn. cbn [Z.eqb negb orb].
    eexists _, _. split; [done |]. by split.
Qed.

Section call.

Variable gzip : bytes → error + bytes.
Variable gunzip : bytes → gzipResult.

(** *** Writing *)

(** The connection once request [i] is written and enqueued as [p]. *)
Definition enqueued (p : PendingRequest) (n : NetConn) (sentBytes : Z) (c : Connection) : Connection :=
  let c := addActive 1 c in
  let c := Con.set_conn (Some n) c in
  let c := Con.set_bytesWritten (i64 (Con.bytesWritten c + sentBytes)) c in
  let c := Con.set_mail (<[pr_id p := emptyMail]> (Con.mail c)) c in
  Con.set_pendingReqs (Con.pendingReqs c ++ [p]) c.

Lemma submit_accepts env c pp f x req p0 n :
  ready env c req n → atRest c pp f x →
  ∃ br p, positioned f x br ∧ pr_id p = 0%nat ∧ pr_resp p = Some p0 ∧ pr_method p = Req.Method req ∧
    submit gzip env 0 req (Some p0) (mkPipe c pp.1 pp.2) =
      (Ret tt, mkPipe (enqueued p (sentNet c req n) (len (Req.Body req)) (Con.set_responseReader true c))
                 (waitingReader br c) true).
Proof.
  intros [Hctx Hrot Hconn Hdl Hcalm Hplain Hproxy Hport Hbody Hfit] Hrest.
  destruct (started_atRest c pp f x Hrest) as (br & c1 & Est & Hpos & ->). destruct Hrest as [Ho Hst Hidle _].
  exists br, (mkPending 0 (Some p0) (Req.Method req)
                (Con.effectiveReadTimeout c req (env_remaining env)) (env_now env)).
  do 4 (split; [done |]). unfold submit. cbn [pp_conn]. rewrite Ho. cbn [Z.eqb negb]. rewrite rotate_skip by done.
  cbn [t_conn updPipe pp_conn pp_reader pp_signal]. rewrite prepareBody_plain by done.
  rewrite Hctx, Hconn, Ho. cbn [Z.eqb negb].
  change (updPipe (λ _, c) (mkPipe c pp.1 pp.2)) with (mkPipe c pp.1 pp.2).
  unfold started in Est. cbn [pp_conn] in Est. rewrite Est. unfold writeAndEnqueue. cbn [pp_conn].
  rewrite connWriteRequest_accepts by (done || apply Hplain).
  reflexivity.
Qed.

(** *** Reading *)

Lemma alter_known {A} (g : A → A) (m : gmap nat A) i a : m !! i = Some a → alter g i m = <[i := g a]> m.
Proof.
  intros E. apply map_eq. intros j. destruct (decide (i = j)) as [-> |].
  - by rewrite lookup_alter_eq, lookup_insert_eq, E.
  - by rewrite lookup_alter_ne, lookup_insert_ne.
Qed.

(** The hand-over to the only caller. *)
Lemma deliver_view p p' c c1 :
  view c1 = view (Con.removePending (pr_id p) c) → Con.pendingReqs c = [p] → Con.mail c !! pr_id p = Some emptyMail →
  view (deliver p p' c1)
  = view (Con.set_mail (<[pr_id p := mkMail (Some p') None false]> (Con.mail c)) (Con.set_pendingReqs [] c)).
Proof.
  unfold view. cbn [Con.removePending Con.set_pendingReqs Con.set_mail Con.config Con.maxRespSize Con.readBufSize
    Con.closing Con.pendingReqs Con.responseReader Con.readerStopped Con.conn Con.mail].
  intros [= E1 E2 E3 E4 E5 E6 E7 E8 E9] Hp Hm. rewrite Hp, removeFirst_head in E5.
  unfold deliver, wasCancelled. rewrite E9, Hm. cbn.
  rewrite (alter_known _ _ _ emptyMail) by (by rewrite E9). rewrite E1, E2, E3, E4, E5, E6, E7, E8, E9. done.
Qed.

Lemma drain_step clock n s s' :
  runStep gunzip (clock n) s = Some s' → drain gunzip clock (S n) s = drain gunzip clock n s'.
Proof. intros E. simpl. by rewrite E. Qed.

(** The reader serves the one pending request and waits again. *)
Lemma drain_one clock k c br p p0 f head status raw payload x :
  Con.closing c = 0 → Con.pendingReqs c = [p] → pr_resp p = Some p0 → Con.mail c !! pr_id p = Some emptyMail →
  goodHead head status → framed (Con.maxRespSize c) (Reset p0) (pr_method p) head status raw payload →
  plainHead head (Reset p0) → (length head ≤ Z.to_nat (Con.readBufSize c))%nat →
  isConnectionClose (parseHeaders head (Reset p0)) = false → positioned f (head ++ raw ++ x) br →
  ∃ c' br' p', drain gunzip clock (5 + k) (mkPipe c (waitingReader br c) true)
                 = mkPipe c' (waitingReader br' c) false ∧
    delivered head status payload (Reset p0) p' ∧ positioned f x br' ∧
    view c' = view (Con.set_mail (<[pr_id p := mkMail (Some p') None false]> (Con.mail c)) (Con.set_pendingReqs [] c)).
Proof.
  intros Ho Hpend Hresp Hmail Hg Hfr Hpl Hlen Hclose Hpos.
  destruct (readResponseBuffered_delivers gunzip (Z.to_nat (Con.readBufSize c)) (Con.maxRespSize c) (pr_method p)
    f br (Reset p0) head status raw payload x) as (br' & p' & E & Hdel & Hpos'); try done.
  assert (isConnectionClose p' = false) as Hclose'.
  { destruct Hdel as (_ & _ & _ & Hh & _). unfold isConnectionClose in *. rewrite Hh.
    cbn [parseHeaders Headers] in Hclose. by destruct (scanHeaders head). }
  unfold waitingReader. set (cap := Z.to_nat (Con.readBufSize c)) in *. change (5 + k)%nat with (S (S (S (S (S k))))).
  rewrite (drain_step _ _ _ (mkPipe c (Some (mkReader br cap Scanning)) false)) by done.
  rewrite (drain_step _ _ _ (mkPipe c (Some (mkReader br cap (Reading p (Reset p0)))) false)).
  2: { unfold runStep. cbn [pp_reader rr_pc]. unfold pick. cbn [pp_conn]. by rewrite Hpend, Ho, Hresp. }
  rewrite (drain_step _ _ _ (mkPipe c (Some (mkReader br' cap (Finished p (Ret tt) p'))) false)).
  2: { unfold runStep. cbn [pp_reader rr_pc]. unfold readOne. cbn [rr_cap rr_br pp_conn]. by rewrite E. }
  set (s4 := finish (clock (S k)) p (Ret tt) p' (mkReader br' cap (Finished p (Ret tt) p'))
               (mkPipe c (Some (mkReader br' cap (Finished p (Ret tt) p'))) false)).
  assert (∃ c', s4 = mkPipe c' (Some (mkReader br' cap Scanning)) false ∧
    view c' = view (Con.set_mail (<[pr_id p := mkMail (Some p') None false]> (Con.mail c)) (Con.set_pendingReqs [] c)))
    as (c' & E4 & Hv).
  { unfold s4, finish. cbn [pp_conn pp_signal]. rewrite Hclose'. cbv zeta. eexists. split; [done |].
    set (c1 := Con.set_bytesRead _ _).
    assert (view c1 = view (Con.removePending (pr_id p) c)) as Hv.
    { unfold c1. rewrite view_bytesRead.
      destruct (0 <? pr_sentAt p); rewrite ?view_recordSuccess, view_updateTimeCache, view_addReqs; done. }
    by apply deliver_view. }
  rewrite (drain_step _ _ _ s4) by done. rewrite E4.
  assert (Con.pendingReqs c' = []) as Hp0 by (unfold view in Hv; by injection Hv).
  rewrite (drain_step _ _ _ (mkPipe c' (Some (mkReader br' cap Waiting)) false)).
  2: { unfold runStep. cbn [pp_reader rr_pc]. unfold pick. cbn [pp_conn]. by rewrite Hp0. }
  exists c', br', p'. split_and!; [| done | done | done]. by destruct k.
Qed.

(** A call on a connection at rest returns its answer and leaves the connection at
    rest, at the byte behind the answer. *)
Lemma doPipelined_delivers env c pp f req p0 n head status raw payload x :
  ready env c req n → atRest c pp f (head ++ raw ++ x) → goodHead head status →
  framed (Con.maxRespSize c) (Reset p0) (Req.Method req) head status raw payload → plainHead head (Reset p0) →
  (length head ≤ Z.to_nat (Con.readBufSize c))%nat → isConnectionClose (parseHeaders head (Reset p0)) = false →
  ∃ c' p' pp', doPipelined gzip gunzip env (mkTrip c req (Some p0), pp) = (Ret tt, (mkTrip c' req (Some p'), pp')) ∧
    delivered head status payload (Reset p0) p' ∧ Con.conn c' = Some (sentNet c req n) ∧ atRest c' pp' f x.
Proof.
  intros Hready Hrest Hg Hfr Hpl Hlen Hclose.
  destruct (submit_accepts env c pp f (head ++ raw ++ x) req p0 n Hready Hrest)
    as (br & p & Hpos & Hid & Hpr & Hmeth & Esub).
  destruct Hrest as [Ho Hst Hidle _]. unfold doPipelined. destruct pp as [r0 sig]. cbn [t_conn t_req t_resp fst snd] in *.
  rewrite Esub. set (c1 := enqueued _ _ _ _).
  assert (Con.pendingReqs c1 = [p]) as Hp1 by (unfold c1, enqueued; simpl; by rewrite Hidle).
  cbn [pp_conn]. rewrite Hp1. change (3 * length [p] + 5)%nat with (5 + 3)%nat.
  destruct (drain_one (λ _, env_now env + env_elapsed env) 3 c1 br p p0 f head status raw payload x)
    as (c' & br' & p' & Ed & Hdel & Hpos' & Hv); try done.
  { unfold c1, enqueued. simpl. apply lookup_insert_eq. }
  { by rewrite Hmeth. }
  change (waitingReader br c) with (waitingReader br c1). rewrite Ed.
  unfold view in Hv. injection Hv as V1 V2 V3 V4 V5 V6 V7 V8 V9.
  unfold await. cbn [pp_conn]. rewrite V9, <- Hid. cbn [Con.set_mail Con.mail]. rewrite lookup_insert_eq. cbn.
  exists c', p', (waitingReader br' c1, false). split_and!; [done | done | by rewrite V8 |].
  split; [by rewrite V4 | by rewrite V7 | by rewrite V5 |]. cbn [fst]. unfold waitingReader.
  rewrite V6. split_and!; [done | done | by rewrite V3 | done].
Qed.

End call.
