(* ===== verification/Pool.v ===== *)
(** * Pool: the connections to each host (src/pool.go)

    Connections are shared objects: they live in a heap and the pools hold
    their names.  [HostPool.connections] is a pointer that [Stop] swaps for
    nil.  [createConnection] and [removeUnhealthyConnections] are given as machines
    with one step per atomic operation, a compare-and-swap with its successful
    attempt; run without interruption they are the functions the rest uses, and
    [PoolProps] interleaves their steps. *)

From stdpp Require Import prelude list gmap.
From S2P Require Import Prelude Errors Strconv Config Request Connection.

Abbreviation heap := (gmap nat Connection).

Record HostPool := mkHostPool {
  connections : option (list nat);
  hp_index : Z;
  maxIdle : Z;
  maxActive : Z;
  activeCount : Z;
  idleCount : Z;
  hp_host : bytes;
  dialHost : bytes;
  dialPort : Z;
  hp_tls : option tlsConfig
}.

Definition set_connections (v : option (list nat)) (h : HostPool) : HostPool :=
  mkHostPool v (hp_index h) (maxIdle h) (maxActive h) (activeCount h) (idleCount h) (hp_host h)
    (dialHost h) (dialPort h) (hp_tls h).
Definition set_index (v : Z) (h : HostPool) : HostPool :=
  mkHostPool (connections h) v (maxIdle h) (maxActive h) (activeCount h) (idleCount h) (hp_host h)
    (dialHost h) (dialPort h) (hp_tls h).
Definition add_active (d : Z) (h : HostPool) : HostPool :=
  mkHostPool (connections h) (hp_index h) (maxIdle h) (maxActive h) (i32 (activeCount h + d)) (idleCount h)
    (hp_host h) (dialHost h) (dialPort h) (hp_tls h).
Definition add_idle (d : Z) (h : HostPool) : HostPool :=
  mkHostPool (connections h) (hp_index h) (maxIdle h) (maxActive h) (activeCount h) (i32 (idleCount h + d))
    (hp_host h) (dialHost h) (dialPort h) (hp_tls h).

(** ** Looking at connections *)

Definition healthyAt (σ : heap) (i : nat) : bool := default false (Con.IsHealthy <$> σ !! i).
Definition acceptsAt (σ : heap) (i : nat) : bool := default false (Con.CanAcceptRequest <$> σ !! i).
Definition scoreAt (σ : heap) (i : nat) : Z := default 0 (Con.HealthScore <$> σ !! i).
Definition pipelinesAt (σ : heap) (i : nat) : bool :=
  default false ((λ c, Cfg.EnablePipelining (Con.config c)) <$> σ !! i).

Definition stopAll (cs : list nat) (σ : heap) : heap := foldl (λ σ i, alter Con.Stop i σ) σ cs.

(** ** HostPool *)

(** The loop over [*old]: what stays. *)
Definition survivors (unhealthy conns : list nat) : list nat :=
  filter (λ c, c ∉ unhealthy) conns.

(** [removeUnhealthyConnections(unhealthy)] between its atomic operations: the swap of the
    slice, the stopping of the connections, the two [Add]s. *)
Inductive removing :=
  | RSwap | RStop (removed : Z) | RCountActive (removed : Z) | RCountIdle (removed : Z) | RDone.

Definition removeStep (unhealthy : list nat) (g : removing) (h : HostPool) (σ : heap)
    : removing * (HostPool * heap) :=
  match g with
  | RSwap =>
      match unhealthy, connections h with
      | [], _ | _, None | _, Some [] => (RDone, (h, σ))
      | _, Some old =>
          let newConns := survivors unhealthy old in
          let removed := Z.of_nat (length old - length newConns) in
          if removed =? 0 then (RDone, (h, σ)) else (RStop removed, (set_connections (Some newConns) h, σ))
      end
  | RStop removed => (RCountActive removed, (h, stopAll unhealthy σ))
  | RCountActive removed => (RCountIdle removed, (add_active (- removed) h, σ))
  | RCountIdle removed => (RDone, (add_idle (- removed) h, σ))
  | RDone => (RDone, (h, σ))
  end.

Fixpoint removeRun (fuel : nat) (unhealthy : list nat) (g : removing) (h : HostPool) (σ : heap) : HostPool * heap :=
  match g, fuel with
  | RDone, _ | _, O => (h, σ)
  | _, S fuel' => let '(g, (h, σ)) := removeStep unhealthy g h σ in removeRun fuel' unhealthy g h σ
  end.

(** [removeUnhealthyConnections(unhealthy)], nothing coming between its four steps. *)
Definition removeUnhealthyConnections (unhealthy : list nat) (h : HostPool) (σ : heap) : HostPool * heap :=
  removeRun 4 unhealthy RSwap h σ.

(** [(start + i) % connCount] for [i] from [lo] to [hi - 1], in [uint32]. *)
Definition scanOrder (conns : list nat) (start : Z) (lo hi : nat) : list (nat * nat) :=
  (λ i, let idx := Z.to_nat (u32 (start + Z.of_nat i) `mod` Z.of_nat (length conns)) in
        (idx, default 0%nat (conns !! idx))) <$> seq lo (hi - lo).

(** What the first scan collects: the best candidate with its score and index,
    and the unhealthy connections. *)
Record scan := mkScan { sc_best : option (nat * Z * nat); sc_unhealthy : list nat }.

(** The first scan: the best accepting connection, stopping at a score of 100. *)
Fixpoint scanBest (σ : heap) (l : list (nat * nat)) (acc : scan) : scan :=
  match l with
  | [] => acc
  | (idx, c) :: t =>
      if negb (healthyAt σ c) then scanBest σ t (mkScan (sc_best acc) (sc_unhealthy acc ++ [c]))
      else if negb (acceptsAt σ c) then scanBest σ t acc
      else
        let score := scoreAt σ c in
        let best := match sc_best acc with
                    | None => Some (c, score, idx)
                    | Some (b, s, j) => if s <? score then Some (c, score, idx) else Some (b, s, j)
                    end in
        let acc := mkScan best (sc_unhealthy acc) in
        if score =? 100 then acc else scanBest σ t acc
  end.

(** The second scan: the first accepting connection. *)
Fixpoint scanFirst (σ : heap) (l : list (nat * nat)) (unhealthy : list nat) : option (nat * nat) * list nat :=
  match l with
  | [] => (None, unhealthy)
  | (idx, c) :: t =>
      if negb (healthyAt σ c) then scanFirst σ t (unhealthy ++ [c])
      else if acceptsAt σ c then (Some (c, idx), unhealthy)
      else scanFirst σ t unhealthy
  end.

(** The claim of a connection that is not pipelined. *)
Definition claim (c : nat) (σ : heap) : heap :=
  if pipelinesAt σ c then σ
  else alter (λ k, Con.set_poolClaimed true (Con.set_activeReqs 1 k)) c σ.

(** [hp.index.Store((idx + 1) % connCount)] *)
Definition nextIndex (idx : nat) (conns : list nat) (h : HostPool) : HostPool :=
  set_index (u32 (Z.of_nat idx + 1) `mod` Z.of_nat (length conns)) h.

(** [getIdleConnection()]; every turn but the last removes a connection. *)
Fixpoint getIdleConnection (fuel : nat) (h : HostPool) (σ : heap) : outcome error (option nat) * (HostPool * heap) :=
  match fuel with
  | O => (Hang, (h, σ))
  | S fuel' =>
      match connections h with
      | None | Some [] => (Ret None, (h, σ))
      | Some conns =>
          let n := length conns in
          let maxScan := Nat.min n 16 in
          let sc := scanBest σ (scanOrder conns (hp_index h) 0 maxScan) (mkScan None []) in
          let '(h1, σ1) := removeUnhealthyConnections (sc_unhealthy sc) h σ in
          match sc_best sc with
          | Some (best, _, idx) => (Ret (Some best), (nextIndex idx conns h1, claim best σ1))
          | None =>
              match sc_unhealthy sc with
              | _ :: _ => getIdleConnection fuel' h1 σ1
              | [] =>
                  if (maxScan <? n)%nat then
                    let '(found, unhealthy) := scanFirst σ1 (scanOrder conns (hp_index h) maxScan n) [] in
                    match found with
                    | Some (c, idx) =>
                        let '(h2, σ2) := removeUnhealthyConnections unhealthy (nextIndex idx conns h1) (claim c σ1) in
                        (Ret (Some c), (h2, σ2))
                    | None => (Ret None, removeUnhealthyConnections unhealthy h1 σ1)
                    end
                  else (Ret None, (h1, σ1))
              end
          end
      end
  end.

(** The scan of [getAnyConnection]: the first healthy connection and the unhealthy
    ones before it. *)
Fixpoint scanHealthy (σ : heap) (l : list (nat * nat)) (unhealthy : list nat) : option (nat * nat) * list nat :=
  match l with
  | [] => (None, unhealthy)
  | (idx, c) :: t =>
      if healthyAt σ c then (Some (c, idx), unhealthy) else scanHealthy σ t (unhealthy ++ [c])
  end.

(** [getAnyConnection()]; the first connection is looked at like the next ones. *)
Fixpoint getAnyConnection (fuel : nat) (h : HostPool) (σ : heap) : outcome error (option nat) * (HostPool * heap) :=
  match fuel with
  | O => (Hang, (h, σ))
  | S fuel' =>
      match connections h with
      | None | Some [] => (Ret None, (h, σ))
      | Some conns =>
          match scanHealthy σ (scanOrder conns (hp_index h) 0 (Nat.min (length conns) 8)) [] with
          | (Some (c, idx), unhealthy) =>
              (Ret (Some c), removeUnhealthyConnections unhealthy (nextIndex idx conns h) σ)
          | (None, unhealthy) =>
              let '(h1, σ1) := removeUnhealthyConnections unhealthy h σ in
              getAnyConnection fuel' h1 σ1
          end
      end
  end.

(** The compare-and-swap of [createConnection] that reserves a place. *)
Definition reserve (h : HostPool) : option HostPool :=
  if i32 (maxIdle h) <=? activeCount h then None else Some (add_active 1 h).

(** [createConnection()] between its atomic operations: the reservation, the dial, the
    release of the reservation, the swap that publishes the connection, and the [Add] to
    [idleCount]. *)
Inductive creating :=
  | CReserve | CDial | CRelease | CPublish (c : Connection) | CCountIdle | CDone (r : option nat).

(** [i] names the new object, [c0] is its initial state, [dial] what dialing yields. *)
Definition createStep (i : nat) (c0 : Connection) (dial : error + NetConn) (now : Z) (g : creating)
    (h : HostPool) (σ : heap) : creating * (HostPool * heap) :=
  match g with
  | CReserve =>
      match reserve h with
      | None => (CDone None, (h, σ))
      | Some h => (CDial, (h, σ))
      end
  | CDial =>
      let '(ok, c) := Con.ensureConnection dial now c0 in
      (if ok : bool then CPublish c else CRelease, (h, σ))
  | CRelease => (CDone None, (add_active (-1) h, σ))
  | CPublish c =>
      match connections h with
      | None => (CRelease, (h, σ))
      | Some old => (CCountIdle, (set_connections (Some (old ++ [i])) h, <[i := c]> σ))
      end
  | CCountIdle => (CDone (Some i), (add_idle 1 h, σ))
  | CDone r => (CDone r, (h, σ))
  end.

Fixpoint createRun (fuel : nat) (i : nat) (c0 : Connection) (dial : error + NetConn) (now : Z) (g : creating)
    (h : HostPool) (σ : heap) : option nat * (HostPool * heap) :=
  match g, fuel with
  | CDone r, _ => (r, (h, σ))
  | _, O => (None, (h, σ))
  | _, S fuel' => let '(g, (h, σ)) := createStep i c0 dial now g h σ in createRun fuel' i c0 dial now g h σ
  end.

(** [createConnection()], nothing coming between its four steps. *)
Definition createConnection (i : nat) (c0 : Connection) (dial : error + NetConn) (now : Z)
    (h : HostPool) (σ : heap) : option nat * (HostPool * heap) :=
  createRun 4 i c0 dial now CReserve h σ.

(** *** The two operations at one go *)

Lemma removeUnhealthyConnections_eq unhealthy h σ :
  removeUnhealthyConnections unhealthy h σ =
  match unhealthy, connections h with
  | [], _ | _, None | _, Some [] => (h, σ)
  | _, Some old =>
      let newConns := survivors unhealthy old in
      let removed := Z.of_nat (length old - length newConns) in
      if removed =? 0 then (h, σ)
      else (add_idle (- removed) (add_active (- removed) (set_connections (Some newConns) h)),
            stopAll unhealthy σ)
  end.
Proof.
  unfold removeUnhealthyConnections. cbn [removeRun removeStep].
  destruct unhealthy as [|u us]; [done |]. destruct (connections h) as [[|c cs]|]; [done | | done].
  cbv zeta. by case_if.
Qed.

Lemma createConnection_eq i c0 dial now h σ :
  createConnection i c0 dial now h σ =
  match reserve h with
  | None => (None, (h, σ))
  | Some h =>
      let '(ok, c) := Con.ensureConnection dial now c0 in
      if negb ok then (None, (add_active (-1) h, σ))
      else
        match connections h with
        | None => (None, (add_active (-1) h, σ))
        | Some old => (Some i, (add_idle 1 (set_connections (Some (old ++ [i])) h), <[i := c]> σ))
        end
  end.
Proof.
  unfold createConnection. cbn [createRun createStep]. destruct (reserve h) as [h1|]; [| done].
  cbn [createRun createStep]. destruct (Con.ensureConnection dial now c0) as [[] c]; cbn [negb]; [| done].
  cbn [createRun createStep]. by destruct (connections h1).
Qed.

(** ** parseHostPort *)

(** [strings.LastIndex(s, c)] for a single byte: the text before and after it. *)
Fixpoint cutLast (c : Z) (s : bytes) : option (bytes * bytes) :=
  match s with
  | [] => None
  | x :: t =>
      match cutLast c t with
      | Some (a, b) => Some (x :: a, b)
      | None => if x =? c then Some ([], t) else None
      end
  end.

(** [parseHostPort(key, defaultHost, defaultPort)] *)
Definition parseHostPort (key defaultHost : bytes) (defaultPort : Z) : bytes * Z :=
  match key with
  | [] => (defaultHost, defaultPort)
  | 91 :: t =>
      match cutLast 93 t with
      | None => (key, defaultPort)
      | Some (host, rest) =>
          match rest with
          | 58 :: p =>
              match Atoi p with
              | Some port => if 0 <? port then (host, port) else (host, defaultPort)
              | None => (host, defaultPort)
              end
          | _ => (host, defaultPort)
          end
      end
  | _ =>
      match cutLast 58 key with
      | None => (key, defaultPort)
      | Some (host, p) =>
          match Atoi p with
          | None => (host, defaultPort)
          | Some port => if port <=? 0 then (host, defaultPort) else (host, port)
          end
      end
  end.

(** ** Pool *)

Record Pool := mkPool {
  hostPools : gmap bytes HostPool;
  pl_config : Config;
  nextConnID : Z
}.

(** [hostPort[strings.Index(hostPort, "://")+3:]] *)
Fixpoint afterScheme (s : bytes) : option bytes :=
  match s with
  | [] => None
  | _ :: t => if bool_decide (take 3 s = str "://") then Some (drop 3 s) else afterScheme t
  end.

(** The TLS settings of a host pool: the client's own for its own host, a copy that
    verifies the host dialled otherwise.  The session caches are not modelled. *)
Definition hostTLS (cfg : Config) (dialHost : bytes) (useTLS : bool) : option tlsConfig :=
  if useTLS then
    let t := Cfg.BuildTLSConfig cfg in
    if Cfg.UseTLS cfg && bool_decide (Cfg.Host cfg = dialHost) then Some t
    else Some (mkTLS (MinVersion t) (MaxVersion t) (tlsInsecureSkipVerify t) (NextProtos t) dialHost)
  else None.

(** The pool [getHostPool] builds for a new key. *)
Definition newHostPool (cfg : Config) (key : bytes) (useTLS : bool) : HostPool :=
  let maxIdle := if Cfg.MaxIdleConnsPerHost cfg <=? 0
                 then (if Cfg.PoolSize cfg <=? 0 then 512 else Cfg.PoolSize cfg)
                 else Cfg.MaxIdleConnsPerHost cfg in
  let maxActive := if Cfg.PoolSize cfg <=? 0 then 512 else Cfg.PoolSize cfg in
  let hostPort := default key (afterScheme key) in
  let '(dialHost, dialPort) := parseHostPort hostPort (Cfg.Host cfg) (Cfg.Port cfg) in
  mkHostPool (Some []) 0 maxIdle maxActive 0 0 key dialHost dialPort (hostTLS cfg dialHost useTLS).

(** [getHostPool(key, useTLS)] *)
Definition getHostPool (key : bytes) (useTLS : bool) (p : Pool) : HostPool * Pool :=
  match hostPools p !! key with
  | Some hp => (hp, p)
  | None =>
      let hp := newHostPool (pl_config p) key useTLS in
      (hp, mkPool (<[key := hp]> (hostPools p)) (pl_config p) (nextConnID p))
  end.

(** [Stop()]: the connections of every host pool are stopped, the pools dropped. *)
Definition hostConns (hp : HostPool) : list nat := default [] (connections hp).
Definition stopPool (p : Pool) (σ : heap) : Pool * heap :=
  (mkPool ∅ (pl_config p) (nextConnID p),
   stopAll (concat (hostConns <$> (map_to_list (hostPools p)).*2)) σ).

(** [activeRequests()] *)
Definition activeAt (σ : heap) (i : nat) : Z := default 0 (Con.activeReqs <$> σ !! i).
Definition activeRequests (p : Pool) (σ : heap) : Z :=
  foldr (λ i n, activeAt σ i + n) 0 (concat (hostConns <$> (map_to_list (hostPools p)).*2)).

(** [evictIdleConnections()], on one host pool. *)
Definition idleTooLong (now threshold : Z) (σ : heap) (i : nat) : bool :=
  match σ !! i with
  | None => false
  | Some c => (Con.activeReqs c =? 0) && Con.IsHealthy c && (threshold <? i64 (now - Con.lastUsed c))
  end.
Definition evictIdle (now threshold : Z) (h : HostPool) (σ : heap) : HostPool * heap :=
  match connections h with
  | None => (h, σ)
  | Some conns => removeUnhealthyConnections (List.filter (idleTooLong now threshold σ) conns) h σ
  end.

(** [GetHealthyConnections()] *)
Definition GetHealthyConnections (p : Pool) (σ : heap) : nat :=
  length (List.filter (healthyAt σ) (concat (hostConns <$> (map_to_list (hostPools p)).*2))).

(** ** GetConnection *)

(** What one attempt of [GetConnection] meets: the name of the object it would
    create, its initial state, the result of dialing, the clock, and whether the
    dial took more than a millisecond. *)
Record dialAttempt := mkAttempt {
  at_id : nat; at_fresh : Connection; at_dial : error + NetConn; at_now : Z; at_slow : bool
}.

(** The loop of [GetConnection]: at most [maxAttempts] = 20 attempts. *)
Fixpoint getConnectionLoop (attempts : list dialAttempt) (h : HostPool) (σ : heap)
    : outcome error (option nat) * (HostPool * heap) :=
  match attempts with
  | [] => (Ret None, (h, σ))
  | a :: t =>
      match getIdleConnection (S (length (hostConns h))) h σ with
      | (Ret (Some c), s) => (Ret (Some c), s)
      | (Ret None, (h, σ)) =>
          match createConnection (at_id a) (at_fresh a) (at_dial a) (at_now a) h σ with
          | (Some c, s) => (Ret (Some c), s)
          | (None, (h, σ)) =>
              if at_slow a then (Ret None, (h, σ))
              else
                match getAnyConnection (S (length (hostConns h))) h σ with
                | (Ret (Some c), s) => (Ret (Some c), s)
                | (Ret None, (h, σ)) => getConnectionLoop t h σ
                | (o, s) => (o, s)
                end
          end
      | (o, s) => (o, s)
      end
  end.

Definition maxAttempts : nat := 20.
Definition GetConnection (attempts : list dialAttempt) (h : HostPool) (σ : heap)
    : outcome error (option nat) * (HostPool * heap) :=
  getConnectionLoop (take maxAttempts attempts) h σ.

(** [WarmUp(key, useTLS, n)] on the host pool: how many connections were made. *)
Fixpoint WarmUp (attempts : list dialAttempt) (h : HostPool) (σ : heap) : nat * (HostPool * heap) :=
  match attempts with
  | [] => (0%nat, (h, σ))
  | a :: t =>
      match createConnection (at_id a) (at_fresh a) (at_dial a) (at_now a) h σ with
      | (None, s) => (0%nat, s)
      | (Some _, (h, σ)) => let '(n, s) := WarmUp t h σ in (S n, s)
      end
  end.
