(* ===== verification/PoolProps.v ===== *)
(** * PoolProps: the pool's promises

    Capacity: however the atomic operations of goroutines that create and remove
    connections interleave, a host pool never has more than [maxIdle] connections
    open or being opened, and its counters are exact up to what those goroutines
    still owe them.  Selection: the connection
    [getIdleConnection] hands out is healthy and free, it is claimed for the
    caller when connections are not shared, and none is missed.  The key of a
    host pool is parsed back into the host and port it was built from. *)

From stdpp Require Import prelude list gmap.
From S2P Require Import Prelude Errors Strconv Config IO Request Writer WriterProps Connection ConnectionProps Pool.

(** ** Capacity under interleaving *)

(** A goroutine inside [createConnection] or [removeUnhealthyConnections]. *)
Inductive work :=
  | Creating (i : nat) (c0 : Connection) (g : creating)
  | Removing (us : list nat) (g : removing).

(** A host pool, the connections, and the goroutines at work on it. *)
Record poolSys := mkSys { ps_pool : HostPool; ps_heap : heap; ps_works : list work }.

(** One atomic operation of one goroutine, or one of the others that touch the pool: the
    index, [Stop]'s swap, and whatever happens to the connections themselves. *)
Inductive poolStep : poolSys → poolSys → Prop :=
  | pst_create h σ ws i c0 : poolStep (mkSys h σ ws) (mkSys h σ (Creating i c0 CReserve :: ws))
  | pst_createStep h σ ws1 ws2 i c0 g dial now g' h' σ' :
      createStep i c0 dial now g h σ = (g', (h', σ')) →
      poolStep (mkSys h σ (ws1 ++ Creating i c0 g :: ws2)) (mkSys h' σ' (ws1 ++ Creating i c0 g' :: ws2))
  | pst_remove h σ ws us : poolStep (mkSys h σ ws) (mkSys h σ (Removing us RSwap :: ws))
  | pst_removeStep h σ ws1 ws2 us g g' h' σ' :
      removeStep us g h σ = (g', (h', σ')) →
      poolStep (mkSys h σ (ws1 ++ Removing us g :: ws2)) (mkSys h' σ' (ws1 ++ Removing us g' :: ws2))
  | pst_index h σ ws v : poolStep (mkSys h σ ws) (mkSys (set_index v h) σ ws)
  | pst_heap h σ σ' ws : poolStep (mkSys h σ ws) (mkSys h σ' ws)
  | pst_stop h σ ws : poolStep (mkSys h σ ws) (mkSys (set_connections None h) σ ws).

(** What a goroutine still owes: a place it has reserved and not yet filled or given
    back, a decrement of [activeCount], a change of [idleCount]. *)
Definition reservedBy (w : work) : Z :=
  match w with Creating _ _ (CDial | CRelease | CPublish _) => 1 | _ => 0 end.
Definition owedActive (w : work) : Z :=
  match w with Removing _ (RStop n | RCountActive n) => n | _ => 0 end.
Definition owedIdle (w : work) : Z :=
  match w with
  | Creating _ _ CCountIdle => -1
  | Removing _ (RStop n | RCountActive n | RCountIdle n) => n
  | _ => 0
  end.
Definition sumOf (f : work → Z) (ws : list work) : Z := foldr (λ w n, f w + n) 0 ws.

Lemma sumOf_mid f ws1 w ws2 : sumOf f (ws1 ++ w :: ws2) = f w + sumOf f (ws1 ++ ws2).
Proof. induction ws1; simpl in *; lia. Qed.

Lemma sumOf_nonneg f ws : (∀ w, w ∈ ws → 0 ≤ f w) → 0 ≤ sumOf f ws.
Proof.
  induction ws as [|w ws IH]; intros H; simpl; [lia |].
  assert (0 ≤ f w) by (apply H; left). assert (0 ≤ sumOf f ws) by (apply IH; intros; apply H; by right). lia.
Qed.

(** The counters account for the connections and for what is owed; [base] is the number
    of pooled connections, or of those [Stop] took away. *)
Record counted (s : poolSys) (base : Z) : Prop := {
  cd_limit : 0 < maxIdle (ps_pool s) < 2 ^ 31;
  cd_owes : Forall (λ w, 0 ≤ owedActive w) (ps_works s);
  cd_base : 0 ≤ base;
  cd_active : activeCount (ps_pool s) = base + sumOf reservedBy (ps_works s) + sumOf owedActive (ps_works s);
  cd_capacity : activeCount (ps_pool s) ≤ maxIdle (ps_pool s);
  cd_open : match connections (ps_pool s) with
            | Some cs => base = Z.of_nat (length cs) ∧
                idleCount (ps_pool s) = i32 (base + sumOf owedIdle (ps_works s))
            | None => True
            end
}.

Lemma reserved_nonneg ws : 0 ≤ sumOf reservedBy ws.
Proof. apply sumOf_nonneg. intros [i c0 [] | us g] _; simpl; lia. Qed.

Lemma owed_nonneg ws : Forall (λ w, 0 ≤ owedActive w) ws → 0 ≤ sumOf owedActive ws.
Proof. rewrite Forall_forall. apply sumOf_nonneg. Qed.

Lemma survivors_length us cs : (length (survivors us cs) ≤ length cs)%nat.
Proof. apply length_filter. Qed.

Lemma i32_add_add z a b : i32 (i32 (z + a) + b) = i32 (z + (a + b)).
Proof. rewrite i32_add_l. f_equal. lia. Qed.

Ltac sums := rewrite ?sumOf_mid in *; cbn [reservedBy owedActive owedIdle] in *.

Lemma counted_createStep h σ ws1 ws2 i c0 g dial now g' h' σ' base :
  createStep i c0 dial now g h σ = (g', (h', σ')) →
  counted (mkSys h σ (ws1 ++ Creating i c0 g :: ws2)) base →
  ∃ base', counted (mkSys h' σ' (ws1 ++ Creating i c0 g' :: ws2)) base'.
Proof.
  intros E [Hlim Howes Hb Ha Hcap Hopen]. cbn [ps_pool ps_heap ps_works] in *.
  pose proof (reserved_nonneg (ws1 ++ ws2)) as Hr.
  assert (Forall (λ w, 0 ≤ owedActive w) (ws1 ++ ws2)) as Ho
    by (apply Forall_app in Howes as [? [_ ?]%Forall_cons]; by apply Forall_app).
  pose proof (owed_nonneg _ Ho) as Hoa.
  assert (∀ x, Forall (λ w, 0 ≤ owedActive w) (ws1 ++ Creating i c0 x :: ws2)) as Hall
    by (intros x; apply Forall_app in Ho as [? ?]; apply Forall_app; split; [done |]; by apply Forall_cons).
  sums. unfold i32_range in *.
  destruct g as [| | | c | | r]; cbn [createStep] in E.
  - unfold reserve in E. rewrite (i32_small (maxIdle h)) in E by (unfold i32_range; lia).
    destruct (Z.leb_spec (maxIdle h) (activeCount h)); injection E as <- <- <-; exists base;
      split; cbn [ps_pool ps_works add_active maxIdle activeCount connections idleCount]; sums; try done.
    all: rewrite i32_small by (unfold i32_range; lia); lia.
  - destruct (Con.ensureConnection dial now c0) as [[] c]; injection E as <- <- <-; exists base;
      split; cbn [ps_pool ps_works]; sums; done.
  - injection E as <- <- <-. exists base.
    split; cbn [ps_pool ps_works add_active maxIdle activeCount connections idleCount]; sums; try done.
    all: rewrite i32_small by (unfold i32_range; lia); lia.
  - destruct (connections h) as [old|] eqn:Ec; injection E as <- <- <-.
    + destruct Hopen as [-> Hi]. exists (Z.of_nat (length old) + 1).
      split; cbn [ps_pool ps_works set_connections maxIdle activeCount connections idleCount]; sums; try done; try lia.
      rewrite length_app. simpl. split; [lia |]. rewrite Hi. f_equal. lia.
    + exists base. split; cbn [ps_pool ps_works]; sums; try done. by rewrite Ec.
  - injection E as <- <- <-. exists base.
    split; cbn [ps_pool ps_works add_idle maxIdle activeCount connections idleCount]; sums; try done.
    destruct (connections h); [| done]. destruct Hopen as [-> ->]. split; [done |].
    rewrite i32_add_l. f_equal. lia.
  - injection E as <- <- <-. exists base. split; cbn [ps_pool ps_works]; sums; done.
Qed.

Lemma counted_removeStep h σ ws1 ws2 us g g' h' σ' base :
  removeStep us g h σ = (g', (h', σ')) →
  counted (mkSys h σ (ws1 ++ Removing us g :: ws2)) base →
  ∃ base', counted (mkSys h' σ' (ws1 ++ Removing us g' :: ws2)) base'.
Proof.
  intros E [Hlim Howes Hb Ha Hcap Hopen]. cbn [ps_pool ps_heap ps_works] in *.
  pose proof (reserved_nonneg (ws1 ++ ws2)) as Hr.
  apply Forall_app in Howes as [Ho1 [Hw Ho2]%Forall_cons].
  assert (Forall (λ w, 0 ≤ owedActive w) (ws1 ++ ws2)) as Ho by (by apply Forall_app).
  pose proof (owed_nonneg _ Ho) as Hoa.
  assert (∀ x, 0 ≤ owedActive (Removing us x) → Forall (λ w, 0 ≤ owedActive w) (ws1 ++ Removing us x :: ws2)) as Hall
    by (intros x Hx; apply Forall_app; split; [done |]; by apply Forall_cons).
  sums.
  destruct g as [| n | n | n |]; cbn [removeStep owedActive owedIdle] in *.
  - assert ((RDone, (h, σ)) = (g', (h', σ')) →
      ∃ base', counted (mkSys h' σ' (ws1 ++ Removing us g' :: ws2)) base') as Hsame.
    { intros [= <- <- <-]. exists base. split; cbn [ps_pool ps_works]; sums; try done. by apply Hall. }
    destruct us as [|u us]; [by apply Hsame |].
    destruct (connections h) as [[|c cs]|] eqn:Ec; [by apply Hsame | | by apply Hsame].
    cbv zeta in E. pose proof (survivors_length (u :: us) (c :: cs)) as Hl.
    set (new := survivors _ _) in *. destruct (_ =? 0); [by apply Hsame |]. injection E as <- <- <-.
    destruct Hopen as [-> Hi]. exists (Z.of_nat (length new)).
    split; cbn [ps_pool ps_works set_connections maxIdle activeCount connections idleCount]; sums; try done; try lia.
    + apply Hall. simpl. lia.
    + cbn [length] in *. lia.
    + cbn [length] in *. split; [done |]. rewrite Hi. f_equal. lia.
  - injection E as <- <- <-. exists base. split; cbn [ps_pool ps_works]; sums; try done. by apply Hall.
  - injection E as <- <- <-. exists base.
    split; cbn [ps_pool ps_works add_active maxIdle activeCount connections idleCount]; sums; try done.
    1: by apply Hall.
    all: rewrite i32_small by (unfold i32_range; lia); lia.
  - injection E as <- <- <-. exists base.
    split; cbn [ps_pool ps_works add_idle maxIdle activeCount connections idleCount]; sums; try done.
    1: by apply Hall.
    destruct (connections h); [| done]. destruct Hopen as [-> ->]. split; [done |].
    rewrite i32_add_l. f_equal. lia.
  - injection E as <- <- <-. exists base. split; cbn [ps_pool ps_works]; sums; try done. by apply Hall.
Qed.

Lemma counted_step s s' base : poolStep s s' → counted s base → ∃ base', counted s' base'.
Proof.
  intros Hstep Hc. destruct Hstep as [h σ ws i c0 | | h σ ws us | | h σ ws v | h σ σ' ws | h σ ws].
  - exists base. destruct Hc. split; cbn in *; try done. by apply Forall_cons.
  - by eapply counted_createStep.
  - exists base. destruct Hc. split; cbn in *; try done. by apply Forall_cons.
  - by eapply counted_removeStep.
  - exists base. by destruct Hc.
  - exists base. by destruct Hc.
  - exists base. by destruct Hc.
Qed.

Lemma newHostPool_counted cfg key useTLS :
  0 < maxIdle (newHostPool cfg key useTLS) < 2 ^ 31 → counted (mkSys (newHostPool cfg key useTLS) ∅ []) 0.
Proof.
  unfold newHostPool. destruct (parseHostPort _ _ _). cbn. intros Hm. split; cbn; try done; lia.
Qed.

Lemma counted_reach s s' base : rtc poolStep s s' → counted s base → ∃ base', counted s' base'.
Proof.
  intros Hr. revert base. induction Hr as [|s1 s2 s3 Hs _ IH]; intros base Hc; [by exists base |].
  destruct (counted_step _ _ _ Hs Hc) as [b Hb]. by apply (IH b).
Qed.

(** C13: the capacity of a host pool under every interleaving.  Start from the empty pool
    [getHostPool] builds (with a limit below 2^31) and let any number of goroutines run
    [createConnection] and [removeUnhealthyConnections], one atomic operation at a time
    (the successful compare-and-swaps, the dial with its outcome, the [Add]s, the stopping
    of connections), mixed in any way with each other, with index updates, with [Stop]'s
    swap and with whatever happens to the connections.  At every moment the pooled
    connections, the places reserved by goroutines that are dialling, publishing or giving
    up, and the removed connections whose decrement is still to come together do not
    exceed [maxIdle]; while the pool is open, [activeCount] is exactly their number, and
    [idleCount] (at 32 bits) the number of pooled connections plus what is owed to it.  So
    when no goroutine is at work, both counters are the number of pooled connections. *)
Theorem pool_capacity cfg key useTLS h σ ws :
  0 < maxIdle (newHostPool cfg key useTLS) < 2 ^ 31 →
  rtc poolStep (mkSys (newHostPool cfg key useTLS) ∅ []) (mkSys h σ ws) →
  Z.of_nat (length (hostConns h)) + sumOf reservedBy ws + sumOf owedActive ws ≤ maxIdle h ∧
  match connections h with
  | Some cs =>
      activeCount h = Z.of_nat (length cs) + sumOf reservedBy ws + sumOf owedActive ws ∧
      idleCount h = i32 (Z.of_nat (length cs) + sumOf owedIdle ws) ∧
      (ws = [] → activeCount h = Z.of_nat (length cs) ∧ idleCount h = Z.of_nat (length cs))
  | None => True
  end.
Proof.
  intros Hm Hr.
  destruct (counted_reach _ _ _ Hr (newHostPool_counted cfg key useTLS Hm)) as [base [Hlim Ho Hb Ha Hcap Hopen]].
  cbn [ps_pool ps_works] in *. unfold hostConns. destruct (connections h) as [cs|]; [| simpl; lia].
  destruct Hopen as [-> Hi]. simpl default. split_and!; try done; try lia.
  intros ->. simpl in *. split; [lia |]. rewrite Hi, Z.add_0_r. apply i32_small. unfold i32_range. lia.
Qed.

(** One connection is published while another goroutine's dial fails. *)
Lemma pool_capacity_witness :
  let h := newHostPool Cfg.DefaultConfig (str "https://a:443") true in
  let c0 := Con.NewConnection 1 (str "a") 443 Cfg.DefaultConfig true false false [] 0 in
  let net := mkNet (mkConn [] EEOF) (mkWConn [] []) None in
  ∃ h' σ' ws', rtc poolStep (mkSys h ∅ []) (mkSys h' σ' ws') ∧ connections h' = Some [7%nat] ∧
    sumOf reservedBy ws' = 1 ∧ activeCount h' = 2 ∧ idleCount h' = 0 ∧
    (Z.of_nat (length (hostConns h')) + sumOf reservedBy ws' + sumOf owedActive ws' ≤ maxIdle h').
Proof.
  intros h c0 net.
  set (s1 := createStep 7 c0 (inr net) 0 CReserve h ∅).
  set (s2 := createStep 8 c0 (inl EEOF) 0 CReserve s1.2.1 s1.2.2).
  set (s3 := createStep 7 c0 (inr net) 0 CDial s2.2.1 s2.2.2).
  set (s4 := createStep 7 c0 (inr net) 0 s3.1 s3.2.1 s3.2.2).
  set (s5 := createStep 8 c0 (inl EEOF) 0 CDial s4.2.1 s4.2.2).
  assert (rtc poolStep (mkSys h ∅ [])
            (mkSys s5.2.1 s5.2.2 [Creating 7 c0 CCountIdle; Creating 8 c0 CRelease])) as Hr.
  { eapply rtc_l; [apply (pst_create _ _ _ 8 c0) |]. eapply rtc_l; [apply (pst_create _ _ _ 7 c0) |].
    eapply rtc_l; [apply (pst_createStep _ _ [] [Creating 8 c0 CReserve] 7 c0 CReserve (inr net) 0); reflexivity |].
    eapply rtc_l; [apply (pst_createStep _ _ [Creating 7 c0 CDial] [] 8 c0 CReserve (inl EEOF) 0); reflexivity |].
    eapply rtc_l; [apply (pst_createStep _ _ [] [Creating 8 c0 CDial] 7 c0 CDial (inr net) 0); reflexivity |].
    eapply rtc_l; [apply (pst_createStep _ _ [] [Creating 8 c0 CDial] 7 c0 s3.1 (inr net) 0); reflexivity |].
    eapply rtc_l; [apply (pst_createStep _ _ [Creating 7 c0 CCountIdle] [] 8 c0 CDial (inl EEOF) 0); reflexivity |].
    apply rtc_refl. }
  exists s5.2.1, s5.2.2, [Creating 7 c0 CCountIdle; Creating 8 c0 CRelease].
  split; [exact Hr |]. split; [reflexivity |]. split; [reflexivity |]. split; [reflexivity |]. split; [reflexivity |].
  apply (pool_capacity Cfg.DefaultConfig (str "https://a:443") true) in Hr as [H _]; [exact H | by vm_compute].
Defined.

(** ** Selecting a connection *)

Lemma accepts_healthy σ c : acceptsAt σ c = true → healthyAt σ c = true.
Proof.
  unfold acceptsAt, healthyAt. destruct (σ !! c) as [k|]; [| done]. simpl.
  unfold Con.CanAcceptRequest. by destruct (Con.IsHealthy k).
Qed.

(** The pool fields a scan relies on. *)
Definition scannable (h : HostPool) : Prop :=
  0 ≤ hp_index h < 2 ^ 31 ∧ Z.of_nat (length (hostConns h)) < 2 ^ 31.

(** A scan meets connections of the pool, at their index. *)
Lemma scanOrder_sound conns start lo hi idx c :
  (0 < length conns)%nat → (idx, c) ∈ scanOrder conns start lo hi → conns !! idx = Some c.
Proof.
  intros Hn H. unfold scanOrder in H. apply list_elem_of_fmap in H as (i & E & _). injection E as -> ->.
  set (j := Z.to_nat _). assert (j < length conns)%nat as Hj.
  { unfold j. pose proof (Z.mod_pos_bound (u32 (start + Z.of_nat i)) (Z.of_nat (length conns)) ltac:(lia)). lia. }
  destruct (lookup_lt_is_Some_2 conns j Hj) as [c Hc]. by rewrite Hc.
Qed.

(** A scan of the whole range misses no connection. *)
Lemma scanOrder_complete conns start c :
  0 ≤ start < 2 ^ 31 → Z.of_nat (length conns) < 2 ^ 31 → c ∈ conns →
  ∃ idx, (idx, c) ∈ scanOrder conns start 0 (length conns).
Proof.
  intros Hs Hn Hc. apply list_elem_of_lookup_1 in Hc as [j Hj].
  pose proof (lookup_lt_Some _ _ _ Hj) as Hlt.
  set (n := Z.of_nat (length conns)) in *.
  set (i := Z.to_nat ((Z.of_nat j - start) `mod` n)).
  pose proof (Z.mod_pos_bound (Z.of_nat j - start) n ltac:(lia)) as Hi.
  exists j. unfold scanOrder. apply list_elem_of_fmap. exists i. split.
  - assert (u32 (start + Z.of_nat i) `mod` n = Z.of_nat j) as E.
    { unfold u32. rewrite (Z.mod_small _ (2 ^ 32)) by (unfold i; lia). unfold i. rewrite Z2Nat.id by lia.
      rewrite Z.add_mod_idemp_r by lia. replace (start + (Z.of_nat j - start)) with (Z.of_nat j) by lia.
      apply Z.mod_small. lia. }
    fold n. rewrite E, Nat2Z.id, Hj. done.
  - apply elem_of_seq. unfold i. lia.
Qed.

Lemma scanOrder_split conns start m n :
  (m ≤ n)%nat → scanOrder conns start 0 n = scanOrder conns start 0 m ++ scanOrder conns start m n.
Proof.
  intros H. unfold scanOrder. rewrite <- fmap_app. f_equal.
  rewrite !Nat.sub_0_r. replace n with (m + (n - m))%nat at 1 by lia. by rewrite seq_app.
Qed.

(** The first scan: its choice accepts requests; without one, nothing scanned did,
    and exactly the unhealthy ones were collected. *)
Lemma scanBest_spec σ l acc :
  let r := scanBest σ l acc in
  (∀ c s i, sc_best r = Some (c, s, i) → sc_best acc = Some (c, s, i) ∨ (i, c) ∈ l ∧ acceptsAt σ c = true) ∧
  (∀ c, c ∈ sc_unhealthy r → c ∈ sc_unhealthy acc ∨ healthyAt σ c = false ∧ c ∈ l.*2) ∧
  (sc_best r = None → sc_best acc = None ∧ (∀ i c, (i, c) ∈ l → acceptsAt σ c = false) ∧
     (∀ i c, (i, c) ∈ l → healthyAt σ c = false → c ∈ sc_unhealthy r) ∧
     (∀ c, c ∈ sc_unhealthy acc → c ∈ sc_unhealthy r)).
Proof.
  revert acc. induction l as [|[i c] l IH]; intros acc; cbn [scanBest].
  { split_and!; try set_solver. }
  destruct (healthyAt σ c) eqn:Hh; cbn [negb]; [destruct (acceptsAt σ c) eqn:Ha; cbn [negb] |].
  - set (b := match sc_best acc with None => _ | Some _ => _ end).
    assert (b ≠ None ∧ ∀ x, b = Some x → sc_best acc = Some x ∨ x = (c, scoreAt σ c, i)) as [Hb1 Hb2].
    { unfold b. destruct (sc_best acc) as [[[b0 s0] j0]|]; [case_if |]; split; try done; intros x [= <-]; auto. }
    destruct (scoreAt σ c =? 100).
    + cbn [sc_best sc_unhealthy]. split_and!; try done.
      * intros c' s' i' E. destruct (Hb2 _ E) as [? | [= -> -> ->]]; [by left | right]. split; [left | done].
      * intros c' Hc'. by left.
    + destruct (IH (mkScan b (sc_unhealthy acc))) as (I1 & I2 & I3). cbn [sc_best sc_unhealthy] in *.
      split_and!.
      * intros c' s' i' E. destruct (I1 _ _ _ E) as [E' | [? ?]].
        -- destruct (Hb2 _ E') as [? | [= -> -> ->]]; [by left | right]. split; [left | done].
        -- right. split; [by right | done].
      * intros c' Hc'. destruct (I2 c' Hc') as [? | [? ?]]; [by left | right]. split; [done | by right].
      * intros E. by destruct (I3 E).
  - destruct (IH acc) as (I1 & I2 & I3). split_and!.
    + intros c' s' i' E. destruct (I1 _ _ _ E) as [? | [? ?]]; [by left | right]. split; [by right | done].
    + intros c' Hc'. destruct (I2 c' Hc') as [? | [? ?]]; [by left | right]. split; [done | by right].
    + intros E. destruct (I3 E) as (J1 & J2 & J3 & J4). split_and!; try done.
      * intros i' c' Hin. apply elem_of_cons in Hin as [[= -> ->] | Hin]; [done | by eapply J2].
      * intros i' c' Hin Hun. apply elem_of_cons in Hin as [[= -> ->] | Hin]; [congruence | by eapply J3].
  - destruct (IH (mkScan (sc_best acc) (sc_unhealthy acc ++ [c]))) as (I1 & I2 & I3).
    cbn [sc_best sc_unhealthy] in *. split_and!.
    + intros c' s' i' E. destruct (I1 _ _ _ E) as [? | [? ?]]; [by left | right]. split; [by right | done].
    + intros c' Hc'. destruct (I2 c' Hc') as [Hin | [? ?]].
      * apply elem_of_app in Hin as [? | Hin]; [by left |].
        apply list_elem_of_singleton in Hin as ->. right. split; [done | by left].
      * right. split; [done | by right].
    + intros E. destruct (I3 E) as (J1 & J2 & J3 & J4). split_and!; try done.
      * intros i' c' Hin. apply elem_of_cons in Hin as [[= -> ->] | Hin]; [| by eapply J2].
        destruct (acceptsAt σ c) eqn:Ha; [| done]. apply accepts_healthy in Ha. congruence.
      * intros i' c' Hin Hun. apply elem_of_cons in Hin as [[= -> ->] | Hin]; [| by eapply J3].
        apply J4. apply elem_of_app. right. by apply list_elem_of_singleton.
      * intros c' Hin. apply J4. apply elem_of_app. by left.
Qed.

Lemma scanFirst_spec σ l us :
  match scanFirst σ l us with
  | (Some (c, i), us') => (i, c) ∈ l ∧ acceptsAt σ c = true ∧
                          ∀ x, x ∈ us' → x ∈ us ∨ healthyAt σ x = false
  | (None, us') => ∀ i c, (i, c) ∈ l → acceptsAt σ c = false
  end.
Proof.
  revert us. induction l as [|[i c] l IH]; intros us; cbn [scanFirst]; [set_solver |].
  destruct (healthyAt σ c) eqn:Hh; cbn [negb]; [destruct (acceptsAt σ c) eqn:Ha |].
  - split_and!; [left | done | by left].
  - specialize (IH us). destruct (scanFirst σ l us) as [[[c' i']|] us'].
    + destruct IH as (? & ? & ?). split_and!; [by right | done | done].
    + intros i' c' Hin. apply elem_of_cons in Hin as [[= -> ->] | Hin]; [done | by eapply IH].
  - specialize (IH (us ++ [c])). destruct (scanFirst σ l (us ++ [c])) as [[[c' i']|] us'].
    + destruct IH as (? & ? & Hus). split_and!; [by right | done |]. intros x Hx.
      destruct (Hus x Hx) as [Hin |]; [| by right]. apply elem_of_app in Hin as [? | Hin]; [by left |].
      apply list_elem_of_singleton in Hin as ->. by right.
    + intros i' c' Hin. apply elem_of_cons in Hin as [[= -> ->] | Hin]; [| by eapply IH].
      destruct (acceptsAt σ c) eqn:Ha; [| done]. apply accepts_healthy in Ha. congruence.
Qed.

Lemma stopAll_other us σ c : c ∉ us → stopAll us σ !! c = σ !! c.
Proof.
  unfold stopAll. revert σ. induction us as [|u us IH]; intros σ Hc; [done |]. simpl.
  apply not_elem_of_cons in Hc as [Hne Hc]. rewrite IH by done. by rewrite lookup_alter_ne by congruence.
Qed.

Lemma survivors_elem us cs c : c ∈ survivors us cs ↔ c ∈ cs ∧ c ∉ us.
Proof. unfold survivors. rewrite list_elem_of_filter. tauto. Qed.

Lemma survivors_shorter us cs u : u ∈ us → u ∈ cs → (length (survivors us cs) < length cs)%nat.
Proof.
  intros Hu Hc. unfold survivors. apply length_filter_lt with u; [done |]. intros Hn. by apply Hn.
Qed.

(** Removing connections that are all unhealthy. *)
Lemma remove_facts us h σ :
  let '(h', σ') := removeUnhealthyConnections us h σ in
  hp_index h' = hp_index h ∧ (∀ c, c ∉ us → σ' !! c = σ !! c) ∧
  (hostConns h' = hostConns h ∨ hostConns h' = survivors us (hostConns h)) ∧
  (∀ u, u ∈ us → u ∈ hostConns h → hostConns h' = survivors us (hostConns h)).
Proof.
  rewrite removeUnhealthyConnections_eq. destruct us as [|u us].
  { split_and!; try done; [by left | set_solver]. }
  destruct (connections h) as [[|c cs]|] eqn:E; cbv beta iota zeta; unfold hostConns; rewrite ?E.
  1, 3: (split; [done |]; split; [done |]; split; [by left |]; intros v _ Hv; by apply elem_of_nil in Hv).
 pose proof (survivors_length (u :: us) (c :: cs)). case_if.
  - split_and!; try done; rewrite ?E; [by left |]. intros v Hv Hin.
    pose proof (survivors_shorter (u :: us) (c :: cs) v Hv Hin). lia.
  - split_and!; try done; [by apply stopAll_other | by right].
Qed.

(** [c] is handed out: it accepts a request and, when connections are not shared,
    it is claimed. *)
Definition handedOut (σ σ' : heap) (cs : list nat) (c : nat) : Prop :=
  c ∈ cs ∧ acceptsAt σ c = true ∧
  if pipelinesAt σ c then σ' !! c = σ !! c
  else ∃ k, σ !! c = Some k ∧ Con.activeReqs k = 0 ∧
            σ' !! c = Some (Con.set_poolClaimed true (Con.set_activeReqs 1 k)).

Lemma claim_spec σ σ1 c cs :
  c ∈ cs → acceptsAt σ c = true → σ1 !! c = σ !! c → handedOut σ (claim c σ1) cs c.
Proof.
  intros Hin Ha E. split; [done |]. split; [done |]. unfold claim, pipelinesAt. rewrite E.
  unfold acceptsAt in Ha. destruct (σ !! c) as [k|] eqn:Ek; [| done]. simpl in *.
  destruct (Cfg.EnablePipelining (Con.config k)) eqn:Ep; [done |].
  exists k. split; [done |]. rewrite lookup_alter_eq, E. split; [| done].
  unfold Con.CanAcceptRequest in Ha. rewrite Ep in Ha. destruct (negb _); [done |]. by apply Z.eqb_eq in Ha.
Qed.

Lemma accepts_ext σ σ' c : σ' !! c = σ !! c → acceptsAt σ' c = acceptsAt σ c.
Proof. unfold acceptsAt. by intros ->. Qed.

(** What a selection among the connections [cs] may answer. *)
Definition selects (σ σ' : heap) (cs : list nat) (r : option nat) : Prop :=
  match r with
  | Some c => handedOut σ σ' cs c
  | None => ∀ c, c ∈ cs → acceptsAt σ c = false
  end.

(** Unhealthy connections may be left out of the selection. *)
Lemma selects_survivors σ σ1 σ' us cs r :
  (∀ u, u ∈ us → healthyAt σ u = false) → (∀ c, c ∉ us → σ1 !! c = σ !! c) →
  selects σ1 σ' (survivors us cs) r → selects σ σ' cs r.
Proof.
  intros Hun R2 Hr. destruct r as [c|]; simpl in *.
  - destruct Hr as (Hin & Ha & Hclaim). apply survivors_elem in Hin as [Hin Hnu].
    pose proof (R2 c Hnu) as Heq. split; [done |].
    rewrite (accepts_ext σ σ1 c Heq) in Ha. split; [done |]. unfold pipelinesAt in *. by rewrite Heq in Hclaim.
  - intros c Hc. destruct (decide (c ∈ us)) as [Hcu | Hcu].
    + apply Hun in Hcu. destruct (acceptsAt σ c) eqn:Ha; [| done]. apply accepts_healthy in Ha. congruence.
    + rewrite <- (accepts_ext σ σ1 c (R2 c Hcu)). apply Hr. by apply survivors_elem.
Qed.

(** The second scan, after a first one over [m] connections that found none. *)
Lemma secondScan_spec h h1 σ σ1 conns m :
  (∀ c, σ1 !! c = σ !! c) → (0 < length conns)%nat → (m ≤ length conns)%nat →
  0 ≤ hp_index h < 2 ^ 31 → Z.of_nat (length conns) < 2 ^ 31 →
  (∀ i c, (i, c) ∈ scanOrder conns (hp_index h) 0 m → acceptsAt σ c = false) →
  ∃ r h' σ',
    (if (m <? length conns)%nat then
       let '(found, unhealthy) := scanFirst σ1 (scanOrder conns (hp_index h) m (length conns)) [] in
       match found with
       | Some (c, idx) =>
           let '(h2, σ2) := removeUnhealthyConnections unhealthy (nextIndex idx conns h1) (claim c σ1) in
           (Ret (Some c), (h2, σ2))
       | None => (Ret None, removeUnhealthyConnections unhealthy h1 σ1)
       end
     else (Ret None, (h1, σ1))) = (Ret (E := error) r, (h', σ')) ∧ selects σ σ' conns r.
Proof.
  intros Hσ Hpos Hle Hi Hn T1. destruct (Nat.ltb_spec m (length conns)) as [Hm | Hm].
  - set (l2 := scanOrder conns (hp_index h) m (length conns)).
    pose proof (scanFirst_spec σ1 l2 []) as F.
    destruct (scanFirst σ1 l2 []) as [[[c i]|] us] eqn:Es.
    + destruct F as (Hin & Ha & Hus).
      pose proof (remove_facts us (nextIndex i conns h1) (claim c σ1)) as Hrem2.
      destruct (removeUnhealthyConnections us (nextIndex i conns h1) (claim c σ1)) as [h2 σ2].
      destruct Hrem2 as (_ & Q2 & _). do 3 eexists. split; [done |].
      apply scanOrder_sound in Hin; [| done]. rewrite (accepts_ext σ σ1 c (Hσ c)) in Ha.
      destruct (claim_spec σ σ1 c conns ltac:(by eapply list_elem_of_lookup_2) Ha (Hσ c)) as (C1 & C2 & C3).
      split; [done |]. split; [done |]. rewrite (Q2 c); [done |]. intros Hu.
      destruct (Hus c Hu) as [? | Hh]; [set_solver |]. apply accepts_healthy in Ha.
      unfold healthyAt in *. rewrite Hσ in Hh. congruence.
    + destruct (removeUnhealthyConnections us h1 σ1) as [h2 σ2]. do 3 eexists. split; [done |].
      intros c Hc. destruct (scanOrder_complete conns (hp_index h) c Hi Hn Hc) as [i Hin].
      rewrite (scanOrder_split conns (hp_index h) m (length conns)) in Hin by lia.
      apply elem_of_app in Hin as [Hin | Hin]; [by eapply T1 |].
      rewrite <- (accepts_ext σ σ1 c (Hσ c)). by eapply F.
  - do 3 eexists. split; [done |]. intros c Hc.
    destruct (scanOrder_complete conns (hp_index h) c Hi Hn Hc) as [i Hin].
    apply (T1 i). by replace m with (length conns) by lia.
Qed.

Lemma getIdle_spec fuel h σ :
  scannable h → (length (hostConns h) < fuel)%nat →
  ∃ r h' σ', getIdleConnection fuel h σ = (Ret r, (h', σ')) ∧ selects σ σ' (hostConns h) r.
Proof.
  revert h σ. induction fuel as [|fuel IH]; intros h σ [Hi Hn] Hf; [lia |]. cbn [getIdleConnection].
  unfold hostConns in Hn, Hf. destruct (connections h) as [[|c0 cs0]|] eqn:Ecs; cbn [default id] in Hn, Hf.
  1, 3: (do 3 eexists; split; [done |]; unfold hostConns; rewrite Ecs; simpl; set_solver).
  set (conns := c0 :: cs0) in *. assert (hostConns h = conns) as Hcs by (unfold hostConns; by rewrite Ecs).
  assert (0 < length conns)%nat as Hpos by (simpl; lia).
  set (m := Nat.min (length conns) 16). set (l1 := scanOrder conns (hp_index h) 0 m).
  pose proof (scanBest_spec σ l1 (mkScan None [])) as (S1 & S2 & S3).
  set (sc := scanBest σ l1 (mkScan None [])) in *. cbn [sc_best sc_unhealthy] in S1, S2, S3.
  assert (∀ c, c ∈ sc_unhealthy sc → healthyAt σ c = false ∧ c ∈ conns) as Hun.
  { intros c Hc. destruct (S2 c Hc) as [? | [Hh Hin]]; [set_solver |]. split; [done |].
    apply list_elem_of_fmap in Hin as ([i c'] & -> & Hin). apply scanOrder_sound in Hin; [| done].
    by eapply list_elem_of_lookup_2. }
  pose proof (remove_facts (sc_unhealthy sc) h σ) as Hrem.
  destruct (removeUnhealthyConnections (sc_unhealthy sc) h σ) as [h1 σ1].
  destruct Hrem as (R1 & R2 & R3 & R4). rewrite Hcs in *.
  destruct (sc_best sc) as [[[b s] i]|] eqn:Eb.
  { destruct (S1 b s i eq_refl) as [? | [Hin Ha]]; [done |].
    do 3 eexists. split; [done |]. apply scanOrder_sound in Hin; [| done].
    apply claim_spec; [by eapply list_elem_of_lookup_2 | done |]. apply R2. intros Hu.
    apply Hun in Hu as [Hu _]. apply accepts_healthy in Ha. congruence. }
  destruct (S3 eq_refl) as (_ & T1 & T2 & _).
  destruct (sc_unhealthy sc) as [|u us] eqn:Eu.
  - apply (secondScan_spec h h1); [intros c; apply R2; set_solver | done | lia | done | done | done].
  - assert (hostConns h1 = survivors (u :: us) conns) as Hc1 by (apply (R4 u); [by left | by apply Hun; left]).
    pose proof (survivors_shorter (u :: us) conns u ltac:(by left) ltac:(by apply Hun; left)) as Hsh.
    destruct (IH h1 σ1) as (r & h' & σ' & E & Hr); [unfold scannable; rewrite R1, Hc1; lia | rewrite Hc1; lia |].
    exists r, h', σ'. split; [done |]. rewrite Hc1 in Hr.
    eapply selects_survivors; [| exact R2 | exact Hr]. intros v Hv. by apply Hun.
Qed.

(** C14: [getIdleConnection] always returns, and its answer is right.  A connection it
    returns belongs to the pool, is healthy and can take a request; unless
    connections are pipelined it had no request in flight and is now claimed for
    this caller alone (count one, claim flag set).  It returns nil only when no
    connection of the pool can take a request: the scan of 16 and the scan of the
    rest miss none, whatever the starting index. *)
Theorem getIdleConnection_correct h σ :
  scannable h →
  ∃ r h' σ', getIdleConnection (S (length (hostConns h))) h σ = (Ret r, (h', σ')) ∧
  match r with
  | Some c => c ∈ hostConns h ∧ healthyAt σ c = true ∧ handedOut σ σ' (hostConns h) c
  | None => ∀ c, c ∈ hostConns h → acceptsAt σ c = false
  end.
Proof.
  intros Hs. destruct (getIdle_spec (S (length (hostConns h))) h σ Hs ltac:(lia)) as (r & h' & σ' & E & Hr).
  exists r, h', σ'. split; [done |]. destruct r as [c|]; [| done].
  destruct Hr as (H1 & H2 & H3). split; [done |]. split; [by apply accepts_healthy | done].
Qed.

Definition exHeap : heap :=
  <[1%nat := Con.set_healthy 0 exConnection]> (<[2%nat := Con.set_healthy 1 exConnection]> ∅).
Definition exHostPool : HostPool :=
  set_connections (Some [1%nat; 2%nat]) (newHostPool Cfg.DefaultConfig (str "https://a:443") true).

Lemma getIdleConnection_correct_witness :
  ∃ r h' σ', getIdleConnection 3 exHostPool exHeap = (Ret r, (h', σ')) ∧
  match r with
  | Some c => c ∈ hostConns exHostPool ∧ healthyAt exHeap c = true ∧ handedOut exHeap σ' (hostConns exHostPool) c
  | None => ∀ c, c ∈ hostConns exHostPool → acceptsAt exHeap c = false
  end.
Proof. apply (getIdleConnection_correct exHostPool exHeap). by vm_compute. Defined.

(** ** Host keys *)

Lemma cutLast_app c a b : Forall (λ x, x ≠ c) b → cutLast c (a ++ c :: b) = Some (a, b).
Proof.
  intros Hb. assert (cutLast c b = None) as Hn.
  { induction Hb as [|x b Hx _ IH]; [done |]. simpl. rewrite IH. by rewrite (proj2 (Z.eqb_neq _ _)). }
  induction a as [|x a IH]; simpl; [by rewrite Hn, Z.eqb_refl |]. by rewrite IH.
Qed.

Lemma afterScheme_key scheme rest :
  Forall (λ c, c ≠ COLON) scheme → afterScheme (scheme ++ str "://" ++ rest) = Some rest.
Proof.
  induction 1 as [|c s Hc _ IH]; [done |]. cbn [app afterScheme].
  rewrite bool_decide_eq_false_2; [exact IH |]. intros E. injection E as E _. done.
Qed.

Lemma Itoa_no c n : 0 ≤ n → ¬ plain c → Forall (λ x, x ≠ c) (Itoa n).
Proof. intros Hn Hc. eapply Forall_impl; [by apply Itoa_plain |]. intros x Hx ->. done. Qed.

(** The host a pool dials, and the name its TLS connections verify. *)
Definition reaches (cfg : Config) (h : HostPool) (host : bytes) (port : Z) (useTLS : bool) : Prop :=
  dialHost h = host ∧ dialPort h = port ∧
  (Cfg.TLSConfig cfg = None → ServerName <$> hp_tls h = if useTLS then Some host else None).

Lemma hostTLS_verifies cfg host useTLS :
  Cfg.TLSConfig cfg = None → ServerName <$> hostTLS cfg host useTLS = if useTLS then Some host else None.
Proof.
  intros Ht. unfold hostTLS, Cfg.BuildTLSConfig. rewrite Ht. destruct useTLS; [| done].
  destruct (Cfg.UseTLS cfg); simpl; [| done]. by case_bool_decide; subst.
Qed.

Lemma parseHostPort_plain host port dh dp :
  host ≠ [] → hd 0 host ≠ 91 → 0 < port < 2 ^ 63 →
  parseHostPort (host ++ COLON :: Itoa port) dh dp = (host, port).
Proof.
  intros Hne Hhd Hp. destruct host as [|c host]; [done |]. simpl in Hhd. unfold parseHostPort. cbn [app].
  assert (cutLast 58 (c :: host ++ COLON :: Itoa port) = Some (c :: host, Itoa port)) as E.
  { apply (cutLast_app 58 (c :: host)). apply Itoa_no; [lia | unfold plain; lia]. }
  rewrite E, Atoi_Itoa, (proj2 (Z.leb_gt _ _)) by lia.
  destruct c as [|q|q]; [done | | done]. repeat (destruct q as [q | q |]; try done).
Qed.

(** C36: The key of a host pool determines what is dialled and verified.  For the key
    ["scheme://host:port"] the client builds, the pool dials exactly that host and
    port, also for an IPv6 address without brackets (the last colon separates the
    port), while a bracketed IPv6 address loses its brackets; over TLS, unless the
    caller brought a [tls.Config] of his own, the name that is verified is the host
    dialled. *)
Theorem pool_key_roundtrip cfg scheme host port useTLS :
  Forall (λ c, c ≠ COLON) scheme → host ≠ [] → 0 < port < 2 ^ 63 →
  (hd 0 host ≠ 91 →
   reaches cfg (newHostPool cfg (scheme ++ str "://" ++ host ++ COLON :: Itoa port) useTLS) host port useTLS) ∧
  reaches cfg (newHostPool cfg (scheme ++ str "://" ++ 91 :: host ++ 93 :: COLON :: Itoa port) useTLS) host port useTLS.
Proof.
  intros Hsch Hne Hp. unfold newHostPool. cbv zeta. rewrite !afterScheme_key by done. cbn [default id].
  assert (Atoi (Itoa port) = Some port) as Hat by (apply Atoi_Itoa; lia). split.
  - intros Hhd. rewrite parseHostPort_plain by done. split_and!; [done | done | apply hostTLS_verifies].
  - unfold parseHostPort. rewrite (cutLast_app 93 host (COLON :: Itoa port)).
    + rewrite Hat, (proj2 (Z.ltb_lt _ _)) by lia. split_and!; [done | done | apply hostTLS_verifies].
    + constructor; [done |]. apply Itoa_no; [lia | unfold plain; lia].
Qed.

Lemma pool_key_roundtrip_witness :
  (hd 0 (str "::1") ≠ 91 →
   reaches Cfg.DefaultConfig (newHostPool Cfg.DefaultConfig (str "https" ++ str "://" ++ str "::1" ++ COLON :: Itoa 8443) true)
     (str "::1") 8443 true) ∧
  reaches Cfg.DefaultConfig (newHostPool Cfg.DefaultConfig (str "https" ++ str "://" ++ 91 :: str "::1" ++ 93 :: COLON :: Itoa 8443) true)
    (str "::1") 8443 true.
Proof.
  apply (pool_key_roundtrip Cfg.DefaultConfig (str "https") (str "::1") 8443 true).
  - by repeat constructor.
  - done.
  - lia.
Defined.
