(* ===== verification/Scheduler.v ===== *)
(** * Scheduler: the queue of one host and its workers (src/scheduler.go)

    [Scheduler.Do] puts a piece of work into a buffered channel and waits; each of
    the host's workers takes work, runs it on a connection and answers into the
    work's own channel of capacity one.  The callers and workers are goroutines:
    the system is a set of atomic steps, and a run is any sequence of them.

    A call of the client owns one response object, named like the call; when
    [Scheduler.Do] returns no response, [DoWithContext] puts the object back into
    the pool (src/client.go line 292). *)

From stdpp Require Import prelude list gmap.
From S2P Require Import Prelude Errors Scan Response.

(** [scheduledResult] *)
Abbreviation schedResult := (error + Response)%type.

(** Where a call stands in [Scheduler.Do]. *)
Inductive caller := Sending | WaitingFor | ReturnedWith (r : schedResult).

(** The host's queue, the work its workers hold, the answered work, the callers, the
    response objects back in the pool, whether [stopCh] is closed, and how many of
    the workers have returned. *)
Record hostScheduler := mkSched {
  queue : list nat;
  busy : list nat;
  answeredWork : gmap nat schedResult;
  callers : gmap nat caller;
  released : gset nat;
  sd_stopped : bool;
  exited : nat
}.

Definition idleScheduler : hostScheduler := mkSched [] [] ∅ ∅ ∅ false 0.

(** The steps: a call begins; its first [select] sends, or is cut by the context or
    by [Stop]; a worker takes the next work and runs it, or finds its context done;
    the worker finds no connection, or has a result; the second [select] receives
    the answer, or is cut; [Stop]; a worker between two works sees [stopCh] and
    returns. *)
Inductive action :=
  | Begin (i : nat)
  | Enqueue (i : nat)
  | EnqueueCancelled (i : nat) (e : error)
  | EnqueueStopped (i : nat)
  | Take (i : nat)
  | TakeCancelled (i : nat) (e : error)
  | NoConn (i : nat)
  | Execute (i : nat) (r : schedResult)
  | Receive (i : nat)
  | WaitCancelled (i : nat) (e : error)
  | WaitStopped (i : nat)
  | StopAll
  | WorkerExit.

Section steps.

(** [queueCap] and [workers]. *)
Variable cap workers : nat.

(** [Do] returns [r]; without a response the client releases the object. *)
Definition return_ (i : nat) (r : schedResult) (s : hostScheduler) : hostScheduler :=
  mkSched (queue s) (busy s) (answeredWork s) (<[i := ReturnedWith r]> (callers s))
    (match r with inl _ => {[ i ]} ∪ released s | inr _ => released s end) (sd_stopped s) (exited s).

(** [work.resp <- r] *)
Definition reply_ (i : nat) (r : schedResult) (s : hostScheduler) : hostScheduler :=
  mkSched (queue s) (busy s) (<[i := r]> (answeredWork s)) (callers s) (released s) (sd_stopped s) (exited s).

Definition setBusy (b : list nat) (s : hostScheduler) : hostScheduler :=
  mkSched (queue s) b (answeredWork s) (callers s) (released s) (sd_stopped s) (exited s).
Definition setQueue (q : list nat) (s : hostScheduler) : hostScheduler :=
  mkSched q (busy s) (answeredWork s) (callers s) (released s) (sd_stopped s) (exited s).
Definition setCaller (i : nat) (c : caller) (s : hostScheduler) : hostScheduler :=
  mkSched (queue s) (busy s) (answeredWork s) (<[i := c]> (callers s)) (released s) (sd_stopped s) (exited s).

Definition drop_ (i : nat) (l : list nat) : list nat := filter (λ j, j ≠ i) l.

Definition isSending (i : nat) (s : hostScheduler) : bool :=
  match callers s !! i with Some Sending => true | _ => false end.
Definition isWaiting (i : nat) (s : hostScheduler) : bool :=
  match callers s !! i with Some WaitingFor => true | _ => false end.
(** A worker is at its [select]. *)
Definition idleWorker (s : hostScheduler) : bool := (length (busy s) + exited s <? workers)%nat.
Definition isNext (i : nat) (s : hostScheduler) : bool :=
  match queue s with j :: _ => (i =? j)%nat && idleWorker s | [] => false end.

Definition schedErr (msg : string) (e : error) : schedResult := inl (WrapError ErrorTypeTimeout msg e).
Definition stoppedErr : schedResult := inl (WrapError ErrorTypeNetwork "scheduler: stopped" (ESentinel ErrConnectFailed)).

(** One step; [None] when it is not enabled. *)
Definition step (a : action) (s : hostScheduler) : option hostScheduler :=
  let when (b : bool) (s' : hostScheduler) := if b then Some s' else None in
  match a with
  | Begin i => when (bool_decide (callers s !! i = None)) (setCaller i Sending s)
  | Enqueue i =>
      when (isSending i s && (length (queue s) <? cap)%nat)
        (setCaller i WaitingFor (setQueue (queue s ++ [i]) s))
  | EnqueueCancelled i e => when (isSending i s) (return_ i (schedErr "scheduler: enqueue cancelled" e) s)
  | EnqueueStopped i => when (isSending i s && sd_stopped s) (return_ i stoppedErr s)
  | Take i => when (isNext i s) (setBusy (busy s ++ [i]) (setQueue (tail (queue s)) s))
  | TakeCancelled i e =>
      when (isNext i s) (reply_ i (schedErr "scheduler: cancelled before execute" e) (setQueue (tail (queue s)) s))
  | NoConn i =>
      when (bool_decide (i ∈ busy s))
        (reply_ i (inl (WrapError ErrorTypeNetwork "scheduler: no connection available" (ESentinel ErrConnectFailed)))
           (setBusy (drop_ i (busy s)) s))
  | Execute i r => when (bool_decide (i ∈ busy s)) (reply_ i r (setBusy (drop_ i (busy s)) s))
  | Receive i =>
      match answeredWork s !! i with
      | Some r =>
          when (isWaiting i s)
            (return_ i r (mkSched (queue s) (busy s) (delete i (answeredWork s)) (callers s) (released s) (sd_stopped s) (exited s)))
      | None => None
      end
  | WaitCancelled i e => when (isWaiting i s) (return_ i (schedErr "scheduler: wait cancelled" e) s)
  | WaitStopped i => when (isWaiting i s && sd_stopped s) (return_ i stoppedErr s)
  | StopAll => Some (mkSched (queue s) (busy s) (answeredWork s) (callers s) (released s) true (exited s))
  | WorkerExit =>
      when (sd_stopped s && idleWorker s)
        (mkSched (queue s) (busy s) (answeredWork s) (callers s) (released s) (sd_stopped s) (S (exited s)))
  end.

(** A run: disabled steps do not happen. *)
Fixpoint run (l : list action) (s : hostScheduler) : option hostScheduler :=
  match l with [] => Some s | a :: t => s' ← step a s; run t s' end.

(** ** The invariant *)

(** The works under way: each is in one place. *)
Definition underWay (s : hostScheduler) : list nat := queue s ++ busy s.

Definition hasReturned (i : nat) (s : hostScheduler) : Prop := ∃ r, callers s !! i = Some (ReturnedWith r).

Record wfSched (s : hostScheduler) : Prop := {
  ws_queue : (length (queue s) ≤ cap)%nat;
  ws_busy : (length (busy s) + exited s ≤ workers)%nat;
  ws_once : NoDup (underWay s);
  ws_known : ∀ i, i ∈ underWay s ∨ is_Some (answeredWork s !! i) → callers s !! i = Some WaitingFor ∨ hasReturned i s;
  ws_apart : ∀ i, i ∈ underWay s → answeredWork s !! i = None;
  ws_served : ∀ i, callers s !! i = Some WaitingFor → i ∈ underWay s ∨ is_Some (answeredWork s !! i);
  ws_released : ∀ i, i ∈ released s → hasReturned i s
}.

Lemma idleScheduler_wf : wfSched idleScheduler.
Proof.
  split; simpl; try lia; [constructor | | | |]; intros i; unfold underWay; simpl;
    rewrite ?lookup_empty; try set_solver.
Qed.

Lemma isSending_spec i s : isSending i s = true → callers s !! i = Some Sending.
Proof. unfold isSending. by destruct (callers s !! i) as [[]|]. Qed.
Lemma isWaiting_spec i s : isWaiting i s = true → callers s !! i = Some WaitingFor.
Proof. unfold isWaiting. by destruct (callers s !! i) as [[]|]. Qed.
Lemma isNext_spec i s : isNext i s = true → ∃ q, queue s = i :: q ∧ (length (busy s) + exited s < workers)%nat.
Proof.
  unfold isNext. destruct (queue s) as [|j q]; [done |]. unfold idleWorker. intros H. unbool. subst. by exists q.
Qed.

Lemma drop_elem i j l : j ∈ drop_ i l ↔ j ∈ l ∧ j ≠ i.
Proof. unfold drop_. rewrite list_elem_of_filter. tauto. Qed.

(** A call that was not known is in no queue and has no answer. *)
Lemma fresh_apart s i :
  wfSched s → callers s !! i = None ∨ callers s !! i = Some Sending →
  i ∉ underWay s ∧ answeredWork s !! i = None.
Proof.
  intros Hs Hi. pose proof (ws_known s Hs i) as Hk. unfold hasReturned in Hk. split.
  - intros Hin. destruct Hk as [? | [r ?]]; [by left | destruct Hi; congruence ..].
  - destruct (answeredWork s !! i) eqn:E; [| done].
    destruct Hk as [? | [r ?]]; [by right; eexists | destruct Hi; congruence ..].
Qed.

(** The state of other callers. *)
Lemma callers_other (m : gmap nat caller) i j c c' :
  <[i := c]> m !! j = Some c' → j = i ∧ c' = c ∨ j ≠ i ∧ m !! j = Some c'.
Proof. rewrite lookup_insert_Some. naive_solver. Qed.

Lemma return_wf i r s :
  wfSched s → callers s !! i = Some Sending ∨ callers s !! i = Some WaitingFor → wfSched (return_ i r s).
Proof.
  intros [Hq Hb Ho Hk Ha Hv Hr] Hi. split; simpl; try done.
  - intros j Hj. unfold hasReturned. simpl. rewrite !lookup_insert_Some. destruct (decide (i = j)) as [-> |].
    + right. exists r. by rewrite lookup_insert_eq.
    + destruct (Hk j Hj) as [? | [r' ?]]; [left; by right | right]. exists r'. by rewrite lookup_insert_ne.
  - intros j [[-> ?] | [? ?]]%callers_other; [done | by apply Hv].
  - intros j Hj. unfold hasReturned. simpl. destruct (decide (i = j)) as [-> |]; [exists r; by rewrite lookup_insert_eq |].
    rewrite lookup_insert_ne by done. apply Hr. destruct r; set_solver.
Qed.

(** Moving a work from one place to another, or answering it. *)
Lemma moved_wf s q b ans :
  wfSched s → (length q ≤ cap)%nat → (length b + exited s ≤ workers)%nat → NoDup (q ++ b) →
  (∀ i, i ∈ q ++ b ∨ is_Some (ans !! i) ↔ i ∈ underWay s ∨ is_Some (answeredWork s !! i)) →
  (∀ i, i ∈ q ++ b → ans !! i = None) →
  wfSched (mkSched q b ans (callers s) (released s) (sd_stopped s) (exited s)).
Proof.
  intros [Hq Hb Ho Hk Ha Hv Hr] H1 H2 H3 H4 H5. split; simpl; try done; unfold underWay; simpl.
  - intros i Hi. by apply Hk, H4.
  - intros i Hi. by apply H4, Hv.
Qed.

Lemma take_wf i s : wfSched s → isNext i s = true → wfSched (setBusy (busy s ++ [i]) (setQueue (tail (queue s)) s)).
Proof.
  intros Hs (q & Eq & Hl)%isNext_spec. pose proof Hs as [Hq Hb Ho Hk Ha Hv Hr]. unfold underWay in *.
  rewrite Eq in *. apply (moved_wf s); [done | simpl in *; lia | rewrite length_app; simpl; lia | | |]; simpl in *.
  - rewrite app_assoc, (Permutation_app_comm _ [i]). done.
  - intros j. unfold underWay. rewrite Eq. set_solver.
  - intros j Hj. apply Ha. set_solver.
Qed.

Lemma takeCancelled_wf i r s :
  wfSched s → isNext i s = true → wfSched (reply_ i r (setQueue (tail (queue s)) s)).
Proof.
  intros Hs (q & Eq & Hl)%isNext_spec. pose proof Hs as [Hq Hb Ho Hk Ha Hv Hr]. unfold underWay in *.
  rewrite Eq in *. simpl in Ho. apply NoDup_cons in Ho as [Hi Ho].
  apply (moved_wf s); [done | simpl in *; lia | done | done | |]; simpl in *.
  - intros j. unfold underWay. rewrite Eq. destruct (decide (i = j)) as [-> |].
    + rewrite lookup_insert_eq. split; [set_solver | intros _; right; by eexists].
    + rewrite lookup_insert_ne by done. set_solver.
  - intros j Hj. rewrite lookup_insert_ne by set_solver. apply Ha. set_solver.
Qed.

Lemma finished_wf i r s :
  wfSched s → i ∈ busy s → wfSched (reply_ i r (setBusy (drop_ i (busy s)) s)).
Proof.
  intros Hs Hi. pose proof Hs as [Hq Hb Ho Hk Ha Hv Hr]. unfold underWay in *.
  apply NoDup_app in Ho as (N1 & N2 & N3).
  apply (moved_wf s); [done | done | | | |]; simpl in *.
  - pose proof (length_filter (λ j, j ≠ i) (busy s)). unfold drop_. lia.
  - apply NoDup_app. split; [done |]. split; [| by apply NoDup_filter].
    intros j Hj [Hd _]%drop_elem. by apply (N2 j Hj).
  - intros j. unfold underWay. rewrite !elem_of_app, drop_elem. destruct (decide (i = j)) as [-> |].
    + rewrite lookup_insert_eq. split; [tauto | intros _; right; by eexists].
    + rewrite lookup_insert_ne by done. naive_solver.
  - intros j. rewrite elem_of_app, drop_elem. intros Hj. rewrite lookup_insert_ne.
    + apply Ha. apply elem_of_app. tauto.
    + intros <-. destruct Hj as [Hj | [_ ?]]; [by apply (N2 i Hj) | done].
Qed.

Lemma receive_wf i r s :
  wfSched s → answeredWork s !! i = Some r → callers s !! i = Some WaitingFor →
  wfSched (return_ i r (mkSched (queue s) (busy s) (delete i (answeredWork s)) (callers s) (released s) (sd_stopped s) (exited s))).
Proof.
  intros [Hq Hb Ho Hk Ha Hv Hr] Ei Hi. unfold underWay in *.
  assert (i ∉ queue s ++ busy s) as Hni by (intros Hin; apply Ha in Hin; congruence).
  split; simpl; try done; unfold underWay; simpl.
  - intros j Hj. unfold hasReturned. simpl. destruct (decide (i = j)) as [-> |].
    + right. exists r. by rewrite lookup_insert_eq.
    + rewrite !lookup_insert_ne by done. apply Hk. by rewrite lookup_delete_ne in Hj.
  - intros j Hj. rewrite lookup_delete_ne; [by apply Ha |]. intros <-. done.
  - intros j [[-> ?] | [? ?]]%callers_other; [done |]. rewrite lookup_delete_ne by done. by apply Hv.
  - intros j Hj. unfold hasReturned. simpl. destruct (decide (i = j)) as [-> |]; [exists r; by rewrite lookup_insert_eq |].
    rewrite lookup_insert_ne by done. apply Hr. destruct r; set_solver.
Qed.

Lemma begin_wf i s : wfSched s → callers s !! i = None → wfSched (setCaller i Sending s).
Proof.
  intros Hs Hi. destruct (fresh_apart s i Hs) as [Hu Hw]; [by left |].
  destruct Hs as [Hq Hb Ho Hk Ha Hv Hr]. split; simpl; try done; unfold hasReturned in *; simpl.
  - intros j Hj. assert (i ≠ j) as Hne.
    { intros <-. destruct Hj as [? | [? ?]]; [done | congruence]. }
    rewrite !lookup_insert_ne by done. by apply Hk.
  - intros j [[-> ?] | [? ?]]%callers_other; [done | by apply Hv].
  - intros j Hj. assert (i ≠ j) by (intros <-; destruct (Hr i Hj); congruence).
    rewrite lookup_insert_ne by done. by apply Hr.
Qed.

Lemma enqueue_wf i s :
  wfSched s → callers s !! i = Some Sending → (length (queue s) < cap)%nat →
  wfSched (setCaller i WaitingFor (setQueue (queue s ++ [i]) s)).
Proof.
  intros Hs Hi Hc. destruct (fresh_apart s i Hs) as [Hu Hw]; [by right |].
  destruct Hs as [Hq Hb Ho Hk Ha Hv Hr]. unfold underWay in *.
  split; simpl; try done; unfold hasReturned, underWay in *; simpl.
  - rewrite length_app. simpl. lia.
  - rewrite <- app_assoc, (Permutation_app_comm [i]), app_assoc. apply NoDup_app. split; [done |].
    split; [set_solver | apply NoDup_singleton].
  - intros j Hj. destruct (decide (i = j)) as [-> |]; [left; apply lookup_insert_eq |].
    rewrite !lookup_insert_ne by done. apply Hk. set_solver.
  - intros j Hj. destruct (decide (i = j)) as [-> |]; [done |]. apply Ha. set_solver.
  - intros j [[-> ?] | [? ?]]%callers_other; [set_solver |]. destruct (Hv j); [done | set_solver | by right].
  - intros j Hj. assert (i ≠ j) by (intros <-; destruct (Hr i Hj); congruence).
    rewrite lookup_insert_ne by done. by apply Hr.
Qed.

Lemma step_wf a s s' : wfSched s → step a s = Some s' → wfSched s'.
Proof.
  intros Hs. unfold step. destruct a.
  all: try (destruct (answeredWork s !! i) eqn:?; [| done]).
  all: try match goal with |- context [if ?b then _ else _] => destruct b eqn:Hb; [| done] end; intros [= <-]; unbool.
  all: try (apply isWaiting_spec in Hb || (apply isSending_spec in Hb)).
  all: eauto using begin_wf, take_wf, takeCancelled_wf, finished_wf, receive_wf, return_wf, isWaiting_spec, isSending_spec, enqueue_wf.
  - by destruct Hs.
  - unfold idleWorker in *. unbool. destruct Hs as [Hq Hb' Ho Hk Ha Hv Hr]. split; simpl; try done. lia.
Qed.

Lemma run_wf l s s' : wfSched s → run l s = Some s' → wfSched s'.
Proof.
  revert s. induction l as [|a l IH]; intros s Hs; simpl; [by intros [= <-] |].
  destruct (step a s) as [s1 |] eqn:E; [| done]. simpl. apply IH. by eapply step_wf.
Qed.

Lemma run_snoc l a s : run (l ++ [a]) s = (s1 ← run l s; step a s1).
Proof.
  revert s. induction l as [|b l IH]; intros s; simpl.
  - by destruct (step a s).
  - destruct (step b s); simpl; [apply IH | done].
Qed.

(** Where answers and returned responses come from, and when an object is released. *)
Record traced (l : list action) (s : hostScheduler) : Prop := {
  tr_answer : ∀ i p, answeredWork s !! i = Some (inr p) → Execute i (inr p) ∈ l;
  tr_return : ∀ i p, callers s !! i = Some (ReturnedWith (inr p)) → Execute i (inr p) ∈ l;
  tr_release : ∀ i, i ∈ underWay s → i ∈ released s →
    (∃ e, WaitCancelled i e ∈ l) ∨ WaitStopped i ∈ l
}.

Lemma traced_more l a s : traced l s → traced (l ++ [a]) s.
Proof.
  intros [H1 H2 H3]. split; intros; [apply elem_of_app; left; eauto .. |].
  destruct (H3 i) as [[e ?] | ?]; [done | done | left; exists e | right]; apply elem_of_app; by left.
Qed.

(** Steps that only move works around. *)
Lemma traced_moved l s q b st x :
  traced l s → (∀ i, i ∈ q ++ b → i ∈ underWay s) →
  traced l (mkSched q b (answeredWork s) (callers s) (released s) st x).
Proof. intros [H1 H2 H3] Hin. split; simpl; eauto. Qed.

Lemma traced_reply l s i r :
  traced l s → (∀ p, r = inr p → Execute i (inr p) ∈ l) → traced l (reply_ i r s).
Proof.
  intros [H1 H2 H3] Hr. split; simpl; [| done | done].
  intros j p [[-> E] | [? E]]%lookup_insert_Some; [subst; by apply Hr | by apply H1].
Qed.

Lemma traced_return l s i r :
  traced l s → (∀ p, r = inr p → Execute i (inr p) ∈ l) →
  (i ∈ underWay s → ∀ e, r = inl e → (∃ e, WaitCancelled i e ∈ l) ∨ WaitStopped i ∈ l) →
  traced l (return_ i r s).
Proof.
  intros [H1 H2 H3] Hr Hc. split; simpl; [done | |].
  - intros j p [[-> [= <-]] | [? E]]%callers_other; [by apply Hr | by apply H2].
  - intros j Hu Hj. destruct r as [e | p]; [| by apply H3].
    apply elem_of_union in Hj as [->%elem_of_singleton | Hj]; [by apply (Hc Hu e) | by apply H3].
Qed.

Lemma traced_caller l s i c :
  traced l s → (∀ p, c ≠ ReturnedWith (inr p)) → traced l (setCaller i c s).
Proof.
  intros [H1 H2 H3] Hc. split; simpl; [done | | done].
  intros j p [[-> E] | [? E]]%callers_other; [by destruct (Hc p) | by apply H2].
Qed.

Lemma step_traced l a s s' : wfSched s → traced l s → step a s = Some s' → traced (l ++ [a]) s'.
Proof.
  intros Hs Ht%(traced_more _ a) E.
  assert (a ∈ l ++ [a]) as Ha by (apply elem_of_app; right; by left).
  assert (∀ i, callers s !! i = Some Sending → i ∉ underWay s) as Hsend
    by (intros i Hi; apply (fresh_apart s i Hs); by right).
  unfold step in E. destruct a as [i | i | i e | i | i | i e | i | i r | i | i e | i | |].
  all: try (destruct (answeredWork s !! i) eqn:Ei; [| done]).
  all: try match type of E with context [if ?b then _ else _] => destruct b eqn:Hb; [| done] end; injection E as <-; unbool.
  - by apply traced_caller.
  - apply traced_caller; [| done]. destruct Ht as [H1 H2 H3]. split; simpl; [done | done |].
    intros j Hu Hj. unfold underWay in Hu. simpl in Hu. apply isSending_spec in H.
    destruct (decide (j = i)) as [-> | Hne]; [destruct (ws_released s Hs i Hj); congruence |].
    apply H3; [unfold underWay; set_solver | done].
  - apply traced_return; [done | done |]. intros Hin. by destruct (Hsend i (isSending_spec _ _ Hb)).
  - apply traced_return; [done | done |]. intros Hin. by destruct (Hsend i (isSending_spec _ _ H)).
  - apply isNext_spec in Hb as (q & Eq & _). apply (traced_moved _ s); [done |].
    unfold underWay. rewrite Eq. simpl. set_solver.
  - apply isNext_spec in Hb as (q & Eq & _). apply traced_reply; [| done]. apply (traced_moved _ s); [done |].
    unfold underWay. rewrite Eq. simpl. set_solver.
  - apply traced_reply; [| done]. apply (traced_moved _ s); [done |].
    intros j. unfold underWay. rewrite !elem_of_app, drop_elem. tauto.
  - apply traced_reply; [| by intros p ->]. apply (traced_moved _ s); [done |].
    intros j. unfold underWay. rewrite !elem_of_app, drop_elem. tauto.
  - assert (i ∉ underWay s) as Hni by (intros Hin; apply (ws_apart s Hs) in Hin; congruence).
    apply traced_return; [| | done].
    + destruct Ht as [H1 H2 H3]. split; simpl; [| done | done].
      intros j p [_ Hj]%lookup_delete_Some. by apply H1.
    + intros p ->. by apply (tr_answer _ _ Ht).
  - apply traced_return; [done | done |]. intros _ _ _. left. by eexists.
  - apply traced_return; [done | done |]. intros _ _ _. by right.
  - by apply (traced_moved _ s).
  - by apply (traced_moved _ s).
Qed.

Lemma run_traced l s : run l idleScheduler = Some s → wfSched s ∧ traced l s.
Proof.
  revert s. induction l as [|a l IH] using rev_ind; intros s.
  - intros [= <-]. split; [apply idleScheduler_wf | by split].
  - rewrite run_snoc. destruct (run l idleScheduler) as [s1 |]; [| done]. simpl. intros E.
    destruct (IH s1 eq_refl) as [Hw Ht]. split; [by eapply step_wf | by eapply step_traced].
Qed.

End steps.

(** C20: the scheduler, under every interleaving of callers, workers, cancellations
    and [Stop].  The queue never exceeds [queueCap] and at most [workers] works run;
    no work is queued or run twice; a caller that waits has its work queued, running
    or answered, so none is forgotten; and a response that [Do] returns is the one a
    worker computed for this very call.  A response object goes back to the pool
    while a worker still holds the work only if its caller was cancelled or stopped
    while waiting. *)
Theorem scheduler_serves_each_call cap workers l s :
  run cap workers l idleScheduler = Some s →
  (length (queue s) ≤ cap)%nat ∧ (length (busy s) ≤ workers)%nat ∧ NoDup (queue s ++ busy s) ∧
  (∀ i, callers s !! i = Some WaitingFor → i ∈ queue s ++ busy s ∨ is_Some (answeredWork s !! i)) ∧
  (∀ i p, callers s !! i = Some (ReturnedWith (inr p)) → Execute i (inr p) ∈ l) ∧
  (∀ i, i ∈ busy s → i ∈ released s → (∃ e, WaitCancelled i e ∈ l) ∨ WaitStopped i ∈ l).
Proof.
  intros E. destruct (run_traced cap workers l s E) as [[Hq Hb Ho Hk Ha Hv Hr] [H1 H2 H3]].
  split_and!; try done; [lia |]. intros i Hi. apply H3. unfold underWay. apply elem_of_app. by right.
Qed.

Definition exResponse : Response := mkResponse 200 0 BNil [] [] 0 [].

Lemma scheduler_serves_each_call_witness :
  let l := [Begin 1; Begin 2; Enqueue 1; Take 1; Enqueue 2; Execute 1 (inr exResponse); Receive 1] in
  ∃ s, run 1 1 l idleScheduler = Some s ∧ queue s = [2%nat] ∧
    Execute 1 (inr exResponse) ∈ l ∧ (2%nat ∈ queue s ++ busy s ∨ is_Some (answeredWork s !! 2%nat)).
Proof.
  eexists. split; [vm_compute; reflexivity |]. split; [reflexivity |].
  pose proof (λ s E, scheduler_serves_each_call 1 1
    [Begin 1; Begin 2; Enqueue 1; Take 1; Enqueue 2; Execute 1 (inr exResponse); Receive 1] s E) as H.
  destruct (H _ ltac:(vm_compute; reflexivity)) as (_ & _ & _ & Hw & Hr & _).
  split; [apply Hr; reflexivity | apply Hw; reflexivity].
Defined.

(** A response object can be in the pool and in use at the same time.  There is
    a run in which a call is cancelled after a worker has taken its work: the client
    releases the response object, and the worker, which still executes, writes the
    response into the object the pool may already have handed to another call. *)
Theorem scheduler_use_after_release cap workers e p :
  (0 < cap)%nat → (0 < workers)%nat →
  ∃ l s s', run cap workers l idleScheduler = Some s ∧ 1%nat ∈ released s ∧ 1%nat ∈ busy s ∧
    callers s !! 1%nat = Some (ReturnedWith (schedErr "scheduler: wait cancelled" e)) ∧
    step cap workers (Execute 1 (inr p)) s = Some s' ∧ answeredWork s' !! 1%nat = Some (inr p).
Proof.
  intros Hc Hw. exists [Begin 1; Enqueue 1; Take 1; WaitCancelled 1 e].
  destruct cap as [|cap], workers as [|workers]; [lia .. |]. eexists _, _.
  split; [reflexivity |]. split; [set_solver |]. split; [by left |]. split; [reflexivity |].
  split; reflexivity.
Qed.

Lemma scheduler_use_after_release_witness :
  ∃ l s s', run 8 2 l idleScheduler = Some s ∧ 1%nat ∈ released s ∧ 1%nat ∈ busy s ∧
    callers s !! 1%nat = Some (ReturnedWith (schedErr "scheduler: wait cancelled" ECanceled)) ∧
    step 8 2 (Execute 1 (inr exResponse)) s = Some s' ∧ answeredWork s' !! 1%nat = Some (inr exResponse).
Proof. apply (scheduler_use_after_release 8 2 ECanceled exResponse); lia. Defined.
