(* ===== verification/Hosts.v ===== *)
(** * Hosts: the scheduler over all hosts (src/scheduler.go)

    [Scheduler] is the single-host machine; here are [NewScheduler], the map of
    hosts filled by [getOrCreateHostScheduler], and [Stop], which closes the
    scheduler's channel once and waits for the workers of every host.

    The abstract service knows nothing of channels and goroutines: a call is
    admitted, started in the order of admission, and finished.  Every run of the
    scheduler is a run of the service. *)

From stdpp Require Import prelude list gmap.
From S2P Require Import Prelude Errors Scan Response Scheduler.

(** ** The scheduler *)

(** [Scheduler]; [queueSize] is its [queueCap], and the flag says whether [stopCh] is
    closed. *)
Record SchedulerT := mkScheduler {
  hosts : gmap bytes hostScheduler;
  workersPerHost : nat;
  queueSize : Z;
  allStopped : bool
}.

(** [NewScheduler(client, workers, queueCap)], [poolSize] being the client's
    [config.PoolSize]. *)
Definition NewScheduler (poolSize workers cap : Z) : SchedulerT :=
  let workers := if workers <=? 0 then (if poolSize <=? 0 then 64 else poolSize) else workers in
  let cap := if cap <=? 0 then i64 (workers * 4) else cap in
  mkScheduler ∅ (Z.to_nat workers) cap false.

(** How many works the channel of a host holds. *)
Definition queueCap (s : SchedulerT) : nat := Z.to_nat (queueSize s).

Definition setHost (k : bytes) (h : hostScheduler) (s : SchedulerT) : SchedulerT :=
  mkScheduler (<[k := h]> (hosts s)) (workersPerHost s) (queueSize s) (allStopped s).

(** [getOrCreateHostScheduler(poolKey, useTLS)]: the host is stored once and its workers
    start, [workersPerHost] of them, interchangeable, none busy and none returned; its
    channels see a scheduler that was stopped before.  With a capacity that has wrapped
    to a negative number [make(chan)] panics: [None]. *)
Definition getOrCreateHostScheduler (k : bytes) (s : SchedulerT) : option SchedulerT :=
  match hosts s !! k with
  | Some _ => Some s
  | None => if queueSize s <? 0 then None else Some (setHost k (mkSched [] [] ∅ ∅ ∅ (allStopped s) 0) s)
  end.

(** A call of [Do] begins, some goroutine of host [k] moves, or [Stop] closes the
    channels. *)
Inductive event :=
  | Call (k : bytes) (i : nat)
  | On (k : bytes) (a : action)
  | Stop.

(** The steps that belong to one host once it exists; calls begin with [Call], and
    the channel is closed by [Stop]. *)
Definition local (a : action) : bool :=
  match a with Begin _ | StopAll => false | _ => true end.

Definition onHost (k : bytes) (a : action) (s : SchedulerT) : option SchedulerT :=
  h ← hosts s !! k; h' ← step (queueCap s) (workersPerHost s) a h; Some (setHost k h' s).

Definition closeStop (h : hostScheduler) : hostScheduler :=
  mkSched (queue h) (busy h) (answeredWork h) (callers h) (released h) true (exited h).

(** [Stop()] closes the channels, once; it returns when the workers of every host
    have returned ([workers_return]). *)
Definition stopScheduler (s : SchedulerT) : SchedulerT :=
  mkScheduler (closeStop <$> hosts s) (workersPerHost s) (queueSize s) true.

Definition sstep (e : event) (s : SchedulerT) : option SchedulerT :=
  match e with
  | Call k i => getOrCreateHostScheduler k s ≫= onHost k (Begin i)
  | On k a => if local a then onHost k a s else None
  | Stop => Some (stopScheduler s)
  end.

Fixpoint srun (l : list event) (s : SchedulerT) : option SchedulerT :=
  match l with [] => Some s | e :: t => s' ← sstep e s; srun t s' end.

(** [hs.wg.Wait()] returns: the workers of a stopped host can all finish, whatever
    they are doing, in as many steps as there are works and workers. *)
Lemma workers_return cap w h n :
  wfSched cap w h → sd_stopped h = true → (length (busy h) + (w - exited h) ≤ n)%nat →
  ∃ l h', (length l ≤ n)%nat ∧ run cap w l h = Some h' ∧ exited h' = w ∧ busy h' = [].
Proof.
  revert h. induction n as [|n IH]; intros h Hw Hs Hn.
  { exists [], h. pose proof (ws_busy _ _ _ Hw). split_and!; [done | done | lia |]. by apply nil_length_inv; lia. }
  assert (∀ a h1, step cap w a h = Some h1 → sd_stopped h1 = true →
    (length (busy h1) + (w - exited h1) ≤ n)%nat →
    ∃ l h', (length l ≤ S n)%nat ∧ run cap w l h = Some h' ∧ exited h' = w ∧ busy h' = []) as Hgo.
  { intros a h1 E Hs1 Hn1. destruct (IH h1) as (l & h' & Hl & Hr & Hx); [by eapply step_wf | done | done |].
    exists (a :: l), h'. split_and!; [simpl; lia | simpl; by rewrite E | by apply Hx ..]. }
  destruct (busy h) as [|i t] eqn:Eb.
  - destruct (decide (exited h = w)) as [Hx | Hne]; [exists [], h; split_and!; done || (simpl; lia) |].
    pose proof (ws_busy _ _ _ Hw) as Hb. rewrite Eb in Hb. simpl in *.
    eapply (Hgo WorkerExit); [simpl; rewrite Hs; unfold idleWorker; rewrite ?Eb, (proj2 (Nat.ltb_lt _ _)) by (simpl; lia); reflexivity | done |].
    simpl. rewrite ?Eb. simpl. lia.
  - eapply (Hgo (NoConn i)); [simpl; rewrite bool_decide_true by (rewrite ?Eb; by left); reflexivity | done |].
    simpl. rewrite ?Eb. unfold drop_. rewrite filter_cons_False by tauto.
    pose proof (length_filter (λ j, j ≠ i) t). simpl in Hn. lia.
Qed.

(** ** The service it implements *)

(** The calls in the order in which they were admitted and started, and the results. *)
Abbreviation call := (bytes * nat)%type.
Record service := mkService {
  admitted : list call;
  startedCalls : list call;
  results : gmap call schedResult
}.

Definition idleService : service := mkService [] [] ∅.

Definition ofHost (k : bytes) (l : list call) : list call := filter (λ c, c.1 = k) l.
Definition waitingCalls (k : bytes) (a : service) : list call :=
  drop (length (ofHost k (startedCalls a))) (ofHost k (admitted a)).
Definition runningCalls (k : bytes) (a : service) : list call :=
  filter (λ c, results a !! c = None) (ofHost k (startedCalls a)).

(** A call is admitted once; the oldest waiting call of a host starts when fewer
    than [workers] calls of the host run; a running call finishes. *)
Inductive serve (workers : nat) : service → service → Prop :=
  | sv_admit c a :
      c ∉ admitted a → serve workers a (mkService (admitted a ++ [c]) (startedCalls a) (results a))
  | sv_start c a rest :
      waitingCalls c.1 a = c :: rest → (length (runningCalls c.1 a) < workers)%nat →
      serve workers a (mkService (admitted a) (startedCalls a ++ [c]) (results a))
  | sv_finish c r a :
      c ∈ runningCalls c.1 a → serve workers a (mkService (admitted a) (startedCalls a) (<[c := r]> (results a))).

(** What the service guarantees. *)
Record wfService (workers : nat) (a : service) : Prop := {
  sw_order k : ofHost k (startedCalls a) `prefix_of` ofHost k (admitted a);
  sw_once : NoDup (admitted a);
  sw_results c : is_Some (results a !! c) → c ∈ startedCalls a;
  sw_parallel k : (length (runningCalls k a) ≤ workers)%nat
}.

Lemma ofHost_snoc k l c : ofHost k (l ++ [c]) = if decide (c.1 = k) then ofHost k l ++ [c] else ofHost k l.
Proof.
  unfold ofHost. rewrite filter_app. case_decide as E.
  - by rewrite filter_cons_True, filter_nil.
  - by rewrite filter_cons_False, filter_nil, app_nil_r.
Qed.

Lemma wfService_waiting w k a :
  wfService w a → ofHost k (admitted a) = ofHost k (startedCalls a) ++ waitingCalls k a.
Proof. intros Ha. unfold waitingCalls. destruct (sw_order w a Ha k) as [t ->]. by rewrite drop_app_length. Qed.

(** A waiting call has not started. *)
Lemma wfService_not_started w a c :
  wfService w a → c ∈ waitingCalls c.1 a → c ∉ startedCalls a ∧ results a !! c = None.
Proof.
  intros Ha Hc. assert (c ∉ startedCalls a) as Hs.
  { intros Hs. pose proof (sw_once w a Ha) as Hn.
    apply (NoDup_filter (λ x, x.1 = c.1)) in Hn. fold (ofHost c.1 (admitted a)) in Hn.
    rewrite (wfService_waiting w c.1 a Ha) in Hn. apply NoDup_app in Hn as (_ & Hd & _).
    apply (Hd c); [by apply list_elem_of_filter | done]. }
  split; [done |]. destruct (results a !! c) eqn:E; [| done].
  destruct Hs. apply (sw_results w a Ha). by rewrite E.
Qed.

Lemma runningCalls_start k a c adm :
  results a !! c = None → runningCalls k (mkService adm (startedCalls a ++ [c]) (results a)) =
    if decide (c.1 = k) then runningCalls k a ++ [c] else runningCalls k a.
Proof.
  intros Hc. unfold runningCalls. simpl. rewrite ofHost_snoc. case_decide; [| done].
  by rewrite filter_app, filter_cons_True, filter_nil.
Qed.

Lemma runningCalls_finish k a c r :
  runningCalls k (mkService (admitted a) (startedCalls a) (<[c := r]> (results a)))
  = filter (λ x, x ≠ c) (runningCalls k a).
Proof.
  unfold runningCalls. simpl. induction (ofHost k (startedCalls a)) as [|x l IH]; [done |].
  rewrite !filter_cons, IH. destruct (decide (x = c)) as [-> |].
  - rewrite (decide_False (P := _ = None)) by (by rewrite lookup_insert_eq).
    repeat case_decide; try done. rewrite filter_cons_False by tauto. done.
  - rewrite lookup_insert_ne by done. repeat case_decide; try done. by rewrite filter_cons_True.
Qed.

Lemma serve_wf w a a' : serve w a a' → wfService w a → wfService w a'.
Proof.
  intros Hs Ha. pose proof Ha as [Ho Hn Hr Hp]. destruct Hs as [c a Hc | c a rest Hw Hl | c r a Hc].
  - split; simpl; try done.
    + intros k. rewrite ofHost_snoc. case_decide; [| done]. by apply prefix_app_r.
    + apply NoDup_app. split; [done |]. split; [| apply NoDup_singleton].
      intros x Hx ->%list_elem_of_singleton. done.
  - destruct (wfService_not_started w a c Ha) as [Hns Hres]; [rewrite Hw; by left |].
    split; simpl; try done.
    + intros k. rewrite ofHost_snoc. case_decide as E; [| done]. subst k.
      rewrite (wfService_waiting w c.1 a Ha), Hw. exists rest. by rewrite <- app_assoc.
    + intros x Hx. apply elem_of_app. left. by apply Hr.
    + intros k. rewrite runningCalls_start by done. case_decide as E; [| done]. subst k.
      rewrite length_app. simpl. lia.
  - split; simpl; try done.
    + intros x [v [[-> _] | [_ Hx]]%lookup_insert_Some]; [| by apply Hr; eexists].
      apply list_elem_of_filter in Hc as [_ Hc]. by apply list_elem_of_filter in Hc as [_ Hc].
    + intros k. rewrite runningCalls_finish. etrans; [apply length_filter | done].
Qed.

Lemma idleService_wf w : wfService w idleService.
Proof.
  split; [done | constructor | |]; intros; simpl in *; [| unfold runningCalls; simpl; lia].
  rewrite lookup_empty in H. by destruct H.
Qed.

Lemma serves_wf w a a' : rtc (serve w) a a' → wfService w a → wfService w a'.
Proof. induction 1; eauto using serve_wf. Qed.

(** ** The simulation *)

Lemma filter_keeps {A} (P : A → Prop) `{∀ x, Decision (P x)} l : Forall P l → filter P l = l.
Proof. induction 1 as [|x l Hx _ IH]; [done |]. rewrite filter_cons_True by done. by rewrite IH. Qed.

(** Removing call [i] of host [k] from its works. *)
Lemma pair_drop (k : bytes) i l : pair k <$> drop_ i l = filter (λ c, c ≠ (k, i)) (pair k <$> l).
Proof.
  unfold drop_. induction l as [|j l IH]; [done |]. rewrite fmap_cons, !filter_cons.
  destruct (decide (j = i)) as [-> |].
  - rewrite !decide_False by tauto. apply IH.
  - rewrite !decide_True by congruence. by rewrite fmap_cons, IH.
Qed.

(** How host [k] appears in the service. *)
Record hostRel (k : bytes) (h : hostScheduler) (a : service) : Prop := {
  hr_queue : pair k <$> queue h = waitingCalls k a;
  hr_busy : pair k <$> busy h = runningCalls k a;
  hr_answer i r : answeredWork h !! i = Some r → results a !! (k, i) = Some r;
  hr_return i p : callers h !! i = Some (ReturnedWith (inr p)) → results a !! (k, i) = Some (inr p);
  hr_known i : (k, i) ∈ admitted a → callers h !! i = Some WaitingFor ∨ hasReturned i h
}.

(** The two services are the same for host [k]. *)
Definition agree (k : bytes) (a a' : service) : Prop :=
  waitingCalls k a' = waitingCalls k a ∧ runningCalls k a' = runningCalls k a ∧
  ∀ i, results a' !! (k, i) = results a !! (k, i) ∧ ((k, i) ∈ admitted a' ↔ (k, i) ∈ admitted a).

#[global] Instance agree_preorder k : PreOrder (agree k).
Proof.
  split.
  - intros a. split_and!; try done.
  - intros a b c (W1 & R1 & P1) (W2 & R2 & P2). split_and!; [congruence | congruence |].
    intros i. destruct (P1 i), (P2 i). split; [congruence | by etrans].
Qed.

Lemma hostRel_agree k h a a' : agree k a a' → hostRel k h a → hostRel k h a'.
Proof.
  intros (Ew & Er & E) [H1 H2 H3 H4 H5]. split; [congruence | congruence | | |]; intros i; destruct (E i) as [E1 E2].
  - rewrite E1. apply H3.
  - rewrite E1. apply H4.
  - rewrite E2. apply H5.
Qed.

Lemma agree_admit k c a :
  c.1 ≠ k → agree k a (mkService (admitted a ++ [c]) (startedCalls a) (results a)).
Proof.
  intros Hc. split_and!; [| done |].
  - unfold waitingCalls. simpl. by rewrite ofHost_snoc, decide_False.
  - intros i. split; [done |]. simpl. rewrite elem_of_app, list_elem_of_singleton.
    split; [| tauto]. by intros [? | <-].
Qed.

Lemma agree_start k c a :
  c.1 ≠ k → results a !! c = None → agree k a (mkService (admitted a) (startedCalls a ++ [c]) (results a)).
Proof.
  intros Hc Hr. split_and!; [| | done].
  - unfold waitingCalls. simpl. by rewrite ofHost_snoc, decide_False.
  - by rewrite runningCalls_start, decide_False.
Qed.

Lemma agree_finish k c r a :
  c.1 ≠ k → agree k a (mkService (admitted a) (startedCalls a) (<[c := r]> (results a))).
Proof.
  intros Hc. split_and!; [done | |].
  - rewrite runningCalls_finish. unfold runningCalls.
    apply filter_keeps. apply Forall_forall. intros x Hx ->.
    apply list_elem_of_filter in Hx as [_ Hx]. apply list_elem_of_filter in Hx as [Hx _]. done.
  - intros i. simpl. rewrite lookup_insert_ne; [done |]. by intros ->.
Qed.

(** What the caller sees does not concern the service. *)
Lemma hostRel_return k i r h a :
  hostRel k h a → (∀ p, r = inr p → results a !! (k, i) = Some (inr p)) → hostRel k (return_ i r h) a.
Proof.
  intros [H1 H2 H3 H4 H5] Hr. split; simpl; try done.
  - intros j p [[-> [= <-]] | [_ Hj]]%callers_other; [by apply Hr | by apply H4].
  - intros j Hj. unfold hasReturned. simpl. destruct (decide (i = j)) as [-> |].
    + right. exists r. by rewrite lookup_insert_eq.
    + rewrite lookup_insert_ne by done. by apply H5.
Qed.

Lemma hostRel_begin k i h a : hostRel k h a → callers h !! i = None → hostRel k (setCaller i Sending h) a.
Proof.
  intros [H1 H2 H3 H4 H5] Hi. split; simpl; try done.
  - intros j p [[-> ?] | [_ Hj]]%callers_other; [done | by apply H4].
  - intros j Hj. assert (i ≠ j) as Hne.
    { intros ->. destruct (H5 j Hj) as [? | [r ?]]; congruence. }
    unfold hasReturned. simpl. rewrite lookup_insert_ne by done. by apply H5.
Qed.

Lemma hostRel_enqueue k i h a :
  hostRel k h a → callers h !! i = Some Sending →
  (∀ k, ofHost k (startedCalls a) `prefix_of` ofHost k (admitted a)) →
  hostRel k (setCaller i WaitingFor (setQueue (queue h ++ [i]) h))
    (mkService (admitted a ++ [(k, i)]) (startedCalls a) (results a)).
Proof.
  intros [H1 H2 H3 H4 H5] Hi Ho. split; simpl; try done.
  - unfold waitingCalls. simpl. rewrite ofHost_snoc, decide_True by done. rewrite fmap_app, H1.
    unfold waitingCalls. rewrite drop_app_le; [done |]. by apply prefix_length.
  - intros j p [[-> ?] | [_ Hj]]%callers_other; [done | by apply H4].
  - intros j Hj. unfold hasReturned. simpl. destruct (decide (i = j)) as [-> |].
    + left. apply lookup_insert_eq.
    + rewrite lookup_insert_ne by done. apply H5. apply elem_of_app in Hj as [? | Hj]; [done |].
      apply list_elem_of_singleton in Hj. congruence.
Qed.

Lemma hostRel_start k i q h a :
  hostRel k h a → queue h = i :: q → results a !! (k, i) = None →
  hostRel k (setBusy (busy h ++ [i]) (setQueue q h)) (mkService (admitted a) (startedCalls a ++ [(k, i)]) (results a)).
Proof.
  intros [H1 H2 H3 H4 H5] Eq Hr. split; simpl; try done.
  - rewrite Eq, fmap_cons in H1. unfold waitingCalls in *. simpl.
    rewrite ofHost_snoc, decide_True, length_app, Nat.add_1_r by done.
    destruct (ofHost k (admitted a) !! length (ofHost k (startedCalls a))) as [c|] eqn:E.
    + rewrite (drop_S _ _ _ E) in H1. by injection H1.
    + apply lookup_ge_None in E. by rewrite drop_ge in H1.
  - by rewrite runningCalls_start, decide_True, fmap_app, H2 by done.
Qed.

Lemma hostRel_finish k i r h a :
  hostRel k h a → results a !! (k, i) = None → hostRel k (reply_ i r (setBusy (drop_ i (busy h)) h))
    (mkService (admitted a) (startedCalls a) (<[(k, i) := r]> (results a))).
Proof.
  intros [H1 H2 H3 H4 H5] Hr. split; simpl; try done.
  - by rewrite runningCalls_finish, pair_drop, H2.
  - intros j r' [[-> ->] | [Hne Hj]]%lookup_insert_Some; [by rewrite lookup_insert_eq |].
    rewrite lookup_insert_ne by congruence. by apply H3.
  - intros j p Hj. apply H4 in Hj. rewrite lookup_insert_ne; [done |]. intros [= <-]. congruence.
Qed.

(** *** One host moves *)

(** The service follows a step of host [k] to [h'], and no other host notices. *)
Definition followed (w : nat) (k : bytes) (h' : hostScheduler) (a : service) : Prop :=
  ∃ a', rtc (serve w) a a' ∧ hostRel k h' a' ∧ ∀ k', k' ≠ k → agree k' a a'.

Lemma followed_stay w k h' a : hostRel k h' a → followed w k h' a.
Proof. intros H. by exists a. Qed.

Lemma followed_enqueue w k i h a :
  wfService w a → hostRel k h a → callers h !! i = Some Sending →
  followed w k (setCaller i WaitingFor (setQueue (queue h ++ [i]) h)) a.
Proof.
  intros Ha Hrel Hi. eexists. split_and!.
  - apply rtc_once, (sv_admit w (k, i)). intros Hin.
    destruct (hr_known _ _ _ Hrel i Hin) as [? | [r ?]]; congruence.
  - apply hostRel_enqueue; [done | done | apply Ha].
  - intros k' Hk'. apply agree_admit. by apply not_eq_sym.
Qed.

Lemma followed_start w k i q h a :
  wfService w a → hostRel k h a → queue h = i :: q → (length (busy h) < w)%nat →
  followed w k (setBusy (busy h ++ [i]) (setQueue q h)) a.
Proof.
  intros Ha Hrel Eq Hl. pose proof (hr_queue _ _ _ Hrel) as Hq. rewrite Eq, fmap_cons in Hq. symmetry in Hq.
  assert (results a !! (k, i) = None) as Hn.
  { apply (wfService_not_started w); [done |]. simpl. rewrite Hq. by left. }
  eexists. split_and!; [| by apply hostRel_start |].
  - apply rtc_once, (sv_start w (k, i) a _ Hq). simpl. by rewrite <- (hr_busy _ _ _ Hrel), length_fmap.
  - intros k' Hk'. apply agree_start; [by apply not_eq_sym | done].
Qed.

Lemma followed_finish w k i r h a :
  hostRel k h a → i ∈ busy h → followed w k (reply_ i r (setBusy (drop_ i (busy h)) h)) a.
Proof.
  intros Hrel Hi. assert ((k, i) ∈ runningCalls k a) as Hrun.
  { rewrite <- (hr_busy _ _ _ Hrel). by apply list_elem_of_fmap_2. }
  eexists. split; [by apply rtc_once, (sv_finish w (k, i) r) |]. split.
  - apply hostRel_finish; [done |]. by apply list_elem_of_filter in Hrun as [? _].
  - intros k' Hk'. apply agree_finish. by apply not_eq_sym.
Qed.

Lemma followed_trans w k h1 h2 a :
  followed w k h1 a → (∀ a1, rtc (serve w) a a1 → hostRel k h1 a1 → followed w k h2 a1) → followed w k h2 a.
Proof.
  intros (a1 & S1 & R1 & A1) H. destruct (H a1 S1 R1) as (a2 & S2 & R2 & A2).
  exists a2. split_and!; [by etrans | done |]. intros k' Hk'. etrans; [by apply A1 | by apply A2].
Qed.

(** Work whose context is done is answered at once: it starts and finishes. *)
Lemma followed_cancelled w k i r q h a :
  NoDup (queue h ++ busy h) → wfService w a → hostRel k h a → queue h = i :: q → (length (busy h) < w)%nat →
  followed w k (reply_ i r (setQueue q h)) a.
Proof.
  intros Hn Ha Hrel Eq Hl. eapply followed_trans; [by apply followed_start |]. intros a1 _ Hrel1.
  assert (busy h = drop_ i (busy h ++ [i])) as Hd.
  { unfold drop_. rewrite filter_app, filter_cons_False, filter_nil, app_nil_r by tauto. symmetry.
    apply filter_keeps, Forall_forall. intros j Hj ->. rewrite Eq in Hn. simpl in Hn.
    apply NoDup_cons in Hn as [Hn _]. apply Hn, elem_of_app. by right. }
  replace (reply_ i r (setQueue q h))
    with (reply_ i r (setBusy (drop_ i (busy h ++ [i])) (setBusy (busy h ++ [i]) (setQueue q h)))).
  - apply (followed_finish w k i r (setBusy (busy h ++ [i]) (setQueue q h))); [done |].
    apply elem_of_app. right. by left.
  - rewrite <- Hd. done.
Qed.

Lemma hostStep_followed cap w k act h h' a :
  step cap w act h = Some h' → act ≠ StopAll → wfSched cap w h → wfService w a → hostRel k h a →
  followed w k h' a.
Proof.
  intros E Hact Hwf Ha Hrel. unfold step in E.
  destruct act as [i | i | i e | i | i | i e | i | i r | i | i e | i | |]; try done.
  all: try (destruct (answeredWork h !! i) eqn:Ei; [| done]).
  all: match type of E with context [if ?b then _ else _] => destruct b eqn:Hb; [| done] end; injection E as <-; unbool.
  1, 3, 4, 9, 10, 11, 12: apply followed_stay.
  - by apply hostRel_begin.
  - by apply hostRel_return.
  - by apply hostRel_return.
  - apply hostRel_return; [| intros p ->; by apply (hr_answer _ _ _ Hrel)].
    destruct Hrel as [H1 H2 H3 H4 H5]. split; simpl; try done. intros j r [_ Hj]%lookup_delete_Some. by apply H3.
  - by apply hostRel_return.
  - by apply hostRel_return.
  - by destruct Hrel.
  - apply followed_enqueue; [done | done | by apply isSending_spec].
  - apply isNext_spec in Hb as (q & Eq & Hl). rewrite Eq. apply followed_start; [done .. | lia].
  - apply isNext_spec in Hb as (q & Eq & Hl). rewrite Eq.
    apply followed_cancelled; [apply Hwf | done .. | lia].
  - by apply followed_finish.
  - by apply followed_finish.
Qed.

(** *** The whole scheduler *)

Record related (s : SchedulerT) (a : service) : Prop := {
  re_service : wfService (workersPerHost s) a;
  re_hosts k h : hosts s !! k = Some h → hostRel k h a ∧ wfSched (queueCap s) (workersPerHost s) h;
  re_unknown k i : hosts s !! k = None → (k, i) ∉ admitted a
}.

(** A host that was never called owns nothing. *)
Lemma ofHost_unknown k l : (∀ i, (k, i) ∉ l) → ofHost k l = [].
Proof.
  intros H. unfold ofHost. destruct (filter _ l) as [|c t] eqn:E; [done |].
  assert (c ∈ filter (λ c, c.1 = k) l) as Hc by (rewrite E; by left).
  apply list_elem_of_filter in Hc as [Hk Hc]. destruct c as [k' i]. simpl in Hk. subst. by destruct (H i).
Qed.

Lemma getOrCreate_limits s s' k :
  getOrCreateHostScheduler k s = Some s' → workersPerHost s' = workersPerHost s ∧ queueCap s' = queueCap s.
Proof.
  unfold getOrCreateHostScheduler. destruct (hosts s !! k); [by intros [= <-] |]. case_if; [done | by intros [= <-]].
Qed.

Lemma related_create s s' a k : getOrCreateHostScheduler k s = Some s' → related s a → related s' a.
Proof.
  intros E0 [Hs Hh Hu]. unfold getOrCreateHostScheduler in E0.
  destruct (hosts s !! k) as [h|] eqn:E; [by injection E0 as <- |]. case_if_in E0; [done |]. injection E0 as <-.
  split; [done | |]; simpl.
  - intros k' h [[<- <-] | [_ Hk]]%lookup_insert_Some; [| by apply Hh]. split.
    + assert (ofHost k (admitted a) = []) as Ea by (apply ofHost_unknown; auto).
      assert (ofHost k (startedCalls a) = []) as Es.
      { pose proof (sw_order _ _ Hs k) as [t Ht]. rewrite Ea in Ht. symmetry in Ht. by apply app_nil in Ht as [? _]. }
      split; simpl; try (intros i ?; rewrite lookup_empty; done).
      * unfold waitingCalls. by rewrite Es, Ea.
      * unfold runningCalls. by rewrite Es.
      * intros i Hi. by destruct (Hu k i E).
    + split; simpl; try lia; [constructor | | | |]; intros i; unfold underWay; simpl; rewrite ?lookup_empty; set_solver.
  - intros k' i [Hk _]%lookup_insert_None. by apply Hu.
Qed.

Lemma related_onHost s s' a k act :
  related s a → act ≠ StopAll → onHost k act s = Some s' →
  ∃ a', rtc (serve (workersPerHost s)) a a' ∧ related s' a'.
Proof.
  intros [Hs Hh Hu] Hact. unfold onHost. destruct (hosts s !! k) as [h|] eqn:Ek; [| done]. simpl.
  destruct (step (queueCap s) (workersPerHost s) act h) as [h'|] eqn:E; [| done]. intros [= <-].
  destruct (Hh k h Ek) as [Hrel Hwf].
  destruct (hostStep_followed _ _ k act h h' a E Hact Hwf Hs Hrel) as (a' & Hser & Hrel' & Hag).
  exists a'. split; [done |]. split; simpl.
  - by eapply serves_wf.
  - intros k' h0 [[<- <-] | [Hne Hk]]%lookup_insert_Some; [split; [done | by eapply step_wf] |].
    destruct (Hh k' h0 Hk) as [Hr0 Hw0]. split; [| done]. eapply hostRel_agree; [by apply Hag, not_eq_sym | done].
  - intros k' i [Hk Hne]%lookup_insert_None. destruct (Hag k') as (_ & _ & Hi); [by apply not_eq_sym |].
    rewrite (proj2 (Hi i)). by apply Hu.
Qed.

(** The forward simulation. *)
Lemma sstep_simulated e s s' a :
  related s a → sstep e s = Some s' → ∃ a', rtc (serve (workersPerHost s)) a a' ∧ related s' a'.
Proof.
  intros Hr. destruct e as [k i | k act |]; simpl.
  - destruct (getOrCreateHostScheduler k s) as [s1|] eqn:E; [| done]. simpl.
    destruct (getOrCreate_limits s s1 k E) as [<- _]. apply related_onHost; [by eapply related_create | done].
  - destruct (local act) eqn:El; [| done]. apply related_onHost; [done |]. by intros ->.
  - intros [= <-]. exists a. split; [done |]. destruct Hr as [Hs Hh Hu]. split; simpl; [done | |].
    + intros k h. rewrite lookup_fmap. intros (h0 & Hk & ->)%fmap_Some.
      destruct (Hh k h0 Hk) as [[] []]. by split.
    + intros k i. rewrite lookup_fmap. intros Hk%fmap_None. by apply Hu.
Qed.

Lemma sstep_limits e s s' :
  sstep e s = Some s' → workersPerHost s' = workersPerHost s ∧ queueCap s' = queueCap s.
Proof.
  assert (∀ k act s s', onHost k act s = Some s' →
    workersPerHost s' = workersPerHost s ∧ queueCap s' = queueCap s) as Hon.
  { intros k act t t'. unfold onHost. destruct (hosts t !! k); [| done]. simpl.
    destruct (step _ _ _ _); [| done]. by intros [= <-]. }
  destruct e as [k i | k act |]; simpl.
  - destruct (getOrCreateHostScheduler k s) as [s1|] eqn:E; [| done]. simpl. intros [-> ->]%Hon.
    by eapply getOrCreate_limits.
  - destruct (local act); [apply Hon | done].
  - by intros [= <-].
Qed.

Lemma srun_simulated l s s' a :
  related s a → srun l s = Some s' →
  (∃ a', rtc (serve (workersPerHost s)) a a' ∧ related s' a') ∧
  workersPerHost s' = workersPerHost s ∧ queueCap s' = queueCap s.
Proof.
  revert s a. induction l as [|e l IH]; intros s a Hr; simpl.
  - intros [= <-]. split; [by exists a | done].
  - destruct (sstep e s) as [s1|] eqn:E; [| done]. simpl. intros Hrun.
    destruct (sstep_simulated e s s1 a Hr E) as (a1 & S1 & R1). destruct (sstep_limits e s s1 E) as [E1 E2].
    destruct (IH s1 a1 R1 Hrun) as ((a2 & S2 & R2) & F1 & F2). rewrite E1, E2 in *.
    split; [| done]. exists a2. split; [by etrans | done].
Qed.

Lemma related_new p w c : related (NewScheduler p w c) idleService.
Proof.
  split; simpl; [apply idleService_wf | |].
  - intros k h. by rewrite lookup_empty.
  - intros k i _ Hin. by apply elem_of_nil in Hin.
Qed.

(** C7: the scheduler refines the abstract service.  For every sequence of calls,
    steps of callers and workers of any number of hosts, cancellations and [Stop],
    there is a run of the service, in which the calls of a host start in the order
    of their admission, each once, with at most [workers] of them running, that the
    scheduler's state reflects: what is queued for a host waits there, in order, and
    at most [queueCap] of it; what its workers hold is running; a response that a
    call of [Do] returned is the result of that call in the service. *)
Theorem scheduler_refines_service p w c l s :
  srun l (NewScheduler p w c) = Some s →
  let workers := workersPerHost (NewScheduler p w c) in
  ∃ a, rtc (serve workers) idleService a ∧
    (∀ k, ofHost k (startedCalls a) `prefix_of` ofHost k (admitted a) ∧
          NoDup (ofHost k (admitted a)) ∧ (length (runningCalls k a) ≤ workers)%nat) ∧
    ∀ k h, hosts s !! k = Some h →
      pair k <$> queue h = waitingCalls k a ∧ (length (queue h) ≤ queueCap (NewScheduler p w c))%nat ∧
      pair k <$> busy h = runningCalls k a ∧
      ∀ i resp, callers h !! i = Some (ReturnedWith (inr resp)) → results a !! (k, i) = Some (inr resp).
Proof.
  intros Hrun workers. destruct (srun_simulated l _ s _ (related_new p w c) Hrun) as ((a & Hser & [Hs Hh _]) & E1 & E2).
  exists a. split; [done |]. rewrite E1 in Hs, Hh. rewrite E2 in Hh. fold workers in Hs, Hh. split.
  - intros k. split_and!; [apply Hs | apply NoDup_filter, Hs | apply Hs].
  - intros k h Hk. destruct (Hh k h Hk) as [Hrel Hwf]. split_and!; [apply Hrel | apply Hwf | apply Hrel | apply Hrel].
Qed.

(** *** Example: two hosts, one worker each *)

Definition exEvents : list event :=
  [Call (str "a:80") 1; Call (str "b:80") 2; Call (str "a:80") 3; On (str "a:80") (Enqueue 3);
   On (str "b:80") (Enqueue 2); On (str "a:80") (Take 3); On (str "a:80") (Enqueue 1);
   On (str "a:80") (Execute 3 (inr exResponse)); On (str "a:80") (Receive 3); Stop].

Lemma scheduler_refines_service_witness :
  ∃ s h a, srun exEvents (NewScheduler 64 1 0) = Some s ∧ hosts s !! str "a:80" = Some h ∧
    pair (str "a:80") <$> queue h = waitingCalls (str "a:80") a ∧
    results a !! (str "a:80", 3%nat) = Some (inr exResponse).
Proof.
  destruct (srun exEvents (NewScheduler 64 1 0)) as [s|] eqn:E; [| exfalso; revert E; vm_compute; discriminate].
  destruct (scheduler_refines_service 64 1 0 exEvents s E) as (a & _ & _ & H).
  destruct (hosts s !! str "a:80") as [h|] eqn:Eh.
  - destruct (H _ h Eh) as (Hq & _ & _ & Hr). exists s, h, a. split_and!; [done | done | exact Hq |]. apply Hr.
    assert ((s' ← srun exEvents (NewScheduler 64 1 0); h' ← hosts s' !! str "a:80"; callers h' !! 3%nat)
            = Some (ReturnedWith (inr exResponse))) as Hc by (vm_compute; reflexivity).
    rewrite E in Hc. simpl in Hc. rewrite Eh in Hc. exact Hc.
  - exfalso. assert ((s' ← srun exEvents (NewScheduler 64 1 0); hosts s' !! str "a:80") ≠ None) as Hc
      by (vm_compute; discriminate).
    rewrite E in Hc. simpl in Hc. by rewrite Eh in Hc.
Defined.
