(* ===== verification/Client.v ===== *)
(** * Client: one request, several attempts (src/client.go)

    [NewClient], the request and response pools, [DoWithContext] with its retry
    loop, and the verbs built on it.  How an attempt reaches the server is the
    class [Transport]: the pool and a connection ([Transport.v]), or the
    scheduler.  A [sync.Pool] is the list of its objects; [Get] on an empty
    pool calls [New], which is counted. *)

From Stdlib Require Import SpecFloat.
From stdpp Require Import prelude list gmap.
From S2P Require Import Prelude Errors Metrics Strconv Float Ratelimit Config IO Scan Response Retry Request Compressor Scheduler Hosts.

(** ** NewClient *)

Record Client := mkClient {
  cl_config : Config;
  retryer : option Retryer;
  compressorLevel : option Z;
  cl_tls : option tlsConfig;
  scheduler : option SchedulerT;
  limiter : option tokenBucket;
  cl_metrics : bool
}.

(** [NewClient(config)]; [dialerErr] is the error of [NewDialer], [now] the clock. *)
Definition NewClient (dialerErr : option error) (config : option Config) (now : Z) : error + Client :=
  let c := Cfg.Validate (default Cfg.DefaultConfig config) in
  match dialerErr with
  | Some e => inl e
  | None => inr
      (mkClient c (NewRetryer c)
         (if Cfg.EnableCompression c then Some (NewCompressor (Cfg.CompressionLevel c)) else None)
         (if Cfg.UseTLS c then Some (Cfg.BuildTLSConfig c) else None)
         (if Cfg.EnableScheduler c
          then Some (NewScheduler (Cfg.PoolSize c) (Cfg.SchedulerWorkers c) (Cfg.SchedulerQueueDepth c)) else None)
         (if fgt (Cfg.RequestsPerSecond c) (fromInt 0) && (0 <? Cfg.BurstSize c)
          then newTokenBucket (Cfg.RequestsPerSecond c) (Cfg.BurstSize c) now else None)
         (Cfg.HasMetrics c))
  end.

(** [requestPool.New] and [responsePool.New] of the client. *)
Definition headerBufSize (c : Config) : Z :=
  if Cfg.HeaderBufferSize c <=? 0 then initialHeaderBufferSize else Cfg.HeaderBufferSize c.
Definition newRequest (c : Config) : Request :=
  let max := Cfg.MaxRequestBodySize c in
  let bodyBufSize := if (0 <? max) && (max <? initialRequestBodyBufferSize) then max
                     else initialRequestBodyBufferSize in
  Req.mkRequest [] [] [] [] false 0 0 false None [] 0 false [] false
    (replicate (Z.to_nat (headerBufSize c)) 0) 0 max [] (replicate (Z.to_nat bodyBufSize) 0) None None.
Definition newResponse (c : Config) : Response :=
  let max := Cfg.MaxResponseBodySize c in
  newPooledResponse (if (0 <? max) && (max <? initialResponseBufferSize) then max
                     else initialResponseBufferSize).

(** [acquireRequest()] on the object the pool hands out. *)
Definition acquireRequest (c : Config) (pooled : Request) : Request :=
  Req.set_maxBodySize (Cfg.MaxRequestBodySize c) (Req.Reset pooled).

(** [releaseRequest(req)]: the object put back. *)
Definition releaseRequest (c : Config) (r : Request) : Request :=
  let r := if initialRequestBodyBufferSize * 2 <? len (Req.bodyBuf r)
           then Req.set_bodyBuf (replicate (Z.to_nat initialRequestBodyBufferSize) 0) r else r in
  let r := if i64 (headerBufSize c * 2) <? len (Req.headerBuf r)
           then Req.set_headerBuf (replicate (Z.to_nat (headerBufSize c)) 0) r else r in
  Req.set_PreEncodedHeaderPrefix [] r.

(** ** The transport *)

(** What an attempt comes back with, beside an error without a response: no
    connection to be had, or a response (with or without an error). *)
Inductive reply := NoConnection | Returned (err : option error).

(** [exchange key useTLS] sends the request at hand and fills the response object;
    [W] is everything behind it. *)
Class Transport (W : Type) := {
  exchange : bytes → bool → go (Request * Response * W) error reply
}.

(** [fmt.Sprintf("%s://%s:%d", scheme, host, dialPort)] *)
Definition poolKey (useTLS : bool) (host : bytes) (port : Z) : bytes :=
  (if useTLS then str "https" else str "http") ++ str "://" ++ host ++ [COLON] ++ Itoa port.

(** ** DoWithContext *)

(** What the surroundings answer during one call: the error of a context that is
    already done, the turns of the limiter, and for attempt [i] the random number
    and the error that cuts the wait before it, its latency; at last [ctx.Err()]
    after a cancelled wait for the response. *)
Record callEnv := mkCallEnv {
  ce_ctx : nat;
  ce_done : option error;
  ce_limit : list (Z * option error);
  ce_rand : Z → float64;
  ce_cut : Z → option error;
  ce_elapsed : Z → Z;
  ce_ctxErr : error
}.

(** What a call works on: the request, the response pool with the number of
    objects [New] made, the collector, the limiter, and what is behind the
    transport. *)
Record state (W : Type) := mkState {
  st_req : Request;
  st_pool : list Response;
  st_made : nat;
  st_metrics : option BuiltinMetrics;
  st_limiter : option tokenBucket;
  st_world : W
}.
Arguments mkState {W} _ _ _ _ _ _.
Arguments st_req {W} _.
Arguments st_pool {W} _.
Arguments st_made {W} _.
Arguments st_metrics {W} _.
Arguments st_limiter {W} _.
Arguments st_world {W} _.

(** [(resp, err)] *)
Abbreviation result := (option Response * option error)%type.

(** [lastErr], [lastRetryStatus], [lastRetryAfterHdr], [lastRetryErr]. *)
Record lastTry := mkLast {
  lastErr : option error; lastRetryStatus : Z; lastRetryAfterHdr : bytes; lastRetryErr : option error
}.

Inductive verdict := Return (r : result) | Continue (l : lastTry).

Definition noConnErr : error :=
  LogErrorWithFlag ErrorTypeInternal "failed to get connection from pool" (ESentinel ErrConnectFailed).
Definition exhausted : error :=
  WrapError ErrorTypeInternal "max retries exhausted" (ESentinel ErrConnectFailed).

Section do_with_context.

Context {W : Type} `{Transport W}.
Variable urlParse : bytes → option urlParts.
Variable untilDate : bytes → option Z.
Variable cl : Client.
Variable env : callEnv.

Definition onRequest (f : Request → Request) : go (state W) error unit :=
  modify (λ s, mkState (f (st_req s)) (st_pool s) (st_made s) (st_metrics s) (st_limiter s) (st_world s)).
Definition onMetrics (f : BuiltinMetrics → BuiltinMetrics) : go (state W) error unit :=
  modify (λ s, mkState (st_req s) (st_pool s) (st_made s) (f <$> st_metrics s) (st_limiter s) (st_world s)).

(** [c.acquireResponse()] *)
Definition takeResponse : go (state W) error Response := λ s,
  let '(pooled, pool, made) :=
    match st_pool s with
    | p :: t => (p, t, st_made s)
    | [] => (newResponse (cl_config cl), [], S (st_made s))
    end in
  (Ret (acquireResponse pooled (Cfg.MaxResponseBodySize (cl_config cl))),
   mkState (st_req s) pool made (st_metrics s) (st_limiter s) (st_world s)).

(** [c.releaseResponse(resp)] *)
Definition giveResponse (p : Response) : go (state W) error unit :=
  modify (λ s, mkState (st_req s) (ReleaseResponse p :: st_pool s) (st_made s) (st_metrics s)
                 (st_limiter s) (st_world s)).

(** One exchange; its error is a value. *)
Definition runExchange (key : bytes) (useTLS : bool) (p : Response)
    : go (state W) error ((error + reply) * Response) := λ s,
  let '(o, (req, p, w)) := exchange key useTLS (st_req s, p, st_world s) in
  let s := mkState req (st_pool s) (st_made s) (st_metrics s) (st_limiter s) w in
  match o with
  | Ret r => (Ret (inr r, p), s)
  | Fail e => (Ret (inl e, p), s)
  | Panic => (Panic, s)
  | Hang => (Hang, s)
  end.

(** [c.retryer != nil && c.retryer.ShouldRetry(attempt, resp, err)] *)
Definition again (attempt : Z) (resp : option Response) (err : option error) : bool :=
  match retryer cl with Some r => ShouldRetry r attempt resp err | None => false end.

(** [c.metrics.RecordResponse(...)] *)
Definition recordResp (attempt status : Z) (err : bool) (written read : Z) : go (state W) error unit :=
  onMetrics (RecordResponse status err (Some (ce_elapsed env attempt)) written read).

(** The branch for a non-nil error; [given] says whether a response came with it. *)
Definition afterError (attempt : Z) (given : bool) (e : error) (p : Response) : go (state W) error verdict :=
  match e with
  | ERespTransferred =>
      mret (Return (None, Some (WrapError ErrorTypeTimeout "request cancelled" (ce_ctxErr env))))
  | _ =>
      if given && (0 <? StatusCode p) then
        _ ← recordResp attempt (StatusCode p) true 0 (ContentLength p);
        if again attempt (Some p) (Some e) then
          _ ← giveResponse p;
          mret (Continue (mkLast (Some e) (StatusCode p) (Header_ p (str "Retry-After")) (Some e)))
        else mret (Return (Some p, Some e))
      else
        _ ← giveResponse p;
        _ ← recordResp attempt 0 true 0 0;
        if again attempt None (Some e) then mret (Continue (mkLast (Some e) 0 [] (Some e)))
        else mret (Return (None, Some e))
  end.

(** The body of the loop after the wait. *)
Definition attemptOnce (key : bytes) (useTLS : bool) (attempt : Z) (l : lastTry) : go (state W) error verdict :=
  resp ← takeResponse;
  '(o, p) ← runExchange key useTLS resp;
  match o with
  | inr NoConnection =>
      _ ← giveResponse p;
      _ ← recordResp attempt 0 true 0 0;
      if again attempt None (Some noConnErr)
      then mret (Continue (mkLast (Some noConnErr) 0 [] (Some noConnErr)))
      else mret (Return (None, Some noConnErr))
  | inl e => afterError attempt false e p
  | inr (Returned (Some e)) => afterError attempt true e p
  | inr (Returned None) =>
      s ← get;
      _ ← recordResp attempt (StatusCode p) false (len (Req.Body (st_req s))) (ContentLength p);
      if again attempt (Some p) None then
        _ ← giveResponse p;
        mret (Continue (mkLast (lastErr l) (StatusCode p) (Header_ p (str "Retry-After")) (lastRetryErr l)))
      else mret (Return (Some p, None))
  end.

(** What precedes every attempt but the first: [inl] is an error to return. *)
Definition beforeRetry (attempt : Z) (l : lastTry) : go (state W) error (error + lastTry) :=
  _ ← onMetrics RecordRetry;
  let cut := match retryer cl with
             | Some r => WaitAdaptive untilDate r (ce_rand env attempt) (ce_cut env attempt) (attempt - 1)
                           (lastRetryStatus l) (lastRetryAfterHdr l) (lastRetryErr l)
             | None => None
             end in
  match cut with
  | Some e => mret (inl (WrapError ErrorTypeTimeout "retry wait cancelled" e))
  | None =>
      _ ← onRequest (λ r,
            let r := Req.set_urlParsed false r in
            if bool_decide (Req.URL r = []) then r else (resolveURL urlParse r).2);
      mret (inr (mkLast (lastErr l) 0 [] None))
  end.

(** The loop: [n] iterations are left before [attempt] reaches [maxAttempts]. *)
Fixpoint attemptLoop (n : nat) (key : bytes) (useTLS : bool) (attempt : Z) (l : lastTry) : go (state W) error result :=
  match n with
  | O => mret (None, Some (default exhausted (lastErr l)))
  | S n' =>
      b ← (if 0 <? attempt then beforeRetry attempt l else mret (inr l));
      match b with
      | inl e => mret (None, Some e)
      | inr l =>
          v ← attemptOnce key useTLS attempt l;
          match v with
          | Return r => mret r
          | Continue l => attemptLoop n' key useTLS (attempt + 1) l
          end
      end
  end.

Definition maxAttempts : Z :=
  match retryer cl with Some r => i64 (1 + maxRetries r) | None => 1 end.

(** [c.limiter.Wait(ctx)] *)
Definition passLimiter : go (state W) error (option error) := λ s,
  match st_limiter s with
  | None => (Ret None, s)
  | Some tb =>
      let '(o, tb) := Wait (ce_limit env) tb in
      let s := mkState (st_req s) (st_pool s) (st_made s) (st_metrics s) (Some tb) (st_world s) in
      match o with
      | Ret _ => (Ret None, s)
      | Fail e => (Ret (Some e), s)
      | Panic => (Panic, s)
      | Hang => (Hang, s)
      end
  end.

(** The target: the configured host, or the one of [req.URL]. *)
Definition target : go (state W) error (option (bytes * Z * bool)) := λ s,
  let c := cl_config cl in
  if bool_decide (Req.URL (st_req s) = []) then (Ret (Some (Cfg.Host c, Cfg.Port c, Cfg.UseTLS c)), s)
  else
    let '(x, r) := resolveURL urlParse (st_req s) in
    let upd r := mkState r (st_pool s) (st_made s) (st_metrics s) (st_limiter s) (st_world s) in
    if negb (rs_ok x) then (Ret None, upd r)
    else (Ret (Some (rs_host x, rs_port x, rs_tls x)), upd (Req.set_parsedPath (rs_path x) r)).

(** [DoWithContext(ctx, req)] for a non-nil request, the one at hand. *)
Definition DoWithContext : go (state W) error result :=
  _ ← onRequest (Req.set_ctx (Some (ce_ctx env)));
  match ce_done env with
  | Some e => mret (None, Some (WrapError ErrorTypeTimeout "request cancelled before send" e))
  | None =>
      refused ← passLimiter;
      match refused with
      | Some e => mret (None, Some (WrapError ErrorTypeTimeout "rate limit wait cancelled" e))
      | None =>
          t ← target;
          match t with
          | None => mret (None, Some (WrapError ErrorTypeValidation "invalid request URL" (ESentinel ErrInvalidURL)))
          | Some (host, port, useTLS) =>
              attemptLoop (Z.to_nat maxAttempts) (poolKey useTLS host port) useTLS 0 (mkLast None 0 [] None)
          end
      end
  end.

End do_with_context.

(** ** The verbs *)

(** The surroundings of [Do]: [context.Background()] is never done. *)
Definition inBackground (env : callEnv) : callEnv :=
  mkCallEnv (ce_ctx env) None ((λ t, (t.1, None)) <$> ce_limit env) (ce_rand env) (λ _, None)
    (ce_elapsed env) (ce_ctxErr env).

(** [for _, h := range headers { req.SetHeader(h.Key, h.Value) }] *)
Definition setHeaders (hs : list Header) (r : Request) : Request :=
  foldl (λ r h, (Req.SetHeader (Key h) (Value h) r).2) r hs.

Section verbs.

Context {W : Type} `{Transport W}.
Variable urlParse : bytes → option urlParts.
Variable untilDate : bytes → option Z.
Variable cl : Client.
Variable env : callEnv.

(** [Do(req)] *)
Definition Do : go (state W) error result := DoWithContext urlParse untilDate cl (inBackground env).

(** [req := c.acquireRequest(); defer c.releaseRequest(req)] around a call:
    [pooled] is what the request pool hands out, and the request at hand is, in
    the end, the object put back. *)
Definition withRequest (pooled : Request) (fill : Request → Request) (call : go (state W) error result)
    : go (state W) error result := λ s,
  let start := onRequest (W := W) (λ _, fill (acquireRequest (cl_config cl) pooled)) in
  let '(o, s') := (_ ← start; call) s in
  (o, (onRequest (W := W) (releaseRequest (cl_config cl)) s').2).

Definition Get (pooled : Request) (path : bytes) (headers : list Header) : go (state W) error result :=
  withRequest pooled (λ r, setHeaders headers (Req.set_Path path (Req.set_Method (str "GET") r))) Do.
Definition GetURL (pooled : Request) (rawURL : bytes) (headers : list Header) : go (state W) error result :=
  withRequest pooled (λ r, setHeaders headers (Req.set_URL rawURL (Req.set_Method (str "GET") r))) Do.
Definition Post (pooled : Request) (path body : bytes) (headers : list Header) : go (state W) error result :=
  withRequest pooled (λ r,
    setHeaders headers (Req.set_Body body (Req.set_Path path (Req.set_Method (str "POST") r)))) Do.
Definition PostURL (pooled : Request) (rawURL body : bytes) (headers : list Header) : go (state W) error result :=
  withRequest pooled (λ r,
    setHeaders headers (Req.set_Body body (Req.set_URL rawURL (Req.set_Method (str "POST") r)))) Do.
Definition Put (pooled : Request) (path body : bytes) (headers : list Header) : go (state W) error result :=
  withRequest pooled (λ r,
    setHeaders headers (Req.set_Body body (Req.set_Path path (Req.set_Method (str "PUT") r)))) Do.
Definition Patch (pooled : Request) (path body : bytes) (headers : list Header) : go (state W) error result :=
  withRequest pooled (λ r,
    setHeaders headers (Req.set_Body body (Req.set_Path path (Req.set_Method (str "PATCH") r)))) Do.
Definition Delete (pooled : Request) (path : bytes) (headers : list Header) : go (state W) error result :=
  withRequest pooled (λ r, setHeaders headers (Req.set_Path path (Req.set_Method (str "DELETE") r))) Do.
Definition Head (pooled : Request) (path : bytes) (headers : list Header) : go (state W) error result :=
  withRequest pooled (λ r, setHeaders headers (Req.set_Path path (Req.set_Method (str "HEAD") r))) Do.
Definition Options (pooled : Request) (path : bytes) (headers : list Header) : go (state W) error result :=
  withRequest pooled (λ r, setHeaders headers (Req.set_Path path (Req.set_Method (str "OPTIONS") r))) Do.

(** [strings.HasPrefix(s, p)] *)
Definition hasPrefix (s p : bytes) : bool := bool_decide (take (length p) s = p).

(** [DoReader(ctx, method, urlOrPath, bodyReader, contentLength, headers)]; the
    reader's state is returned beside the client's. *)
Definition DoReader {R} `{Reader R} (pooled : Request) (method urlOrPath : bytes) (contentLength : Z)
    (headers : list Header) : go (R * state W) error result := λ '(r, s),
  if negb (makeOK contentLength) then (Panic, (r, s))
  else
    let '(o, body, r) := ReadFull (Z.to_nat contentLength) r in
    match o with
    | Ret _ =>
        let isURL := hasPrefix urlOrPath (str "http://") || hasPrefix urlOrPath (str "https://") in
        let fill req :=
          let req := Req.set_Method method req in
          let req := if isURL then Req.set_URL urlOrPath req else Req.set_Path urlOrPath req in
          setHeaders headers (Req.set_Body body req) in
        let '(o, s) := withRequest pooled fill (DoWithContext urlParse untilDate cl env) s in
        (o, (r, s))
    | Fail e => (Ret (None, Some (WrapError ErrorTypeValidation "failed to read request body" e)), (r, s))
    | Panic => (Panic, (r, s))
    | Hang => (Hang, (r, s))
    end.

End verbs.
