(* ===== verification/ClientProps.v ===== *)
(** * ClientProps: what a call to the client promises

    The retry loop over any sequence of answers, the balance of the response
    pool over any transport, and the request [Post] gives to any transport. *)

From Stdlib Require Import SpecFloat.
From stdpp Require Import prelude list gmap.
From S2P Require Import Prelude Errors Metrics Strconv Float Ratelimit Config IO Scan Response Retry Request RequestProps Client.

Lemma pair_of_fst {A B} (x : A * B) a : x.1 = a → x = (a, x.2).
Proof. by destruct x; intros <-. Qed.

(** ** A transport that answers from a script *)

(** The answers of the successive attempts, each with the state in which it leaves
    the response object. *)
Abbreviation answer := (outcome error reply * Response)%type.

#[global] Instance script_Transport : Transport (list answer) := {
  exchange _ _ := λ '(req, p, w),
    match w with
    | [] => (Hang, (req, p, []))
    | (o, p') :: t => (o, (req, p', t))
    end
}.

(** ** The intended behaviour of the loop *)

(** What an attempt that is not repeated makes of its answer. *)
Definition outcomeOf (env : callEnv) (x : answer) : result :=
  let failed e :=
    match e with
    | ERespTransferred => (None, Some (WrapError ErrorTypeTimeout "request cancelled" (ce_ctxErr env)))
    | _ => (None, Some e)
    end in
  match x with
  | (Ret NoConnection, _) => (None, Some noConnErr)
  | (Ret (Returned None), p) => (Some p, None)
  | (Ret (Returned (Some e)), p) =>
      match e with
      | ERespTransferred => failed e
      | _ => if 0 <? StatusCode p then (Some p, Some e) else failed e
      end
  | (Fail e, _) => failed e
  | _ => (None, None)
  end.

(** The answers the retry policy repeats, while attempts are left. *)
Definition retryable (r : Retryer) (x : answer) : bool :=
  let byStatus p := bool_decide (StatusCode p ∈ statusCodes r) in
  match x with
  | (Ret NoConnection, _) => true
  | (Ret (Returned None), p) => byStatus p
  | (Ret (Returned (Some ERespTransferred)), _) => false
  | (Ret (Returned (Some e)), p) => IsRetryable (Some e) || ((0 <? StatusCode p) && byStatus p)
  | (Fail ERespTransferred, _) => false
  | (Fail e, _) => IsRetryable (Some e)
  | _ => false
  end.

Definition answered (x : answer) : Prop := match x.1 with Ret _ | Fail _ => True | _ => False end.

(** The calls of the collector: one per attempt that was not handed over, one per
    retry. *)
Definition tried (env : callEnv) (bodyLen i : Z) (x : answer) : list recorded :=
  let resp st err w n := [Response_ st err (Some (ce_elapsed env i)) w n] in
  match x with
  | (Ret NoConnection, _) => resp 0 true 0 0
  | (Ret (Returned None), p) => resp (StatusCode p) false bodyLen (ContentLength p)
  | (Ret (Returned (Some ERespTransferred)), _) | (Fail ERespTransferred, _) => []
  | (Ret (Returned (Some _)), p) =>
      if 0 <? StatusCode p then resp (StatusCode p) true 0 (ContentLength p) else resp 0 true 0 0
  | (Fail _, _) => resp 0 true 0 0
  | _ => []
  end.

Fixpoint calls (env : callEnv) (bodyLen i : Z) (xs : list answer) : list recorded :=
  match xs with
  | [] => []
  | x :: t => (if 0 <? i then [Retry_] else []) ++ tried env bodyLen i x ++ calls env bodyLen (i + 1) t
  end.

(** The state after the answers up to [w] were used and [evs] recorded. *)
Record progressed (s s' : state (list answer)) (evs : list recorded) (w : list answer) : Prop := {
  pg_world : st_world s' = w;
  pg_metrics : st_metrics s' = (λ m, foldl record m evs) <$> st_metrics s;
  pg_body : Req.Body (st_req s') = Req.Body (st_req s);
  pg_url : Req.URL (st_req s') = Req.URL (st_req s)
}.

Lemma progressed_trans s1 s2 s3 e1 e2 w1 w2 :
  progressed s1 s2 e1 w1 → progressed s2 s3 e2 w2 → progressed s1 s3 (e1 ++ e2) w2.
Proof.
  intros [] []. split; [done | | congruence | congruence].
  rewrite pg_metrics1, pg_metrics0. destruct (st_metrics s1); simpl; [| done]. by rewrite foldl_app.
Qed.

Lemma resolveURL_keeps urlParse r :
  Req.Body (resolveURL urlParse r).2 = Req.Body r ∧ Req.URL (resolveURL urlParse r).2 = Req.URL r.
Proof.
  unfold resolveURL. destruct (Req.urlParsed r); [done |].
  repeat (case_bool_decide || destruct (urlParse _) || case_if); done.
Qed.

Section loop.

Context (urlParse : bytes → option urlParts) (untilDate : bytes → option Z).
Context (cl : Client) (env : callEnv) (r : Retryer).
Hypothesis Hr : retryer cl = Some r.

Implicit Types s : state (list answer).

(** One attempt: it returns the intended outcome, or asks for another one exactly
    when the answer is retryable and attempts are left. *)
Lemma attemptOnce_script key tls i l s x t :
  answered x → st_world s = x :: t →
  ∃ v s', attemptOnce cl env key tls i l s = (Ret v, s') ∧
    progressed s s' (tried env (len (Req.Body (st_req s))) i x) t ∧
    if retryable r x && (i <? maxRetries r)
    then ∃ l', v = Continue l'
    else v = Return (outcomeOf env x).
Proof.
  intros Hx Hw. destruct s as [req pool made mt lm w]. simpl in Hw. subst w.
  destruct x as [o p]. unfold attemptOnce, takeResponse, runExchange.
  rewrite (Z.ltb_antisym (maxRetries r) i).
  unfold mbind, go_bind, mret, go_ret; simpl.
  destruct pool as [| p0 pool]; destruct o as [[| [e |]] | e | |]; try done; simpl.
  all: unfold again; rewrite ?Hr; unfold ShouldRetry; simpl.
  all: try (destruct e).
  all: unfold afterError, recordResp, giveResponse, onMetrics, modify, again, mbind, go_bind, mret, go_ret, ShouldRetry;
    rewrite ?Hr; simpl.
  all: repeat case_if; simpl in *; try congruence; unfold modify;
    eexists _, _; (split; [reflexivity |]; split; [split; simpl; try done; by destruct mt | eauto]).
Qed.

Lemma beforeRetry_script i l s :
  ce_cut env i = None →
  ∃ l' s', beforeRetry urlParse untilDate cl env i l s = (Ret (inr l'), s') ∧
    progressed s s' [Retry_] (st_world s).
Proof.
  intros Hc. unfold beforeRetry, onMetrics, onRequest, modify, WaitAdaptive, mbind, go_bind, mret, go_ret.
  rewrite Hr, Hc. set (d := adaptiveDelay _ _ _ _ _ _ _). destruct (d <=? 0).
  all: eexists _, _; (split; [reflexivity |]); split; simpl; try done;
    case_bool_decide; try done; by destruct (resolveURL_keeps urlParse (Req.set_urlParsed false (st_req s))).
Qed.

(** The loop uses up the retryable answers and returns what the next one means. *)
Lemma attemptLoop_script pre x post n key tls i l s :
  (∀ k, ce_cut env k = None) →
  Forall answered (pre ++ [x]) → Forall (λ y, retryable r y = true) pre →
  0 ≤ i → (length pre < n)%nat → Z.of_nat (length pre) + i ≤ maxRetries r →
  Z.of_nat (length pre) + i = maxRetries r ∨ retryable r x = false →
  st_world s = pre ++ x :: post →
  ∃ s', attemptLoop urlParse untilDate cl env n key tls i l s = (Ret (outcomeOf env x), s') ∧
    progressed s s' (calls env (len (Req.Body (st_req s))) i (pre ++ [x])) post.
Proof.
  intros Hcut. revert n i l s. induction pre as [| y pre IH]; intros n i l s Ha Hp Hi Hn Hm Hlast Hw.
  all: destruct n as [|n]; [simpl in *; lia |]; cbn [attemptLoop].
  all: assert (∃ l1 s1, (if 0 <? i then beforeRetry urlParse untilDate cl env i l else mret (inr l)) s
                        = (Ret (inr l1), s1) ∧
         progressed s s1 (if 0 <? i then [Retry_] else []) (st_world s)) as (l1 & s1 & E1 & P1)
    by (destruct (0 <? i); [by apply beforeRetry_script | by (eexists _, _; split; [done |]; split; try done; by destruct (st_metrics s))]).
  all: rewrite (bind_Ret _ _ _ _ _ E1); simpl in Ha; apply Forall_cons in Ha as [Hy Ha].
  all: rewrite Hw in P1.
  - destruct (attemptOnce_script key tls i l1 s1 x post Hy (pg_world _ _ _ _ P1)) as (v & s2 & E2 & P2 & Hv).
    rewrite (bind_Ret _ _ _ _ _ E2).
    assert (retryable r x && (i <? maxRetries r) = false) as Hf.
    { simpl in *. apply andb_false_iff. destruct Hlast; [right; lia | by left]. }
    rewrite Hf in Hv. subst v. eexists. split; [done |].
    simpl. rewrite app_nil_r, <- (pg_body _ _ _ _ P1). eapply progressed_trans; eassumption.
  - apply Forall_cons in Hp as [Hry Hp]. cbn [length] in *.
    destruct (attemptOnce_script key tls i l1 s1 y (pre ++ x :: post) Hy (pg_world _ _ _ _ P1)) as (v & s2 & E2 & P2 & Hv).
    rewrite (bind_Ret _ _ _ _ _ E2).
    rewrite Hry, (proj2 (Z.ltb_lt _ _)) in Hv by lia. destruct Hv as [l' ->].
    destruct (IH n (i + 1) l' s2) as (s3 & E3 & P3); try done; [lia | lia | lia | | exact (pg_world _ _ _ _ P2) |].
    { destruct Hlast; [left; lia | by right]. }
    eexists. split; [exact E3 |]. simpl.
    rewrite <- (pg_body _ _ _ _ P1). rewrite (pg_body _ _ _ _ P2) in P3.
    eapply progressed_trans; [eassumption |]. eapply progressed_trans; eassumption.
Qed.

End loop.

(** The checks that precede the first attempt. *)
Record admitted (urlParse : bytes → option urlParts) (env : callEnv) (s : state (list answer)) : Prop := {
  am_live : ce_done env = None;
  am_unlimited : st_limiter s = None;
  am_url : Req.URL (st_req s) = [] ∨ rs_ok (resolveURL urlParse (Req.set_ctx (Some (ce_ctx env)) (st_req s))).1 = true
}.

Lemma target_admitted urlParse cl env s :
  admitted urlParse env s →
  let s0 := mkState (Req.set_ctx (Some (ce_ctx env)) (st_req s)) (st_pool s) (st_made s) (st_metrics s)
              (st_limiter s) (st_world s) in
  ∃ t s', target urlParse cl s0 = (Ret (Some t), s') ∧ progressed s s' [] (st_world s).
Proof.
  intros [_ _ Hu] s0. unfold target. simpl.
  assert (st_metrics s = (λ m, foldl record m []) <$> st_metrics s) as Hm by (by destruct (st_metrics s)).
  change (Req.URL (Req.set_ctx _ ?r)) with (Req.URL r).
  case_bool_decide as E.
  - eexists _, s0. split; [done |]. by split.
  - destruct Hu as [? | Hu]; [done |].
    pose proof (resolveURL_keeps urlParse (Req.set_ctx (Some (ce_ctx env)) (st_req s))) as [Hb Hurl].
    destruct (resolveURL urlParse _) as [x r] eqn:Ex. simpl in *. rewrite Hu. simpl.
    eexists _, _. split; [done |]. by split.
Qed.


(** *** A concrete client, for the witnesses *)

Definition exRetryer : Retryer := mkRetryer 2 (100 * Millisecond) (5 * Second) (fromInt 2) false {[ 503 ]}.
Definition exClient : Client := mkClient Cfg.DefaultConfig (Some exRetryer) None None None None true.
Definition exCall : callEnv := mkCallEnv 1 None [] (λ _, fromInt 0) (λ _, None) (λ i, i) ECanceled.
Definition exAnswer (status : Z) : Response := mkResponse status 0 BNil [] [] 0 [].
Definition exState (w : list answer) : state (list answer) :=
  mkState (Req.set_Path (str "/") (newRequest (Cfg.set_ReadBufferSize 1 Cfg.DefaultConfig))) [] 0
    (Some NewBuiltinMetrics) None w.
Definition exRefused : answer := (Fail (ESentinel ErrConnectionClosed), exAnswer 0).
Definition exBusy : answer := (Ret (Returned None), exAnswer 503).
Definition exFine : answer := (Ret (Returned None), exAnswer 200).


(** ** The response pool, over any transport *)

Section balance.

Context {W : Type} `{Transport W}.
Context (urlParse : bytes → option urlParts) (untilDate : bytes → option Z) (cl : Client) (env : callEnv).

Implicit Types s : state W.

(** The response objects that are not in the pool. *)
Definition outside (s : state W) : Z := Z.of_nat (st_made s) - Z.of_nat (length (st_pool s)).

(** How many objects a result leaves outside: the one it returns, or the one a
    cancelled call left with the reader of a pipelined connection. *)
Definition owes (res : result) (n : Z) : Prop :=
  match res.1 with
  | Some _ => n = 1
  | None => is_Some res.2 ∧
      (n = 0 ∨ (n = 1 ∧ res.2 = Some (WrapError ErrorTypeTimeout "request cancelled" (ce_ctxErr env))))
  end.

Definition owesVerdict (v : verdict) (n : Z) : Prop :=
  match v with Return res => owes res n | Continue _ => n = 0 end.

Lemma afterError_balance i given e p s v s' :
  afterError cl env i given e p s = (Ret v, s') → owesVerdict v (outside s' - outside s + 1).
Proof.
  unfold afterError, recordResp, giveResponse, onMetrics, modify, mbind, go_bind, mret, go_ret, outside.
  intros E. destruct e; repeat case_if_in E; simplify_eq/=; unfold owes; simpl;
    first [lia | split; [done |]; first [left; lia | right; split; [lia | done]]].
Qed.

Lemma attemptOnce_balance key tls i l s v s' :
  attemptOnce cl env key tls i l s = (Ret v, s') → owesVerdict v (outside s' - outside s).
Proof.
  unfold attemptOnce. intros E.
  assert (∃ p s1, takeResponse cl s = (Ret p, s1) ∧ outside s1 = outside s + 1) as (p & s1 & E1 & O1).
  { unfold takeResponse, outside. destruct (st_pool s); eexists _, _; (split; [done |]); simpl; lia. }
  rewrite (bind_Ret _ _ _ _ _ E1) in E.
  unfold mbind at 1, go_bind at 1 in E. unfold runExchange in E at 1.
  destruct (exchange key tls (st_req s1, p, st_world s1)) as [o [[req p'] w]].
  set (s2 := mkState req (st_pool s1) (st_made s1) (st_metrics s1) (st_limiter s1) w) in E.
  assert (outside s2 = outside s + 1) as O2 by done. clearbody s2.
  replace (outside s' - outside s) with (outside s' - outside s2 + 1) by lia.
  destruct o as [[| [e |]] | e | |]; try done.
  2, 4: by eapply afterError_balance.
  all: unfold recordResp, giveResponse, onMetrics, modify, get, mbind, go_bind, mret, go_ret in E.
  all: repeat case_if_in E; simplify_eq/=; unfold owes, outside; simpl; first [lia | split; [done | left; lia]].
Qed.

Lemma beforeRetry_balance i l s b s' :
  beforeRetry urlParse untilDate cl env i l s = (Ret b, s') → outside s' = outside s.
Proof.
  unfold beforeRetry, onMetrics, onRequest, modify, mbind, go_bind, mret, go_ret.
  set (cut := match retryer cl with Some _ => _ | None => _ end).
  intros E. destruct cut; by simplify_eq/=.
Qed.

Lemma attemptLoop_balance n key tls i l s res s' :
  attemptLoop urlParse untilDate cl env n key tls i l s = (Ret res, s') → owes res (outside s' - outside s).
Proof.
  revert i l s. induction n as [|n IH]; intros i l s; cbn [attemptLoop].
  { intros E. unfold mret, go_ret in E. simplify_eq. unfold owes. simpl. split; [done | left; lia]. }
  set (b := if 0 <? i then _ else _). unfold mbind at 1, go_bind at 1.
  destruct (b s) as [[[e | l'] | | |] s1] eqn:Eb; try done.
  all: assert (outside s1 = outside s) as O1
    by (unfold b in Eb; destruct (0 <? i); [by eapply beforeRetry_balance | unfold mret, go_ret in Eb; by simplify_eq]).
  { unfold mret, go_ret. intros [= <- <-]. unfold owes. simpl. split; [done | left; lia]. }
  unfold mbind, go_bind. destruct (attemptOnce _ _ _ _ _ _ s1) as [[v | | |] s2] eqn:Ea; try done.
  pose proof (attemptOnce_balance _ _ _ _ _ _ _ Ea) as Hv. destruct v as [res' | l2]; simpl in Hv.
  - unfold mret, go_ret. intros [= <- <-]. by rewrite <- O1.
  - intros E. apply IH in E. by replace (outside s' - outside s) with (outside s' - outside s2) by lia.
Qed.

Lemma DoWithContext_balance s s' res :
  DoWithContext urlParse untilDate cl env s = (Ret res, s') → owes res (outside s' - outside s).
Proof.
  unfold DoWithContext. unfold mbind at 1, go_bind at 1, onRequest, modify.
  set (s0 := mkState _ _ _ _ _ _). change (outside s) with (outside s0). clearbody s0.
  assert (∀ e, owes (None, Some e) 0) as H0 by (intros; split; [done | by left]).
  destruct (ce_done env); [unfold mret, go_ret; intros; simplify_eq; by rewrite Z.sub_diag |].
  unfold mbind at 1, go_bind at 1. destruct (passLimiter env s0) as [[a | | |] s1] eqn:Ea; try done.
  assert (outside s1 = outside s0) as <-.
  { unfold passLimiter in Ea. destruct (st_limiter s0) as [tb |]; [| by simplify_eq].
    destruct (Wait _ tb) as [[] tb']; by simplify_eq. }
  destruct a; [unfold mret, go_ret; intros; simplify_eq; by rewrite Z.sub_diag |].
  unfold mbind, go_bind. destruct (target urlParse cl s1) as [[t | | |] s2] eqn:Et; try done.
  assert (outside s2 = outside s1) as <-.
  { unfold target in Et. case_bool_decide; [by simplify_eq |].
    destruct (resolveURL urlParse _). case_if_in Et; by simplify_eq. }
  destruct t as [[[host port] tls] |]; [apply attemptLoop_balance |].
  unfold mret, go_ret; intros; simplify_eq; by rewrite Z.sub_diag.
Qed.

End balance.

(** C21: no call leaks or double-frees a response object, over any transport and
    any number of retries: the call returns a response or an error; when the call returns a response exactly one object
    more is outside the pool, the one returned; when it returns none, every
    object acquired on the way is back in the pool, unless the call was cancelled
    while a pipelined connection held the object. *)
Theorem response_objects_balanced {W} `{Transport W} urlParse untilDate cl env (s s' : state W) res :
  DoWithContext urlParse untilDate cl env s = (Ret res, s') →
  owes env res (outside s' - outside s).
Proof. apply DoWithContext_balance. Qed.

Lemma response_objects_balanced_witness :
  let run := DoWithContext (λ _, None) (λ _, None) exClient exCall in
  let s := exState [exRefused; exBusy; exBusy] in
  (run s).1 = Ret (Some (exAnswer 503), None) ∧
  owes exCall (Some (exAnswer 503), None) (outside (run s).2 - outside s).
Proof.
  intros run s. assert (E : (run s).1 = Ret (Some (exAnswer 503), None)) by (vm_compute; reflexivity).
  split; [exact E |].
  exact (response_objects_balanced (λ _, None) (λ _, None) exClient exCall s (run s).2
           (Some (exAnswer 503), None) (pair_of_fst _ _ E)).
Defined.

(** ** A call settled by its first attempt *)

(** The response object the next attempt works on. *)
Definition nextResponse {W} (cl : Client) (s : state W) : Response :=
  acquireResponse (hd (newResponse (cl_config cl)) (st_pool s)) (Cfg.MaxResponseBodySize (cl_config cl)).

Lemma maxAttempts_pos cl :
  0 ≤ default 0 (maxRetries <$> retryer cl) < maxInt64 → ∃ n, Z.to_nat (maxAttempts cl) = S n.
Proof.
  intros Hm. unfold maxAttempts. destruct (retryer cl) as [r |]; simpl in *; [| by exists 0%nat].
  rewrite i64_small by (unfold int64_range; lia). exists (Z.to_nat (maxRetries r)). lia.
Qed.

Lemma DoWithContext_at_once {W} `{Transport W} urlParse untilDate cl env (s : state W) req' p' w' :
  let cfg := cl_config cl in
  ce_done env = None → st_limiter s = None → Req.URL (st_req s) = [] →
  0 ≤ default 0 (maxRetries <$> retryer cl) < maxInt64 →
  (∀ r, retryer cl = Some r → StatusCode p' ∉ statusCodes r) →
  exchange (poolKey (Cfg.UseTLS cfg) (Cfg.Host cfg) (Cfg.Port cfg)) (Cfg.UseTLS cfg)
    (Req.set_ctx (Some (ce_ctx env)) (st_req s), nextResponse cl s, st_world s) = (Ret (Returned None), (req', p', w')) →
  ∃ s', DoWithContext urlParse untilDate cl env s = (Ret (Some p', None), s') ∧ st_world s' = w'.
Proof.
  intros cfg Hdone Hlim Hurl Hmax Hst E. subst cfg.
  unfold DoWithContext, onRequest, modify, mbind, go_bind. rewrite Hdone. unfold passLimiter. cbn [st_limiter]. rewrite Hlim.
  unfold target. cbn [st_req]. change (Req.URL (Req.set_ctx ?x ?r)) with (Req.URL r). rewrite Hurl.
  rewrite bool_decide_eq_true_2 by done. destruct (maxAttempts_pos cl Hmax) as [k ->].
  cbn [attemptLoop]. rewrite Z.ltb_irrefl. unfold mbind, go_bind, mret, go_ret.
  assert (again cl 0 (Some p') None = false) as Hno.
  { unfold again, ShouldRetry. destruct (retryer cl) as [r |]; [| done].
    destruct (_ <=? _); [done |]. simpl. by rewrite bool_decide_eq_false_2 by (by apply Hst). }
  unfold attemptOnce, takeResponse, mbind, go_bind. unfold nextResponse in E.
  destruct (st_pool s) as [|q pool] eqn:Epool; cbn [st_pool hd] in *; rewrite ?Epool;
    unfold runExchange; cbn [st_req st_world]; rewrite E; cbn [st_req];
    unfold get, recordResp, onMetrics, modify; rewrite Hno; by eexists.
Qed.

(** ** The request a verb sends *)

(** Any transport, with a note of what it is given: the pool key, whether over TLS, and
    the request. *)
Record noted (W : Type) := mkNoted { seen : list (bytes * bool * Request); inner : W }.
Arguments mkNoted {W} _ _.
Arguments seen {W} _.
Arguments inner {W} _.
#[global] Instance noted_Transport {W} `{Transport W} : Transport (noted W) := {
  exchange key tls := λ '(req, p, w),
    let '(o, (req', p', w')) := exchange key tls (req, p, inner w) in
    (o, (req', p', mkNoted (seen w ++ [(key, tls, req)]) w'))
}.

Section noting.

Context {W : Type} `{Transport W}.
Variable urlParse : bytes → option urlParts.
Variable untilDate : bytes → option Z.
Variable cl : Client.
Variable env : callEnv.

Definition sees (s : state (noted W)) : list (bytes * bool * Request) := seen (st_world s).

(** [m] notes at least [l s], and what was noted stays. *)
Definition notes {A} (m : go (state (noted W)) error A) (l : state (noted W) → list (bytes * bool * Request)) : Prop :=
  ∀ s, (sees s ++ l s) `prefix_of` sees (m s).2.
Definition keeps {A} (m : go (state (noted W)) error A) : Prop := notes m (λ _, []).

Lemma keeps_same {A} (m : go (state (noted W)) error A) : (∀ s, sees (m s).2 = sees s) → keeps m.
Proof. intros E s. by rewrite E, app_nil_r. Qed.

Lemma notes_bind {A B} (m : go (state (noted W)) error A) (k : A → go (state (noted W)) error B) l :
  notes m l → (∀ a, keeps (k a)) → notes (m ≫= k) l.
Proof.
  intros Hm Hk s. unfold mbind, go_bind. specialize (Hm s). destruct (m s) as [[a | e | |] s1]; try exact Hm.
  etrans; [exact Hm |]. specialize (Hk a s1). by rewrite app_nil_r in Hk.
Qed.

Lemma keeps_mret {A} (a : A) : keeps (mret a).
Proof. by apply keeps_same. Qed.

Lemma keeps_giveResponse p : keeps (giveResponse p).
Proof. by apply keeps_same. Qed.
Lemma keeps_recordResp i st err w r : keeps (recordResp env i st err w r).
Proof. by apply keeps_same. Qed.
Lemma keeps_onRequest f : keeps (onRequest f).
Proof. by apply keeps_same. Qed.
Lemma keepsSeen_get : keeps get.
Proof. by apply keeps_same. Qed.

#[local] Hint Resolve keeps_mret keeps_giveResponse keeps_recordResp keeps_onRequest keepsSeen_get : burst.

Lemma keeps_then {A B} (m : go (state (noted W)) error A) (k : A → go (state (noted W)) error B) :
  keeps m → (∀ a, keeps (k a)) → keeps (m ≫= k).
Proof. apply notes_bind. Qed.

Lemma keepsSeen_if {A} (b : bool) (m m' : go (state (noted W)) error A) : keeps m → keeps m' → keeps (if b then m else m').
Proof. by destruct b. Qed.

#[local] Hint Resolve keeps_then keepsSeen_if : burst.

Lemma keeps_afterError i given e p : keeps (afterError cl env i given e p).
Proof. unfold afterError. destruct e; auto 8 with burst. Qed.

Lemma notes_runExchange key tls p : notes (runExchange key tls p) (λ s, [(key, tls, st_req s)]).
Proof.
  intros s. unfold runExchange, sees. cbn [exchange noted_Transport].
  destruct (exchange key tls (st_req s, p, inner (st_world s))) as [o [[req' p'] w']]. by destruct o.
Qed.

Lemma notes_attemptOnce key tls i l : notes (attemptOnce cl env key tls i l) (λ s, [(key, tls, st_req s)]).
Proof.
  intros s. unfold attemptOnce.
  assert (∃ p s1, takeResponse cl s = (Ret p, s1) ∧ sees s1 = sees s ∧ st_req s1 = st_req s) as (p & s1 & E & <- & <-).
  { unfold takeResponse. destruct (st_pool s); by eexists _, _. }
  rewrite (bind_Ret _ _ _ _ _ E). revert s1 E. intros s1 _.
  apply (notes_bind _ _ (λ s, [(key, tls, st_req s)]) (notes_runExchange key tls p)). intros [o p'].
  destruct o as [e | [| [e |]]]; try apply keeps_afterError.
  - apply notes_bind; [apply keeps_giveResponse |]. intros _. apply notes_bind; [apply keeps_recordResp |].
    intros _. case_if; apply keeps_mret.
  - apply notes_bind; [apply keepsSeen_get |]. intros s2. apply notes_bind; [apply keeps_recordResp |].
    intros _. case_if; [| apply keeps_mret]. apply notes_bind; [apply keeps_giveResponse |]. intros _. apply keeps_mret.
Qed.

Lemma keeps_attemptOnce key tls i l : keeps (attemptOnce cl env key tls i l).
Proof.
  intros s. rewrite app_nil_r. etrans; [| apply notes_attemptOnce]. by apply prefix_app_r.
Qed.

Lemma keeps_beforeRetry i l : keeps (beforeRetry urlParse untilDate cl env i l).
Proof.
  unfold beforeRetry. apply notes_bind; [by apply keeps_same |]. intros _. cbv zeta.
  set (cut := match retryer cl with Some _ => _ | None => _ end). destruct cut; [apply keeps_mret |].
  apply notes_bind; [apply keeps_onRequest | intros _; apply keeps_mret].
Qed.

Lemma keeps_attemptLoop n key tls i l : keeps (attemptLoop urlParse untilDate cl env n key tls i l).
Proof.
  revert i l. induction n as [|n IH]; intros i l; cbn [attemptLoop]; [apply keeps_mret |].
  apply notes_bind; [destruct (0 <? i); [apply keeps_beforeRetry | apply keeps_mret] |].
  intros [e | l']; [apply keeps_mret |]. apply notes_bind; [apply keeps_attemptOnce |].
  intros [r | l2]; [apply keeps_mret | apply IH].
Qed.

End noting.

(** The first exchange of a call is given the request at hand, with its context. *)
Lemma Do_noted {W} `{Transport W} urlParse untilDate cl env (s : state (noted W)) :
  let cfg := cl_config cl in
  st_limiter s = None → Req.URL (st_req s) = [] → 0 ≤ default 0 (maxRetries <$> retryer cl) < maxInt64 →
  (sees s ++ [(poolKey (Cfg.UseTLS cfg) (Cfg.Host cfg) (Cfg.Port cfg), Cfg.UseTLS cfg,
               Req.set_ctx (Some (ce_ctx env)) (st_req s))])
    `prefix_of` sees (Do urlParse untilDate cl env s).2.
Proof.
  intros cfg Hl Hu Hm. unfold Do, DoWithContext.
  unfold mbind at 1, go_bind at 1, onRequest, modify. cbn [inBackground ce_done ce_ctx].
  set (s0 := mkState _ _ _ _ _ _).
  rewrite (bind_Ret _ _ s0 None s0) by (unfold passLimiter; unfold s0; cbn [st_limiter]; by rewrite Hl).
  rewrite (bind_Ret _ _ s0 (Some (Cfg.Host cfg, Cfg.Port cfg, Cfg.UseTLS cfg)) s0).
  2: { unfold target, s0. cbn [st_req]. change (Req.URL (Req.set_ctx ?c ?r)) with (Req.URL r). by rewrite Hu. }
  destruct (maxAttempts_pos cl Hm) as [n ->]. cbn [attemptLoop]. rewrite Z.ltb_irrefl.
  rewrite (bind_Ret _ _ s0 (inr (mkLast None 0 [] None)) s0) by done.
  refine (notes_bind _ _ _ (notes_attemptOnce cl (inBackground env) _ _ _ _) _ s0).
  intros [r | l]; [apply keeps_mret | apply keeps_attemptLoop].
Qed.

(** Two requests that differ in their header buffer only. *)
Definition sameFields (r r' : Request) : Prop :=
  ∃ b n, r' = Req.set_headerLen n (Req.set_headerBuf b r).

Lemma sameFields_refl r : sameFields r r.
Proof. exists (Req.headerBuf r), (Req.headerLen r). by destruct r. Qed.
Lemma sameFields_trans r1 r2 r3 : sameFields r1 r2 → sameFields r2 r3 → sameFields r1 r3.
Proof. intros (b & n & ->) (b' & n' & ->). by exists b', n'. Qed.

Lemma SetHeader_sameFields k v r : sameFields r (Req.SetHeader k v r).2.
Proof.
  assert (∀ r1, sameFields r r1 → sameFields r (Req.putHeader k v r1)) as Hput.
  { intros r1 H1. eapply sameFields_trans; [exact H1 |]. by eexists _, _. }
  assert (∀ b, sameFields r (Req.set_headerBuf b r)) as Hbuf.
  { intros b. exists b, (Req.headerLen r). by destruct r. }
  assert (∀ n, sameFields r (Req.ensureHeaderBufferSize n r).2) as Hens.
  { intros n. unfold Req.ensureHeaderBufferSize. cbv zeta.
    destruct (n <=? _); [apply sameFields_refl |]. set (m := roundUp _ _). clearbody m.
    destruct (_ <? m); [destruct (_ <? n) |]; cbn [snd]; [apply sameFields_refl | apply Hbuf | apply Hbuf]. }
  unfold Req.SetHeader. destruct (_ || _); [apply sameFields_refl |]. cbv zeta.
  destruct (_ <? _); [| apply Hput, sameFields_refl].
  specialize (Hens (Z.of_nat (Req.headerLen r) + (len k + 2 + len v + 2))).
  destruct (Req.ensureHeaderBufferSize _ r) as [[] r1]; cbn [snd] in *; [by apply Hput | done].
Qed.

Lemma setHeaders_setAll hs r : setHeaders hs r = (setAll hs r).2 ∧ sameFields r (setHeaders hs r).
Proof.
  revert r. induction hs as [|h hs IH]; intros r; [split; [done | apply sameFields_refl] |].
  unfold setHeaders in *. cbn [foldl setAll].
  destruct (IH (Req.SetHeader (Key h) (Value h) r).2) as [E1 S1]. split.
  - rewrite E1. destruct (Req.SetHeader (Key h) (Value h) r) as [ok r1]. simpl. by destruct (setAll hs r1).
  - eapply sameFields_trans; [apply SetHeader_sameFields | exact S1].
Qed.

(** C34: what [Post] sends comes from its arguments alone.  Whatever request object the
    pool hands out, with whatever an earlier call left in it (its header buffer consistent),
    over any transport and whatever it answers, without a limiter: the first exchange is for
    the configured host, with method POST, the given path and body, no URL, no compression,
    no timeouts and no pre-encoded prefix, and its header block is exactly the lines of the
    call's headers in order, those apart that contain CR or LF or no longer fit ([acceptedHeaders];
    up to 65536 headers of at most 1 MB); what was noted before stays, retries are noted
    behind it; afterwards the object is back in the pool without a pre-encoded prefix. *)
Theorem Post_sends_its_arguments {W} `{Transport W} urlParse untilDate cl env (s : state (noted W)) pooled path body hs :
  let cfg := cl_config cl in
  st_limiter s = None → 0 ≤ default 0 (maxRetries <$> retryer cl) < maxInt64 →
  headersOK pooled → moderate hs →
  let s' := (Post urlParse untilDate cl env pooled path body hs s).2 in
  ∃ q retries, seen (st_world s') = seen (st_world s) ++
      (poolKey (Cfg.UseTLS cfg) (Cfg.Host cfg) (Cfg.Port cfg), Cfg.UseTLS cfg, q) :: retries ∧
    Req.Method q = str "POST" ∧ Req.Path q = path ∧ Req.Body q = body ∧ Req.URL q = [] ∧
    Req.Compressed q = false ∧ Req.ReadTimeout q = 0 ∧ Req.WriteTimeout q = 0 ∧
    Req.PreEncodedHeaderPrefix q = [] ∧ Req.parsedPath q = [] ∧ Req.ctx q = Some (ce_ctx env) ∧
    headerBlock q = renderHeaders (acceptedHeaders (headerRoom pooled) 0 hs) ∧
    Req.PreEncodedHeaderPrefix (st_req s') = [].
Proof.
  intros cfg Hl Hm Hok [Hhs Hn] s'.
  set (r0 := Req.set_Body body (Req.set_Path path (Req.set_Method (str "POST") (acquireRequest (cl_config cl) pooled)))).
  assert (represents r0 []) as H0 by (split; [| done]; split; [simpl; lia | apply Hok]).
  pose proof (setAll_represents hs r0 [] H0 Hhs) as Hrep.
  pose proof (setAll_accepted hs r0 (proj1 H0) Hhs) as Hacc.
  destruct (setHeaders_setAll hs r0) as [E (b & n & Hsame)]. rewrite Hsame in E.
  destruct (setAll hs r0) as [acc r1]. simpl in E, Hrep, Hacc. subst r1.
  destruct Hrep as ([_ HB] & _ & _); [lia |]. rewrite Hacc in HB by lia.
  set (s0 := mkState (setHeaders hs r0) (st_pool s) (st_made s) (st_metrics s) (st_limiter s) (st_world s)).
  destruct (Do_noted urlParse untilDate cl env s0) as [retries E1]; [done | by simpl; rewrite Hsame | done |].
  assert (s' = (onRequest (W := noted W) (releaseRequest (cl_config cl)) (Do urlParse untilDate cl env s0).2).2) as Es'.
  { unfold s', Post, withRequest. unfold onRequest at 1, modify at 1, mbind, go_bind.
    fold r0 s0. by destruct (Do urlParse untilDate cl env s0). }
  unfold sees in E1. rewrite <- app_assoc in E1.
  eexists _, retries. rewrite Es'. unfold onRequest, modify. cbn [fst snd st_world st_req]. split; [exact E1 |].
  simpl st_req. rewrite Hsame. split_and!; try done.
Qed.

Lemma Post_sends_its_arguments_witness :
  let cfg := cl_config exClient in
  let s := mkState Req.newPooledRequest [] 0 None None (mkNoted [] (st_world (exState [exRefused]))) in
  let used := Req.set_PreEncodedHeaderPrefix (str "stale") (Req.set_Compressed true Req.newPooledRequest) in
  let hs := [mkHeader (str "X-A") (str "1"); mkHeader (str "X-B") (str "2" ++ crlf)] in
  let s' := (Post (λ _, None) (λ _, None) exClient exCall used (str "/p") (str "b") hs s).2 in
  ∃ q retries, seen (st_world s') = seen (st_world s) ++
      (poolKey (Cfg.UseTLS cfg) (Cfg.Host cfg) (Cfg.Port cfg), Cfg.UseTLS cfg, q) :: retries ∧
    Req.Method q = str "POST" ∧ Req.Path q = str "/p" ∧ Req.Body q = str "b" ∧
    headerBlock q = str "X-A: 1" ++ crlf.
Proof.
  intros cfg s used hs.
  destruct (Post_sends_its_arguments (λ _, None) (λ _, None) exClient exCall s used (str "/p") (str "b") hs)
    as (q & retries & E & H1 & H2 & H3 & _ & _ & _ & _ & _ & _ & _ & H4 & _).
  - done.
  - simpl. lia.
  - split; [apply Nat.le_0_l | by vm_compute].
  - split; [repeat constructor; by vm_compute | by vm_compute].
  - exists q, retries. split; [exact E |]. do 3 (split; [done |]). rewrite H4. by vm_compute.
Defined.
