(* ===== verification/Transport.v ===== *)
(** * Transport: the client over its connection pool

    The [Transport] of a client without a scheduler: [pool.GetConnection] and
    [conn.Do] (src/client.go lines 258-272, src/connection.go [Do]), put together
    from the models of the pool and of the connection; and a call followed from
    [DoWithContext] down to the bytes on the wire and back. *)

From Stdlib Require Import SpecFloat.
From stdpp Require Import prelude list gmap.
From S2P Require Import Prelude Errors Metrics Strconv Float Ratelimit Config IO Scan Response Retry Request Writer WriterProps Parser ParserFacts ParserSpec Connection ConnectionProps.
From S2P Require Import Pipeline PipelineProps PipelineCall Pool PoolProps Client ClientProps.

(** What one exchange meets: the dials of [GetConnection] and the surroundings of
    the round trip. *)
Record exchangeInput := mkInput { xi_dials : list dialAttempt; xi_env : surroundings }.

(** The pool, the connections, the reader goroutines of the pipelined ones, and what
    the exchanges to come will meet. *)
Record backend := mkBackend {
  bk_pool : Pool; bk_heap : heap; bk_readers : gmap nat piping; bk_inputs : list exchangeInput
}.

(** The reader goroutine of connection [i]; none before the first pipelined call. *)
Definition readerOf (w : backend) (i : nat) : piping := default (None, false) (bk_readers w !! i).

Section backend.

Variable gzip : bytes → error + bytes.
Variable gunzip : bytes → gzipResult.

(** [Do(req)] of a connection, the request not nil; the reader goroutine concerns the
    pipelined mode only. *)
Definition connDo (env : surroundings) : go (trip * piping) error unit := λ '(t, pp),
  let '(ok, c) := Con.ensureConnection (env_dial env) (env_now env) (t_conn t) in
  let t := mkTrip c (t_req t) (t_resp t) in
  if negb ok then (Fail (WrapError ErrorTypeNetwork "connection failed" (ESentinel ErrConnectFailed)), (t, pp))
  else if Cfg.EnablePipelining (Con.config c) then doPipelined gzip gunzip env (t, pp)
  else onL (doSequential gzip gunzip env) (t, pp).

(** [pool.GetConnection(key, useTLS)], the host pool written back; no key means the
    configured host. *)
Definition poolGetConnection (dials : list dialAttempt) (key : bytes) (useTLS : bool) (p : Pool) (σ : heap)
    : outcome error (option nat) * (Pool * heap) :=
  let c := pl_config p in
  let '(key, useTLS) := if bool_decide (key = [])
                        then (poolKey (Cfg.UseTLS c) (Cfg.Host c) (Cfg.Port c), Cfg.UseTLS c) else (key, useTLS) in
  let '(hp, p) := getHostPool key useTLS p in
  let '(o, (hp, σ)) := GetConnection dials hp σ in
  (o, (mkPool (<[key := hp]> (hostPools p)) (pl_config p) (nextConnID p), σ)).

(** The pipelined or sequential exchange of one attempt. *)
Definition backendExchange (key : bytes) (useTLS : bool) : go (Request * Response * backend) error reply :=
  λ '(req, p, w),
    match bk_inputs w with
    | [] => (Hang, (req, p, w))
    | x :: inputs =>
        let '(o, (pool, σ)) := poolGetConnection (xi_dials x) key useTLS (bk_pool w) (bk_heap w) in
        let w := mkBackend pool σ (bk_readers w) inputs in
        match o with
        | Ret (Some i) =>
            match σ !! i with
            | None => (Panic, (req, p, w))
            | Some c =>
                let '(o, (t, pp)) := connDo (xi_env x) (mkTrip c req (Some p), readerOf w i) in
                let w := mkBackend pool (<[i := t_conn t]> σ) (<[i := pp]> (bk_readers w)) inputs in
                let out := (t_req t, default p (t_resp t), w) in
                match o with
                | Ret _ => (Ret (Returned None), out)
                | Fail e => (Fail e, out)
                | Panic => (Panic, out)
                | Hang => (Hang, out)
                end
            end
        | Ret None => (Ret NoConnection, (req, p, w))
        | Fail e => (Fail e, (req, p, w))
        | Panic => (Panic, (req, p, w))
        | Hang => (Hang, (req, p, w))
        end
    end.

#[local] Instance backend_Transport : Transport backend := { exchange := backendExchange }.

(** ** A call, end to end *)

(** [i] is the one idle connection of the pool of the configured host. *)
Record idleAt (cl : Client) (w : backend) (i : nat) (c : Connection) : Prop := {
  ia_pool : ∃ hp, hostPools (bk_pool w) !! poolKey (Cfg.UseTLS (cl_config cl)) (Cfg.Host (cl_config cl)) (Cfg.Port (cl_config cl)) = Some hp ∧
    scannable hp ∧ i ∈ hostConns hp ∧ ∀ j, j ∈ hostConns hp → acceptsAt (bk_heap w) j = true → j = i;
  ia_conn : bk_heap w !! i = Some c;
  ia_accepts : Con.CanAcceptRequest c = true;
  ia_reusable : Con.reusable c = true
}.

(** The connection as the pool hands it out: claimed, unless it is shared. *)
Definition handed (c : Connection) : Connection :=
  if Cfg.EnablePipelining (Con.config c) then c else Con.set_poolClaimed true (Con.set_activeReqs 1 c).

(** The answer [head ++ ...] begins what the server sends, [x]: to the reader
    goroutine of a pipelined connection at rest, or to the caller; its head fits the
    buffer that receives it, and a pipelined connection stays open. *)
Definition answerComing (env : surroundings) (c : Connection) (n : NetConn) (pp : piping) (p : Response)
    (head x : bytes) : Prop :=
  if Cfg.EnablePipelining (Con.config c) then
    (∃ f, atRest c pp f x) ∧ len head ≤ Con.readBufSize c ∧ isConnectionClose (parseHeaders head p) = false
  else len head ≤ Con.getReadBuf c (env_pooledRead env) (Con.readBufSize c) ∧ 0 < Con.headerReadSize c ∧
       prompt (rd n) ∧ stream (rd n) = x.

Lemma getHostPool_known key tls p hp : hostPools p !! key = Some hp → getHostPool key tls p = (hp, p).
Proof. intros E. unfold getHostPool. by rewrite E. Qed.

(** The pool hands out that connection, claimed. *)
Lemma poolGetConnection_idle cl w i c dials :
  idleAt cl w i c → dials ≠ [] →
  let cfg := cl_config cl in
  ∃ pool σ, poolGetConnection dials (poolKey (Cfg.UseTLS cfg) (Cfg.Host cfg) (Cfg.Port cfg)) (Cfg.UseTLS cfg)
              (bk_pool w) (bk_heap w) = (Ret (Some i), (pool, σ)) ∧
    σ !! i = Some (handed c).
Proof.
  intros [(hp & Ehp & Hscan & Hin & Hone) Hc Ha _] Hd cfg.
  unfold poolGetConnection. rewrite bool_decide_eq_false_2 by (unfold poolKey; by destruct (Cfg.UseTLS cfg)).
  rewrite (getHostPool_known _ _ _ hp) by done.
  assert (acceptsAt (bk_heap w) i = true) as Hacc by (unfold acceptsAt; by rewrite Hc).
  destruct (getIdle_spec (S (length (hostConns hp))) hp (bk_heap w) Hscan ltac:(lia)) as (r & hp' & σ' & E & Hr).
  destruct r as [j|]; [| by rewrite Hr in Hacc].
  destruct Hr as (Hj & Haj & Hclaim). rewrite (Hone j Hj Haj) in *.
  destruct dials as [|a dials]; [done |]. unfold GetConnection. cbn [take Pool.maxAttempts getConnectionLoop].
  rewrite E. do 2 eexists. split; [done |].
  unfold pipelinesAt in Hclaim. rewrite Hc in Hclaim. simpl in Hclaim. unfold handed.
  destruct (Cfg.EnablePipelining (Con.config c)); [done |].
  destruct Hclaim as (k & Ek & _ & ->). by simplify_eq.
Qed.

(** Claiming a connection does not change what a request on it needs. *)
Lemma ready_claimed env c req n :
  ready env c req n → ready env (Con.set_poolClaimed true (Con.set_activeReqs 1 c)) req n.
Proof. intros [? ? ? ? ? [] ? ? ? ?]. by split. Qed.

(** [Do] on the connection, in its mode. *)
Lemma connDo_delivers env c pp req n p0 head status raw payload rest :
  Con.reusable c = true → ready env c req n → goodHead head status →
  framed (Con.maxRespSize c) (Reset p0) (Req.Method req) head status raw payload → plainHead head (Reset p0) →
  answerComing env c n pp (Reset p0) head (head ++ raw ++ rest) →
  ∃ t' pp' p' n', connDo env (mkTrip (handed c) req (Some p0), pp) = (Ret tt, (t', pp')) ∧ t_resp t' = Some p' ∧
    delivered head status payload (Reset p0) p' ∧ Con.conn (t_conn t') = Some n' ∧
    sent (wr n') = sent (wr n) ++ wireMessage c req (Req.Body req) false.
Proof.
  intros Hre Hready Hg Hfr Hpl Hcome. unfold connDo, handed, answerComing in *. cbn [t_conn t_req t_resp].
  unfold Con.ensureConnection. destruct (Cfg.EnablePipelining (Con.config c)) eqn:Ep.
  - destruct Hcome as ([f Hrest] & Hlen & Hopen). rewrite Hre. cbn [negb]. rewrite Ep.
    destruct (doPipelined_delivers gzip gunzip env c pp f req p0 n head status raw payload rest)
      as (c' & p' & pp' & -> & Hdel & Hconn & _); try done.
    { unfold len in Hlen. lia. }
    by eexists _, _, p', (sentNet c req n).
  - destruct Hcome as (Hcap & Hhrs & Hp & Hs). set (c1 := Con.set_poolClaimed true (Con.set_activeReqs 1 c)).
    change (Con.reusable c1) with (Con.reusable c). rewrite Hre. cbn [negb].
    change (Con.config c1) with (Con.config c). rewrite Ep.
    destruct (doSequential_delivers gzip gunzip env c1 req p0 n head status raw payload rest)
      as (t' & Et & [(p' & Hp' & Hdel) (n' & Hn' & Hsent) _ _]); try done.
    { by apply ready_claimed. }
    unfold onL. cbn [fst snd]. rewrite Et. by eexists t', pp, p', n'.
Qed.

(** The whole exchange. *)
Lemma backendExchange_delivers cl w i c x inputs req n p0 head status raw payload rest :
  let cfg := cl_config cl in
  idleAt cl w i c → bk_inputs w = x :: inputs → xi_dials x ≠ [] → ready (xi_env x) c req n →
  goodHead head status → framed (Con.maxRespSize c) (Reset p0) (Req.Method req) head status raw payload →
  plainHead head (Reset p0) → answerComing (xi_env x) c n (readerOf w i) (Reset p0) head (head ++ raw ++ rest) →
  ∃ req' p' w', exchange (poolKey (Cfg.UseTLS cfg) (Cfg.Host cfg) (Cfg.Port cfg)) (Cfg.UseTLS cfg) (req, p0, w)
      = (Ret (Returned None), (req', p', w')) ∧ delivered head status payload (Reset p0) p' ∧ bk_inputs w' = inputs ∧
    ∃ c' n', bk_heap w' !! i = Some c' ∧ Con.conn c' = Some n' ∧
      sent (wr n') = sent (wr n) ++ wireMessage c req (Req.Body req) false.
Proof.
  intros cfg Hidle Hin Hd Hready Hg Hfr Hpl Hcome.
  destruct (poolGetConnection_idle cl w i c (xi_dials x) Hidle Hd) as (pool & σ & E & Hσ).
  destruct (connDo_delivers (xi_env x) c (readerOf w i) req n p0 head status raw payload rest)
    as (t' & pp' & p' & n' & Edo & Hp' & Hdel & Hn' & Hsent); try done.
  { apply Hidle. }
  cbn [exchange backend_Transport]. unfold backendExchange. rewrite Hin. fold cfg in E. rewrite E, Hσ.
  change (readerOf (mkBackend pool σ (bk_readers w) inputs) i) with (readerOf w i). rewrite Edo, Hp'.
  do 3 eexists. do 3 (split; [done |]). exists (t_conn t'), n'. simpl. rewrite lookup_insert_eq. done.
Qed.

End backend.

(** C1: a whole call, end to end, when nothing goes wrong.  The request is for the
    configured host (no URL), without compression, Expect or pre-encoded prefix and within
    the write buffers; no limiter, no rotation, the context does not end.  The pool of that
    host has one connection that accepts requests, healthy and reusable, sequential or (with
    nothing else in flight) pipelined; on it arrives, in any packets, an answer that is
    framed, not gzip, its head within the read buffer, its status not one the retry policy
    repeats, and without "Connection: close" if pipelined.  Then [DoWithContext] returns that
    status, headers and payload and no error (of a chunked body the [received] payload: the
    chunks, whose front is zeroed when the body buffer had to grow), exactly one attempt was
    made, and exactly the serialised request went out on that connection. *)
Theorem client_round_trip gzip gunzip urlParse untilDate cl env s i c x inputs n head status raw payload rest :
  let tr := backend_Transport gzip gunzip in
  let p0 := nextResponse cl s in
  ce_done env = None → st_limiter s = None → Req.URL (st_req s) = [] →
  0 ≤ default 0 (maxRetries <$> retryer cl) < maxInt64 →
  (∀ r, retryer cl = Some r → status ∉ statusCodes r) →
  idleAt cl (st_world s) i c → bk_inputs (st_world s) = x :: inputs → xi_dials x ≠ [] →
  ready (xi_env x) c (st_req s) n → goodHead head status →
  framed (Con.maxRespSize c) (Reset p0) (Req.Method (st_req s)) head status raw payload →
  plainHead head (Reset p0) →
  answerComing (xi_env x) c n (readerOf (st_world s) i) (Reset p0) head (head ++ raw ++ rest) →
  ∃ s' p' c' n', DoWithContext (H := tr) urlParse untilDate cl env s = (Ret (Some p', None), s') ∧
    delivered head status payload (Reset p0) p' ∧
    bk_inputs (st_world s') = inputs ∧ bk_heap (st_world s') !! i = Some c' ∧ Con.conn c' = Some n' ∧
    sent (wr n') = sent (wr n) ++ wireMessage c (st_req s) (Req.Body (st_req s)) false.
Proof.
  intros tr p0 Hdone Hlim Hurl Hmax Hst Hidle Hin Hd Hready Hg Hfr Hpl Hcome.
  set (req := Req.set_ctx (Some (ce_ctx env)) (st_req s)).
  assert (ready (xi_env x) c req n) as Hready' by (destruct Hready as [? ? ? ? ? [] ? ? ? ?]; by split).
  destruct (backendExchange_delivers gzip gunzip cl (st_world s) i c x inputs req n p0 head status raw
              payload rest) as (req' & p' & w' & E & Hdel & Hone & c' & n' & Hc' & Hn' & Hsent); try done.
  assert (StatusCode p' = status) as Hstatus by apply Hdel.
  destruct (DoWithContext_at_once (H := tr) urlParse untilDate cl env s req' p' w') as (s' & Ed & Hw); try done.
  { by rewrite Hstatus. }
  exists s', p', c', n'. by rewrite Hw.
Qed.

(** *** Example *)

Definition exIdle (pipelined : bool) (b : bytes) : Connection :=
  Con.set_conn (Some (exNet b)) (Con.set_healthy 1
    (Con.NewConnection 1 (str "h") 8080 (Cfg.set_EnablePipelining pipelined Cfg.DefaultConfig) true false false [] 0)).
Definition exKey : bytes := poolKey true (Cfg.Host Cfg.DefaultConfig) 443.
Definition exInput : exchangeInput := mkInput [mkAttempt 2 exConnection (inl EEOF) 0 false] exEnv.
Definition exBackend (pipelined : bool) (b : bytes) : backend :=
  mkBackend (mkPool {[ exKey := set_connections (Some [1%nat]) (newHostPool Cfg.DefaultConfig exKey true) ]} Cfg.DefaultConfig 2)
    {[ 1%nat := exIdle pipelined b ]} ∅ [exInput].
Definition exCallState (pipelined : bool) (b : bytes) : state backend :=
  mkState exRequest [exUsed] 1 None None (exBackend pipelined b).

(** The same call on a sequential and on a pipelined connection. *)
Definition exRoundTrip (pipelined : bool) : Prop :=
  let b := exReply ++ str "hello" in
  let tr := backend_Transport inr (λ b, GzOK b) in
  ∃ s' p' c' n', DoWithContext (H := tr) (λ _, None) (λ _, None) exClient exCall (exCallState pipelined b)
      = (Ret (Some p', None), s') ∧
    delivered exReply 200 (str "hello") (Reset (nextResponse exClient (exCallState pipelined b))) p' ∧
    bk_inputs (st_world s') = [] ∧ bk_heap (st_world s') !! 1%nat = Some c' ∧ Con.conn c' = Some n' ∧
    sent (wr n') = [] ++ wireMessage (exIdle pipelined b) exRequest (Req.Body exRequest) false.

Lemma client_round_trip_witness : exRoundTrip false ∧ exRoundTrip true.
Proof.
  set (b := exReply ++ str "hello").
  split;
    [apply (client_round_trip inr (λ b, GzOK b) (λ _, None) (λ _, None) exClient exCall (exCallState false b) 1
              (exIdle false b) exInput [] (exNet b) exReply 200 (str "hello") (str "hello") [])
    |apply (client_round_trip inr (λ b, GzOK b) (λ _, None) (λ _, None) exClient exCall (exCallState true b) 1
              (exIdle true b) exInput [] (exNet b) exReply 200 (str "hello") (str "hello") [])].
  1, 2, 3, 7, 8, 14, 15, 16, 20, 21: done.
  1, 9: simpl; lia.
  1, 8: intros r [= <-]; simpl; set_solver.
  1, 7: split; [| reflexivity | reflexivity | reflexivity]; eexists; (split; [reflexivity |]);
    (split; [by vm_compute |]); (split; [left |]); intros j Hj _; by apply list_elem_of_singleton in Hj.
  1, 6: split; try done; by vm_compute.
  1, 5: split; [apply isHead_intro; reflexivity | reflexivity].
  1, 4: apply framed_length; by vm_compute.
  1, 3: reflexivity.
  - split_and!; [by vm_compute | by vm_compute | by repeat constructor | reflexivity].
  - split_and!; [exists EEOF | by vm_compute | reflexivity].
    split; try reflexivity. split; [reflexivity |]. exists (exNet b). split; [reflexivity |].
    split_and!; try reflexivity. by repeat constructor.
Defined.
