(* ===== verification/SchedTransport.v ===== *)
(** * SchedTransport: the client over its scheduler (src/client.go, src/scheduler.go)

    The other [Transport] of the client: with [EnableScheduler] an attempt goes
    through [Scheduler.Do], and a worker of the host makes the exchange of
    [Transport] (pool and connection) on the caller's behalf.  Here one call is
    followed while no other call and no cancellation interferes; the interleavings
    are those of [Hosts]. *)

From Stdlib Require Import SpecFloat.
From stdpp Require Import prelude list gmap.
From S2P Require Import Prelude Errors Metrics Strconv Float Ratelimit Config IO Scan Response Retry Request Writer WriterProps Parser ParserFacts ParserSpec Connection ConnectionProps.
From S2P Require Import Pipeline PipelineProps PipelineCall Pool PoolProps Scheduler Hosts Client ClientProps Transport.

(** The scheduler, what is behind it, and the name of the next call. *)
Record scheduled := mkScheduled { sw_sched : SchedulerT; sw_backend : backend; sw_next : nat }.

Section scheduled.

Variable gzip : bytes → error + bytes.
Variable gunzip : bytes → gzipResult.

(** What the worker sends back after its exchange; [None] when the worker crashed or
    still waits. *)
Definition workerAnswer (o : outcome error reply) (p : Response) (i : nat) : option action :=
  match o with
  | Ret NoConnection => Some (NoConn i)
  | Ret (Returned None) => Some (Execute i (inr p))
  | Ret (Returned (Some e)) => Some (Execute i (inl e))
  | Fail e => Some (Execute i (inl e))
  | Panic | Hang => None
  end.

(** What [Do] returned to call [i] of host [k]. *)
Definition returned (k : bytes) (i : nat) (s : SchedulerT) : option schedResult :=
  h ← hosts s !! k;
  match callers h !! i with Some (ReturnedWith r) => Some r | _ => None end.

(** [Scheduler.Do(ctx, req, poolKey, useTLS)] and the worker that serves it, the
    call named [i]: it is queued, taken, executed, answered and received.  A call
    that cannot be queued or taken waits. *)
Definition scheduledExchange (key : bytes) (useTLS : bool) : go (Request * Response * scheduled) error reply :=
  λ '(req, p, mkScheduled sc w i),
    match srun [Call key i; On key (Enqueue i); On key (Take i)] sc with
    | None => (Hang, (req, p, mkScheduled sc w i))
    | Some sc =>
        let '(o, (req, p, w)) := backendExchange gzip gunzip key useTLS (req, p, w) in
        match workerAnswer o p i ≫= λ a, srun [On key a; On key (Receive i)] sc with
        | None => (match o with Panic => Panic | _ => Hang end, (req, p, mkScheduled sc w (S i)))
        | Some sc =>
            (match returned key i sc with
             | Some (inr _) => Ret (Returned None)
             | Some (inl e) => Fail e
             | None => Hang
             end, (req, p, mkScheduled sc w (S i)))
        end
    end.

#[local] Instance scheduled_Transport : Transport scheduled := { exchange := scheduledExchange }.

(** ** A call through the scheduler *)

(** Host [k] has room in its queue and a worker to spare, and [i] is a new call; an
    unknown host is created. *)
Definition hostFree (s : SchedulerT) (k : bytes) (i : nat) : Prop :=
  (0 < queueCap s)%nat ∧ (0 < workersPerHost s)%nat ∧
  ∀ h, hosts s !! k = Some h → queue h = [] ∧ (length (busy h) + exited h < workersPerHost s)%nat ∧
    i ∉ busy h ∧ callers h !! i = None.

(** The host's state as the call finds it. *)
Definition hostNow (s : SchedulerT) (k : bytes) : hostScheduler :=
  default (mkSched [] [] ∅ ∅ ∅ (allStopped s) 0) (hosts s !! k).

Lemma setHost_setHost k h h' s : setHost k h' (setHost k h s) = setHost k h' s.
Proof. unfold setHost. simpl. by rewrite insert_insert_eq. Qed.

Lemma onHost_setHost k a h s :
  onHost k a (setHost k h s) = h' ← step (queueCap s) (workersPerHost s) a h; Some (setHost k h' s).
Proof.
  unfold onHost. cbn [hosts setHost queueCap workersPerHost]. rewrite lookup_insert_eq. simpl.
  destruct (step _ _ a h) as [h'|]; [| done]. simpl. by rewrite setHost_setHost.
Qed.

Lemma getOrCreate_now k s : 0 ≤ queueSize s → getOrCreateHostScheduler k s = Some (setHost k (hostNow s k) s).
Proof.
  intros Hq. unfold getOrCreateHostScheduler, hostNow, setHost. rewrite (proj2 (Z.ltb_ge _ _)) by done.
  destruct (hosts s !! k) as [h|] eqn:E; [| done].
  simpl. rewrite insert_id by done. by destruct s.
Qed.

Lemma hostFree_now s k i :
  hostFree s k i → let h := hostNow s k in
  queue h = [] ∧ (length (busy h) + exited h < workersPerHost s)%nat ∧ i ∉ busy h ∧ callers h !! i = None.
Proof.
  intros (_ & Hw & H) h. unfold h, hostNow. destruct (hosts s !! k) as [h0|] eqn:E; [by apply H |].
  simpl. split_and!; [done | lia | apply not_elem_of_nil | apply lookup_empty].
Qed.

(** The host while a worker holds call [i]. *)
Definition holding (i : nat) (h : hostScheduler) : hostScheduler :=
  mkSched [] (busy h ++ [i]) (answeredWork h) (<[i := WaitingFor]> (callers h)) (released h) (sd_stopped h) (exited h).

Lemma call_taken s k i :
  hostFree s k i →
  srun [Call k i; On k (Enqueue i); On k (Take i)] s = Some (setHost k (holding i (hostNow s k)) s).
Proof.
  intros Hf. destruct (hostFree_now s k i Hf) as (Hq & Hb & _ & Hc). destruct Hf as (Hcap & _ & _).
  cbn [srun sstep local]. rewrite getOrCreate_now by (unfold queueCap in Hcap; lia). cbn [mbind option_bind].
  rewrite onHost_setHost.
  set (h := hostNow s k) in *. cbn [step]. rewrite bool_decide_eq_true_2 by done. cbn [mbind option_bind].
  rewrite onHost_setHost. cbn [step]. unfold isSending. cbn [callers setCaller queue]. rewrite lookup_insert_eq, Hq.
  rewrite (proj2 (Nat.ltb_lt _ _)) by done. cbn [andb mbind option_bind].
  rewrite onHost_setHost. cbn [step]. unfold isNext, idleWorker. cbn [setCaller setQueue queue busy exited app].
  rewrite Nat.eqb_refl, (proj2 (Nat.ltb_lt _ _)) by done. cbn [andb mbind option_bind].
  do 2 f_equal. unfold holding, setBusy, setQueue, setCaller. simpl. by rewrite insert_insert_eq.
Qed.

(** The worker answers with a response, and the caller receives it. *)
Lemma call_answered s k i p h :
  callers h !! i = Some WaitingFor → i ∈ busy h →
  ∃ s', srun [On k (Execute i (inr p)); On k (Receive i)] (setHost k h s) = Some s' ∧
    returned k i s' = Some (inr p).
Proof.
  intros Hc Hb. cbn [srun sstep local]. rewrite onHost_setHost. cbn [step].
  rewrite bool_decide_eq_true_2 by done. cbn [mbind option_bind]. rewrite onHost_setHost. cbn [step].
  cbn [reply_ setBusy answeredWork]. rewrite lookup_insert_eq. unfold isWaiting. cbn [reply_ setBusy callers].
  rewrite Hc. cbn [mbind option_bind]. eexists. split; [done |].
  unfold returned. cbn [setHost hosts]. rewrite lookup_insert_eq. cbn. by rewrite lookup_insert_eq.
Qed.

Lemma scheduledExchange_delivers cl sc w k i c x inputs req n p0 head status raw payload rest :
  let cfg := cl_config cl in
  let key := poolKey (Cfg.UseTLS cfg) (Cfg.Host cfg) (Cfg.Port cfg) in
  hostFree sc key k → idleAt cl w i c → bk_inputs w = x :: inputs → xi_dials x ≠ [] → ready (xi_env x) c req n →
  goodHead head status → framed (Con.maxRespSize c) (Reset p0) (Req.Method req) head status raw payload →
  plainHead head (Reset p0) → answerComing (xi_env x) c n (readerOf w i) (Reset p0) head (head ++ raw ++ rest) →
  ∃ req' p' sc' w', exchange key (Cfg.UseTLS cfg) (req, p0, mkScheduled sc w k)
      = (Ret (Returned None), (req', p', mkScheduled sc' w' (S k))) ∧ delivered head status payload (Reset p0) p' ∧
    returned key k sc' = Some (inr p') ∧ bk_inputs w' = inputs ∧
    ∃ c' n', bk_heap w' !! i = Some c' ∧ Con.conn c' = Some n' ∧
      sent (wr n') = sent (wr n) ++ wireMessage c req (Req.Body req) false.
Proof.
  intros cfg key Hfree Hidle Hin Hd Hready Hg Hfr Hpl Hcome.
  destruct (backendExchange_delivers gzip gunzip cl w i c x inputs req n p0 head status raw payload rest)
    as (req' & p' & w' & E & Hdel & Hone & Hwire); try done.
  change (exchange ?a ?b ?d) with (backendExchange gzip gunzip a b d) in E.
  cbn [exchange scheduled_Transport]. unfold scheduledExchange. rewrite call_taken by done.
  fold cfg key in E. rewrite E. cbn [workerAnswer mbind option_bind].
  destruct (call_answered sc key k p' (holding k (hostNow sc key))) as (sc' & Es & Hret).
  { simpl. apply lookup_insert_eq. }
  { simpl. apply elem_of_app. right. by left. }
  rewrite Es, Hret. by exists req', p', sc', w'.
Qed.

End scheduled.

(** C8: a whole call through the scheduler, when nothing goes wrong and no other call
    interferes.  The host's queue is empty and a worker of it is idle (an unknown host is
    created); request, pool, connection and answer are as in C1: the configured host (no
    URL), no compression, Expect or pre-encoded prefix, no limiter, no rotation, one accepting
    reusable connection, and an answer that is framed, not gzip, its head within the read
    buffer, its status not one the retry policy repeats, without "Connection: close" if
    pipelined.  Then [DoWithContext] returns that status, headers and payload (of a chunked
    body the [received] one) and no error, the response being the one a worker computed for
    this very call, with one exchange, and exactly the serialised request went out. *)
Theorem scheduled_round_trip gzip gunzip urlParse untilDate cl env s sc w k i c x inputs n head status raw payload rest :
  let tr := scheduled_Transport gzip gunzip in
  let p0 := nextResponse cl s in
  let cfg := cl_config cl in
  let key := poolKey (Cfg.UseTLS cfg) (Cfg.Host cfg) (Cfg.Port cfg) in
  ce_done env = None → st_limiter s = None → Req.URL (st_req s) = [] →
  0 ≤ default 0 (maxRetries <$> retryer cl) < maxInt64 →
  (∀ r, retryer cl = Some r → status ∉ statusCodes r) →
  st_world s = mkScheduled sc w k → hostFree sc key k →
  idleAt cl w i c → bk_inputs w = x :: inputs → xi_dials x ≠ [] →
  ready (xi_env x) c (st_req s) n → goodHead head status →
  framed (Con.maxRespSize c) (Reset p0) (Req.Method (st_req s)) head status raw payload →
  plainHead head (Reset p0) →
  answerComing (xi_env x) c n (readerOf w i) (Reset p0) head (head ++ raw ++ rest) →
  ∃ s' sc' w' p' c' n', DoWithContext (H := tr) urlParse untilDate cl env s = (Ret (Some p', None), s') ∧
    delivered head status payload (Reset p0) p' ∧
    st_world s' = mkScheduled sc' w' (S k) ∧ returned key k sc' = Some (inr p') ∧ bk_inputs w' = inputs ∧
    bk_heap w' !! i = Some c' ∧ Con.conn c' = Some n' ∧
    sent (wr n') = sent (wr n) ++ wireMessage c (st_req s) (Req.Body (st_req s)) false.
Proof.
  intros tr p0 cfg key Hdone Hlim Hurl Hmax Hst Hw Hfree Hidle Hin Hd Hready Hg Hfr Hpl Hcome.
  set (req := Req.set_ctx (Some (ce_ctx env)) (st_req s)).
  assert (ready (xi_env x) c req n) as Hready' by (destruct Hready as [? ? ? ? ? [] ? ? ? ?]; by split).
  destruct (scheduledExchange_delivers gzip gunzip cl sc w k i c x inputs req n p0 head status raw payload rest)
    as (req' & p' & sc' & w' & E & Hdel & Hret & Hone & c' & n' & Hc' & Hn' & Hsent); try done.
  rewrite <- Hw in E. assert (StatusCode p' = status) as Hstatus by apply Hdel.
  destruct (DoWithContext_at_once (H := tr) urlParse untilDate cl env s req' p' (mkScheduled sc' w' (S k)))
    as (s' & Ed & Hw'); try done.
  { by rewrite Hstatus. }
  by exists s', sc', w', p', c', n'.
Qed.

(** *** Example: a first call, to a host the scheduler does not know yet *)

Definition exScheduledState (b : bytes) : state scheduled :=
  mkState exRequest [exUsed] 1 None None (mkScheduled (NewScheduler 64 2 0) (exBackend true b) 7).

Lemma scheduled_round_trip_witness :
  let b := exReply ++ str "hello" in
  let tr := scheduled_Transport inr (λ b, GzOK b) in
  ∃ s' p', DoWithContext (H := tr) (λ _, None) (λ _, None) exClient exCall (exScheduledState b)
      = (Ret (Some p', None), s') ∧
    delivered exReply 200 (str "hello") (Reset (nextResponse exClient (exScheduledState b))) p'.
Proof.
  intros b tr.
  destruct (scheduled_round_trip inr (λ b, GzOK b) (λ _, None) (λ _, None) exClient exCall (exScheduledState b)
    (NewScheduler 64 2 0) (exBackend true b) 7 1 (exIdle true b) exInput [] (exNet b) exReply 200 (str "hello")
    (str "hello") []) as (s' & sc' & w' & p' & c' & n' & E & Hdel & _).
  - done.
  - done.
  - done.
  - simpl. lia.
  - intros r [= <-]. simpl. set_solver.
  - done.
  - split_and!; [vm_compute; lia | vm_compute; lia |]. intros h Hh. cbn in Hh. by rewrite lookup_empty in Hh.
  - split; [| reflexivity | reflexivity | reflexivity]. eexists. split; [reflexivity |].
    split; [by vm_compute |]. split; [left |]. intros j Hj _. by apply list_elem_of_singleton in Hj.
  - done.
  - done.
  - split; try done; by vm_compute.
  - split; [apply isHead_intro; reflexivity | reflexivity].
  - apply framed_length; by vm_compute.
  - reflexivity.
  - split_and!; [exists EEOF | by vm_compute | reflexivity].
    split; try reflexivity. split; [reflexivity |]. exists (exNet b). split; [reflexivity |].
    split_and!; try reflexivity. by repeat constructor.
  - exists s', p'. split; [exact E | exact Hdel].
Defined.
