(* ===== verification/Connect.v ===== *)
(** * Connect: from a host pool to a usable connection (src/tls.go, src/connection.go, src/pool.go)

    [NewTLSConfig] and [WrapConnection], the dialing half of [connectLocked], and
    [createConnection] with what it dials: the parts of [Pool], [Connection],
    [Proxy] and [Dns] put together.  The handshake of [crypto/tls] is an argument:
    the settings and the raw connection give the secured one, or an error. *)

From stdpp Require Import prelude list gmap.
From S2P Require Import Prelude Errors Strconv Config Dns IO Request Writer Connection Socks5 Proxy ProxyProps Pool PoolProps Client.

(** ** src/tls.go *)

Record TLSConfig := mkTLSConfig { tc_config : tlsConfig; tc_sessions : Z; tc_handshakeTimeout : Z }.

(** [hsTimeout], as [NewTLSConfig] and [getHostPool] compute it. *)
Definition handshakeTimeout (c : Config) : Z :=
  if Cfg.TLSHandshakeTimeout c <=? 0 then 10 * Second else Cfg.TLSHandshakeTimeout c.

(** [NewTLSConfig(config)]; [tc_sessions] is the size of the session cache. *)
Definition NewTLSConfig (c : Config) : TLSConfig :=
  mkTLSConfig (Cfg.BuildTLSConfig c)
    (if Cfg.TLSClientSessionCacheSize c <=? 0 then 4096 else Cfg.TLSClientSessionCacheSize c)
    (handshakeTimeout c).

(** The [TLSConfig] [getHostPool] gives a pool: the client's own, or one with a
    session cache of its own. *)
Definition poolTLS (c : Config) (hp : HostPool) : option TLSConfig :=
  (λ t, if Cfg.UseTLS c && bool_decide (Cfg.Host c = dialHost hp) then NewTLSConfig c
        else mkTLSConfig t 256 (handshakeTimeout c)) <$> hp_tls hp.

Section connect.

Variable handshake : tlsConfig → NetConn → error + NetConn.

(** [(t *TLSConfig) WrapConnection(conn)] *)
Definition WrapConnection (t : TLSConfig) (conn : option NetConn) : error + NetConn :=
  match conn with
  | None => inl (WrapError ErrorTypeTLS "connection is nil" (ESentinel ErrConnectFailed))
  | Some n =>
      match deadlineErr n with
      | Some e => inl (LogErrorWithFlag ErrorTypeTLS "set handshake deadline failed" e)
      | None =>
          match handshake (tc_config t) n with
          | inl e => inl (LogErrorWithFlag ErrorTypeTLS "TLS handshake failed" e)
          | inr s => inr s
          end
      end
  end.

(** The dialing half of [connectLocked]; [fwd] is [c.isForwardProxy], [proxied] what
    dialing the proxy yields. *)
Definition dialHostPort (d : Dialer) (env : dialEnv) (tls : option TLSConfig) (fwd : bool)
    (proxied : error + NetConn) (host : bytes) (port : Z) : outcome error NetConn * Dialer :=
  let '(o, d) := if fwd then (match DialForward d proxied (de_socket env) with inl e => Fail e | inr n => Ret n end, d)
                 else DialAddr d env host port in
  (match o, tls with
   | Ret n, Some t => match WrapConnection t (Some n) with inl e => Fail e | inr s => Ret s end
   | _, _ => o
   end, d).

(** [createConnection()] of the host pool [h] of pool [p]: [i] names the new object. *)
Definition openConnection (p : Pool) (d : Dialer) (env : dialEnv) (proxied : error + NetConn) (hasCompressor : bool)
    (i : nat) (now : Z) (h : HostPool) (σ : heap) : outcome error (option nat) * (Pool * HostPool * heap * Dialer) :=
  match reserve h with
  | None => (Ret None, (p, h, σ, d))
  | Some _ =>
      let p := mkPool (hostPools p) (pl_config p) (i32 (nextConnID p + 1)) in
      let tls := poolTLS (pl_config p) h in
      let secure := bool_decide (is_Some tls) in
      let fwd := IsForwardProxy d secure in
      let c0 := Con.NewConnection (nextConnID p) (dialHost h) (dialPort h) (pl_config p) secure hasCompressor
                  fwd (ProxyAuthHeader d) now in
      let '(o, d) := dialHostPort d env tls fwd proxied (dialHost h) (dialPort h) in
      match o with
      | Ret n => let '(r, (h, σ)) := createConnection i c0 (inr n) now h σ in (Ret r, (p, h, σ, d))
      | Fail e => let '(r, (h, σ)) := createConnection i c0 (inl e) now h σ in (Ret r, (p, h, σ, d))
      | Panic => (Panic, (p, h, σ, d))
      | Hang => (Hang, (p, h, σ, d))
      end
  end.

(** ** A connection is what was dialled and verified *)

(** What a direct dial ends with. *)
Lemma dialHostPort_direct d env tls host port proxied :
  socks5Dialer d = None → proxyDialer d = None → host ≠ [] → 0 < port < 10 ^ 8 →
  from_option wfCache True (dnsCache d) → resolves (de_resolver env) →
  noDelayErr (de_socket env) = None → keepAliveErr (de_socket env) = None →
  (dialHostPort d env tls false proxied host port).1 =
    match reached d env host port, tls with
    | Ret n, Some t => match WrapConnection t (Some n) with inl e => Fail e | inr s => Ret s end
    | o, _ => o
    end.
Proof.
  intros Hs Hp Hh Hport Hc Hr Hn Hk. unfold dialHostPort.
  pose proof (DialAddr_reached d env host port Hs Hp Hh ltac:(lia) Hc Hr Hn Hk) as E.
  rewrite (proj2 (Z.ltb_lt _ _)) in E by lia. destruct (DialAddr d env host port) as [o d']. simpl in *. subst o.
  by destruct (reached d env host port), tls.
Qed.

(** A reservation that is given back leaves the pool as it was. *)
Lemma reserve_undone h h1 : activeCount h = i32 (activeCount h) → reserve h = Some h1 → add_active (-1) h1 = h.
Proof.
  unfold reserve. intros Hr E. case_if_in E; [done |]. simplify_eq. destruct h. unfold add_active in *. simpl in *.
  f_equal. rewrite Hr. unfold wrap. dlia.
Qed.

Lemma createConnection_fails i c0 e now h σ :
  Con.reusable c0 = false → activeCount h = i32 (activeCount h) →
  createConnection i c0 (inl e) now h σ = (None, (h, σ)).
Proof.
  intros Hc Hr. rewrite createConnection_eq. destruct (reserve h) as [h1 |] eqn:E; [| done].
  unfold Con.ensureConnection. rewrite Hc. simpl. by erewrite reserve_undone.
Qed.

(** A pool that [Stop] has emptied publishes nothing either. *)
Lemma createConnection_stopped i c0 dial now h σ :
  connections h = None → activeCount h = i32 (activeCount h) → createConnection i c0 dial now h σ = (None, (h, σ)).
Proof.
  intros Hc Hr. rewrite createConnection_eq. destruct (reserve h) as [h1 |] eqn:E; [| done].
  pose proof (reserve_undone h h1 Hr E) as U. destruct (Con.ensureConnection dial now c0) as [[] c]; simpl; [| by rewrite U].
  assert (connections h1 = None) as -> by (unfold reserve in E; case_if_in E; by simplify_eq). by rewrite U.
Qed.

Lemma createConnection_opens i c0 n now h σ h1 cs :
  Con.reusable c0 = false → reserve h = Some h1 → connections h = Some cs →
  ∃ h' c, createConnection i c0 (inr n) now h σ = (Some i, (h', <[i := c]> σ)) ∧ connections h' = Some (cs ++ [i]) ∧
    Con.conn c = Some n ∧ Con.healthy c = 1 ∧ Con.closing c = 0 ∧ Con.host c = Con.host c0 ∧ Con.port c = Con.port c0.
Proof.
  intros Hc Hr Hcs. rewrite createConnection_eq, Hr. unfold Con.ensureConnection. rewrite Hc. simpl.
  assert (connections h1 = Some cs) as Hcs1
    by (unfold reserve in Hr; case_if_in Hr; by simplify_eq).
  rewrite Hcs1. do 2 eexists. split; [done |]. done.
Qed.

End connect.

(** The settings under which a host is verified when the caller brought none. *)
Definition verifying (cfg : Config) (host : bytes) : tlsConfig :=
  mkTLS (Cfg.TLSMinVersion cfg) (Cfg.TLSMaxVersion cfg) (Cfg.InsecureSkipVerify cfg) [str "http/1.1"] host.

(** The settings of the handshake with [host]: with a caller's own [tls.Config], that one,
    its [ServerName] replaced unless [host] is the configured host. *)
Definition settings (cfg : Config) (host : bytes) : tlsConfig :=
  match Cfg.TLSConfig cfg with
  | None => verifying cfg host
  | Some t =>
      if Cfg.UseTLS cfg && bool_decide (Cfg.Host cfg = host) then t
      else mkTLS (MinVersion t) (MaxVersion t) (tlsInsecureSkipVerify t) (NextProtos t) host
  end.

(** [h] is the pool of [key], at any later time. *)
Definition poolOf (cfg : Config) (key : bytes) (useTLS : bool) (h : HostPool) : Prop :=
  let h0 := newHostPool cfg key useTLS in
  dialHost h = dialHost h0 ∧ dialPort h = dialPort h0 ∧ hp_tls h = hp_tls h0.

(** A host as a URL writes it: plain, or an address in brackets. *)
Definition writtenHost (host text : bytes) : Prop := (text = host ∧ hd 0 host ≠ 91) ∨ text = 91 :: host ++ [93].

Lemma poolOf_key cfg scheme host text port useTLS h :
  Forall (λ c, c ≠ COLON) scheme → host ≠ [] → writtenHost host text → 0 < port < 2 ^ 63 →
  poolOf cfg (scheme ++ str "://" ++ text ++ [COLON] ++ Itoa port) useTLS h →
  dialHost h = host ∧ dialPort h = port ∧ hp_tls h = hostTLS cfg host useTLS.
Proof.
  intros Hs Hne Ht Hp. unfold poolOf, newHostPool. rewrite afterScheme_key by done. cbn [default id].
  assert (parseHostPort (text ++ [COLON] ++ Itoa port) (Cfg.Host cfg) (Cfg.Port cfg) = (host, port)) as ->; [| done].
  destruct Ht as [[-> Hhd] | ->]; [by apply parseHostPort_plain |].
  cbn [app]. rewrite <- (assoc_L (++)). unfold parseHostPort. cbn [app]. rewrite (cutLast_app 93 host).
  - rewrite Atoi_Itoa by lia. by rewrite (proj2 (Z.ltb_lt _ _)) by lia.
  - constructor; [done |]. apply Itoa_no; [lia | unfold plain; lia].
Qed.

Lemma poolTLS_settings cfg host h :
  dialHost h = host → hp_tls h = hostTLS cfg host true → ∃ t, poolTLS cfg h = Some t ∧ tc_config t = settings cfg host.
Proof.
  intros Hh E. unfold poolTLS. rewrite E, Hh. unfold hostTLS, NewTLSConfig, Cfg.BuildTLSConfig, settings, verifying.
  destruct (Cfg.UseTLS cfg); simpl; [| destruct (Cfg.TLSConfig cfg); by eexists].
  destruct (bool_decide (Cfg.Host cfg = host)) eqn:Hc; simpl; [| destruct (Cfg.TLSConfig cfg); by eexists].
  apply bool_decide_eq_true in Hc. rewrite Hc. destruct (Cfg.TLSConfig cfg); by eexists.
Qed.

(** C15: an https pool connects to its host under that host's name.  For the pool kept
    under "https://host:port" (any host, an address also in brackets; a port below 10^8), a direct dialer and socket options that do not fail, in
    any state of the pool: without free capacity [createConnection] dials nothing and
    changes nothing; with it, host:port is dialled, through the DNS cache if there is one,
    and one handshake is made, its ServerName [host] and its versions and
    InsecureSkipVerify as configured (with InsecureSkipVerify nothing is verified; a
    caller's own tls.Config is used with ServerName replaced, and as it is for the
    configured host).  If both succeed and the pool is not stopped, one healthy connection
    over the secured stream is published; otherwise nothing is, and the pool is as it was,
    its capacity included. *)
Theorem https_pool_verifies_its_host handshake p d env proxied comp i now σ host text port h :
  let cfg := pl_config p in
  host ≠ [] → writtenHost host text → 0 < port < 10 ^ 8 →
  socks5Dialer d = None → proxyDialer d = None →
  from_option wfCache True (dnsCache d) → resolves (de_resolver env) →
  noDelayErr (de_socket env) = None → keepAliveErr (de_socket env) = None →
  poolOf cfg (poolKey true text port) true h → activeCount h = i32 (activeCount h) →
  let '(o, (p', h', σ', d')) := openConnection handshake p d env proxied comp i now h σ in
  let nothing := o = Ret None ∧ h' = h ∧ σ' = σ in
  if i32 (maxIdle h) <=? activeCount h then nothing ∧ p' = p ∧ d' = d
  else
    match de_tcp env (dialText (resolvedHost d env host) port) with
    | inl _ => nothing
    | inr n =>
        match deadlineErr n, handshake (settings cfg host) n, connections h with
        | None, inr s, Some cs => o = Ret (Some i) ∧ connections h' = Some (cs ++ [i]) ∧
            ∃ c, σ' = <[i := c]> σ ∧ Con.conn c = Some s ∧ Con.healthy c = 1 ∧ Con.host c = host ∧ Con.port c = port
        | _, _, _ => nothing
        end
    end.
Proof.
  intros cfg Hne Htext Hp Hs5 Hpx Hc Hr Hn Hk Hpool Hact.
  apply (poolOf_key cfg (str "https") host text port true h) in Hpool as (Hh & Hport & Htls);
    [| by repeat constructor | done | done | lia].
  destruct (poolTLS_settings cfg host h Hh Htls) as (t & Et & Ec).
  unfold openConnection. destruct (reserve h) as [h1 |] eqn:Eres; pose proof Eres as Hres; unfold reserve in Hres;
    case_if_in Hres; try done.
  cbv zeta. cbn [pl_config]. fold cfg. rewrite Et, Hh, Hport.
  assert (IsForwardProxy d (bool_decide (is_Some (Some t))) = false) as -> by (unfold IsForwardProxy; by rewrite Hpx).
  rewrite bool_decide_eq_true_2 by by eexists.
  set (c0 := Con.NewConnection _ _ _ _ _ _ _ _ _). assert (Con.reusable c0 = false) as Hc0 by done.
  pose proof (dialHostPort_direct handshake d env (Some t) host port proxied Hs5 Hpx Hne Hp Hc Hr Hn Hk) as E.
  destruct (dialHostPort handshake d env (Some t) false proxied host port) as [o d']. simpl in E. subst o.
  unfold reached. destruct (de_tcp env _) as [e | n]; [by rewrite createConnection_fails |].
  unfold WrapConnection. rewrite Ec. destruct (deadlineErr n); [by rewrite createConnection_fails |].
  destruct (handshake (settings cfg host) n) as [e | s]; [by rewrite createConnection_fails |].
  destruct (connections h) as [cs |] eqn:Hcs; [| by rewrite createConnection_stopped].
  destruct (createConnection_opens i c0 s now h σ h1 cs Hc0 Eres Hcs) as (h' & c & -> & Hcs' & H1 & H2 & _ & H3 & H4).
  split; [done |]. split; [done |]. by exists c.
Qed.

Lemma https_pool_verifies_its_host_witness :
  let cfg := Cfg.DefaultConfig in
  let p := mkPool ∅ cfg 0 in
  let d := mkDialer cfg None None None in
  let n := mkNet (mkConn [] EEOF) (mkWConn [] []) None in
  let env := mkDialEnv (λ a, if bool_decide (a = str "[::1]:8443") then inr n else inl EEOF) (λ _, None)
               (inl EEOF) 0 0 (mkTCP true None None) in
  let hs t s := if bool_decide (ServerName t = str "::1") then inr s else inl EEOF in
  let h := newHostPool cfg (poolKey true (str "[::1]") 8443) true in
  let '(o, (_, h', σ', _)) := openConnection hs p d env (inl EEOF) false 3 0 h ∅ in
  o = Ret (Some 3%nat) ∧ connections h' = Some [3%nat] ∧
  ∃ c, σ' = <[3%nat := c]> ∅ ∧ Con.conn c = Some n ∧ Con.healthy c = 1 ∧ Con.host c = str "::1" ∧ Con.port c = 8443.
Proof.
  intros cfg p d n env hs h.
  apply (https_pool_verifies_its_host hs p d env (inl EEOF) false 3 0 ∅ (str "::1") (str "[::1]") 8443 h);
    try done; try (by right); vm_compute; done.
Defined.
