(* ===== verification/Lifecycle.v ===== *)
(** * Lifecycle: starting, inspecting and stopping a client (src/client.go, src/pool.go, src/inspector.go)

    [NewPool], the idle evictor, [StartN], [Stop] and [GracefulStop] (a turn for each
    look at the counters, with what other goroutines make of the pool before and after
    it), the pre-encoded header prefix, and the read-only views of the pool. *)

From stdpp Require Import prelude list gmap.
From S2P Require Import Prelude Errors Metrics Strconv Config Dns IO Scan Response Request RequestProps Writer WriterProps.
From S2P Require Import Connection ConnectionProps Socks5 Proxy Pool PoolProps Client Scheduler Hosts.

(** ** The pool *)

(** [NewPool(config, ...)]: the pool, and whether [idleEvictor] is started. *)
Definition NewPool (c : Config) : Pool * bool :=
  (mkPool ∅ c 0, (0 <? Cfg.IdleCheckInterval c) && (0 <? Cfg.IdleTimeout c)).

(** [evictIdleConnections()]: one sweep over the host pools. *)
Definition evictKey (now : Z) (x : Pool * heap) (key : bytes) : Pool * heap :=
  let '(p, σ) := x in
  match hostPools p !! key with
  | None => (p, σ)
  | Some h =>
      let '(h, σ) := evictIdle now (Cfg.IdleTimeout (pl_config p)) h σ in
      (mkPool (<[key := h]> (hostPools p)) (pl_config p) (nextConnID p), σ)
  end.
Definition evictIdleConnections (now : Z) (x : Pool * heap) : Pool * heap :=
  foldl (evictKey now) x (map_to_list (hostPools x.1)).*1.

(** [idleEvictor()]: a tick at time [Some now] sweeps, [None] is [stopCh]. *)
Fixpoint idleEvictor (events : list (option Z)) (x : Pool * heap) : Pool * heap :=
  match events with
  | [] | None :: _ => x
  | Some now :: t => idleEvictor t (evictIdleConnections now x)
  end.

(** The connections of all host pools. *)
Definition allConns (p : Pool) : list nat := concat (hostConns <$> (map_to_list (hostPools p)).*2).

(** One turn of the loop of [GracefulStop]: whether the deadline has passed, the pool as
    [activeRequests] sees it, and the pool when its stopping begins.  Other goroutines run
    between the two, and may start requests. *)
Record stopTurn := mkTurn { tn_late : bool; tn_seen : Pool * heap; tn_then : Pool * heap }.

(** [GracefulStop(timeout)]; [None] while it still waits.  The stopping of the host pools
    is one step. *)
Fixpoint GracefulStop (turns : list stopTurn) : option (bool * (Pool * heap)) :=
  match turns with
  | [] => None
  | t :: rest =>
      if tn_late t then Some (false, stopPool (tn_then t).1 (tn_then t).2)
      else if activeRequests (tn_seen t).1 (tn_seen t).2 =? 0
      then Some (true, stopPool (tn_then t).1 (tn_then t).2)
      else GracefulStop rest
  end.

(** ** The client *)

(** [StartN(n)] on the host pool of the configured host; [attempts] are the dials. *)
Definition StartN (c : Config) (n : Z) (attempts : list dialAttempt) (h : HostPool) (σ : heap)
    : option error * (HostPool * heap) :=
  let n := if n <=? 0 then 1 else n in
  let n := if Cfg.PoolSize c <? n then Cfg.PoolSize c else n in
  let '(created, s) := if n <=? 0 then (0%nat, (h, σ)) else WarmUp (take (Z.to_nat n) attempts) h σ in
  (if (created =? 0)%nat
   then Some (WrapError ErrorTypeNetwork "warm-up: could not establish any connections" (ESentinel ErrConnectFailed))
   else None, s).
Definition Start (c : Config) : list dialAttempt → HostPool → heap → option error * (HostPool * heap) :=
  StartN c (Z.quot (Cfg.PoolSize c) 4).

(** [Stop()] of the client: scheduler, pool, dialer. *)
Definition stopClient (sched : option SchedulerT) (p : Pool) (σ : heap) (d : Dialer)
    : option SchedulerT * (Pool * heap) * Dialer :=
  (stopScheduler <$> sched, stopPool p σ, stopDialer d).

(** [BuildPreEncodedHeaderPrefix(req, host, port, useTLS)] for a non-nil request. *)
Definition BuildPreEncodedHeaderPrefix (c : Config) (d : option Dialer) (req : Request) (host : bytes) (port : Z)
    (useTLS : bool) : outcome error bytes :=
  let forwardProxy := match d with Some d => IsForwardProxy d useTLS | None => false end in
  let proxyAuth := match d with Some d => if forwardProxy then ProxyAuthHeader d else [] | None => [] end in
  match writeRequestHeaderPrefix req c host port useTLS (Req.Compressed req) forwardProxy proxyAuth
          (replicate (Z.to_nat 8192) 0, 0%nat) with
  | (Ret n, (buf, _)) => Ret (take n buf)
  | (Fail e, _) => Fail e
  | (Panic, _) => Panic
  | (Hang, _) => Hang
  end.

(** ** Views *)

(** [ConnectionInfo] and [ConnectionPool()] (src/inspector.go) *)
Record ConnectionInfo := mkInfo {
  ci_ID : Z; ci_Host : bytes; ci_Port : Z; ci_Healthy : bool; ci_ActiveReqs : Z; ci_HealthScore : Z;
  ci_LatencyEWMA : Z; ci_PipelineDepth : Z; ci_BytesRead : Z; ci_BytesWritten : Z
}.
Definition connectionInfo (c : Connection) : ConnectionInfo :=
  mkInfo (Con.id c) (Con.host c) (Con.port c) (Con.IsHealthy c) (Con.activeReqs c) (Con.HealthScore c)
    (Con.latencyEWMA c) (Con.pipelineDepth c) (Con.bytesRead c) (Con.bytesWritten c).
Definition ConnectionPool (p : Pool) (σ : heap) : list ConnectionInfo :=
  omap (λ i, connectionInfo <$> σ !! i) (allConns p).

(** [Stats()] *)
Definition Stats (p : Pool) (σ : heap) (m : option BuiltinMetrics) : nat * option MetricsSnapshot :=
  (GetHealthyConnections p σ, m ≫= Snapshot).

(** ** Stopping *)

Lemma Stop_stopped c : Con.stopped (Con.Stop c) ≠ 0.
Proof.
  unfold Con.Stop. destruct (Z.eqb_spec (Con.stopped c) 0); [| done]. cbn [negb].
  unfold Con.closeConn. by case_if.
Qed.

Lemma Stop_idem c : Con.Stop (Con.Stop c) = Con.Stop c.
Proof.
  pose proof (Stop_stopped c) as H. unfold Con.Stop at 1. by rewrite (proj2 (Z.eqb_neq _ _) H).
Qed.

Lemma stopAll_lookup us σ i : i ∈ us → stopAll us σ !! i = Con.Stop <$> σ !! i.
Proof.
  intros Hi. unfold stopAll. revert σ Hi. induction us as [|u us IH]; intros σ Hi; [by apply elem_of_nil in Hi |].
  simpl. destruct (decide (i ∈ us)) as [Hin | Hout].
  - rewrite IH by done. destruct (decide (u = i)) as [-> |]; [| by rewrite lookup_alter_ne].
    rewrite lookup_alter_eq. destruct (σ !! i); simpl; [| done]. by rewrite Stop_idem.
  - apply elem_of_cons in Hi as [-> |]; [| done].
    pose proof (stopAll_other us (alter Con.Stop u σ) u Hout) as E. unfold stopAll in E. rewrite E.
    apply lookup_alter_eq.
Qed.

(** Every pending request gets an error into its channel, or has one. *)
Lemma failPending_err e ps m q b :
  q ∈ ps ∨ is_Some (mb_err b) → m !! pr_id q = Some b →
  ∃ b', Con.failPending e ps m !! pr_id q = Some b' ∧ is_Some (mb_err b').
Proof.
  unfold Con.failPending. revert m b. induction ps as [|p ps IH]; intros m b Hq Hm.
  - destruct Hq as [Hq | Hq]; [by apply elem_of_nil in Hq |]. by exists b.
  - simpl. set (f := λ b, mkMail (mb_response b) (offer (mb_err b) e) (mb_cancelled b)).
    assert (∀ x, is_Some (mb_err (f x))) as Hf by (intros x; unfold f, offer; simpl; by destruct (mb_err x)).
    destruct (decide (pr_id p = pr_id q)) as [Hpq | Hpq].
    + apply (IH _ (f b)); [right; apply Hf |]. by rewrite Hpq, lookup_alter_eq, Hm.
    + apply (IH _ b); [| by rewrite lookup_alter_ne]. destruct Hq as [Hq |]; [| by right].
      apply elem_of_cons in Hq as [-> |]; [done | by left].
Qed.

(** What [Stop] leaves of an open connection. *)
Record shutDown (c c' : Connection) : Prop := {
  sh_dead : Con.IsHealthy c' = false ∧ Con.CanAcceptRequest c' = false;
  sh_closed : Con.stopped c = 0 → Con.closing c = 0 →
    Con.conn c' = None ∧ Con.pendingReqs c' = [] ∧
    ∀ q b, q ∈ Con.pendingReqs c → Con.mail c !! pr_id q = Some b →
      ∃ b', Con.mail c' !! pr_id q = Some b' ∧ is_Some (mb_err b')
}.

Lemma Stop_shutDown c : shutDown c (Con.Stop c).
Proof.
  assert (Con.IsHealthy (Con.Stop c) = false) as Hd.
  { unfold Con.IsHealthy. rewrite (proj2 (Z.eqb_neq _ _) (Stop_stopped c)). apply andb_false_r. }
  split; [split; [done |]; unfold Con.CanAcceptRequest; by rewrite Hd |].
  intros Hs Hc. unfold Con.Stop. rewrite Hs. simpl. unfold Con.closeConn. simpl. rewrite Hc. simpl.
  split_and!; try done. intros q b Hq Hb. eapply failPending_err; eauto.
Qed.

(** A turn after which the loop goes on. *)
Definition waits (t : stopTurn) : Prop := tn_late t = false ∧ activeRequests (tn_seen t).1 (tn_seen t).2 ≠ 0.

Lemma GracefulStop_spec turns :
  match GracefulStop turns with
  | None => Forall waits turns
  | Some (ok, s) => ∃ pre t post, turns = pre ++ t :: post ∧ Forall waits pre ∧ tn_late t = negb ok ∧
      (ok = true → activeRequests (tn_seen t).1 (tn_seen t).2 = 0) ∧ s = stopPool (tn_then t).1 (tn_then t).2
  end.
Proof.
  induction turns as [|t turns IH]; cbn [GracefulStop]; [constructor |].
  destruct (tn_late t) eqn:El; [by exists [], t, turns |].
  destruct (Z.eqb_spec (activeRequests (tn_seen t).1 (tn_seen t).2) 0) as [Hz | Hz]; [by exists [], t, turns |].
  destruct (GracefulStop turns) as [[ok s] |]; [| by constructor].
  destruct IH as (pre & t1 & post & -> & Hpre & Hok & Hz1 & ->).
  exists (t :: pre), t1, post. split_and!; try done. by constructor.
Qed.

(** C25: what [GracefulStop] waits for and what it leaves.  It goes on waiting exactly as
    long as the deadline has not passed and the request counters of the pooled connections
    do not add up to 0.  It reports [true] exactly when they added up to 0 at its last look
    before the deadline, and [false] when the deadline passed.  The pools are stopped after
    that look, in whatever state other goroutines have brought them to since (they may have
    started requests, which are cut off even though [true] is reported): the pools are then
    gone, every connection they held is unusable, and if it was not already stopped or
    closing its network connection is closed, nothing is pending on it, and every caller
    whose request was pending has an error in its channel; other connections are
    untouched. *)
Theorem graceful_stop_drains turns :
  match GracefulStop turns with
  | None => Forall waits turns
  | Some (ok, (p', σ')) => ∃ pre t post p σ, turns = pre ++ t :: post ∧ Forall waits pre ∧
      tn_late t = negb ok ∧ (ok = true → activeRequests (tn_seen t).1 (tn_seen t).2 = 0) ∧
      tn_then t = (p, σ) ∧ hostPools p' = ∅ ∧
      (∀ i c, i ∈ allConns p → σ !! i = Some c → ∃ c', σ' !! i = Some c' ∧ shutDown c c') ∧
      (∀ i, i ∉ allConns p → σ' !! i = σ !! i)
  end.
Proof.
  pose proof (GracefulStop_spec turns) as H. destruct (GracefulStop turns) as [[ok [p' σ']] |]; [| done].
  destruct H as (pre & t & post & -> & Hpre & Hl & Hok & Es). destruct (tn_then t) as [p σ] eqn:Et.
  injection Es as -> ->. exists pre, t, post, p, σ. split_and!; try done.
  - intros i c Hi Hc. exists (Con.Stop c). split; [| apply Stop_shutDown].
    rewrite stopAll_lookup by done. by rewrite Hc.
  - intros i Hi. by apply stopAll_other.
Qed.

(** ** The pre-encoded prefix *)

(** The connection was made by this client for this dialer. *)
Record madeBy (cfg : Config) (d : Dialer) (c : Connection) : Prop := {
  mb_config : Con.config c = cfg;
  mb_forward : Con.isForwardProxy c = IsForwardProxy d (Cfg.UseTLS cfg);
  mb_auth : Con.proxyAuthHeader c = if IsForwardProxy d (Cfg.UseTLS cfg) then ProxyAuthHeader d else []
}.

Lemma BuildPrefix_text cfg d req c :
  madeBy cfg d c → Con.port c < 2 ^ 63 →
  let text := preEncoded c req (Req.Compressed req) in
  BuildPreEncodedHeaderPrefix cfg (Some d) req (Con.host c) (Con.port c) (Cfg.UseTLS cfg) =
    (if len text <=? 8192 then Ret text else Fail (ESentinel ErrHeaderBufferSmall)).
Proof.
  intros [H1 H2 H3] Hp text. unfold BuildPreEncodedHeaderPrefix.
  set (fwd := IsForwardProxy d (Cfg.UseTLS cfg)) in *. set (auth := if fwd then ProxyAuthHeader d else []) in *.
  pose proof (prefix_writes req cfg (Con.host c) (Con.port c) (Cfg.UseTLS cfg) Hp (Req.Compressed req) fwd auth) as Hw.
  destruct (writes_whole _ _ (replicate (Z.to_nat 8192) 0) Hw) as [Hok Hno];
    [unfold writeRequestHeaderPrefix; auto 40 with burst |].
  assert (text = wirePart1 req cfg (Con.host c) (Con.port c) (Cfg.UseTLS cfg) (Req.Compressed req) fwd ++ headerBlock req
          ++ (if fwd then auth else []) ++ expectLine req true) as Et
    by (unfold text, preEncoded; rewrite H1, H2, H3; done).
  rewrite <- Et, length_replicate in *. unfold len. destruct (Z.leb_spec (Z.of_nat (length text)) 8192) as [Hl | Hl].
  - rewrite Hok by lia. f_equal. apply take_splice_0. rewrite length_replicate. lia.
  - specialize (Hno ltac:(lia)). destruct (writeRequestHeaderPrefix _ _ _ _ _ _ _ _ _) as [o s]. simpl in Hno. by subst o.
Qed.

Lemma preEncoded_ne c req compressed : preEncoded c req compressed ≠ [].
Proof.
  unfold preEncoded, wirePart1, requestLine. intros E. apply (f_equal length) in E. rewrite !length_app in E. simpl in E. lia.
Qed.

(** A message that starts with a prefix the client encoded for the connection. *)
Definition preMessage (c : Connection) (req : Request) (body : bytes) : bytes :=
  preEncoded c req (Req.Compressed req) ++ lengthLine (len body) ++ body.

(** It is the message without a prefix, but for the two headers that do not depend on the
    body in it. *)
Lemma preMessage_same c req body :
  Req.ExpectContinue req = false ∨ body ≠ [] → preMessage c req body = wireMessage c req body (Req.Compressed req).
Proof.
  intros Hexp. unfold preMessage, wireMessage, wireHead, wirePart3, preEncoded.
  rewrite <- !app_assoc. do 3 f_equal.
  unfold expectLine. destruct Hexp as [-> | Hb]; [done |].
  rewrite (proj2 (Z.ltb_lt _ _)) by (unfold len; destruct body; [done | simpl; lia]). done.
Qed.

(** C26: a pre-encoded request, for a connection this client made and a prefix encoded
    for that connection's host and port and the configured [UseTLS].
    [BuildPreEncodedHeaderPrefix] gives the prefix if it fits 8 KiB, and else
    [ErrHeaderBufferSmall].  A request sent with it, whatever flag the connection computed
    for the body's compression and in whatever pieces the peer takes it, puts the prefix,
    the length line and the body on the wire, or a network error comes after a part.
    These are exactly the bytes of the request sent without the prefix when the connection
    compresses the body iff [req.Compressed] is set, and the body is not empty or no
    Expect is asked for.  In the other two cases they are different: with
    [req.Compressed] set and a body that is not compressed they are those of a request
    that announces gzip; and an Expect header is sent also for an empty body. *)
Theorem preencoded_request_same_wire cfg d c req body compressed timeout pooled n k :
  madeBy cfg d c → Con.port c < 2 ^ 63 → len body < 2 ^ 63 → deadlineErr n = None →
  (length (preMessage c req body) ≤ k)%nat → honest k (wr n) →
  let built := BuildPreEncodedHeaderPrefix cfg (Some d) req (Con.host c) (Con.port c) (Cfg.UseTLS cfg) in
  if 8192 <? len (preEncoded c req (Req.Compressed req))
  then built = Fail (ESentinel ErrHeaderBufferSmall)
  else ∃ pre, built = Ret pre ∧
    transmitted (preMessage c req body) n
      (connWriteRequest c (Req.set_PreEncodedHeaderPrefix pre req) body compressed timeout pooled n) ∧
    (compressed = Req.Compressed req → Req.ExpectContinue req = false ∨ body ≠ [] →
       preMessage c req body = wireMessage c req body compressed) ∧
    (Req.Compressed req = true → compressed = false → Req.ExpectContinue req = false ∨ body ≠ [] →
       preMessage c req body = wireMessage c req body true) ∧
    (Req.ExpectContinue req = true → body = [] →
       preMessage c req body
         = wirePart1 req (Con.config c) (Con.host c) (Con.port c) (Cfg.UseTLS (Con.config c)) (Req.Compressed req)
             (Con.isForwardProxy c)
           ++ headerBlock req ++ (if Con.isForwardProxy c then Con.proxyAuthHeader c else [])
           ++ strln "Expect: 100-continue" ++ strln "Content-Length: 0" ++ crlf).
Proof.
  intros Hm Hp Hb Hd Hk Hh built. unfold built. rewrite (BuildPrefix_text cfg d req c Hm Hp).
  rewrite Z.leb_antisym. destruct (8192 <? len _); cbn [negb]; [done |].
  set (pre := preEncoded c req (Req.Compressed req)). exists pre. split; [done |]. split_and!.
  - by eapply (connWriteRequest_pre c (Req.set_PreEncodedHeaderPrefix pre req)); try done; apply preEncoded_ne.
  - intros -> Hexp. by apply preMessage_same.
  - intros Hc _ Hexp. rewrite <- Hc. by apply preMessage_same.
  - intros He ->. unfold preMessage, preEncoded, expectLine. rewrite He. cbn [andb].
    change (lengthLine (len [])) with (strln "Content-Length: 0" ++ crlf). by rewrite app_nil_r, <- !app_assoc.
Qed.

Lemma preencoded_request_same_wire_witness :
  let n := mkNet (mkConn [] EEOF) (mkWConn [] []) None in
  ∃ pre, BuildPreEncodedHeaderPrefix Cfg.DefaultConfig (Some (mkDialer Cfg.DefaultConfig None None None)) exRequest
           (str "h") 8080 (Cfg.UseTLS Cfg.DefaultConfig) = Ret pre ∧
    transmitted (wireMessage exConnection exRequest (str "body") false) n
      (connWriteRequest exConnection (Req.set_PreEncodedHeaderPrefix pre exRequest) (str "body") false 0 16384 n).
Proof.
  intros n.
  destruct (preencoded_request_same_wire Cfg.DefaultConfig (mkDialer Cfg.DefaultConfig None None None)
    exConnection exRequest (str "body") false 0 16384 n 500) as (pre & E & Ht & Hsame & _).
  - by split.
  - by vm_compute.
  - by vm_compute.
  - done.
  - vm_compute. lia.
  - apply Forall_nil_2.
  - exists pre. split; [exact E |].
    assert (Em : preMessage exConnection exRequest (str "body") = wireMessage exConnection exRequest (str "body") false)
      by (apply Hsame; [reflexivity | by left]).
    rewrite <- Em. exact Ht.
Defined.
