(* ===== verification/Streaming.v ===== *)
(** * Streaming: responses read through a reader (src/streaming.go)

    [DoStreaming] of src/client.go wraps the response of a call: the body is read
    through [bodyReader], one more implementation of the interface of [IO], and
    [Close] gives the response object back to the pool, once. *)

From stdpp Require Import prelude list gmap.
From S2P Require Import Prelude Errors Metrics Config IO Scan Response Retry Request Client ClientProps.

(** ** bodyReader *)

Record bodyReader := mkBodyReader { br_data : bytes; br_offset : nat }.

(** [newBodyReader(data)] *)
Definition newBodyReader (data : bytes) : bodyReader := mkBodyReader data 0.

(** [Read(p)] with [len(p) = k] *)
Definition bodyRead (k : nat) (r : bodyReader) : bytes * option error * bodyReader :=
  if (length (br_data r) <=? br_offset r)%nat then ([], Some EEOF, r)
  else
    let d := take k (drop (br_offset r) (br_data r)) in
    (d, None, mkBodyReader (br_data r) (br_offset r + length d)).

#[global] Instance bodyReader_Reader : Reader bodyReader := {
  Read := bodyRead;
  budget r := (length (br_data r) - br_offset r)%nat
}.

#[global] Program Instance bodyReader_Laws : ReaderLaws bodyReader := {
  stream r := drop (br_offset r) (br_data r);
  final _ := EEOF;
  prompt _ := True
}.
Next Obligation.
  intros k [b o] d e r'. simpl. unfold bodyRead. simpl.
  case_if; intros [= <- <- <-]; [simpl; lia |]. rewrite length_take. lia.
Qed.
Next Obligation.
  intros k [b o] d e r' Hk. simpl. unfold bodyRead. simpl.
  case_if; intros [= <- <- <-]; simpl; [split; [lia | done] |].
  rewrite length_take, length_drop. split; intros; lia.
Qed.
Next Obligation.
  intros k [b o] _ Hk Hs. simpl in *. unfold bodyRead. simpl.
  assert (length (drop o b) ≠ 0%nat) as Hl by (by intros ?%nil_length_inv). rewrite length_drop in Hl.
  rewrite (proj2 (Nat.leb_gt _ _)) by lia. do 2 eexists. split; [done |]. simpl.
  split; [intros E; apply (f_equal length) in E; rewrite length_take, length_drop in E; simpl in E; lia |].
  split; [rewrite length_take; lia |]. split; [| done].
  rewrite length_take, length_drop, <- drop_drop.
  destruct (decide (k ≤ length b - o)%nat).
  - by rewrite Nat.min_l, take_drop by lia.
  - rewrite Nat.min_r by lia. rewrite take_ge, (drop_ge (drop o b)) by (rewrite length_drop; lia). by rewrite app_nil_r.
Qed.
Next Obligation.
  intros k [b o] _ Hk Hs. simpl in *. unfold bodyRead. simpl.
  apply (f_equal length) in Hs. rewrite length_drop in Hs. simpl in Hs.
  rewrite (proj2 (Nat.leb_le _ _)) by lia. eexists. split; [done |]. split; [| done]. simpl. apply drop_ge. lia.
Qed.

(** ** StreamingResponse *)

(** [once] is whether [Close] has run; [releaseFn] is the client's
    [releaseResponse]. *)
Record StreamingResponse := mkStreaming {
  sr_StatusCode : Z;
  sr_ContentLength : Z;
  sr_Headers : list Header;
  sr_Body : bodyReader;
  sr_resp : Response;
  sr_once : bool
}.

(** [(sr *StreamingResponse) Header(key)] and [HasHeader(key)] *)
Definition streamHeader (sr : StreamingResponse) (key : bytes) : bytes := header_loop (sr_Headers sr) key.
Definition streamHasHeader (sr : StreamingResponse) (key : bytes) : bool :=
  existsb (λ h, strEqualFoldASCII (Key h) key) (sr_Headers sr).

Section calls.

Context {W : Type} `{Transport W}.
Variable urlParse : bytes → option urlParts.
Variable untilDate : bytes → option Z.
Variable cl : Client.
Variable env : callEnv.

(** [(sr *StreamingResponse) Close()] *)
Definition Close : go (StreamingResponse * state W) error unit := λ '(sr, s),
  if sr_once sr then (Ret tt, (sr, s))
  else
    let '(o, s) := giveResponse (sr_resp sr) s in
    (o, (mkStreaming (sr_StatusCode sr) (sr_ContentLength sr) (sr_Headers sr) (sr_Body sr) (sr_resp sr) true, s)).

(** [DoStreaming(ctx, req)]: the error, or the wrapped response. *)
Definition DoStreaming : go (state W) error (error + StreamingResponse) :=
  '(resp, err) ← DoWithContext urlParse untilDate cl env;
  match err, resp with
  | Some e, _ => mret (inl e)
  | None, None => panic
  | None, Some p =>
      mret (inr (mkStreaming (StatusCode p) (ContentLength p) (Headers p) (newBodyReader (bodyBytes p)) p false))
  end.

(** ** What a caller does with it *)

(** Successive reads with buffers of the sizes [ks]. *)
Fixpoint reads (ks : list nat) (r : bodyReader) : list bytes * bodyReader :=
  match ks with
  | [] => ([], r)
  | k :: t => let '(d, _, r) := Read k r in let '(ds, r) := reads t r in (d :: ds, r)
  end.

(** [Close] called [n] times. *)
Fixpoint closeN (n : nat) (x : StreamingResponse * state W) : StreamingResponse * state W :=
  match n with O => x | S n' => closeN n' (Close x).2 end.

Lemma reads_stream ks r :
  Forall (λ k, 0 < k)%nat ks →
  concat (reads ks r).1 = take (sum_list ks) (stream r) ∧ stream (reads ks r).2 = drop (sum_list ks) (stream r).
Proof.
  intros Hks. revert r. induction Hks as [|k ks Hk _ IH]; intros r; [done |]. cbn [reads sum_list].
  assert (∃ e, Read k r = (take k (stream r), e, (Read k r).2) ∧ stream (Read k r).2 = drop k (stream r)) as (e & E & Es).
  { simpl. unfold bodyRead. case_if; eexists; simpl.
    - rewrite (drop_ge (br_data r)) by lia. by rewrite take_nil, drop_nil.
    - split; [done |]. rewrite length_take, length_drop, drop_drop.
      destruct (decide (k ≤ length (br_data r) - br_offset r)%nat); [f_equal; lia |].
      rewrite !drop_ge; [done | lia ..]. }
  rewrite E. destruct (IH (Read k r).2) as [H1 H2]. destruct (reads ks (Read k r).2) as [ds r'].
  simpl fst in *. simpl snd in *. split.
  - simpl concat. rewrite H1, Es. apply take_take_drop.
  - by rewrite H2, Es, drop_drop.
Qed.

Lemma closeN_closed n sr s : sr_once sr = true → closeN n (sr, s) = (sr, s).
Proof. intros Hc. induction n as [|n IH]; [done |]. simpl. by rewrite Hc. Qed.

Lemma closeN_outside n sr s :
  sr_once sr = false → outside (closeN (S n) (sr, s)).2 = outside s - 1.
Proof.
  intros Hc. simpl. rewrite Hc. simpl. rewrite closeN_closed by done. unfold outside. simpl. lia.
Qed.

Lemma DoStreaming_inv s o s' :
  DoStreaming s = (o, s') →
  match o with
  | Ret (inr sr) => ∃ p, DoWithContext urlParse untilDate cl env s = (Ret (Some p, None), s') ∧
      sr = mkStreaming (StatusCode p) (ContentLength p) (Headers p) (newBodyReader (bodyBytes p)) p false
  | Ret (inl e) => ∃ r, DoWithContext urlParse untilDate cl env s = (Ret (r, Some e), s')
  | Fail e => DoWithContext urlParse untilDate cl env s = (Fail e, s')
  | Panic => (DoWithContext urlParse untilDate cl env s).1 = Panic
  | Hang => (DoWithContext urlParse untilDate cl env s).1 = Hang
  end.
Proof.
  unfold DoStreaming, mbind, go_bind, mret, go_ret, panic.
  destruct (DoWithContext _ _ _ _ s) as [[[resp err] | e | |] s1] eqn:E; intros [= <- <-] || (intros; simplify_eq); try done.
  apply DoWithContext_balance in E. destruct err as [e |]; simplify_eq; [by eexists |].
  destruct resp as [p |]; simplify_eq; [by eexists |]. destruct E as [[? ?] _]. done.
Qed.

End calls.

(** C23: a streamed call is the call, read in pieces.  When [DoStreaming] returns a
    response it has the status, length and headers of the response
    [DoWithContext] returned; reads of any sizes deliver exactly its body, in
    order, and then end of file; and however often it is closed, the response
    object goes back to the pool exactly once, so that nothing stays outside.
    When it returns an error although a response came with it, that response
    object is lost to the pool. *)
Theorem streaming_call {W} `{Transport W} urlParse untilDate cl env (s : state W) ks n :
  Forall (λ k, 0 < k)%nat ks →
  match DoStreaming urlParse untilDate cl env s with
  | (Ret (inr sr), s1) =>
      ∃ p, DoWithContext urlParse untilDate cl env s = (Ret (Some p, None), s1) ∧
        sr_StatusCode sr = StatusCode p ∧ sr_ContentLength sr = ContentLength p ∧
        (∀ key, streamHeader sr key = Header_ p key ∧ streamHasHeader sr key = HasHeader p key) ∧
        concat (reads ks (sr_Body sr)).1 = take (sum_list ks) (bodyBytes p) ∧
        ((length (bodyBytes p) ≤ sum_list ks)%nat →
           ∀ k, (Read k (reads ks (sr_Body sr)).2).1 = ([], Some EEOF)) ∧
        outside (closeN (S n) (sr, s1)).2 = outside s
  | (Ret (inl e), s1) =>
      ∃ r, DoWithContext urlParse untilDate cl env s = (Ret (r, Some e), s1) ∧
           (is_Some r → outside s1 = outside s + 1)
  | _ => ∀ r, (DoWithContext urlParse untilDate cl env s).1 ≠ Ret r
  end.
Proof.
  intros Hks. destruct (DoStreaming urlParse untilDate cl env s) as [o s1] eqn:E.
  apply DoStreaming_inv in E. destruct o as [[e | sr] | e | |].
  - destruct E as (r & E). exists r. split; [done |]. intros [p ->].
    apply DoWithContext_balance in E. unfold owes in E. simpl in E. lia.
  - destruct E as (p & E & ->). exists p. split; [done |]. do 3 (split; [done |]).
    destruct (reads_stream ks (newBodyReader (bodyBytes p)) Hks) as [H1 H2]. split; [exact H1 |]. split.
    + intros Hl k. cbn [sr_Body]. destruct (reads ks _) as [ds [b o]]. simpl in H2 |- *.
      rewrite (drop_ge (drop 0 (bodyBytes p))) in H2 by (by rewrite drop_0).
      apply (f_equal length) in H2. rewrite length_drop in H2. simpl in H2.
      unfold bodyRead. simpl. by rewrite (proj2 (Nat.leb_le _ _)) by lia.
    + apply DoWithContext_balance in E. unfold owes in E. simpl in E. rewrite closeN_outside by done. lia.
  - intros r. by rewrite E.
  - intros r. by rewrite E.
  - intros r. by rewrite E.
Qed.

Lemma streaming_call_witness :
  let p := mkResponse 200 5 (BView 5) [] (str "hello, world") 0 [] in
  let sr := mkStreaming 200 5 [] (newBodyReader (str "hello")) p false in
  let s := exState [(Ret (Returned None), p)] in
  let x := DoStreaming (λ _, None) (λ _, None) exClient exCall s in
  x.1 = Ret (inr sr) ∧ concat (reads [2; 4]%nat (sr_Body sr)).1 = str "hello" ∧
  outside (closeN 3 (sr, x.2)).2 = outside s.
Proof.
  intros p sr s x. assert (E1 : x.1 = Ret (inr sr)) by (vm_compute; reflexivity).
  split; [exact E1 |]. pose proof (pair_of_fst _ _ E1) as E.
  pose proof (streaming_call (λ _, None) (λ _, None) exClient exCall s [2; 4]%nat 2 ltac:(repeat constructor)) as H.
  change (DoStreaming _ _ _ _ s) with x in H. rewrite E in H.
  destruct H as (q & Eq & _ & _ & _ & H1 & _ & H2). split; [| exact H2].
  assert (Ep : (DoWithContext (λ _, None) (λ _, None) exClient exCall s).1 = Ret (Some p, None))
    by (vm_compute; reflexivity).
  rewrite Eq in Ep. injection Ep as ->. rewrite H1. reflexivity.
Defined.
