(* ===== verification/Multipart.v ===== *)
(** * Multipart: form bodies (src/multipart.go)

    [MultipartBuilder] writes a form through [mime/multipart.Writer] (as of Go
    1.22, the version of the module) into a buffer.  The boundary is the random
    one [NewWriter] chose: an argument. *)

From stdpp Require Import prelude list.
From S2P Require Import Prelude Errors Config IO Scan Response Request RequestProps Client ClientProps.

Abbreviation QUOTE := 34.
Abbreviation BACKSLASH := 92.

(** ** mime/multipart.Writer on a bytes.Buffer *)

Record MultipartBuilder := mkBuilder { mb_buf : bytes; mb_boundary : bytes; mb_lastpart : bool }.

(** [NewMultipartBuilder()] *)
Definition NewMultipartBuilder (boundary : bytes) : MultipartBuilder := mkBuilder [] boundary false.

Definition emit (d : bytes) (mb : MultipartBuilder) : MultipartBuilder :=
  mkBuilder (mb_buf mb ++ d) (mb_boundary mb) (mb_lastpart mb).

(** [escapeQuotes(s)] *)
Definition escapeByte (c : Z) : bytes :=
  if c =? BACKSLASH then [BACKSLASH; BACKSLASH]
  else if c =? QUOTE then [BACKSLASH; QUOTE] else [c].
Definition escapeQuotes (s : bytes) : bytes := concat (escapeByte <$> s).
Definition quoted (s : bytes) : bytes := QUOTE :: escapeQuotes s ++ [QUOTE].

(** [CreatePart(header)] *)
Definition createPart (hs : list Header) (mb : MultipartBuilder) : MultipartBuilder :=
  mkBuilder
    (mb_buf mb ++ (if mb_lastpart mb then crlf else [])
     ++ str "--" ++ mb_boundary mb ++ crlf ++ renderHeaders hs ++ crlf)
    (mb_boundary mb) true.

Definition disposition (v : bytes) : Header := mkHeader (str "Content-Disposition") v.
Definition octetStream : Header := mkHeader (str "Content-Type") (str "application/octet-stream").

(** The headers of [CreateFormField(name)] and [CreateFormFile(field, file)]. *)
Definition fieldHeaders (name : bytes) : list Header :=
  [disposition (str "form-data; name=" ++ quoted name)].
Definition fileHeaders (field file : bytes) : list Header :=
  [disposition (str "form-data; name=" ++ quoted field ++ str "; filename=" ++ quoted file); octetStream].

(** ** The builder *)

(** [AddField(name, value)] *)
Definition AddField (name value : bytes) (mb : MultipartBuilder) : MultipartBuilder :=
  emit value (createPart (fieldHeaders name) mb).

(** [AddFileFromBytes(fieldName, fileName, data)] *)
Definition AddFileFromBytes (field file data : bytes) (mb : MultipartBuilder) : MultipartBuilder :=
  emit data (createPart (fileHeaders field file) mb).

Section readers.

Context {R : Type} `{Reader R}.

(** [io.Copy(part, reader)]: every read is written to the part, also the one that
    comes with the error that ends the copy; end of file is not an error. *)
Fixpoint ioCopy (fuel : nat) : go (R * MultipartBuilder) error unit := λ '(r, mb),
  match fuel with
  | O => (Hang, (r, mb))
  | S fuel' =>
      match Read (Z.to_nat 32768) r with
      | (d, None, r) => ioCopy fuel' (r, emit d mb)
      | (d, Some EEOF, r) => (Ret tt, (r, emit d mb))
      | (d, Some e, r) => (Fail e, (r, emit d mb))
      end
  end.

(** [AddFileFromReader(fieldName, fileName, reader)]; every error-free read uses up
    budget, so it is enough fuel. *)
Definition AddFileFromReader (field file : bytes) : go (R * MultipartBuilder) error unit := λ '(r, mb),
  ioCopy (S (budget r)) (r, createPart (fileHeaders field file) mb).

End readers.

(** [filepath.Base(path)] *)
Fixpoint dropSlashes (rev : bytes) : bytes :=
  match rev with c :: t => if c =? 47 then dropSlashes t else rev | [] => [] end.
Fixpoint upToSlash (rev : bytes) : bytes :=
  match rev with c :: t => if c =? 47 then [] else c :: upToSlash t | [] => [] end.
Definition Base (path : bytes) : bytes :=
  if bool_decide (path = []) then str "."
  else
    let b := reverse (upToSlash (dropSlashes (reverse path))) in
    if bool_decide (b = []) then str "/" else b.

(** [AddFileFromPath(fieldName, filePath)]; [opened] is what [os.Open] yields. *)
Definition AddFileFromPath {R} `{Reader R} (field path : bytes) (opened : error + R) (mb : MultipartBuilder)
    : outcome error unit * MultipartBuilder :=
  match opened with
  | inl e => (Fail e, mb)
  | inr f => let '(o, (_, mb)) := AddFileFromReader field (Base path) (f, mb) in (o, mb)
  end.

(** [ContentType()] *)
Definition ContentType (mb : MultipartBuilder) : bytes :=
  str "multipart/form-data; boundary=" ++ mb_boundary mb.

(** [Finish()]: the body and its type; closing the writer ends the last part. *)
Definition Finish (mb : MultipartBuilder) : bytes * bytes * MultipartBuilder :=
  let buf := mb_buf mb ++ crlf ++ str "--" ++ mb_boundary mb ++ str "--" ++ crlf in
  (buf, ContentType mb, mkBuilder buf (mb_boundary mb) false).

(** ** BuildMultipartRequest *)

(** [BuildMultipartRequest(client, method, urlOrPath, fields, files)]: [fields] and
    [files] are the maps' entries in the order in which [range] visits them,
    [pooled] is what the request pool hands out. *)
Definition BuildMultipartRequest (c : Config) (boundary : bytes) (pooled : Request) (method urlOrPath : bytes)
    (fields files : list (bytes * bytes)) : Request :=
  let mb := NewMultipartBuilder boundary in
  let mb := foldl (λ mb f, AddField f.1 f.2 mb) mb fields in
  let mb := foldl (λ mb f, AddFileFromBytes f.1 f.1 f.2 mb) mb files in
  let '(body, contentType, _) := Finish mb in
  let req := Req.set_Method method (acquireRequest c pooled) in
  let isURL := (7 <? len urlOrPath)
               && (bool_decide (take 7 urlOrPath = str "http://")
                   || (8 <? len urlOrPath) && bool_decide (take 8 urlOrPath = str "https://")) in
  let req := if isURL then Req.set_URL urlOrPath req else Req.set_Path urlOrPath req in
  let req := Req.set_Body body req in
  (Req.SetHeader (str "Content-Type") contentType req).2.

(** ** Reading a form (RFC 7578, RFC 2046) *)

Inductive entry :=
  | Field (name value : bytes)
  | File (field file data : bytes).

(** What stands before and behind the first occurrence of [d]. *)
Fixpoint cutAt (d s : bytes) : option (bytes * bytes) :=
  if bool_decide (take (length d) s = d) then Some ([], drop (length d) s)
  else
    match s with
    | [] => None
    | c :: t => match cutAt d t with Some (a, b) => Some (c :: a, b) | None => None end
    end.

Definition stripPrefix (p s : bytes) : option bytes :=
  if bool_decide (take (length p) s = p) then Some (drop (length p) s) else None.

(** A quoted string behind its opening quote: its value and what follows. *)
Fixpoint readQuoted (s : bytes) : option (bytes * bytes) :=
  match s with
  | [] => None
  | c :: t =>
      if c =? QUOTE then Some ([], t)
      else if c =? BACKSLASH then
        match t with
        | [] => None
        | x :: t' => match readQuoted t' with Some (a, b) => Some (x :: a, b) | None => None end
        end
      else match readQuoted t with Some (a, b) => Some (c :: a, b) | None => None end
  end.

(** One part: its header lines, the blank line, the data. *)
Definition decodeEntry (text : bytes) : option entry :=
  '(l1, rest) ← cutCRLF text;
  v ← stripPrefix (str "Content-Disposition: form-data; name=" ++ [QUOTE]) l1;
  '(name, more) ← readQuoted v;
  '(l2, rest) ← cutCRLF rest;
  match more with
  | [] => if bool_decide (l2 = []) then Some (Field name rest) else None
  | _ =>
      w ← stripPrefix (str "; filename=" ++ [QUOTE]) more;
      '(file, e) ← readQuoted w;
      '(l3, rest) ← cutCRLF rest;
      if bool_decide (e = [] ∧ l2 = str "Content-Type: application/octet-stream" ∧ l3 = [])
      then Some (File name file rest) else None
  end.

(** The parts up to the closing delimiter. *)
Fixpoint decodeParts (fuel : nat) (delim text : bytes) : option (list entry) :=
  match fuel with
  | O => None
  | S fuel' =>
      '(part, after) ← cutAt delim text;
      e ← decodeEntry part;
      match after with
      | 45 :: 45 :: _ => Some [e]
      | 13 :: 10 :: rest => es ← decodeParts fuel' delim rest; Some (e :: es)
      | _ => None
      end
  end.

Definition delimiter (boundary : bytes) : bytes := crlf ++ str "--" ++ boundary.

Definition decodeForm (boundary body : bytes) : option (list entry) :=
  match stripPrefix (str "--" ++ boundary ++ crlf) body with
  | Some rest => decodeParts (length body) (delimiter boundary) rest
  | None => if bool_decide (body = delimiter boundary ++ str "--" ++ crlf) then Some [] else None
  end.

(** ** What is written can be read *)

Definition entryHeaders (e : entry) : list Header :=
  match e with Field n _ => fieldHeaders n | File n f _ => fileHeaders n f end.
Definition entryData (e : entry) : bytes :=
  match e with Field _ d | File _ _ d => d end.
Definition addEntry (e : entry) (mb : MultipartBuilder) : MultipartBuilder :=
  emit (entryData e) (createPart (entryHeaders e) mb).

(** The text of a part, and of parts behind the first. *)
Definition partText (e : entry) : bytes := renderHeaders (entryHeaders e) ++ crlf ++ entryData e.
Definition moreParts (boundary : bytes) (es : list entry) : bytes :=
  concat ((λ e, delimiter boundary ++ crlf ++ partText e) <$> es).

Lemma readQuoted_escape s rest : readQuoted (escapeQuotes s ++ QUOTE :: rest) = Some (s, rest).
Proof.
  induction s as [|c s IH]; [done |].
  change (escapeQuotes (c :: s)) with (escapeByte c ++ escapeQuotes s). rewrite <- app_assoc. unfold escapeByte.
  destruct (Z.eqb_spec c BACKSLASH) as [-> |]; [simpl; by rewrite IH |].
  destruct (Z.eqb_spec c QUOTE) as [-> |]; [simpl; by rewrite IH |]. simpl.
  rewrite (proj2 (Z.eqb_neq c QUOTE)), (proj2 (Z.eqb_neq c BACKSLASH)) by done. by rewrite IH.
Qed.

Lemma escapeQuotes_chars s : Forall (λ c, c ≠ CR) s → Forall (λ c, c ≠ CR) (escapeQuotes s).
Proof.
  induction 1 as [|c s Hc _ IH]; [constructor |].
  change (escapeQuotes (c :: s)) with (escapeByte c ++ escapeQuotes s). apply Forall_app. split; [| done].
  unfold escapeByte. repeat case_if; repeat constructor; done.
Qed.

Lemma stripPrefix_app p s : stripPrefix p (p ++ s) = Some s.
Proof. unfold stripPrefix. by rewrite take_app_length, drop_app_length, bool_decide_eq_true_2. Qed.

(** A delimiter whose only CR is its first byte. *)
Section delim.

Context (t : bytes) (Ht : Forall (λ c, c ≠ CR) t).

Abbreviation D := (CR :: t).

(** [D] does not occur in [x]. *)
Definition avoids (x : bytes) : Prop := ∀ n, ¬ sep_at D x n.

(** An occurrence in [x ++ CR :: y] lies on one side. *)
Lemma sep_at_sides x y n :
  sep_at D (x ++ CR :: y) n → sep_at D x n ∨ ((length x ≤ n)%nat ∧ sep_at D (CR :: y) (n - length x)).
Proof.
  intros Hs. destruct (decide (length x ≤ n)%nat) as [Hn |].
  { right. split; [done |]. unfold sep_at in *. rewrite drop_app_ge in Hs by done. done. }
  left. destruct (decide (n + length D ≤ length x)%nat); [by apply sep_at_app_l in Hs |].
  exfalso. pose proof (sep_at_split D _ n ltac:(done) Hs) as E.
  assert ((x ++ CR :: y) !! length x = Some CR) as HL by (rewrite lookup_app_r, Nat.sub_diag by lia; done).
  rewrite E, lookup_app_r in HL by (rewrite length_take; lia).
  rewrite length_take, length_app, Nat.min_l, lookup_app_l in HL by (simpl in *; lia).
  destruct (length x - n)%nat as [|k] eqn:Ek; [lia |]. simpl in HL.
  rewrite Forall_lookup in Ht. by apply (Ht _ _ HL).
Qed.

Lemma avoids_app x y : avoids x → avoids (CR :: y) → avoids (x ++ CR :: y).
Proof. intros Hx Hy n [? | [_ ?]]%sep_at_sides; [by eapply Hx | by eapply Hy]. Qed.

Lemma avoids_plain x : Forall (λ c, c ≠ CR) x → avoids x.
Proof.
  intros Hx n Hs. pose proof (sep_at_split D _ n ltac:(done) Hs) as E. rewrite E in Hx.
  rewrite !Forall_app in Hx. destruct Hx as (_ & Hd & _). by inversion Hd.
Qed.

Lemma cutAt_first x y : avoids x → cutAt D (x ++ D ++ y) = Some (x, y).
Proof.
  induction x as [|c x IH]; intros Hx.
  - change ([] ++ D ++ y) with (D ++ y).
    assert (∀ s, cutAt D (D ++ s) = Some ([], s)) as H; [| apply H].
    intros s. cbn [cutAt app]. change (CR :: t ++ s) with (D ++ s).
    rewrite take_app_length, drop_app_length, bool_decide_eq_true_2 by done. done.
  - assert (avoids x) as Hx' by (intros n; apply (Hx (S n))).
    change ((c :: x) ++ D ++ y) with (c :: x ++ D ++ y). cbn [cutAt].
    rewrite bool_decide_eq_false_2; [by rewrite IH |].
    intros E. change (c :: x ++ D ++ y) with ((c :: x) ++ CR :: t ++ y) in E.
    destruct (sep_at_sides (c :: x) (t ++ y) 0) as [Hs | [Hs _]]; [done | by apply (Hx 0%nat) | simpl in Hs; lia].
Qed.

End delim.

(** Names without line breaks, and data that the delimiter does not cut. *)
Definition nameOK (s : bytes) : Prop := Forall (λ c, c ≠ CR ∧ c ≠ LF) s.
Definition entryOK (boundary : bytes) (e : entry) : Prop :=
  match e with Field n _ => nameOK n | File n f _ => nameOK n ∧ nameOK f end ∧
  ∀ n, ¬ sep_at (delimiter boundary) (crlf ++ entryData e) n.

(** The header lines of a part. *)
Definition fieldLine (n : bytes) : bytes :=
  (str "Content-Disposition: form-data; name=" ++ [QUOTE]) ++ escapeQuotes n ++ [QUOTE].
Definition fileLine (n f : bytes) : bytes :=
  (str "Content-Disposition: form-data; name=" ++ [QUOTE]) ++ escapeQuotes n ++ QUOTE ::
  (str "; filename=" ++ [QUOTE]) ++ escapeQuotes f ++ [QUOTE].
Definition typeLine : bytes := str "Content-Type: application/octet-stream".

Lemma partText_field n d : partText (Field n d) = fieldLine n ++ crlf ++ crlf ++ d.
Proof.
  unfold partText, fieldLine, renderHeaders, renderHeader, quoted. simpl. by rewrite ?app_nil_r, <- ?app_assoc.
Qed.

Lemma partText_file n f d : partText (File n f d) = fileLine n f ++ crlf ++ typeLine ++ crlf ++ crlf ++ d.
Proof.
  unfold partText, fileLine, renderHeaders, renderHeader, quoted. simpl.
  do 2 (rewrite <- !app_assoc; simpl). done.
Qed.

Lemma nameOK_CR n : nameOK n → Forall (λ c, c ≠ CR) (escapeQuotes n).
Proof. intros H. apply escapeQuotes_chars. eapply Forall_impl; [exact H |]. naive_solver. Qed.

Ltac no_cr := repeat (apply Forall_app; split); repeat (apply Forall_cons; split);
  repeat (apply Forall_app; split); try (by apply nameOK_CR); try done;
  vm_compute; repeat (apply Forall_cons; split; [done |]); apply Forall_nil; done.

Lemma fieldLine_CR n : nameOK n → Forall (λ c, c ≠ CR) (fieldLine n).
Proof. intros H. unfold fieldLine. no_cr. Qed.

Lemma fileLine_CR n f : nameOK n → nameOK f → Forall (λ c, c ≠ CR) (fileLine n f).
Proof. intros Hn Hf. unfold fileLine. no_cr. Qed.

Lemma typeLine_CR : Forall (λ c, c ≠ CR) typeLine.
Proof. unfold typeLine. no_cr. Qed.

Lemma decodeEntry_part boundary e : entryOK boundary e → decodeEntry (partText e) = Some e.
Proof.
  intros [Hn _]. unfold decodeEntry. destruct e as [n d | n f d].
  - rewrite partText_field, cutCRLF_line by (by apply fieldLine_CR). cbn [mbind option_bind].
    unfold fieldLine. rewrite stripPrefix_app. cbn [mbind option_bind]. rewrite readQuoted_escape.
    cbn [mbind option_bind]. done.
  - destruct Hn as [Hn Hf]. rewrite partText_file, cutCRLF_line by (by apply fileLine_CR). cbn [mbind option_bind].
    unfold fileLine. rewrite stripPrefix_app. cbn [mbind option_bind]. rewrite readQuoted_escape.
    cbn [mbind option_bind]. rewrite cutCRLF_line by apply typeLine_CR. cbn [mbind option_bind].
    rewrite stripPrefix_app. cbn [mbind option_bind]. rewrite readQuoted_escape. done.
Qed.

Section form.

Context (boundary : bytes) (Hb : Forall (λ c, c ≠ CR) boundary).

Abbreviation tl := (LF :: str "--" ++ boundary).

Lemma delimiter_tail : delimiter boundary = CR :: tl.
Proof. done. Qed.

Lemma tl_CR : Forall (λ c, c ≠ CR) tl.
Proof. apply Forall_cons. split; [done |]. apply Forall_app. split; [| done]. by repeat constructor. Qed.

(** A line break that no dash follows is no delimiter. *)
Lemma avoids_line x : Forall (λ c, c ≠ CR) x → hd 0 x ≠ 45 → avoids tl (crlf ++ x).
Proof.
  intros Hx Hd [|n] Hs.
  - unfold sep_at in Hs. change (str "--") with [45; 45] in Hs. destruct x as [|c x]; simpl in *; congruence.
  - revert Hs. apply (avoids_plain tl (LF :: x)). by apply Forall_cons.
Qed.

Lemma partText_avoids e : entryOK boundary e → avoids tl (partText e).
Proof.
  intros [Hn Hd]. assert (avoids tl (crlf ++ crlf ++ entryData e)) as Hend.
  { apply (avoids_app tl tl_CR crlf); [by apply (avoids_line []) | exact Hd]. }
  destruct e as [n d | n f d].
  - rewrite partText_field. apply (avoids_app tl tl_CR); [| exact Hend].
    by apply avoids_plain, fieldLine_CR.
  - destruct Hn as [Hn Hf]. rewrite partText_file. apply (avoids_app tl tl_CR).
    + by apply avoids_plain, fileLine_CR.
    + apply (avoids_app tl tl_CR (crlf ++ typeLine)); [| exact Hend]. by apply avoids_line; [apply typeLine_CR |].
Qed.

Lemma decodeParts_text es e fuel :
  Forall (entryOK boundary) (e :: es) → (length es < fuel)%nat →
  decodeParts fuel (delimiter boundary) (partText e ++ moreParts boundary es ++ delimiter boundary ++ str "--" ++ crlf)
    = Some (e :: es).
Proof.
  revert e fuel. induction es as [|e' es IH]; intros e fuel He Hf; destruct fuel as [|fuel]; try (simpl in Hf; lia);
    apply Forall_cons in He as [He Hes]; cbn [decodeParts]; rewrite delimiter_tail.
  - change (moreParts boundary [] ++ ?x) with x.
    rewrite (cutAt_first tl tl_CR) by (by apply partText_avoids). cbn [mbind option_bind].
    rewrite (decodeEntry_part boundary) by done. done.
  - unfold moreParts. rewrite fmap_cons. cbn [concat]. rewrite delimiter_tail, <- !app_assoc.
    rewrite (cutAt_first tl tl_CR) by (by apply partText_avoids). cbn [mbind option_bind].
    rewrite (decodeEntry_part boundary) by done. cbn [mbind option_bind app crlf].
    rewrite <- delimiter_tail. fold (moreParts boundary es).
    rewrite IH by (done || simpl in Hf; lia). done.
Qed.

(** What the builder holds after a first and further entries. *)
Lemma addEntries_buf es e :
  foldl (λ mb e, addEntry e mb) (addEntry e (NewMultipartBuilder boundary)) es =
  mkBuilder (str "--" ++ boundary ++ crlf ++ partText e ++ moreParts boundary es) boundary true.
Proof.
  induction es as [|e' es IH] using rev_ind.
  - unfold addEntry, emit, createPart, partText, moreParts. f_equal. cbn [concat fmap list_fmap]. rewrite app_nil_r.
    cbn [NewMultipartBuilder mb_buf mb_lastpart mb_boundary]. by rewrite <- !app_assoc.
  - rewrite foldl_app, IH. cbn [foldl]. unfold addEntry, emit, createPart. cbn [mb_buf mb_boundary mb_lastpart].
    f_equal. unfold moreParts. rewrite fmap_app, concat_app. cbn [fmap list_fmap concat]. rewrite app_nil_r.
    unfold partText, delimiter. by rewrite <- !app_assoc.
Qed.

Lemma moreParts_length es : (length es ≤ length (moreParts boundary es))%nat.
Proof.
  induction es as [|e es IH]; [done |]. unfold moreParts in *. rewrite fmap_cons. cbn [concat].
  rewrite length_app, (length_app (delimiter boundary)).
  assert (length (delimiter boundary) ≠ 0%nat) by done. rewrite length_cons. lia.
Qed.

Lemma form_roundtrip es :
  Forall (entryOK boundary) es →
  let mb := foldl (λ mb e, addEntry e mb) (NewMultipartBuilder boundary) es in
  decodeForm boundary (Finish mb).1.1 = Some es ∧ mb_boundary mb = boundary.
Proof.
  intros Hes mb. unfold mb. destruct es as [|e es].
  - split; [| done]. unfold decodeForm, Finish. cbn [foldl NewMultipartBuilder mb_buf mb_boundary fst].
    unfold stripPrefix. rewrite bool_decide_eq_false_2 by done. by rewrite bool_decide_eq_true_2.
  - cbn [foldl]. rewrite addEntries_buf. split; [| done]. unfold Finish, decodeForm. cbn [mb_buf mb_boundary fst].
    assert (length es < length (moreParts boundary es ++ boundary ++ str "--"))%nat as Hl.
    { rewrite !length_app. change (length (str "--")) with 2%nat. pose proof (moreParts_length es). lia. }
    set (body := (str "--" ++ boundary ++ crlf ++ partText e ++ moreParts boundary es) ++ _).
    assert (body = (str "--" ++ boundary ++ crlf) ++
      (partText e ++ moreParts boundary es ++ delimiter boundary ++ str "--" ++ crlf)) as ->
      by (unfold body, delimiter; by rewrite <- !app_assoc).
    rewrite stripPrefix_app. apply decodeParts_text; [done |]. rewrite !length_app in *. simpl in *. lia.
Qed.

End form.

(** ** Files from a reader *)

Section copy.

Context {R : Type} `{ReaderLaws R}.

Lemma emit_emit a b mb : emit b (emit a mb) = emit (a ++ b) mb.
Proof. unfold emit. simpl. by rewrite app_assoc. Qed.

Lemma ioCopy_all fuel r mb :
  prompt r → final r = EEOF → (budget r < fuel)%nat →
  ∃ r', ioCopy fuel (r, mb) = (Ret tt, (r', emit (stream r) mb)).
Proof.
  revert r mb. induction fuel as [|fuel IH]; intros r mb Hp Hf Hb; [lia |]. cbn [ioCopy].
  assert (0 < Z.to_nat 32768)%nat as Hk by lia.
  destruct (decide (stream r = [])) as [Hs | Hs].
  - destruct (prompt_end _ r Hp Hk Hs) as (r1 & -> & _). rewrite Hf, Hs. by eexists.
  - destruct (prompt_read _ r Hp Hk Hs) as (d & r1 & HR & _ & _ & Est & Ef & Hp1). rewrite HR.
    apply read_budget in HR as [_ Hlt]; [| done]. specialize (Hlt eq_refl).
    destruct (IH r1 (emit d mb)) as [r2 ->]; [done | congruence | lia |].
    eexists. by rewrite emit_emit, <- Est.
Qed.

(** A file read from a reader is a file given as bytes. *)
Lemma AddFileFromReader_all field file r mb :
  prompt r → final r = EEOF →
  ∃ r', AddFileFromReader field file (r, mb) = (Ret tt, (r', AddFileFromBytes field file (stream r) mb)).
Proof. intros Hp Hf. unfold AddFileFromReader, AddFileFromBytes. apply ioCopy_all; [done .. | lia]. Qed.

End copy.

(** ** The request *)

(** The entries of a form request. *)
Definition formEntries (fields files : list (bytes * bytes)) : list entry :=
  ((λ f, Field f.1 f.2) <$> fields) ++ ((λ f, File f.1 f.1 f.2) <$> files).

Lemma foldl_entries fields files mb :
  foldl (λ mb e, addEntry e mb) mb (formEntries fields files) =
  foldl (λ mb f, AddFileFromBytes f.1 f.1 f.2 mb) (foldl (λ mb f, AddField f.1 f.2 mb) mb fields) files.
Proof.
  unfold formEntries. rewrite foldl_app.
  assert (∀ mb, foldl (λ mb e, addEntry e mb) mb ((λ f, Field f.1 f.2) <$> fields) =
                foldl (λ mb f, AddField f.1 f.2 mb) mb fields) as ->
    by (intros m; revert m; induction fields; intros; simpl; auto).
  generalize (foldl (λ mb f, AddField f.1 f.2 mb) mb fields).
  induction files; intros; simpl; auto.
Qed.

Lemma SetHeader_first key value r :
  Req.headerLen r = 0%nat → len (Req.headerBuf r) ≤ 2 ^ 40 →
  Forall (λ c, c ≠ CR ∧ c ≠ LF) key → Forall (λ c, c ≠ CR ∧ c ≠ LF) value → len key + len value ≤ 65536 →
  headerBlock (Req.SetHeader key value r).2 = renderHeader (mkHeader key value).
Proof.
  intros H0 Hb Hk Hv Hl. pose proof (len_nonneg key). pose proof (len_nonneg value).
  destruct (SetHeader_cases r (mkHeader key value)) as [[Hno _] | [_ (r' & E & _ & HB & _)]]; simpl Key; simpl Value.
  1-4: try (split; [lia | done]); lia.
  - exfalso. apply Hno. split_and!; try done. right. rewrite renderHeader_len, H0. unfold Req.maxHeaderSize. simpl. lia.
  - simpl in E. rewrite E. simpl. rewrite HB. unfold headerBlock. by rewrite H0.
Qed.

(** The test of [BuildMultipartRequest] is a proper prefix. *)
Lemma properPrefix (s p : bytes) :
  (len p <? len s) && bool_decide (take (length p) s = p) = hasPrefix s p && negb (bool_decide (s = p)).
Proof.
  unfold hasPrefix. case_bool_decide as Hp; [| by rewrite andb_false_r]. rewrite andb_true_r, andb_true_l.
  destruct (bool_decide_reflect (s = p)) as [-> | Hne]; [apply Z.ltb_irrefl |].
  apply Z.ltb_lt. unfold len. apply (f_equal length) in Hp as Hl. rewrite length_take in Hl.
  destruct (decide (length s = length p)) as [El |]; [| lia].
  exfalso. apply Hne. rewrite <- Hp. symmetry. by rewrite take_ge by lia.
Qed.

Lemma isURL_prefix (t : bytes) :
  (7 <? len t) && (bool_decide (take 7 t = str "http://") || (8 <? len t) && bool_decide (take 8 t = str "https://")) =
  hasPrefix t (str "http://") && negb (bool_decide (t = str "http://"))
  || hasPrefix t (str "https://") && negb (bool_decide (t = str "https://")).
Proof.
  rewrite <- !properPrefix.
  change (len (str "http://")) with 7. change (len (str "https://")) with 8.
  change (length (str "http://")) with 7%nat. change (length (str "https://")) with 8%nat.
  destruct (Z.ltb_spec 7 (len t)), (Z.ltb_spec 8 (len t)); simpl; try lia; done.
Qed.

(** C24: a form request carries its form.  For every boundary that does not cut the
    data and all field and file names without line breaks (quotes and backslashes
    included), in whatever order the maps are visited, the body of
    [BuildMultipartRequest], read by the rules for multipart forms, gives back
    exactly the fields and files; the only header is the content type with that
    boundary; the target goes to [URL] exactly when it starts with http:// or
    https:// and goes on.  A file that is read from a reader, in whatever pieces,
    yields the same part as its bytes. *)
Theorem multipart_request_roundtrip {R} `{ReaderLaws R} c boundary pooled method target fields files
    (r : R) mb field file :
  headersOK pooled → nameOK boundary → len boundary ≤ 70 →
  Forall (entryOK boundary) (formEntries fields files) → prompt r → final r = EEOF →
  let q := BuildMultipartRequest c boundary pooled method target fields files in
  decodeForm boundary (Req.Body q) = Some (formEntries fields files) ∧
  headerBlock q = renderHeader (mkHeader (str "Content-Type") (str "multipart/form-data; boundary=" ++ boundary)) ∧
  Req.Method q = method ∧
  (Req.URL q, Req.Path q) =
    (if hasPrefix target (str "http://") && negb (bool_decide (target = str "http://"))
        || hasPrefix target (str "https://") && negb (bool_decide (target = str "https://"))
     then (target, []) else ([], target)) ∧
  ∃ r', AddFileFromReader field file (r, mb) = (Ret tt, (r', AddFileFromBytes field file (stream r) mb)).
Proof.
  intros [Hl Hb] Hbd Hbl Hes Hp Hf q. assert (Forall (λ c, c ≠ CR) boundary) as Hcr
    by (eapply Forall_impl; [exact Hbd |]; naive_solver).
  destruct (form_roundtrip boundary Hcr _ Hes) as [Hdec Hmb]. rewrite foldl_entries in Hdec, Hmb.
  unfold q, BuildMultipartRequest. set (mb' := foldl _ (foldl _ _ _) _) in *.
  unfold Finish in Hdec |- *. cbn [fst] in Hdec. set (body := mb_buf mb' ++ _) in *.
  set (isURL := (7 <? _) && _).
  set (r0 := Req.set_Body body _).
  assert (isURL = hasPrefix target (str "http://") && negb (bool_decide (target = str "http://"))
        || hasPrefix target (str "https://") && negb (bool_decide (target = str "https://"))) as Eurl.
  { unfold isURL. apply isURL_prefix. }
  rewrite <- Eurl.
  assert (Req.headerLen r0 = 0%nat ∧ Req.headerBuf r0 = Req.headerBuf pooled ∧ Req.Method r0 = method ∧
          (Req.URL r0, Req.Path r0) = (if isURL then (target, []) else ([], target))) as (E1 & E2 & E3 & E4)
    by (unfold r0; by destruct isURL).
  unfold ContentType. rewrite Hmb. set (ct := str "multipart/form-data; boundary=" ++ boundary).
  destruct (SetHeader_sameFields (str "Content-Type") ct r0) as (b & n & E).
  split; [by rewrite E |]. split; [| split; [by rewrite E |]].
  - apply SetHeader_first; [done | by rewrite E2 | | |].
    + vm_compute. repeat (constructor; [done |]). constructor.
    + apply Forall_app. split; [| exact Hbd]. vm_compute. repeat (constructor; [done |]). constructor.
    + unfold ct, len in *. rewrite !length_app.
      change (length (str "Content-Type")) with 12%nat.
      change (length (str "multipart/form-data; boundary=")) with 30%nat. lia.
  - split; [by rewrite E |]. by apply AddFileFromReader_all.
Qed.

Lemma contains_false s sub : contains s sub = false → ∀ n, ¬ sep_at sub s n.
Proof.
  induction s as [|c s IH]; intros Hc n Hn; cbn [contains] in Hc; apply orb_false_iff in Hc as [H1 H2];
    apply bool_decide_eq_false in H1; unfold sep_at in Hn.
  - rewrite drop_nil in Hn. done.
  - destruct n as [|n]; [done |]. by apply (IH H2 n).
Qed.

Lemma multipart_request_roundtrip_witness :
  let fields := [([97; QUOTE; 98], str "x" ++ crlf ++ str "--other")] in
  let files := [(str "f", [0; 255; 13; 10])] in
  let q := BuildMultipartRequest Cfg.DefaultConfig (str "b0undary") (newRequest Cfg.DefaultConfig)
             (str "POST") (str "/up") fields files in
  decodeForm (str "b0undary") (Req.Body q)
    = Some [Field [97; QUOTE; 98] (str "x" ++ crlf ++ str "--other"); File (str "f") (str "f") [0; 255; 13; 10]] ∧
  Req.Path q = str "/up".
Proof.
  intros fields files q.
  destruct (multipart_request_roundtrip Cfg.DefaultConfig (str "b0undary") (newRequest Cfg.DefaultConfig)
    (str "POST") (str "/up") fields files (mkConn [(str "da", None); (str "ta", None)] EEOF)
    (NewMultipartBuilder (str "b0undary")) (str "f") (str "g")) as (H1 & _ & _ & H2 & _).
  - split; vm_compute; [lia | discriminate].
  - vm_compute. repeat (constructor; [done |]). constructor.
  - vm_compute. discriminate.
  - repeat apply Forall_cons_2; [| | apply Forall_nil_2].
    + split; [vm_compute; repeat (constructor; [done |]); constructor | apply contains_false; reflexivity].
    + split; [split; vm_compute; repeat (constructor; [done |]); constructor | apply contains_false; reflexivity].
  - vm_compute. repeat (constructor; [done |]). constructor.
  - reflexivity.
  - split; [exact H1 |]. exact (f_equal snd H2).
Defined.
