(* ===== verification/Batch.v ===== *)
(** * Batch: several calls at once (src/batch.go)

    Requests are objects: a batch holds their names, the request pool the names of
    the free ones.  [BatchWithContext] runs one goroutine per entry; its steps can
    interleave in any order.  What a call does inside is the business of [Client]:
    here it answers with any result and leaves its request object in any state. *)

From stdpp Require Import prelude list gmap.
From S2P Require Import Prelude Errors Metrics Config Scan Response Retry Request Client.

(** ** The request pool *)

Record reqPool := mkReqPool { rp_heap : gmap nat Request; rp_free : list nat; rp_made : nat }.

(** [c.acquireRequest()]: a free object, or one [New] makes. *)
Definition acquire (c : Config) (p : reqPool) : nat * reqPool :=
  match rp_free p with
  | i :: t => (i, mkReqPool (alter (acquireRequest c) i (rp_heap p)) t (rp_made p))
  | [] => (rp_made p, mkReqPool (<[rp_made p := acquireRequest c (newRequest c)]> (rp_heap p)) [] (S (rp_made p)))
  end.

(** [c.releaseRequest(req)] *)
Definition release (c : Config) (i : nat) (p : reqPool) : reqPool :=
  mkReqPool (alter (releaseRequest c) i (rp_heap p)) (i :: rp_free p) (rp_made p).

Definition onObject (f : Request → Request) (i : nat) (p : reqPool) : reqPool :=
  mkReqPool (alter f i (rp_heap p)) (rp_free p) (rp_made p).

(** ** Building a batch *)

(** [batchEntry]: the request and whether the batch owns it. *)
Record batchEntry := mkEntry { be_req : nat; be_owned : bool }.

Record Batch := mkBatch { b_entries : list batchEntry; b_pool : reqPool }.

Section build.

Variable c : Config.

(** [req := b.client.acquireRequest(); ...; b.entries = append(b.entries, ...)] *)
Definition addOwned (fill : Request → Request) (b : Batch) : Batch :=
  let '(i, p) := acquire c (b_pool b) in
  mkBatch (b_entries b ++ [mkEntry i true]) (onObject fill i p).

Definition batchDo (req : nat) (b : Batch) : Batch :=
  mkBatch (b_entries b ++ [mkEntry req false]) (b_pool b).
Definition batchGet (path : bytes) (headers : list Header) : Batch → Batch :=
  addOwned (λ r, setHeaders headers (Req.set_Path path (Req.set_Method (str "GET") r))).
Definition batchGetURL (rawURL : bytes) (headers : list Header) : Batch → Batch :=
  addOwned (λ r, setHeaders headers (Req.set_URL rawURL (Req.set_Method (str "GET") r))).
Definition batchPost (path body : bytes) (headers : list Header) : Batch → Batch :=
  addOwned (λ r, setHeaders headers (Req.set_Body body (Req.set_Path path (Req.set_Method (str "POST") r)))).
Definition batchPostURL (rawURL body : bytes) (headers : list Header) : Batch → Batch :=
  addOwned (λ r, setHeaders headers (Req.set_Body body (Req.set_URL rawURL (Req.set_Method (str "POST") r)))).
Definition batchPut (path body : bytes) (headers : list Header) : Batch → Batch :=
  addOwned (λ r, setHeaders headers (Req.set_Body body (Req.set_Path path (Req.set_Method (str "PUT") r)))).
Definition batchPatch (path body : bytes) (headers : list Header) : Batch → Batch :=
  addOwned (λ r, setHeaders headers (Req.set_Body body (Req.set_Path path (Req.set_Method (str "PATCH") r)))).
Definition batchDelete (path : bytes) (headers : list Header) : Batch → Batch :=
  addOwned (λ r, setHeaders headers (Req.set_Path path (Req.set_Method (str "DELETE") r))).

(** What [fn] may do with the batch. *)
Inductive builds : Batch → Batch → Prop :=
  | build_do req b : builds b (batchDo req b)
  | build_owned fill b : builds b (addOwned fill b).

(** ** BatchWithContext *)

(** Where the goroutine of an entry stands: not started; in [DoWithContext]; past the
    store into [results], its deferred calls before it; past [releaseRequest]; past
    [wg.Done]. *)
Inductive gopc := NotStarted | Calling | Stored | Cleaned | Over.
#[global] Instance gopc_eq_dec : EqDecision gopc.
Proof. solve_decision. Defined.

(** [results[i]], the goroutines, the wait group and the request pool. *)
Record batchRun := mkRun {
  bt_entries : list batchEntry;
  bt_pc : list gopc;
  bt_results : list (option result);
  bt_wg : Z;
  bt_pool : reqPool
}.

Inductive bact :=
  | Spawn (i : nat)
  | Answer (i : nat) (r : result) (q : Request)
  | GiveBack (i : nat)
  | WgDone (i : nat).

(** [wg.Add(n)], nothing spawned yet. *)
Definition startRun (b : Batch) : batchRun :=
  let n := length (b_entries b) in
  mkRun (b_entries b) (replicate n NotStarted) (replicate n None) (Z.of_nat n) (b_pool b).

Definition setPcAt (i : nat) (pc : gopc) (s : batchRun) : batchRun :=
  mkRun (bt_entries s) (<[i := pc]> (bt_pc s)) (bt_results s) (bt_wg s) (bt_pool s).

(** One step; [None] when it is not enabled.  The loop spawns in order, the calls
    return in any order; the deferred calls of a goroutine are [releaseRequest] for
    an owned request, then [wg.Done]. *)
Definition bstep (a : bact) (s : batchRun) : option batchRun :=
  match a with
  | Spawn i =>
      match bt_pc s !! i with
      | Some NotStarted =>
          if bool_decide (Forall (λ pc, pc ≠ NotStarted) (take i (bt_pc s)))
          then Some (setPcAt i Calling s) else None
      | _ => None
      end
  | Answer i r q =>
      match bt_pc s !! i, bt_entries s !! i with
      | Some Calling, Some e =>
          Some (setPcAt i Stored
            (mkRun (bt_entries s) (bt_pc s) (<[i := Some r]> (bt_results s)) (bt_wg s)
               (onObject (λ _, q) (be_req e) (bt_pool s))))
      | _, _ => None
      end
  | GiveBack i =>
      match bt_pc s !! i, bt_entries s !! i with
      | Some Stored, Some (mkEntry o true) =>
          Some (setPcAt i Cleaned
            (mkRun (bt_entries s) (bt_pc s) (bt_results s) (bt_wg s) (release c o (bt_pool s))))
      | _, _ => None
      end
  | WgDone i =>
      let over := Some (setPcAt i Over (mkRun (bt_entries s) (bt_pc s) (bt_results s) (bt_wg s - 1) (bt_pool s))) in
      match bt_pc s !! i, bt_entries s !! i with
      | Some Cleaned, _ => over
      | Some Stored, Some (mkEntry _ false) => over
      | _, _ => None
      end
  end.

Fixpoint brun (l : list bact) (s : batchRun) : option batchRun :=
  match l with [] => Some s | a :: t => s' ← bstep a s; brun t s' end.

(** [wg.Wait(); return results], once every goroutine was spawned: [BatchResult] is
    the index with the response and the error, the zero value where nothing was
    stored. *)
Definition batchReturn (s : batchRun) : option (list (nat * result)) :=
  if bool_decide (NotStarted ∉ bt_pc s) && (bt_wg s =? 0)
  then Some (imap (λ i r, match r with Some x => (i, x) | None => (0%nat, (None, None)) end) (bt_results s))
  else None.

End build.

(** ** The objects *)

(** The request objects a batch acquired. *)
Definition ownedObjs (es : list batchEntry) : list nat :=
  omap (λ e, if be_owned e then Some (be_req e) else None) es.

(** The acquired objects and the free ones are all different. *)
Definition wfBatch (b : Batch) : Prop :=
  NoDup (ownedObjs (b_entries b) ++ rp_free (b_pool b)) ∧
  Forall (λ i, i < rp_made (b_pool b))%nat (ownedObjs (b_entries b) ++ rp_free (b_pool b)).

Lemma builds_wf c b b' : builds c b b' → wfBatch b → wfBatch b'.
Proof.
  intros Hb [Hn Hf]. unfold wfBatch. destruct Hb as [req b | fill b]; simpl.
  - unfold ownedObjs in *. rewrite omap_app. simpl. by rewrite app_nil_r.
  - unfold addOwned, acquire, ownedObjs in *. destruct (rp_free (b_pool b)) as [|i t]; simpl; rewrite omap_app; simpl.
    + rewrite app_nil_r in *. split.
      * apply NoDup_app. split; [done |]. split; [| apply NoDup_singleton].
        intros x Hx ->%list_elem_of_singleton. rewrite Forall_forall in Hf. specialize (Hf _ Hx). lia.
      * apply Forall_app. split; [eapply Forall_impl; [exact Hf |]; simpl; lia | by repeat constructor].
    + by rewrite <- app_assoc.
Qed.

(** What the goroutines have put back. *)
Definition given (pc : gopc) : bool := match pc with Cleaned | Over => true | _ => false end.
Definition back (es : list batchEntry) (pcs : list gopc) : list nat :=
  ownedObjs (concat (zip_with (λ e pc, if given pc then [e] else []) es pcs)).

Lemma ownedObjs_cons e es : ownedObjs (e :: es) = (if be_owned e then [be_req e] else []) ++ ownedObjs es.
Proof. unfold ownedObjs. simpl. by destruct (be_owned e). Qed.

Lemma back_cons e es p pcs :
  back (e :: es) (p :: pcs) = (if given p && be_owned e then [be_req e] else []) ++ back es pcs.
Proof. unfold back. cbn [zip_with concat]. destruct (given p); [apply ownedObjs_cons | done]. Qed.

(** A goroutine's move changes what is back only by its own object. *)
Lemma back_insert es pcs i e pc pc' :
  es !! i = Some e → pcs !! i = Some pc →
  given pc = given pc' ∨ be_owned e = false → back es (<[i := pc']> pcs) = back es pcs.
Proof.
  intros He Hi Hg. revert pcs i He Hi.
  induction es as [|e0 es IH]; intros [|p pcs] [|i] He Hi; simplify_eq/=; rewrite !back_cons.
  - destruct Hg as [-> | ->]; by rewrite ?andb_false_r.
  - by rewrite (IH pcs i).
Qed.

Lemma back_given es pcs i o pc pc' :
  es !! i = Some (mkEntry o true) → pcs !! i = Some pc → given pc = false → given pc' = true →
  back es (<[i := pc']> pcs) ≡ₚ o :: back es pcs.
Proof.
  intros He Hi Hg Hg'. revert pcs i He Hi.
  induction es as [|e0 es IH]; intros [|p pcs] [|i] He Hi; simplify_eq/=; rewrite !back_cons.
  - by rewrite Hg, Hg'.
  - rewrite (IH pcs i) by done. by rewrite Permutation_middle.
Qed.

Lemma back_sub es pcs : back es pcs ⊆+ ownedObjs es.
Proof.
  revert pcs. induction es as [|e es IH]; intros [|p pcs]; [done .. | apply submseteq_nil_l |].
  rewrite back_cons, ownedObjs_cons. apply submseteq_app; [| done]. destruct (given p), (be_owned e); done || apply submseteq_nil_l.
Qed.

Lemma back_all es pcs : length pcs = length es → Forall (λ pc, pc = Over) pcs → back es pcs = ownedObjs es.
Proof.
  intros Hl Hp. revert es Hl. induction Hp as [|p pcs -> _ IH]; intros [|e es] Hl; try done.
  rewrite back_cons, ownedObjs_cons, IH by (simpl in Hl; lia). done.
Qed.

(** ** The invariant of a run *)

(** The answers of entry [i] in a run. *)
Definition answersOf (i : nat) (l : list bact) : list result :=
  omap (λ a, match a with Answer j r _ => if (j =? i)%nat then Some r else None | _ => None end) l.

Definition answered (pc : gopc) : bool := match pc with NotStarted | Calling => false | _ => true end.
Definition unfinished (pcs : list gopc) : nat := length (filter (λ pc, pc ≠ Over) pcs).

Section invariant.

Context (c : Config) (b : Batch).

Record batchInv (l : list bact) (s : batchRun) : Prop := {
  bi_entries : bt_entries s = b_entries b;
  bi_pcs : length (bt_pc s) = length (b_entries b);
  bi_results : length (bt_results s) = length (b_entries b);
  bi_wg : bt_wg s = Z.of_nat (unfinished (bt_pc s));
  bi_answers : ∀ i pc, bt_pc s !! i = Some pc →
    if answered pc then ∃ r, bt_results s !! i = Some (Some r) ∧ answersOf i l = [r]
    else answersOf i l = [];
  bi_pool : rp_free (bt_pool s) ≡ₚ back (b_entries b) (bt_pc s) ++ rp_free (b_pool b)
}.

Lemma startRun_inv : batchInv [] (startRun b).
Proof.
  split; simpl; rewrite ?length_replicate; try done.
  - f_equal. unfold unfinished. induction (length (b_entries b)) as [|n IH]; [done |]. simpl. by rewrite <- IH.
  - intros i pc [-> _]%lookup_replicate. done.
  - replace (back _ _) with (@nil nat); [done |]. induction (b_entries b) as [|e es IH]; [done |].
    rewrite length_cons. cbn [replicate]. by rewrite back_cons.
Qed.

Lemma answersOf_snoc i l a : answersOf i (l ++ [a]) = answersOf i l ++ answersOf i [a].
Proof. apply omap_app. Qed.

(** The number of unfinished goroutines. *)
Lemma unfinished_insert pcs i pc pc' :
  pcs !! i = Some pc → pc ≠ Over →
  unfinished (<[i := pc']> pcs) = if decide (pc' = Over) then (unfinished pcs - 1)%nat else unfinished pcs.
Proof.
  intros Hi Hpc. unfold unfinished. revert i Hi. induction pcs as [|p pcs IH]; intros [|i] Hi; simplify_eq/=.
  - rewrite !filter_cons. rewrite (decide_True (P := pc ≠ Over)) by done. case_decide; simplify_eq; case_decide; simpl; try done; lia.
  - rewrite !filter_cons. specialize (IH i Hi).
    assert (0 < length (filter (λ pc, pc ≠ Over) pcs))%nat.
    { apply list_elem_of_lookup_2 in Hi. assert (pc ∈ filter (λ pc, pc ≠ Over) pcs) as Hin by (by apply list_elem_of_filter).
      destruct (filter _ pcs); [set_solver | simpl; lia]. }
    repeat case_decide; simpl; rewrite IH; lia.
Qed.

(** Moving goroutine [i] from [pc] to [pc'] without an answer or a release. *)
Lemma moved_inv l s i e pc pc' a rs wg p :
  batchInv l s → bt_entries s !! i = Some e → bt_pc s !! i = Some pc → pc ≠ Over →
  (∀ j, answersOf j [a] = []) ∧ answered pc = answered pc' ∧ rs = bt_results s ∨
    (∃ r, (∀ j, answersOf j [a] = if (i =? j)%nat then [r] else []) ∧ answered pc = false ∧ answered pc' = true ∧
          rs = <[i := Some r]> (bt_results s)) →
  wg = bt_wg s - (if decide (pc' = Over) then 1 else 0) →
  rp_free p ≡ₚ back (b_entries b) (<[i := pc']> (bt_pc s)) ++ rp_free (b_pool b) →
  batchInv (l ++ [a]) (setPcAt i pc' (mkRun (bt_entries s) (bt_pc s) rs wg p)).
Proof.
  intros [H1 H2 H3 H4 H5 H6] He Hpc Hno Ha Hwg Hp. split; simpl; try done.
  - by rewrite length_insert.
  - destruct Ha as [(_ & _ & ->) | (r & _ & _ & _ & ->)]; by rewrite ?length_insert.
  - rewrite Hwg, H4, (unfinished_insert _ _ pc) by done. case_decide; [| lia].
    assert (0 < unfinished (bt_pc s))%nat; [| lia].
    unfold unfinished. apply list_elem_of_lookup_2 in Hpc.
    assert (pc ∈ filter (λ pc, pc ≠ Over) (bt_pc s)) as Hin by (by apply list_elem_of_filter).
    destruct (filter _ (bt_pc s)); [set_solver | simpl; lia].
  - intros j pcj Hj. rewrite answersOf_snoc. destruct (decide (i = j)) as [<- | Hij].
    + rewrite list_lookup_insert_eq in Hj by (by eapply lookup_lt_Some). simplify_eq.
      specialize (H5 i pc Hpc). destruct Ha as [(Ha & <- & ->) | (r & Ha & Hf & -> & ->)].
      * by rewrite Ha, app_nil_r.
      * rewrite Hf in H5. rewrite H5, Ha, Nat.eqb_refl. exists r. split; [| done].
        apply list_lookup_insert_eq. rewrite H3, <- H2. by eapply lookup_lt_Some.
    + rewrite list_lookup_insert_ne in Hj by done. specialize (H5 j pcj Hj).
      destruct Ha as [(Ha & _ & ->) | (r & Ha & _ & _ & ->)]; rewrite Ha.
      * by rewrite app_nil_r.
      * rewrite (proj2 (Nat.eqb_neq i j)), app_nil_r by done. by rewrite list_lookup_insert_ne by done.
Qed.

Lemma bstep_inv l s a s' : batchInv l s → bstep c a s = Some s' → batchInv (l ++ [a]) s'.
Proof.
  intros Hi E. pose proof Hi as [H1 H2 H3 H4 H5 H6].
  assert (∀ i pc, bt_pc s !! i = Some pc → ∃ e, bt_entries s !! i = Some e) as Hent.
  { intros i pc Hpc. apply lookup_lt_is_Some. rewrite H1, <- H2. by eapply lookup_lt_Some. }
  destruct a as [i | i r q | i | i]; cbn [bstep] in E; destruct (bt_pc s !! i) as [pc |] eqn:Hpc; try done;
    destruct (Hent i pc Hpc) as [e He]; rewrite ?He in E.
  - destruct pc; try done. case_bool_decide; simplify_eq.
    apply (moved_inv l s i e NotStarted Calling _ (bt_results s) (bt_wg s) (bt_pool s)); try done; [by left | simpl; lia |].
    rewrite (back_insert _ _ _ e NotStarted) by (congruence || by left). done.
  - destruct pc; try done. simplify_eq.
    apply (moved_inv l s i e Calling Stored); try done; [| simpl; lia |].
    + right. exists r. split; [| done]. intros j. unfold answersOf. simpl. by destruct (i =? j)%nat.
    + simpl. rewrite (back_insert _ _ _ e Calling) by (congruence || by left). done.
  - destruct pc; try done. destruct e as [o []]; simplify_eq.
    apply (moved_inv l s i (mkEntry o true) Stored Cleaned); try done; [by left | simpl; lia |].
    simpl. rewrite (back_given _ _ _ o Stored) by (done || congruence). simpl. by rewrite H6.
  - destruct pc; try done; [destruct e as [o []]; try done |]; simplify_eq.
    + apply (moved_inv l s i (mkEntry o false) Stored Over); try done; [by left |].
      rewrite (back_insert _ _ _ (mkEntry o false) Stored) by (congruence || by right). done.
    + apply (moved_inv l s i e Cleaned Over); try done; [by left |].
      rewrite (back_insert _ _ _ e Cleaned) by (congruence || by left). done.
Qed.

Lemma brun_inv l0 l s s' : batchInv l0 s → brun c l s = Some s' → batchInv (l0 ++ l) s'.
Proof.
  revert l0 s. induction l as [|a l IH]; intros l0 s Hs E; cbn [brun] in E.
  - rewrite app_nil_r. by simplify_eq.
  - destruct (bstep c a s) as [s1 |] eqn:E1; [| done]. simpl in E.
    rewrite cons_middle, app_assoc. eapply IH; [by eapply bstep_inv | done].
Qed.

End invariant.

(** ** Every batch ends *)

(** The steps a goroutine has left. *)
Definition stepsLeft (pc : gopc) : nat :=
  match pc with NotStarted => 4 | Calling => 3 | Stored => 2 | Cleaned => 1 | Over => 0 end.
Definition work (pcs : list gopc) : nat := sum_list (stepsLeft <$> pcs).

Lemma work_insert pcs i pc pc' :
  pcs !! i = Some pc → (stepsLeft pc' < stepsLeft pc)%nat → (work (<[i := pc']> pcs) < work pcs)%nat.
Proof.
  intros Hi Hlt. unfold work. revert i Hi. induction pcs as [|p pcs IH]; intros [|i] Hi; simplify_eq/=; [lia |].
  specialize (IH i Hi). lia.
Qed.

Lemma bstep_work c a s s' : bstep c a s = Some s' → (work (bt_pc s') < work (bt_pc s))%nat.
Proof.
  destruct a as [i | i r q | i | i]; cbn [bstep]; destruct (bt_pc s !! i) as [[] |] eqn:E; try done;
    try (destruct (bt_entries s !! i) as [[o []] |]); intros ?; simplify_eq; try case_bool_decide; simplify_eq; simpl;
    (eapply work_insert; [done |]; simpl; lia).
Qed.

Lemma brun_work c l s s' : brun c l s = Some s' → (length l + work (bt_pc s') ≤ work (bt_pc s))%nat.
Proof.
  revert s. induction l as [|a l IH]; intros s E; cbn [brun] in E; [simplify_eq; simpl; lia |].
  destruct (bstep c a s) as [s1 |] eqn:E1; [| done]. apply IH in E. apply bstep_work in E1. simpl. lia.
Qed.

(** A goroutine that is not over can move; the one to spawn is the first. *)
Lemma bstep_enabled c b l s i pc :
  batchInv b l s → bt_pc s !! i = Some pc → pc ≠ Over → ∃ a s', bstep c a s = Some s'.
Proof.
  intros Hi Hpc Hno. assert (∃ e, bt_entries s !! i = Some e) as [e He].
  { apply lookup_lt_is_Some. rewrite (bi_entries _ _ _ Hi), <- (bi_pcs _ _ _ Hi). by eapply lookup_lt_Some. }
  destruct pc; try done.
  - destruct (list_find (λ pc, pc = NotStarted) (bt_pc s)) as [[j pc] |] eqn:Ef.
    + apply list_find_Some in Ef as (Hj & -> & Hbefore). exists (Spawn j). cbn [bstep]. rewrite Hj.
      rewrite bool_decide_eq_true_2; [by eexists |]. apply Forall_lookup. intros k x Hk.
      apply lookup_take_Some in Hk as [Hk Hlt]. by eapply Hbefore.
    + apply list_find_None in Ef. rewrite Forall_lookup in Ef. by destruct (Ef i NotStarted Hpc).
  - exists (Answer i (None, None) (newRequest Cfg.DefaultConfig)). cbn [bstep]. rewrite Hpc, He. by eexists.
  - destruct e as [o []].
    + exists (GiveBack i). cbn [bstep]. rewrite Hpc, He. by eexists.
    + exists (WgDone i). cbn [bstep]. rewrite Hpc, He. by eexists.
  - exists (WgDone i). cbn [bstep]. rewrite Hpc. by eexists.
Qed.

Lemma unfinished_zero pcs : unfinished pcs = 0%nat ↔ Forall (λ pc, pc = Over) pcs.
Proof.
  unfold unfinished. induction pcs as [|p pcs IH]; [done |]. rewrite filter_cons, Forall_cons.
  case_decide as Hp; simpl; [| rewrite IH; split; [| by intros [_ ?]]].
  - split; [done | by intros [-> _]].
  - intros Hz. split; [| done]. by destruct (decide (p = Over)).
Qed.

Lemma batchReturn_cases b l s :
  batchInv b l s →
  match batchReturn s with
  | Some rs => Forall (λ pc, pc = Over) (bt_pc s) ∧
      rs = imap (λ i r, match r with Some x => (i, x) | None => (0%nat, (None, None)) end) (bt_results s)
  | None => ∃ i pc, bt_pc s !! i = Some pc ∧ pc ≠ Over
  end.
Proof.
  intros Hi. unfold batchReturn. rewrite (bi_wg _ _ _ Hi).
  destruct (Z.eqb_spec (Z.of_nat (unfinished (bt_pc s))) 0) as [Hz | Hz].
  - assert (Forall (λ pc, pc = Over) (bt_pc s)) as Ho by (apply unfinished_zero; lia).
    rewrite bool_decide_eq_true_2; [done |]. rewrite Forall_forall in Ho. intros Hin. by specialize (Ho _ Hin).
  - rewrite andb_false_r. assert (¬ Forall (λ pc, pc = Over) (bt_pc s)) as Hn by (rewrite <- unfinished_zero; lia).
    apply not_Forall_Exists in Hn; [| apply _]. apply Exists_exists in Hn as (pc & Hin & Hpc).
    apply list_elem_of_lookup in Hin as [i Hin]. by exists i, pc.
Qed.

Lemma builds_rtc_wf c b b' : rtc (builds c) b b' → wfBatch b → wfBatch b'.
Proof. induction 1; [done |]. intros. eauto using builds_wf. Qed.

Lemma NoDup_sub {A} (l k : list A) : l ⊆+ k → NoDup k → NoDup l.
Proof. intros (k' & ->)%submseteq_Permutation Hk. by apply NoDup_app in Hk as [? _]. Qed.

(** The object of a call under way is not back. *)
Lemma owned_not_free es pcs free i e pc :
  NoDup (ownedObjs es ++ free) → es !! i = Some e → be_owned e = true → pcs !! i = Some pc → given pc = false →
  be_req e ∉ back es pcs ++ free.
Proof.
  intros Hnd He Ho Hpc Hg Hin.
  assert (be_req e :: back es pcs ⊆+ ownedObjs es) as Hs.
  { rewrite <- (back_given es pcs i (be_req e) pc Over); [apply back_sub | | done ..]. rewrite He. by destruct e; simplify_eq/=. }
  apply (submseteq_skips_r free) in Hs. apply NoDup_sub in Hs; [| done].
  simpl in Hs. by apply NoDup_cons in Hs as [? _].
Qed.

(** C16: a batch answers each entry with its own call.  However the batch was built
    and however the goroutines interleave, a run has at most four steps per entry
    and is never stuck before it returns; when [BatchWithContext] returns, the
    result at index [i] has index [i] and the answer of the one call made for entry
    [i].  A request the batch acquired is never in the pool while its call is under
    way, no object is in the pool twice, and in the end exactly the acquired
    requests have been added to the pool, not the caller's. *)
Theorem batch_results_by_index c b0 b l s :
  wfBatch b0 → rtc (builds c) b0 b → brun c l (startRun b) = Some s →
  (length l ≤ 4 * length (b_entries b))%nat ∧ NoDup (rp_free (bt_pool s)) ∧
  (∀ i e pc, b_entries b !! i = Some e → be_owned e = true → bt_pc s !! i = Some pc → given pc = false →
     be_req e ∉ rp_free (bt_pool s)) ∧
  match batchReturn s with
  | Some rs => length rs = length (b_entries b) ∧
      (∀ i, (i < length (b_entries b))%nat → ∃ r, rs !! i = Some (i, r) ∧ answersOf i l = [r]) ∧
      rp_free (bt_pool s) ≡ₚ ownedObjs (b_entries b) ++ rp_free (b_pool b)
  | None => ∃ a s', bstep c a s = Some s'
  end.
Proof.
  intros Hb0 Hb E. apply builds_rtc_wf in Hb; [| done]. destruct Hb as [Hnd _].
  pose proof (brun_inv c b [] l _ s (startRun_inv b) E) as Hi. simpl in Hi. pose proof Hi as [H1 H2 H3 H4 H5 H6].
  split; [| split; [| split]].
  - apply brun_work in E. simpl in E. unfold work at 2 in E. rewrite fmap_replicate, sum_list_replicate in E.
    simpl stepsLeft in E. lia.
  - rewrite H6. eapply NoDup_sub; [| exact Hnd]. apply submseteq_app; [apply back_sub | done].
  - intros i e pc He Ho Hpc Hg. rewrite H6. by eapply owned_not_free.
  - pose proof (batchReturn_cases b l s Hi) as Hr. destruct (batchReturn s) as [rs |].
    + destruct Hr as [Ho ->]. rewrite length_imap. split; [done |]. split.
      * intros i Hlt. destruct (lookup_lt_is_Some_2 (bt_pc s) i ltac:(lia)) as [pc Hpc].
        specialize (H5 i pc Hpc). rewrite Forall_lookup in Ho. rewrite (Ho _ _ Hpc) in H5. simpl in H5.
        destruct H5 as (r & Hr & Ha). exists r. split; [| done]. rewrite list_lookup_imap, Hr. done.
      * by rewrite H6, back_all.
    + destruct Hr as (i & pc & Hpc & Hno). by eapply bstep_enabled.
Qed.

(** A batch of a POST and of a request of the caller's; the calls return in reverse
    order. *)
Definition exBatch : Batch :=
  batchDo 7 (batchPost Cfg.DefaultConfig (str "/a") (str "x") [] (mkBatch [] (mkReqPool ∅ [] 10))).
Definition exBatchRun : list bact :=
  let q := newRequest Cfg.DefaultConfig in
  [Spawn 0; Spawn 1; Answer 1 (None, Some EEOF) q; WgDone 1; Answer 0 (None, Some EUnexpectedEOF) q; GiveBack 0; WgDone 0].

Lemma batch_results_by_index_witness :
  ∃ s, brun Cfg.DefaultConfig exBatchRun (startRun exBatch) = Some s ∧
    batchReturn s = Some [(0%nat, (None, Some EUnexpectedEOF)); (1%nat, (None, Some EEOF))] ∧
    rp_free (bt_pool s) ≡ₚ [10%nat].
Proof.
  destruct (brun Cfg.DefaultConfig exBatchRun (startRun exBatch)) as [s |] eqn:E; [| discriminate E].
  exists s. split; [done |].
  assert (batchReturn s = Some [(0%nat, (None, Some EUnexpectedEOF)); (1%nat, (None, Some EEOF))]) as Hr.
  { injection E as <-. reflexivity. }
  split; [exact Hr |].
  destruct (batch_results_by_index Cfg.DefaultConfig (mkBatch [] (mkReqPool ∅ [] 10)) exBatch exBatchRun s)
    as (_ & _ & _ & H).
  - split; simpl; constructor.
  - eapply rtc_l; [apply build_owned |]. eapply rtc_l; [apply build_do |]. apply rtc_refl.
  - exact E.
  - rewrite Hr in H. destruct H as (_ & _ & H). exact H.
Defined.
